(* ===== verification/_CoqProject ===== *)
-Q . S2P
Prelude.v
Bytes.v
Text.v
Utf8.v
Os.v
Machine.v
Regex.v
ChipID.v
ChipIDPCIe.v
ChipIDGet.v
AspSim.v
Blob.v
Wrap.v
TpmErrors.v
Asn1.v
Cert.v
Iommu.v
Tpm2.v
Trace.v
PolicyDigest.v
TpmProps.v
TpmNV.v
NVStore.v
TpmPCR.v
Signature.v
Templates.v
TpmKeys.v
Attest.v
TpmOpen.v
Signer.v
Creatable.v
OffHost.v
PolicyKeys.v
SignSpec.v
AttestSpec.v
Codec.v
Sim.v
Redfish.v
RedfishSpec.v
Logging.v
Witnesses.v
