(* ===== verification/Prelude.v ===== *)
(** * iks: keys, identities and measurements of a host, verified

    The library under src/pkg seals data and keys to a host's TPM, identifies the
    host's processor, asks its BMC for measurements, and reports which network
    cards bypass DMA translation. This development models its six packages as
    functions and proves what they promise.

    ** The program and the files

    - pkg/blob: blob.go, the serialized form of a sealed blob: Blob.v.
    - pkg/tpm, the TPM. tpm.go is split by what its functions do: properties and
      maintenance in TpmProps.v, NV storage in TpmNV.v, PCR banks, reads and
      policies in TpmPCR.v, keys and sealed objects in TpmKeys.v. constants.go is
      Templates.v; attest.go Attest.v; open_other.go and open_windows.go TpmOpen.v;
      sign.go Signer.v; signature.go Signature.v; cert.go Cert.v; wrap.go and key.go
      Wrap.v; offhost_wrap.go OffHost.v; policy_digest.go PolicyDigest.v; errors.go
      and tpm2_errors.go TpmErrors.v. On top of them, what the parts achieve
      together and what a TPM must promise for it: Creatable.v (the templates that
      constants.go, tpm.go and sign.go send), PolicyKeys.v (sign.go, tpm.go and
      policy_digest.go), SignSpec.v ([crypto.Signer]), AttestSpec.v (quotes and
      credentials), NVStore.v (the NV storage as a map of indexes).
    - pkg/iommu: iommu.go, the enumeration over sysfs: Iommu.v.
    - pkg/redfish: redfish.go and types.go, the BMC client and its caches:
      Redfish.v, and its theorems in RedfishSpec.v.
    - pkg/chipid: chipid.go and chipid_sev_dev.go in ChipID.v, chipid_sev_pcie.go
      and its stub in ChipIDPCIe.v, the two linked in ChipIDGet.v; AspSim.v is a host
      for it.
    - pkg/logging: syslog.go, handler_noop.go, syslog_other.go: Logging.v.

    Below them: Prelude.v (outcomes, errors, the state monad, the tactics and the
    hint database [iks]), Bytes.v (bytes, words, slices), Text.v and Utf8.v (string
    functions), Regex.v (regular expressions), Asn1.v (DER), Os.v (files),
    Machine.v (memory, system calls, device registers), Tpm2.v (the TPM's commands
    and go-tpm's types), Trace.v (what a run acquires and gives up). Sim.v is a
    small TPM, with Codec.v for its byte forms, and Witnesses.v applies the theorems
    about devices to it.

    ** How the code is represented

    A Go function that can fail returns an [outcome]: a value, an [error], or a
    [panic] (a run-time bound or nil check that fails). Errors are trees that keep
    the wrapping of fmt.Errorf's %w and errors.Join, so errors.Is and errors.As are
    functions of them; the text of an error is its format and arguments. Code with
    state is a function in the monad [SM] over that state: the device and its trace
    for pkg/tpm, the client for pkg/redfish, memory, world and resources for
    pkg/chipid; [defer] and [deferring_err] are Go's, the clean-up after a panic
    included. Integers have the width of the code and wrap. Maps that Go iterates
    over take their order as an argument. The interfaces of the program are classes:
    [Sealer] (Wrap.v, implemented by TpmKeys.v), [Device] (a TPM), [Transport] and
    [Codecs] (a BMC), [Kernel] (a host), [SyslogWriter]. What go-tpm, go-attestation,
    go-eventlog, x509, JSON and PEM answer is a parameter, with what the code relies
    on as laws ([TPMRCLayout], [TPMAlgsLaws], [SealerLaws], [TPMTemplatesLaws]) or as named
    contracts that Sim.v and the [Demo] modules satisfy. A TPM's contracts speak of
    its commands one at a time ([PCRDevice], [NVIndexDevice], [NVDevice],
    [SealDevice], [PolicyDevice], [SigningDevice], [QuoteDevice],
    [CredentialDevice]); the policy callbacks that go-tpm runs inside a command are
    the code's own, run on the session ([sessionDigest], [secretDigest]).

    ** What is proved

    - Sealing and policies: data wrapped by the TPM unwraps to itself
      ([TPM_Wrap_Unwrap]); [Wrap] is its reference ([Wrap_refines]); a key generated
      under a policy verifies off the TPM ([generated_key_verifies]); verification
      accepts exactly the policy of the attested PCRs ([VerifyPolicyDigest_iff]),
      so two states that verify one key agree on the PCRs or exhibit a collision
      ([VerifyPolicyDigest_binding]); an off-host blob imports to the data
      ([OffHost_roundtrip]).
    - Keys and attestation: every template sent is well formed and of its
      operation's role ([templates_well_formed]); a signer over a generated key
      answers with its public key and with signatures that verify under it
      ([generated_key_signs]); a quote and the PCR values read from the same TPM
      agree ([Quote_agrees_ReadPCRs]); a credential made for an object is activated
      ([Make_ActivateCredential]).
    - NV storage: any sequence of calls behaves as an abstract store of indexes
      ([NV_refines], as long as the handles fit one response; an index beyond it is
      not seen, [NVStorageStatus_beyond]), by which a write reads back ([write_read]) and an initialized,
      written index is valid ([init_write_status]).
    - Encodings: [Pack_Unpack_roundtrip], [Unpack_iff], [GetTPMSignature_GetSignature],
      [strip_iff], [extract_roundtrip], [ParseEKCertificate_fallback]; what a
      truncated blob does ([Unpack_truncated_panics]).
    - Loops over the device: [ReadPCRs_complete] and [ReadFromNVStorage_correct]
      (enough fuel gives the whole answer), and the answers of a device that make
      them run for ever ([ReadPCRs_diverges], [ReadFromNVStorage_diverges]).
    - Resources. A TPM may refuse to give up an object or a session: how often that
      was tried before one is left is [transient_released] and [sign_settled]. The
      device is closed on every path that returns no TPM ([OpenTPM_held]), and what
      the process itself holds is balanced on every path: [Get_safe],
      [readSEVChipIDDirect_safe], [readSEVChipID_correct]. [Load_after_Unload] is a
      stale handle.
    - Errors: [ToErrorType_spec], and [CategorizedError_stable] in TpmErrors.v.
    - NICs: what is reported is exposed ([FindPassthroughNICs_sound]), nothing is
      dropped ([FindPassthroughNICs_complete]), the enumeration always answers
      ([FindPassthroughNICs_total]), forcing an interface only adds
      ([WithForcedInterface_widens]), addresses are the interface's own
      ([readMAC_safe]).
    - The BMC: the caches are invisible ([caches_invisible]), a component found is
      the right one ([ComponentIntegrityFor_sound]), a miss is an honest one
      ([ComponentIntegrityFor_miss], with [certainlyNone] for what the service must
      have answered of a target that is no adapter), only the BMC's own TPM is quoted
      ([quoteTarget_own_TPM]).
    - The processor: the order of the sources ([Extract_last_resort]), the ioctl
      ([readSEVChipID_correct]), and the mailbox with DMA through physical
      addresses ([ASP_GET_ID], for any page table, allocator, delay and page-aligned
      BAR); a BAR that
      is too small ([small_BAR_panics]).
    - Logging: attributes under their groups ([derived_line]), one line per record
      ([Handle_one_line]), and a way to forge an attribute ([newline_forges_attr]).

    ** Fuel and bounds

    Recursion that is not structural takes fuel; running out is the outcome
    [Panic OutOfFuel], which is not Go's. [readPCRsLoop] needs a round per PCR
    asked for, [readLoop] (NV) one per byte at most: the theorems give the fuel that
    suffices and prove the divergence where none does. [pollLoop] gets two turns more
    than the sleeps that fit in the timeout ([pollFuel], 50002), which the clock
    exhausts first. [fieldsLoop], [runesLoop] and [quoteLoop] consume at least a byte
    of their input in a turn and get its length; [pemLoop] gets a turn more, as a
    PEM block is not empty. Machine.v's allocator
    [firstFit] serves a process below 2 GiB, the bound of [room].

    ** Not modelled

    - syslog_mock.go is generated for tests. GetTransport (tpm.go) hands out the
      device. The text that GetModel joins from property errors is not rendered.
    - The mutexes of [Client] and of the syslog handler protect whole calls; the
      model runs one call at a time. The one race of the program, OpenTPM's timer,
      is the argument [schedule].
    - runtime.KeepAlive and the garbage collector: a buffer in [memory] stays at its
      address. unicode.IsPrint beyond ASCII is a parameter of [Quote];
      [EqualFold] is strings.EqualFold where one side is ASCII. *)
From Stdlib Require Export ZArith Lia.
From Stdlib.Strings Require Byte.
From stdpp Require Export base list list_numbers strings gmap numbers option.

(** ** Notation scope of the development *)
Declare Scope go_scope.
Delimit Scope go_scope with go.

(** ** Go errors *)

(** Arguments of a formatted error; the rendering itself is not modelled, the
    format string and its arguments are. *)
Inductive fmt_arg :=
  | AInt (z : Z)
  | AStr (s : list Byte.byte).

(** A Go error value: the tree that [errors.Is] and [errors.As] walk.
    - [ESentinel n]: a package-level [var ErrX = errors.New(..)], compared by identity;
    - [EFmt f a es]: [errors.New] in a function body or [fmt.Errorf] with format
      [f], plain arguments [a] and [%w] arguments [es];
    - [EJoin es]: [errors.Join];
    - [ERC rc]: a [tpm2.TPMRC] response code; [EErrno n]: a [syscall.Errno];
    - [ETpm ty e]: the [*Error] of pkg/tpm/errors.go;
    - [EExt n]: an error a third-party package produced, of unknown structure. *)
Inductive error :=
  | ESentinel (name : string)
  | EFmt (format : string) (args : list fmt_arg) (wrapped : list error)
  | EJoin (es : list error)
  | ERC (rc : Z)
  | EErrno (n : Z)
  | ETpm (ty : string) (inner : error)
  | EExt (name : string).

(** [errors.New(m)] / [fmt.Errorf(m, args...)] without [%w]. *)
Abbreviation err_msg m := (EFmt m [] []).
Abbreviation err_fmt m a := (EFmt m a []).
(** [fmt.Errorf(m + ": %w", e)]. *)
Definition err_wrap (m : string) (e : error) : error := EFmt m [] [e].

(** [errno] values of the standard library the code tests for. *)
Definition ENOENT : Z := 2.
Definition os_ErrNotExist : string := "os.ErrNotExist".

(** [errors.Is(e, target)] for a sentinel target. [syscall.Errno] answers for
    [os.ErrNotExist] exactly when it is [ENOENT]. *)
Fixpoint errors_Is (target : string) (e : error) : bool :=
  match e with
  | ESentinel n => bool_decide (n = target)
  | EFmt _ _ es | EJoin es => existsb (errors_Is target) es
  | ETpm _ e => errors_Is target e
  | EErrno n => bool_decide (target = os_ErrNotExist) && (n =? ENOENT)%Z
  | ERC _ | EExt _ => false
  end.

(** ** Outcomes of a Go call: a value, an error result, or a run-time panic

    [OutOfFuel] is not a panic of Go's: it marks that the fuel given to the model
    of a loop ran out. The theorems about such loops either show that it does not
    occur (termination) or that it occurs for every fuel (the loop never ends). *)
Inductive panic := IndexOutOfRange | SliceOutOfRange | NilDereference | OutOfFuel.

Inductive outcome (A : Type) :=
  | Ok (a : A)
  | Err (e : error)
  | Panic (p : panic).
Arguments Ok {A} a.
Arguments Err {A} e.
Arguments Panic {A} p.

#[export] Instance outcome_ret : MRet outcome := @Ok.
#[export] Instance outcome_bind : MBind outcome := λ A B f m,
  match m with Ok a => f a | Err e => Err e | Panic p => Panic p end.
#[export] Instance outcome_fmap : FMap outcome := λ A B f m,
  match m with Ok a => Ok (f a) | Err e => Err e | Panic p => Panic p end.

(** [if err != nil { return f(err) }]: replace the error of a failed call. *)
Definition map_err {A} (f : error → error) (m : outcome A) : outcome A :=
  match m with Err e => Err (f e) | _ => m end.

Definition is_Ok {A} (m : outcome A) : bool :=
  match m with Ok _ => true | _ => false end.
Definition is_Panic {A} (m : outcome A) : bool :=
  match m with Panic _ => true | _ => false end.

Lemma bind_Ok {A B} (m : outcome A) (f : A → outcome B) b :
  m ≫= f = Ok b ↔ ∃ a, m = Ok a ∧ f a = Ok b.
Proof. destruct m; simpl; naive_solver. Qed.

Lemma bind_Err {A B} (m : outcome A) (f : A → outcome B) e :
  m ≫= f = Err e ↔ m = Err e ∨ ∃ a, m = Ok a ∧ f a = Err e.
Proof. destruct m; simpl; naive_solver. Qed.

Lemma map_err_Err {A} f (m : outcome A) e :
  map_err f m = Err e ↔ ∃ e', m = Err e' ∧ e = f e'.
Proof. destruct m; simpl; naive_solver. Qed.

Lemma bind_assoc {A B C} (m : outcome A) (f : A → outcome B) (g : B → outcome C) :
  (m ≫= f) ≫= g = m ≫= (λ a, f a ≫= g).
Proof. by destruct m. Qed.

Lemma map_err_Ok {A} f (m : outcome A) a : map_err f m = Ok a ↔ m = Ok a.
Proof. destruct m; simpl; naive_solver. Qed.

(** ** Stateful calls: explicit state passing around an outcome

    The state after a failed call is kept: a Go function that returns an error
    has still performed the effects before it. *)
Definition SM (S A : Type) : Type := S → outcome A * S.

#[export] Instance SM_ret {S} : MRet (SM S) := λ A a s, (Ok a, s).
#[export] Instance SM_bind {S} : MBind (SM S) := λ A B f m s,
  match m s with
  | (Ok a, s) => f a s
  | (Err e, s) => (Err e, s)
  | (Panic p, s) => (Panic p, s)
  end.

(** A pure call inside a stateful one. *)
Definition lift {S A} (m : outcome A) : SM S A := λ s, (m, s).

Lemma SM_bind_Ok {S A B} (m : SM S A) (f : A → SM S B) s b s' :
  (m ≫= f) s = (Ok b, s') ↔ ∃ a s1, m s = (Ok a, s1) ∧ f a s1 = (Ok b, s').
Proof. unfold mbind, SM_bind. destruct (m s) as [[]]; naive_solver. Qed.

Lemma SM_bind_assoc {S A B C} (m : SM S A) (f : A → SM S B) (g : B → SM S C) s :
  ((m ≫= f) ≫= g) s = (m ≫= (λ a, f a ≫= g)) s.
Proof. unfold mbind, SM_bind. by destruct (m s) as [[]]. Qed.

Lemma SM_bind_ret {S A B} (a : A) (f : A → SM S B) s : (mret a ≫= f) s = f a s.
Proof. done. Qed.
Lemma SM_bind_lift {S A B} (a : A) (f : A → SM S B) s : (lift (Ok a) ≫= f) s = f a s.
Proof. done. Qed.
Lemma SM_bind_Err {S A B} e (f : A → SM S B) s : (lift (Err e) ≫= f) s = (Err e, s).
Proof. done. Qed.

(** One step of a computation whose first call is known. *)
Lemma SM_bind_step {S A B} (m : SM S A) (f : A → SM S B) s a s' :
  m s = (Ok a, s') → (m ≫= f) s = f a s'.
Proof. unfold mbind, SM_bind. by intros ->. Qed.
Lemma SM_bind_step_Err {S A B} (m : SM S A) (f : A → SM S B) s e s' :
  m s = (Err e, s') → (m ≫= f) s = (Err e, s').
Proof. unfold mbind, SM_bind. by intros ->. Qed.
Lemma SM_lift_step {S A B} (m : outcome A) (f : A → SM S B) s a :
  m = Ok a → (lift m ≫= f) s = f a s.
Proof. by intros ->. Qed.

Lemma SM_bind_fst_Ok {S A B} (m : SM S A) (f : A → SM S B) s b :
  ((m ≫= f) s).1 = Ok b ↔ ∃ a, (m s).1 = Ok a ∧ (f a (m s).2).1 = Ok b.
Proof. unfold mbind, SM_bind. destruct (m s) as [[]]; naive_solver. Qed.

(** Replace the error of a failed call, the state kept. *)
Definition map_errS {S A} (f : error → error) (m : SM S A) : SM S A :=
  λ s, let '(r, s) := m s in (map_err f r, s).

Lemma map_errS_Ok {S A} f (m : SM S A) s a s' :
  m s = (Ok a, s') → map_errS f m s = (Ok a, s').
Proof. unfold map_errS. by intros ->. Qed.
Lemma map_errS_Err {S A} f (m : SM S A) s e s' :
  m s = (Err e, s') → map_errS f m s = (Err (f e), s').
Proof. unfold map_errS. by intros ->. Qed.
Lemma map_errS_fst_Ok {S A} f (m : SM S A) s a : (map_errS f m s).1 = Ok a ↔ (m s).1 = Ok a.
Proof. unfold map_errS. destruct (m s) as [[]]; simpl; naive_solver. Qed.
Lemma map_errS_snd {S A} f (m : SM S A) s : (map_errS f m s).2 = (m s).2.
Proof. unfold map_errS. by destruct (m s). Qed.
Lemma map_errS_Ok_inv {S A} f (m : SM S A) s a s' :
  map_errS f m s = (Ok a, s') ↔ m s = (Ok a, s').
Proof. unfold map_errS. destruct (m s) as [[]]; simpl; naive_solver. Qed.

Lemma SM_bind_ext {S A B} (m : SM S A) (f g : A → SM S B) s :
  (∀ a s', f a s' = g a s') → (m ≫= f) s = (m ≫= g) s.
Proof. intros Hfg. unfold mbind, SM_bind. destruct (m s) as [[]]; auto. Qed.

(** ** Automation *)
Create HintDb iks discriminated.

(** Invert a hypothesis that a monadic computation returned normally. *)
Ltac inv_outcome :=
  repeat match goal with
  | H : mbind _ _ = Ok _ |- _ => apply bind_Ok in H as (? & ? & ?)
  | H : map_err _ _ = Ok _ |- _ => apply map_err_Ok in H
  | H : Ok _ = Ok _ |- _ => injection H as H; try subst
  | H : Err _ = Ok _ |- _ => discriminate H
  | H : Panic _ = Ok _ |- _ => discriminate H
  end.

(** Case-split every [if]/[match] scrutinee of a hypothesis, with equations. *)
Ltac case_hyp H :=
  repeat (match type of H with
          | context [match ?x with _ => _ end] => destruct x eqn:?; try discriminate H
          end).

(** ** Lists *)
Lemma take_S_drop {A} (l : list A) i x :
  l !! i = Some x → drop i l = x :: drop (S i) l.
Proof. apply drop_S. Qed.

Lemma drop_app_exact {A} (l k : list A) n : n = length l → drop n (l ++ k) = k.
Proof. intros ->. apply drop_app_length. Qed.
Lemma take_app_exact {A} (l k : list A) n : n = length l → take n (l ++ k) = l.
Proof. intros ->. apply take_app_length. Qed.

(** ** Integers *)

(** A decidable property of a bounded integer, checked by computation. *)
Lemma Z_range_check (P : Z → bool) (lo n : Z) :
  forallb P (seqZ lo n) = true → ∀ z, (lo ≤ z < lo + n)%Z → P z = true.
Proof.
  intros Hall z Hz. rewrite forallb_forall in Hall. apply Hall.
  apply list_elem_of_In, elem_of_seqZ. lia.
Qed.

Lemma land_pow2 a n :
  (0 ≤ n)%Z → Z.land a (2 ^ n) = (if Z.testbit a n then 2 ^ n else 0)%Z.
Proof.
  intros Hn. apply Z.bits_inj'. intros i Hi.
  rewrite Z.land_spec, Z.pow2_bits_eqb by done.
  destruct (Z.eqb_spec n i) as [->|Hne].
  - destruct (Z.testbit a i); rewrite ?Z.pow2_bits_true, ?Z.bits_0 by done; done.
  - destruct (Z.testbit a n); rewrite ?Z.pow2_bits_false, ?Z.bits_0 by done; by rewrite andb_false_r.
Qed.

(** ** Association lists *)
Fixpoint assoc {A B} `{EqDecision A} (t : list (A * B)) (a : A) : option B :=
  match t with
  | [] => None
  | (a', b) :: t => if decide (a' = a) then Some b else assoc t a
  end.

Lemma lookup_list_to_map_assoc {A B} `{EqDecision A} (f : A → Z) `{!Inj (=) (=) f}
    (t : list (A * B)) a :
  (list_to_map (prod_map f id <$> t) : gmap Z B) !! f a = assoc t a.
Proof.
  induction t as [|[a' b] t IH]; [done|].
  rewrite fmap_cons. unfold prod_map at 1, id at 1. cbn [fst snd assoc].
  rewrite list_to_map_cons, lookup_insert, IH. repeat case_decide; naive_solver.
Qed.

Lemma list_to_map_Some_assoc {A B} `{EqDecision A} (f : A → Z) (t : list (A * B)) z b :
  (list_to_map (prod_map f id <$> t) : gmap Z B) !! z = Some b → ∃ a, z = f a.
Proof.
  induction t as [|[a' b'] t IH]; [done|].
  rewrite fmap_cons. unfold prod_map at 1, id at 1. cbn [fst snd].
  rewrite list_to_map_cons, lookup_insert. case_decide; naive_solver.
Qed.
