(* ===== verification/Bytes.v ===== *)
(** * Go bytes, machine words and byte slices

    The representation shared by every component: a Go [byte] is Stdlib's
    [Byte.byte], a [[]byte] or a [string] is a list of them, an unsigned
    integer of width [w] is a [Z] with its wrap-around written out by [wrap].
    Slices whose capacity matters carry the bytes between length and capacity
    ([slice]), since Go checks the upper bound of [s[i:j]] against [cap(s)]. *)
From S2P Require Import Prelude.

Abbreviation byte := Byte.byte.
Abbreviation bytes := (list byte).

(** [len(l)] as an [int]. *)
Abbreviation zlen l := (Z.of_nat (length l)).

(** A Go string constant as the bytes it holds. *)
Definition str (s : string) : bytes := String.list_byte_of_string s.

(** ** Unsigned integers of width [w] *)
Definition wrap (w : Z) (z : Z) : Z := (z mod 2 ^ w)%Z.
Abbreviation u8 := (wrap 8).
Abbreviation u16 := (wrap 16).
Abbreviation u32 := (wrap 32).
Abbreviation u64 := (wrap 64).

Lemma wrap_range w z : (0 ≤ w → 0 ≤ wrap w z < 2 ^ w)%Z.
Proof. intros. apply Z.mod_pos_bound. lia. Qed.

Lemma wrap_small w z : (0 ≤ z < 2 ^ w → wrap w z = z)%Z.
Proof. apply Z.mod_small. Qed.

Lemma wrap_idemp w z : wrap w (wrap w z) = wrap w z.
Proof. unfold wrap. destruct (decide (2 ^ w = 0)%Z) as [->|]; [by rewrite !Z.mod_0_r|]. by apply Z.mod_mod. Qed.

(** ** Bytes as numbers *)
#[export] Instance byte_eq_dec : EqDecision byte := Byte.byte_eq_dec.

Definition Z_of_byte (b : byte) : Z := Z.of_N (Byte.to_N b).

(** The conversion [byte(z)]: truncation to the low eight bits. *)
Definition byte_of_Z (z : Z) : byte :=
  match Byte.of_N (Z.to_N (z mod 256)) with Some b => b | None => Byte.x00 end.

Lemma Z_of_byte_range b : (0 ≤ Z_of_byte b < 256)%Z.
Proof. unfold Z_of_byte. pose proof (Byte.to_N_bounded b). lia. Qed.

Lemma Z_of_byte_of_Z z : Z_of_byte (byte_of_Z z) = (z mod 256)%Z.
Proof.
  unfold Z_of_byte, byte_of_Z. pose proof (Z.mod_pos_bound z 256).
  destruct (Byte.of_N _) as [b|] eqn:Hb.
  - apply Byte.to_of_N in Hb. rewrite Hb. lia.
  - apply Byte.of_N_None_iff in Hb. lia.
Qed.

Lemma byte_of_Z_of_byte b : byte_of_Z (Z_of_byte b) = b.
Proof.
  unfold byte_of_Z. pose proof (Z_of_byte_range b) as Hr.
  rewrite Z.mod_small by done. unfold Z_of_byte. rewrite N2Z.id, Byte.of_to_N. done.
Qed.

#[export] Instance Z_of_byte_inj : Inj (=) (=) Z_of_byte.
Proof. intros a b H. by rewrite <-(byte_of_Z_of_byte a), H, byte_of_Z_of_byte. Qed.

Lemma byte_of_Z_small z : (0 ≤ z < 256)%Z → Z_of_byte (byte_of_Z z) = z.
Proof. intros. rewrite Z_of_byte_of_Z. by apply Z.mod_small. Qed.

#[export] Instance byte_countable : Countable byte.
Proof.
  refine (inj_countable' Byte.to_N (λ n, default Byte.x00 (Byte.of_N n)) _).
  intros b. by rewrite Byte.of_to_N.
Defined.

(** ** encoding/binary: fixed-width little- and big-endian integers *)
Fixpoint le_bytes (n : nat) (z : Z) : bytes :=
  match n with
  | O => []
  | S n => byte_of_Z z :: le_bytes n (z / 256)
  end.

Fixpoint le_Z (l : bytes) : Z :=
  match l with
  | [] => 0
  | b :: l => Z_of_byte b + 256 * le_Z l
  end%Z.

Definition be_bytes (n : nat) (z : Z) : bytes := reverse (le_bytes n z).
Definition be_Z (l : bytes) : Z := le_Z (reverse l).

Lemma length_le_bytes n z : length (le_bytes n z) = n.
Proof. revert z. induction n; naive_solver. Qed.

Lemma le_Z_range l : (0 ≤ le_Z l < 256 ^ Z.of_nat (length l))%Z.
Proof.
  induction l as [|b l IH]; simpl; [lia|]. pose proof (Z_of_byte_range b).
  rewrite Nat2Z.inj_succ, Z.pow_succ_r by lia. lia.
Qed.

Lemma le_Z_le_bytes n z : le_Z (le_bytes n z) = (z mod 256 ^ Z.of_nat n)%Z.
Proof.
  revert z. induction n as [|n IH]; intros z; simpl; [by rewrite Z.mod_1_r|].
  rewrite IH, Z_of_byte_of_Z, Nat2Z.inj_succ, Z.pow_succ_r by lia.
  rewrite Z.rem_mul_r by lia. lia.
Qed.

Lemma le_bytes_le_Z l : le_bytes (length l) (le_Z l) = l.
Proof.
  induction l as [|b l IH]; simpl; [done|]. pose proof (Z_of_byte_range b).
  rewrite (Z.mul_comm 256), Z.div_add, Z.div_small, Z.add_0_l, IH by lia. f_equal.
  apply (inj Z_of_byte). rewrite Z_of_byte_of_Z, Z.mod_add by lia.
  by apply Z.mod_small.
Qed.

Lemma length_be_bytes n z : length (be_bytes n z) = n.
Proof. unfold be_bytes. by rewrite length_reverse, length_le_bytes. Qed.

Lemma be_Z_be_bytes n z : be_Z (be_bytes n z) = (z mod 256 ^ Z.of_nat n)%Z.
Proof. unfold be_Z, be_bytes. by rewrite reverse_involutive, le_Z_le_bytes. Qed.

Lemma be_bytes_be_Z l : be_bytes (length l) (be_Z l) = l.
Proof.
  unfold be_Z, be_bytes. rewrite <-(length_reverse l), le_bytes_le_Z.
  apply reverse_involutive.
Qed.

Lemma be_Z_range l : (0 ≤ be_Z l < 256 ^ Z.of_nat (length l))%Z.
Proof. unfold be_Z. rewrite <-length_reverse. apply le_Z_range. Qed.

Lemma le_Z_app l k : le_Z (l ++ k) = (le_Z l + 256 ^ Z.of_nat (length l) * le_Z k)%Z.
Proof.
  induction l as [|b l IH]; [simpl; lia|]. cbn [app le_Z length].
  rewrite IH, Nat2Z.inj_succ, Z.pow_succ_r by lia. lia.
Qed.

Lemma be_Z_app l k : be_Z (l ++ k) = (be_Z l * 256 ^ Z.of_nat (length k) + be_Z k)%Z.
Proof. unfold be_Z. rewrite reverse_app, le_Z_app, length_reverse. lia. Qed.

Lemma be_Z_cons b l : be_Z (b :: l) = (Z_of_byte b * 256 ^ Z.of_nat (length l) + be_Z l)%Z.
Proof. change (b :: l) with ([b] ++ l). rewrite be_Z_app. unfold be_Z at 1. simpl. lia. Qed.

(** ** Byte slices *)
Record slice := Slice { sl_data : bytes; sl_spare : bytes }.
Add Printing Constructor slice.

(** A slice whose capacity is its length. *)
Definition exact (l : bytes) : slice := Slice l [].
Definition sl_len (s : slice) : nat := length (sl_data s).
Definition sl_all (s : slice) : bytes := sl_data s ++ sl_spare s.

Lemma sl_all_exact l : sl_all (exact l) = l.
Proof. apply app_nil_r. Qed.

(** [s[i]]: panics unless [i < len(s)]. *)
Definition index (s : slice) (i : nat) : outcome byte :=
  match sl_data s !! i with Some b => Ok b | None => Panic IndexOutOfRange end.

(** [s[i:j]]: panics unless [i <= j <= cap(s)]; the bound is the capacity, so
    bytes past [len(s)] can come into view. *)
Definition reslice (s : slice) (i j : nat) : outcome bytes :=
  if decide (i ≤ j ≤ length (sl_all s)) then Ok (take (j - i) (drop i (sl_all s)))
  else Panic SliceOutOfRange.

Lemma reslice_Ok s i j l :
  reslice s i j = Ok l ↔ i ≤ j ≤ length (sl_all s) ∧ l = take (j - i) (drop i (sl_all s)).
Proof. unfold reslice. case_decide; naive_solver. Qed.

Lemma index_Ok s i b : index s i = Ok b ↔ sl_data s !! i = Some b.
Proof. unfold index. destruct (_ !! i); naive_solver. Qed.

Lemma length_reslice s i j l : reslice s i j = Ok l → length l = j - i.
Proof. intros [? ->]%reslice_Ok. rewrite length_take, length_drop. lia. Qed.

Lemma index_not_Err s i e : index s i ≠ Err e.
Proof. unfold index. by destruct (_ !! i). Qed.
Lemma reslice_not_Err s i j e : reslice s i j ≠ Err e.
Proof. unfold reslice. by case_decide. Qed.

(** Reading a slice against the list of all the bytes in view. *)
Lemma reslice_at s i j l post :
  drop i (sl_all s) = l ++ post → j = i + length l → i ≤ length (sl_all s) →
  reslice s i j = Ok l ∧ drop j (sl_all s) = post.
Proof.
  intros Hd -> Hi. assert (length l ≤ length (sl_all s) - i).
  { rewrite <-length_drop, Hd, length_app. lia. }
  split.
  - apply reslice_Ok. split; [lia|]. rewrite Hd, take_app_exact; [done|lia].
  - rewrite <-drop_drop, Hd. by apply drop_app_exact.
Qed.

Lemma reslice_split s i j l :
  reslice s i j = Ok l → drop i (sl_all s) = l ++ drop j (sl_all s) ∧ j = i + length l.
Proof.
  intros Hs. pose proof (length_reslice _ _ _ _ Hs). apply reslice_Ok in Hs as [? ->].
  split; [|lia]. rewrite <-(take_drop (j - i) (drop i _)) at 1.
  rewrite drop_drop. do 2 f_equal. lia.
Qed.

Lemma lookup_sl_all s i : i < sl_len s → sl_all s !! i = sl_data s !! i.
Proof. intros. by apply lookup_app_l. Qed.

Lemma index_at s i x post :
  drop i (sl_all s) = x :: post → i < sl_len s →
  index s i = Ok x ∧ drop (S i) (sl_all s) = post.
Proof.
  intros Hd Hi. split.
  - apply index_Ok. rewrite <-lookup_sl_all by done.
    rewrite <-(Nat.add_0_r i), <-lookup_drop, Hd. done.
  - rewrite <-Nat.add_1_r, <-drop_drop, Hd. done.
Qed.

Lemma index_split s i x :
  index s i = Ok x → drop i (sl_all s) = x :: drop (S i) (sl_all s) ∧ i < sl_len s.
Proof.
  intros Hx%index_Ok. pose proof (lookup_lt_Some _ _ _ Hx) as Hi. split; [|done].
  apply take_S_drop. by rewrite lookup_sl_all.
Qed.

(** ** strings.TrimSpace, strings.HasPrefix *)

(** The UTF-8 encodings of the characters [unicode.IsSpace] holds for. A string
    starts (ends) with such a character exactly when one of these is a prefix
    (suffix) of its bytes, the first byte of each being a lead byte. *)
Definition spaceEncodings : list bytes :=
  ((λ z, [byte_of_Z z]) <$> [0x09; 0x0A; 0x0B; 0x0C; 0x0D; 0x20]%Z) ++
  [[Byte.xc2; Byte.x85]; [Byte.xc2; Byte.xa0]; [Byte.xe1; Byte.x9a; Byte.x80];
   [Byte.xe2; Byte.x80; Byte.xa8]; [Byte.xe2; Byte.x80; Byte.xa9]; [Byte.xe2; Byte.x80; Byte.xaf];
   [Byte.xe2; Byte.x81; Byte.x9f]; [Byte.xe3; Byte.x80; Byte.x80]] ++
  ((λ z, [Byte.xe2; Byte.x80; byte_of_Z z]) <$> seqZ 0x80 11).

Definition hasPrefix (s p : bytes) : bool := bool_decide (p `prefix_of` s).

(** Strip the encodings [encs] from the front, as often as there is one;
    [length s] is enough fuel since none is empty. *)
Fixpoint trimPrefixes (fuel : nat) (encs : list bytes) (s : bytes) : bytes :=
  match fuel with
  | O => s
  | S fuel =>
    match List.find (λ p, hasPrefix s p) encs with
    | Some p => trimPrefixes fuel encs (drop (length p) s)
    | None => s
    end
  end.

Definition TrimSpace (s : bytes) : bytes :=
  let s := trimPrefixes (length s) spaceEncodings s in
  reverse (trimPrefixes (length s) (reverse <$> spaceEncodings) (reverse s)).
