(* ===== verification/Text.v ===== *)
(** * The string functions of the standard library the packages share

    Strings are byte lists. Case mapping is exact on ASCII and on the code points
    whose image is ASCII; the rest of Unicode is left alone, which cannot make a
    string equal to an ASCII one. *)
From S2P Require Import Prelude Bytes.

Module Text.

Definition slash : byte := Byte.x2f.

Fixpoint dropWhile (p : byte → bool) (s : bytes) : bytes :=
  match s with b :: s' => if p b then dropWhile p s' else s | [] => [] end.
Fixpoint takeWhile (p : byte → bool) (s : bytes) : bytes :=
  match s with b :: s' => if p b then b :: takeWhile p s' else [] | [] => [] end.
Definition isByte (c b : byte) : bool := bool_decide (b = c).
Definition isDigit (b : byte) : bool := bool_decide (0x30 ≤ Z_of_byte b ≤ 0x39)%Z.

(** ** Case *)

(** [strings.ToLower]; U+0130 and U+212A have ASCII lower cases. *)
Fixpoint ToLower (s : bytes) : bytes :=
  match s with
  | Byte.xc4 :: Byte.xb0 :: s => Byte.x69 :: ToLower s
  | Byte.xe2 :: Byte.x84 :: Byte.xaa :: s => Byte.x6b :: ToLower s
  | b :: s =>
    (if decide (0x41 ≤ Z_of_byte b ≤ 0x5A)%Z then byte_of_Z (Z_of_byte b + 32) else b) :: ToLower s
  | [] => []
  end.

(** [strings.ToUpper]; U+0131 and U+017F have ASCII upper cases. *)
Fixpoint ToUpper (s : bytes) : bytes :=
  match s with
  | Byte.xc4 :: Byte.xb1 :: s => Byte.x49 :: ToUpper s
  | Byte.xc5 :: Byte.xbf :: s => Byte.x53 :: ToUpper s
  | b :: s =>
    (if decide (0x61 ≤ Z_of_byte b ≤ 0x7A)%Z then byte_of_Z (Z_of_byte b - 32) else b) :: ToUpper s
  | [] => []
  end.

(** [strings.EqualFold] where one of the two strings is ASCII, as a MAC address is:
    equality of the folded strings. Besides the ASCII letters only U+212A and U+017F
    fold to an ASCII letter, to k and s. Two strings that both go beyond ASCII are
    compared here without Unicode's other foldings. *)
Fixpoint fold (s : bytes) : bytes :=
  match s with
  | Byte.xe2 :: Byte.x84 :: Byte.xaa :: s => Byte.x6b :: fold s
  | Byte.xc5 :: Byte.xbf :: s => Byte.x73 :: fold s
  | b :: s =>
    (if decide (0x41 ≤ Z_of_byte b ≤ 0x5A)%Z then byte_of_Z (Z_of_byte b + 32) else b) :: fold s
  | [] => []
  end.
Definition EqualFold (s t : bytes) : bool := bool_decide (fold s = fold t).

(** ** Cutting *)

(** [strings.TrimRight(s, c)] and [strings.TrimPrefix]. *)
Definition TrimRight (c : byte) (s : bytes) : bytes := reverse (dropWhile (isByte c) (reverse s)).
Definition TrimPrefix (s p : bytes) : bytes := if hasPrefix s p then drop (length p) s else s.

(** [strings.Contains] *)
Fixpoint Contains (s sub : bytes) : bool :=
  hasPrefix s sub || match s with [] => false | _ :: s => Contains s sub end.

(** [strings.Split(s, c)]: never empty. *)
Fixpoint Split (c : byte) (s : bytes) : list bytes :=
  match s with
  | [] => [[]]
  | b :: s =>
    if decide (b = c) then [] :: Split c s
    else match Split c s with w :: ws => (b :: w) :: ws | [] => [[b]] end
  end.

(** [strings.Join(ws, c)] *)
Fixpoint JoinWith (c : byte) (ws : list bytes) : bytes :=
  match ws with
  | [] => []
  | [w] => w
  | w :: ws => w ++ [c] ++ JoinWith c ws
  end.

(** [strings.Cut(s, c)] *)
Fixpoint Cut (c : byte) (s : bytes) : bytes * bytes * bool :=
  match s with
  | [] => ([], [], false)
  | b :: s =>
    if decide (b = c) then ([], s, true)
    else let '(before, after, found) := Cut c s in (b :: before, after, found)
  end.

(** ** Paths *)

(** [filepath.Base] *)
Definition Base (s : bytes) : bytes :=
  if decide (s = []) then str "." else
  let s' := dropWhile (isByte slash) (reverse s) in
  if decide (s' = []) then str "/" else reverse (takeWhile (λ b, negb (isByte slash b)) s').

(** [path.Clean]: the stack of elements kept, the last one first. *)
Definition cleanStep (rooted : bool) (stack : list bytes) (elem : bytes) : list bytes :=
  if decide (elem = [] ∨ elem = str ".") then stack
  else if decide (elem = str "..") then
    match stack with
    | top :: stack' => if decide (top = str "..") then elem :: stack else stack'
    | [] => if rooted then [] else [elem]
    end
  else elem :: stack.
Definition Clean (p : bytes) : bytes :=
  let rooted := match p with b :: _ => isByte slash b | [] => false end in
  let body := JoinWith slash (reverse (foldl (cleanStep rooted) [] (Split slash p))) in
  if rooted then slash :: body else if decide (body = []) then str "." else body.

(** [path.Dir]: what precedes the last slash, that slash included, cleaned. *)
Definition Dir (p : bytes) : bytes :=
  Clean (reverse (dropWhile (λ b, negb (isByte slash b)) (reverse p))).

(** ** Numbers *)

(** [strconv.Atoi] of a nonempty string of digits: [None] is a range error. *)
Definition decimal (digits : bytes) : Z := foldl (λ n b, n * 10 + (Z_of_byte b - 0x30))%Z 0%Z digits.
Definition Atoi (digits : bytes) : option Z :=
  if decide (decimal digits < 2 ^ 63)%Z then Some (decimal digits) else None.

(** The value of a hexadecimal digit. *)
Definition hexVal (b : byte) : option Z :=
  let z := Z_of_byte b in
  if decide (0x30 ≤ z ≤ 0x39)%Z then Some (z - 0x30)%Z
  else if decide (0x61 ≤ z ≤ 0x66)%Z then Some (z - 0x61 + 10)%Z
  else if decide (0x41 ≤ z ≤ 0x46)%Z then Some (z - 0x41 + 10)%Z
  else None.

(** [strconv.ParseUint(s, 16, w)]: [None] is a syntax or a range error. *)
Fixpoint hexDigits (s : bytes) (n : Z) : option Z :=
  match s with
  | [] => Some n
  | b :: s => d ← hexVal b; hexDigits s (n * 16 + d)
  end.
Definition ParseUint16 (w : Z) (s : bytes) : option Z :=
  if decide (s = []) then None else
  n ← hexDigits s 0;
  if decide (n < 2 ^ w)%Z then Some n else None.

(** [strings.Fields]: around runs of white space. [word] is the field being read, reversed. *)
Definition spaceLen (s : bytes) : nat :=
  match list_find (λ e, hasPrefix s e = true) spaceEncodings with
  | Some (_, e) => length e
  | None => 0
  end.
Fixpoint fieldsLoop (fuel : nat) (s word : bytes) : list bytes :=
  let flush := if decide (word = []) then [] else [reverse word] in
  match fuel, s with
  | O, _ | _, [] => flush
  | S fuel, b :: s' =>
    match spaceLen s with
    | O => fieldsLoop fuel s' (b :: word)
    | n => flush ++ fieldsLoop fuel (drop n s) []
    end
  end.
Definition Fields (s : bytes) : list bytes := fieldsLoop (length s) s [].

(** ** Examples *)
Example Fields_bar : Fields (str "0xe0 0xff  0x40 ") = [str "0xe0"; str "0xff"; str "0x40"].
Proof. vm_compute. reflexivity. Qed.
Example Dir_member : Dir (str "/redfish/v1/Chassis/1/NetworkAdapters/DE07A000") = str "/redfish/v1/Chassis/1/NetworkAdapters".
Proof. vm_compute. reflexivity. Qed.
Example Dir_dots : (Dir (str "a/../../b"), Dir (str "/../x"), Dir (str "x"), Dir []) =
  (str "..", str "/", str ".", str ".").
Proof. vm_compute. reflexivity. Qed.
Example Base_link : (Base (str "../../../0000:43:00.0"), Base (str "a//"), Base (str "//")) =
  (str "0000:43:00.0", str "a", str "/").
Proof. vm_compute. reflexivity. Qed.

End Text.
