(* ===== verification/Utf8.v ===== *)
(** * Packages unicode/utf8, strings.Map and strconv.Quote

    Go strings are bytes that need not be UTF-8: decoding takes one byte of what
    is not an encoding and answers U+FFFD. *)
From S2P Require Import Prelude Bytes.

Module Utf8.

Abbreviation rune := Z.
Definition RuneError : rune := 0xFFFD.

(** The code points that have an encoding. *)
Definition scalar (r : rune) : Prop := (0 ≤ r < 0xD800 ∨ 0xE000 ≤ r ≤ 0x10FFFF)%Z.
#[export] Instance scalar_dec r : Decision (scalar r).
Proof. unfold scalar. solve_decision. Defined.

(** The tables [first] and [acceptRanges]: length of the encoding and range of its second byte. *)
Definition accept (z : Z) : option (nat * Z * Z) :=
  if decide (0xC2 ≤ z ≤ 0xDF)%Z then Some (2, 0x80%Z, 0xBF%Z)
  else if decide (z = 0xE0)%Z then Some (3, 0xA0%Z, 0xBF%Z)
  else if decide (z = 0xED)%Z then Some (3, 0x80%Z, 0x9F%Z)
  else if decide (0xE1 ≤ z ≤ 0xEF)%Z then Some (3, 0x80%Z, 0xBF%Z)
  else if decide (z = 0xF0)%Z then Some (4, 0x90%Z, 0xBF%Z)
  else if decide (0xF1 ≤ z ≤ 0xF3)%Z then Some (4, 0x80%Z, 0xBF%Z)
  else if decide (z = 0xF4)%Z then Some (4, 0x80%Z, 0x8F%Z)
  else None.

Definition within (lo hi : Z) (b : byte) : bool := bool_decide (lo ≤ Z_of_byte b ≤ hi)%Z.
(** The bytes after the first one. *)
Definition continues (lo hi : Z) (t : bytes) : bool :=
  match t with b :: t => within lo hi b && forallb (within 0x80 0xBF) t | [] => false end.

(** [utf8.DecodeRuneInString]: the rune and how many bytes it takes. *)
Definition DecodeRune (s : bytes) : rune * nat :=
  match s with
  | [] => (RuneError, 0)
  | b :: t =>
    let z := Z_of_byte b in
    if decide (z < 0x80)%Z then (z, 1) else
    match accept z with
    | Some (n, lo, hi) =>
      let t := take (n - 1) t in
      if bool_decide (length t = n - 1) && continues lo hi t
      then (foldl (λ r b, r * 64 + Z_of_byte b mod 64)%Z (z mod 2 ^ (7 - Z.of_nat n))%Z t, n)
      else (RuneError, 1)
    | None => (RuneError, 1)
    end
  end.

(** [utf8.AppendRune] *)
Definition EncodeRune (r : rune) : bytes :=
  let c i := byte_of_Z (0x80 + (r / 64 ^ i) mod 64) in
  if decide (0 ≤ r < 0x80)%Z then [byte_of_Z r]
  else if decide (0x80 ≤ r < 0x800)%Z then [byte_of_Z (0xC0 + r / 64); c 0%Z]
  else if decide (0x800 ≤ r < 0xD800 ∨ 0xE000 ≤ r < 0x10000)%Z then [byte_of_Z (0xE0 + r / 64 ^ 2); c 1%Z; c 0%Z]
  else if decide (0x10000 ≤ r ≤ 0x10FFFF)%Z then [byte_of_Z (0xF0 + r / 64 ^ 3); c 2%Z; c 1%Z; c 0%Z]
  else [Byte.xef; Byte.xbf; Byte.xbd].

(** [range] over a string; every turn takes at least one byte. *)
Fixpoint runesLoop (fuel : nat) (s : bytes) : list (rune * nat) :=
  match fuel, s with
  | O, _ | _, [] => []
  | S fuel, _ => let '(r, n) := DecodeRune s in (r, n) :: runesLoop fuel (drop n s)
  end.
Definition runes (s : bytes) : list (rune * nat) := runesLoop (length s) s.
Definition utf8 (rs : list rune) : bytes := concat (EncodeRune <$> rs).

(** [strings.Map]: a negative rune is dropped, and what is not UTF-8 comes out as U+FFFD. *)
Definition Map (f : rune → rune) (s : bytes) : bytes :=
  utf8 (base.filter (λ r, 0 ≤ r)%Z (f ∘ fst <$> runes s)).

(** [strings.ContainsAny] for ASCII characters. *)
Definition ContainsAny (s chars : bytes) : bool := existsb (λ b, bool_decide (b ∈ chars)) s.

(** ** [strconv.Quote] *)
Section Quote.
(** [unicode.IsPrint] beyond ASCII. *)
Variable IsPrint : rune → bool.

Definition isPrint (r : rune) : bool := if decide (r < 0x80)%Z then bool_decide (0x20 ≤ r < 0x7F)%Z else IsPrint r.
Definition hexDigit (d : Z) : byte := nth (Z.to_nat d) (str "0123456789abcdef") Byte.x00.
(** The [n] low hexadecimal digits. *)
Fixpoint hexN (n : nat) (z : Z) : bytes :=
  match n with O => [] | S n => hexDigit (z / 16 ^ Z.of_nat n mod 16) :: hexN n z end.

Definition escapes : list (rune * bytes) :=
  [(7, str "\a"); (8, str "\b"); (12, str "\f"); (10, str "\n"); (13, str "\r"); (9, str "\t"); (11, str "\v")]%Z.

Definition escapedRune (r : rune) : bytes :=
  if decide (r = 0x22 ∨ r = 0x5C)%Z then [Byte.x5c; byte_of_Z r]
  else if isPrint r then EncodeRune r
  else match list_find (λ e, e.1 = r) escapes with
  | Some (_, (_, e)) => e
  | None =>
    if decide (r < 0x20 ∨ r = 0x7F)%Z then str "\x" ++ hexN 2 r
    else if decide (r < 0x10000)%Z then str "\u" ++ hexN 4 r
    else str "\U" ++ hexN 8 r
  end.

Fixpoint quoteLoop (fuel : nat) (s : bytes) : bytes :=
  match fuel, s with
  | O, _ | _, [] => []
  | S fuel, b :: _ =>
    let '(r, n) := DecodeRune s in
    (if decide (n = 1 ∧ r = RuneError) then str "\x" ++ hexN 2 (Z_of_byte b) else escapedRune r) ++ quoteLoop fuel (drop n s)
  end.
Definition Quote (s : bytes) : bytes := [Byte.x22] ++ quoteLoop (length s) s ++ [Byte.x22].
End Quote.

Example decode_euro : runes (str "a€" ++ [Byte.xff]) = [(0x61%Z, 1); (0x20AC%Z, 3); (RuneError, 1)].
Proof. vm_compute. reflexivity. Qed.
Example quote_ex : Quote (λ _, true) (str "a b\" ++ [Byte.x0a; Byte.x01; Byte.xff]) = [Byte.x22] ++ str "a b\\\n\x01\xff" ++ [Byte.x22].
Proof. vm_compute. reflexivity. Qed.

(** ** Decoding what was encoded *)
#[local] Ltac Zify.zify_post_hook ::= Z.div_mod_to_equations.

Lemma DecodeRune_ascii b t : (Z_of_byte b < 0x80)%Z → DecodeRune (b :: t) = (Z_of_byte b, 1).
Proof. intros Hb. unfold DecodeRune. by rewrite decide_True. Qed.

Lemma accept_multi z n lo hi : accept z = Some (n, lo, hi) → (2 ≤ n)%nat ∧ (0x80 ≤ lo)%Z ∧ (hi ≤ 0xBF)%Z.
Proof. unfold accept. repeat case_decide; intros [= <- <- <-]; lia. Qed.

Lemma DecodeRune_width s : s ≠ [] → (1 ≤ snd (DecodeRune s) ≤ length s)%nat.
Proof.
  destruct s as [|b t]; [done|]. intros _. unfold DecodeRune. case_decide; [cbn; lia|].
  destruct (accept _) as [[[n lo] hi]|] eqn:Ha; [|cbn; lia]. apply accept_multi in Ha.
  destruct (bool_decide _) eqn:Hl; [|cbn; lia]. apply bool_decide_eq_true in Hl. rewrite length_take in Hl.
  destruct (continues _ _ _); cbn [fst snd andb length]; lia.
Qed.

Lemma DecodeRune_multi z t1 t lo hi : (0x80 ≤ z < 256)%Z → accept z = Some (S (length t1), lo, hi) →
  continues lo hi t1 = true → DecodeRune (byte_of_Z z :: t1 ++ t) =
    (foldl (λ r b, r * 64 + Z_of_byte b mod 64)%Z (z mod 2 ^ (6 - zlen t1))%Z t1, S (length t1)).
Proof.
  intros Hz Ha Hc. unfold DecodeRune. rewrite byte_of_Z_small, decide_False, Ha by lia. cbn [Nat.sub]. rewrite Nat.sub_0_r.
  rewrite take_app_length, Hc, bool_decide_eq_true_2 by done. cbn [andb]. do 4 f_equal. lia.
Qed.

(** The continuation byte for six bits, and what it gives back. *)
Lemma cont_byte d lo hi : (lo ≤ 0x80 + d mod 64 ≤ hi)%Z → within lo hi (byte_of_Z (0x80 + d mod 64)) = true.
Proof. intros Hd. unfold within. rewrite byte_of_Z_small by lia. by apply bool_decide_eq_true. Qed.
Lemma cont_value d : (Z_of_byte (byte_of_Z (0x80 + d mod 64)) mod 64 = d mod 64)%Z.
Proof. rewrite byte_of_Z_small by lia. lia. Qed.

Lemma DecodeRune_encode r t : scalar r → DecodeRune (EncodeRune r ++ t) = (r, length (EncodeRune r)).
Proof.
  intros Hr. unfold scalar in Hr. unfold EncodeRune. change (64 ^ 0)%Z with 1%Z. change (64 ^ 1)%Z with 64%Z.
  change (64 ^ 2)%Z with 4096%Z. change (64 ^ 3)%Z with 262144%Z. rewrite !Z.div_1_r. cbv zeta.
  repeat case_decide; try lia; cbn [app length].
  - rewrite DecodeRune_ascii; rewrite byte_of_Z_small by lia; [done|lia].
  - etransitivity; [apply (DecodeRune_multi _ [_] t 0x80 0xBF)|].
    + lia.
    + unfold accept. by rewrite decide_True by lia.
    + cbn [continues forallb]. by rewrite cont_byte by lia.
    + cbn [foldl length]. rewrite cont_value. f_equal. change (2 ^ (6 - Z.of_nat 1))%Z with 32%Z. lia.
  - etransitivity; [apply (DecodeRune_multi _ [_; _] t (if decide (r / 4096 = 0)%Z then 0xA0 else 0x80) (if decide (r / 4096 = 13)%Z then 0x9F else 0xBF))|].
    + lia.
    + unfold accept. cbn [length]. repeat case_decide; first [done | lia].
    + cbn [continues forallb]. rewrite !cont_byte; [done|lia|]. repeat case_decide; lia.
    + cbn [foldl length]. rewrite !cont_value. f_equal. change (2 ^ (6 - Z.of_nat 2))%Z with 16%Z. lia.
  - etransitivity; [apply (DecodeRune_multi _ [_; _; _] t (if decide (r / 262144 = 0)%Z then 0x90 else 0x80) (if decide (r / 262144 = 4)%Z then 0x8F else 0xBF))|].
    + lia.
    + unfold accept. cbn [length]. repeat case_decide; first [done | lia].
    + cbn [continues forallb]. rewrite !cont_byte; [done|lia|lia|]. repeat case_decide; lia.
    + cbn [foldl length]. rewrite !cont_value. f_equal. change (2 ^ (6 - Z.of_nat 3))%Z with 8%Z. lia.
Qed.

Lemma length_EncodeRune r : (1 ≤ length (EncodeRune r))%nat.
Proof. unfold EncodeRune. repeat case_decide; cbn; lia. Qed.

(** ** Ranging over a string *)

Lemma runesLoop_step fuel fuel' s : length s ≤ fuel → length s ≤ fuel' → runesLoop fuel s = runesLoop fuel' s.
Proof.
  revert fuel' s. induction fuel as [|fuel IH]; intros fuel' s Hf Hf'; [destruct s; [by destruct fuel'|cbn in Hf; lia]|].
  destruct s as [|b s]; [by destruct fuel'|]. destruct fuel' as [|fuel']; [cbn in Hf'; lia|].
  pose proof (DecodeRune_width (b :: s) ltac:(done)) as Hw. cbn [runesLoop]. destruct (DecodeRune (b :: s)) as [r n].
  cbn [snd] in Hw. f_equal. apply IH; rewrite length_drop; cbn [length] in *; lia.
Qed.

Lemma runes_cons s : s ≠ [] → runes s = DecodeRune s :: runes (drop (snd (DecodeRune s)) s).
Proof.
  intros Hs. pose proof (DecodeRune_width s Hs) as Hw. unfold runes. destruct s as [|b s]; [done|]. cbn [length runesLoop].
  destruct (DecodeRune (b :: s)) as [r n]. cbn [snd] in *. f_equal.
  apply runesLoop_step; [rewrite length_drop; cbn [length]; lia|done].
Qed.

Lemma runes_utf8 rs : Forall scalar rs → fst <$> runes (utf8 rs) = rs.
Proof.
  induction 1 as [|r rs Hr Hrs IH]; [done|]. unfold utf8 in *. cbn [fmap list_fmap concat].
  pose proof (length_EncodeRune r). rewrite runes_cons by (destruct (EncodeRune r); [cbn in *; lia|done]).
  rewrite DecodeRune_encode by done. cbn [snd fmap list_fmap fst]. by rewrite drop_app_length, IH.
Qed.

(** An ASCII character is a boundary. *)
Lemma continues_take_ascii lo hi n a b s : (0x80 ≤ lo)%Z → (Z_of_byte b < 0x80)%Z → n ≤ length a ∨
  continues lo hi (take n (a ++ b :: s)) = false ∧ length (take n a) < n.
Proof.
  intros Hlo Hb. destruct (decide (n ≤ length a)) as [|Hn]; [by left|right]. rewrite length_take. split; [|lia].
  rewrite take_app_ge by lia. destruct (n - length a) as [|k] eqn:Hk; [lia|]. cbn [take].
  assert (∀ l h, (0x80 ≤ l)%Z → within l h b = false) as Hw by (intros l h Hl; apply bool_decide_eq_false; lia).
  destruct a as [|b0 a]; cbn [app continues]; [by rewrite Hw|]. rewrite forallb_app. cbn [forallb]. rewrite Hw by lia.
  cbn. by rewrite !andb_false_r.
Qed.

Lemma DecodeRune_boundary a b s : a ≠ [] → (Z_of_byte b < 0x80)%Z → DecodeRune (a ++ b :: s) = DecodeRune a.
Proof.
  destruct a as [|b0 a]; [done|]. intros _ Hb. cbn [app]. unfold DecodeRune. case_decide; [done|].
  destruct (accept _) as [[[n lo] hi]|] eqn:Ha; [|done]. apply accept_multi in Ha as (Hn & Hlo & _).
  destruct (continues_take_ascii lo hi (n - 1) a b s Hlo Hb) as [Hle|[-> Hlt]].
  - by rewrite take_app_le by done.
  - rewrite andb_false_r. rewrite (bool_decide_eq_false_2 (length (take _ a) = _)) by lia. done.
Qed.

Lemma runes_boundary a b s : (Z_of_byte b < 0x80)%Z → runes (a ++ b :: s) = runes a ++ (Z_of_byte b, 1) :: runes s.
Proof.
  intros Hb. remember (length a) as n eqn:Hn. assert (length a ≤ n) as Hle by lia. clear Hn. revert a Hle.
  induction n as [|n IH]; intros [|b0 a] Hle; try (cbn in Hle; lia).
  1,2: cbn [app]; rewrite runes_cons, DecodeRune_ascii by done; done.
  rewrite runes_cons, DecodeRune_boundary by done. rewrite (runes_cons (b0 :: a)) by done.
  pose proof (DecodeRune_width (b0 :: a) ltac:(done)) as Hw. rewrite drop_app_le by lia. cbn [app]. f_equal.
  apply IH. rewrite length_drop. cbn [length] in *. lia.
Qed.

End Utf8.
