(* ===== verification/Os.v ===== *)
(** * Package os: what the program reads from the file system

    The file system is a snapshot: a function from paths (lists of components, as
    [filepath.Join] cleans them) to what [os.ReadDir], [os.Readlink], [os.Stat]
    and [os.ReadFile] answer. *)
From S2P Require Import Prelude Bytes.

Module Os.

Abbreviation path := (list bytes).

(** A value with a Go error: [inl err], or [inr v] when the error is nil. *)
Abbreviation result A := (error + A)%type.

Record DirEntry := mkEntry { entryName : bytes; isRegular : bool }.

Record FS := mkFS {
  ReadDir : path → result (list DirEntry);
  Readlink : path → result bytes;
  Stat : path → result unit;
  ReadFile : path → result bytes;
}.

(** A file system given by its entries; the other paths do not exist. *)
Fixpoint find {A} (l : list (path * result A)) (p : path) : result A :=
  match l with
  | [] => inl (ESentinel os_ErrNotExist)
  | (q, x) :: l => if decide (q = p) then x else find l p
  end.

End Os.
