(* ===== verification/Machine.v ===== *)
(** * The process: memory, files, mappings, time

    What pkg/chipid does below the file system: byte-addressed process memory,
    the system calls it makes, and the registers of a device it maps. The kernel
    and the hardware are a class: each call may change the memory, since devices
    write into buffers. [held] records what the process has opened, mapped or
    locked and not given up. *)
From S2P Require Import Prelude Bytes Os.
Import Os.

Module Machine.

Abbreviation memory := (gmap Z byte).

(** ** Memory *)
Fixpoint store (a : Z) (bs : bytes) (m : memory) : memory :=
  match bs with [] => m | b :: bs => <[a := b]> (store (a + 1) bs m) end.
Fixpoint load (a : Z) (n : nat) (m : memory) : bytes :=
  match n with O => [] | S n => default Byte.x00 (m !! a) :: load (a + 1) n m end.

(** The addresses [a, a + n) and their disjointness. *)
Definition disj (a : Z) (n : nat) (b : Z) (k : nat) : Prop := (a + Z.of_nat n ≤ b ∨ b + Z.of_nat k ≤ a)%Z.

Lemma lookup_store_out a bs m x : (x < a ∨ a + Z.of_nat (length bs) ≤ x)%Z → store a bs m !! x = m !! x.
Proof.
  revert a. induction bs as [|b bs IH]; intros a Hx; [done|]. cbn [store length] in *.
  rewrite lookup_insert_ne by lia. apply IH. lia.
Qed.

Lemma load_ext a n m m' : (∀ x, (a ≤ x < a + Z.of_nat n)%Z → m !! x = m' !! x) → load a n m = load a n m'.
Proof.
  revert a. induction n as [|n IH]; intros a Hx; [done|]. cbn [load]. rewrite (Hx a) by lia. f_equal.
  apply IH. intros x Hr. apply Hx. lia.
Qed.

Lemma load_store_disj a n b bs m : disj a n b (length bs) → load a n (store b bs m) = load a n m.
Proof. intros Hd. apply load_ext. intros x Hx. apply lookup_store_out. unfold disj in Hd. lia. Qed.

Lemma load_store a bs m : load a (length bs) (store a bs m) = bs.
Proof.
  revert a. induction bs as [|b bs IH]; intros a; [done|]. cbn [length load store].
  rewrite lookup_insert_eq. cbn [default]. f_equal.
  transitivity (load (a + 1) (length bs) (store (a + 1) bs m)); [|apply IH].
  apply load_ext. intros x Hx. rewrite lookup_insert_ne by lia. done.
Qed.

Lemma load_store_eq a n bs m : n = length bs → load a n (store a bs m) = bs.
Proof. intros ->. apply load_store. Qed.

Lemma length_load a n m : length (load a n m) = n.
Proof. revert a. induction n as [|n IH]; intros a; cbn; [done|]. by rewrite IH. Qed.

(** ** Regions *)

(** The region is mapped, or is not in use. *)
Definition mapped (m : memory) (a : Z) (n : nat) : Prop := ∀ x, (a ≤ x < a + Z.of_nat n)%Z → is_Some (m !! x).
Definition unused (m : memory) (a : Z) (n : nat) : Prop := ∀ x, (a ≤ x < a + Z.of_nat n)%Z → m !! x = None.

Lemma mapped_store a bs m : mapped (store a bs m) a (length bs).
Proof.
  revert a. induction bs as [|b bs IH]; intros a x Hx; cbn [length store] in *; [lia|].
  destruct (decide (x = a)) as [->|Hne]; [rewrite lookup_insert_eq; eauto|].
  rewrite lookup_insert_ne by done. apply IH. lia.
Qed.

Lemma mapped_mono m a n b bs : mapped m a n → mapped (store b bs m) a n.
Proof.
  intros Hm x Hx. specialize (Hm x Hx). revert b. induction bs as [|c bs IH]; intros b; [done|]. cbn [store].
  destruct (decide (b = x)) as [->|Hne]; [rewrite lookup_insert_eq; eauto|]. rewrite lookup_insert_ne by done. apply IH.
Qed.

Lemma mapped_unused_disj m a n b k : (0 < n)%nat → (0 < k)%nat → mapped m a n → unused m b k → disj a n b k.
Proof.
  intros Hn Hk Hm Hu. unfold disj. destruct (decide (a ≤ b)%Z) as [Hab|Hab].
  - destruct (decide (a + Z.of_nat n ≤ b)%Z) as [|Hlt]; [by left|]. exfalso.
    destruct (Hm b) as [? Hb]; [lia|]. rewrite Hu in Hb; [done|lia].
  - right. destruct (decide (b + Z.of_nat k ≤ a)%Z) as [|Hlt]; [done|]. exfalso.
    destruct (Hm a) as [? Ha]; [lia|]. rewrite Hu in Ha; [done|lia].
Qed.

(** The process uses less than 2 GiB, [n] more bytes included. *)
Definition room (m : memory) (n : Z) : Prop := (Z.of_nat (size m) + n ≤ 2 ^ 31)%Z.

Lemma size_store a bs m : size (store a bs m) ≤ size m + length bs.
Proof.
  revert a. induction bs as [|b bs IH]; intros a; cbn [store length]; [lia|].
  specialize (IH (a + 1)%Z). rewrite map_size_insert. destruct (store _ bs m !! a); unfold id; lia.
Qed.

Lemma room_store a bs m n k : room m (Z.of_nat n + k) → length bs = n → room (store a bs m) k.
Proof. unfold room. pose proof (size_store a bs m). lia. Qed.
Lemma room_mono m n k : room m n → (k ≤ n)%Z → room m k.
Proof. unfold room. lia. Qed.

(** ** System calls *)
Inductive sysop : Type → Type :=
  | OpenFile (p : path) : sysop (result Z)
  | CloseFile (fd : Z) : sysop (option error)
  | Seek (fd offset : Z) : sysop (option error)
  | Read (fd : Z) (n : nat) : sysop (result bytes)
  | Ioctl (fd req arg : Z) : sysop Z
  | MapRegion (fd length offset : Z) : sysop (result (Z * Z))
  | Unmap (handle : Z) : sysop (option error)
  | Mlock (addr length : Z) : sysop (option error)
  | Munlock (addr length : Z) : sysop (option error)
  | RegRead (handle offset : Z) : sysop Z
  | RegWrite (handle offset value : Z) : sysop unit
  | Now : sysop Z
  | Sleep (d : Z) : sysop unit.

(** [sys]: what a call answers, and the memory after it; [place]: where the
    allocator puts a new buffer. *)
Class Kernel (W : Type) := {
  sys : ∀ {R}, sysop R → W → memory → R * W * memory;
  place : memory → nat → Z;
}.

(** What the Go allocator promises of a process of less than 2 GiB: the region is
    new and has 64-bit addresses. *)
Definition allocates {W} `{!Kernel W} : Prop := ∀ m n, 0 < n → room m (Z.of_nat n) →
  unused m (place m n) n ∧ (0 < place m n)%Z ∧ (place m n + Z.of_nat n < 2 ^ 64)%Z.

Inductive resource :=
  | RFile (fd : Z)
  | RMap (handle : Z)
  | RLock (addr : Z).
#[export] Instance resource_eq_dec : EqDecision resource.
Proof. solve_decision. Defined.

Fixpoint remove1 (r : resource) (l : list resource) : list resource :=
  match l with [] => [] | r' :: l => if decide (r' = r) then l else r' :: remove1 r l end.

(** What a call acquires, by what it answers, and what it gives up, whatever it answers. *)
Definition acquires {R} (op : sysop R) : R → list resource :=
  match op in sysop R return R → list resource with
  | OpenFile _ => λ r, match r with inr fd => [RFile fd] | inl _ => [] end
  | MapRegion _ _ _ => λ r, match r with inr (h, _) => [RMap h] | inl _ => [] end
  | Mlock a _ => λ r, match r with None => [RLock a] | Some _ => [] end
  | _ => λ _, []
  end.
Definition releases {R} (op : sysop R) : option resource :=
  match op with
  | CloseFile fd => Some (RFile fd)
  | Unmap h => Some (RMap h)
  | Munlock a _ => Some (RLock a)
  | _ => None
  end.

Section Machine.
Context {W : Type} `{!Kernel W}.

Record machine := mkMachine { mem : memory; world : W; held : list resource }.
Abbreviation MM := (SM machine).

Definition call {R} (op : sysop R) : MM R := λ s,
  let '(r, w, m) := sys op (world s) (mem s) in
  (Ok r, mkMachine m w (acquires op r ++ match releases op with Some x => remove1 x (held s) | None => held s end)).

(** [make([]byte, n)]: its address. *)
Definition make (n : nat) : MM Z := λ s,
  let a := place (mem s) n in
  (Ok a, mkMachine (store a (replicate n Byte.x00) (mem s)) (world s) (held s)).
Definition put (a : Z) (bs : bytes) : MM unit := λ s, (Ok (), mkMachine (store a bs (mem s)) (world s) (held s)).
Definition fetch (a : Z) (n : nat) : MM bytes := λ s, (Ok (load a n (mem s)), s).

(** [if err != nil { return f(err) }] for a call with a result, and for one without. *)
Definition try {A} (f : error → error) (m : MM (result A)) : MM A :=
  r ← m; match r with inl err => lift (Err (f err)) | inr a => mret a end.
Definition must (f : error → error) (m : MM (option error)) : MM unit :=
  r ← m; match r with Some err => lift (Err (f err)) | None => mret () end.

(** [defer]: the clean-up runs whatever the body does, also when it panics. *)
Definition defer {A} (body : MM A) (cleanup : MM unit) : MM A := λ s,
  let '(r, s) := body s in let '(_, s) := cleanup s in (r, s).

(** ** Running a known call *)
Lemma bind_run {A B} (m : MM A) (f : A → MM B) s s' r : m s = (r, s') →
  (m ≫= f) s = match r with Ok a => f a s' | Err e => (Err e, s') | Panic p => (Panic p, s') end.
Proof. unfold mbind, SM_bind. by intros ->. Qed.
Lemma bind_run_Ok {A B} (m : MM A) (f : A → MM B) s s' a : m s = (Ok a, s') → (m ≫= f) s = f a s'.
Proof. apply bind_run. Qed.
Lemma bind_put {A} a bs (f : unit → MM A) s :
  (put a bs ≫= f) s = f () (mkMachine (store a bs (mem s)) (world s) (held s)).
Proof. done. Qed.
Lemma bind_make {A} n (f : Z → MM A) s : (make n ≫= f) s =
  f (place (mem s) n) (mkMachine (store (place (mem s) n) (replicate n Byte.x00) (mem s)) (world s) (held s)).
Proof. done. Qed.
Lemma bind_fetch {A} a n (f : bytes → MM A) s : (fetch a n ≫= f) s = f (load a n (mem s)) s.
Proof. done. Qed.
Lemma try_run {A} f (m : MM (result A)) s s' a : m s = (Ok (inr a), s') → try f m s = (Ok a, s').
Proof. intros Hm. unfold try. by rewrite (bind_run _ _ _ _ _ Hm). Qed.
Lemma must_run f (m : MM (option error)) s s' : m s = (Ok None, s') → must f m s = (Ok (), s').
Proof. intros Hm. unfold must. by rewrite (bind_run _ _ _ _ _ Hm). Qed.
Lemma map_errS_run {A} f (m : MM A) s s' a : m s = (Ok a, s') → map_errS f m s = (Ok a, s').
Proof. intros Hm. unfold map_errS. by rewrite Hm. Qed.
Lemma call_run {R} (op : sysop R) s r w m : sys op (world s) (mem s) = (r, w, m) →
  call op s = (Ok r, mkMachine m w
    (acquires op r ++ match releases op with Some x => remove1 x (held s) | None => held s end)).
Proof. intros Hs. unfold call. by rewrite Hs. Qed.
Lemma defer_run {A} (body : MM A) cleanup s s1 r : body s = (r, s1) → defer body cleanup s = (r, snd (cleanup s1)).
Proof. intros Hb. unfold defer. rewrite Hb. by destruct (cleanup s1). Qed.

(** ** Calls that keep what is held *)
Definition balanced {A} (m : MM A) : Prop := ∀ s, held (snd (m s)) = held s.

Lemma balanced_ret {A} (a : A) : balanced (mret a).
Proof. by intros s. Qed.
Lemma balanced_lift {A} (m : outcome A) : balanced (lift m).
Proof. by intros s. Qed.
Lemma balanced_make n : balanced (make n).
Proof. by intros s. Qed.
Lemma balanced_put a bs : balanced (put a bs).
Proof. by intros s. Qed.
Lemma balanced_fetch a n : balanced (fetch a n).
Proof. by intros s. Qed.
Lemma balanced_bind {A B} (m : MM A) (f : A → MM B) : balanced m → (∀ a, balanced (f a)) → balanced (m ≫= f).
Proof.
  intros Hm Hf s. unfold mbind, SM_bind. rewrite <- (Hm s). destruct (m s) as [[a|e|p] s1]; [apply Hf|done..].
Qed.
Lemma balanced_call {R} (op : sysop R) : (∀ r, acquires op r = []) → releases op = None → balanced (call op).
Proof.
  intros Ha Hr s. unfold call. destruct (sys op (world s) (mem s)) as [[r w] m]. cbn. by rewrite Ha, Hr.
Qed.
Lemma balanced_must f m : balanced m → balanced (must f m).
Proof. intros Hm. apply balanced_bind; [done|]. intros [e|]; [apply balanced_lift|apply balanced_ret]. Qed.
Lemma balanced_try {A} f (m : MM (result A)) : balanced m → balanced (try f m).
Proof. intros Hm. apply balanced_bind; [done|]. intros [e|a]; [apply balanced_lift|apply balanced_ret]. Qed.
Lemma balanced_map_errS {A} f (m : MM A) : balanced m → balanced (map_errS f m).
Proof. intros Hm s. rewrite <- (Hm s). unfold map_errS. by destruct (m s). Qed.

(** A body over a clean-up that gives up [r]: together they drop [r]. *)
Definition drops {A} (r : resource) (m : MM A) : Prop := ∀ s, held (snd (m s)) = remove1 r (held s).

Lemma drops_call {R} (op : sysop R) r : (∀ x, acquires op x = []) → releases op = Some r → drops r (call op).
Proof.
  intros Ha Hr s. unfold call. destruct (sys op (world s) (mem s)) as [[x w] m]. cbn. by rewrite Ha, Hr.
Qed.
Lemma drops_bind_l {A B} r (m : MM A) (f : A → MM B) :
  drops r m → (∀ s, ∃ a, fst (m s) = Ok a) → (∀ a, balanced (f a)) → drops r (m ≫= f).
Proof.
  intros Hm Hok Hf s. unfold mbind, SM_bind. rewrite <- (Hm s). destruct (Hok s) as [a Ha].
  destruct (m s) as [ra s1]. cbn in Ha. subst ra. apply Hf.
Qed.
Lemma drops_defer {A} r (body : MM A) cleanup : balanced body → drops r cleanup → drops r (defer body cleanup).
Proof.
  intros Hb Hc s. unfold defer. specialize (Hb s). destruct (body s) as [x s1]. specialize (Hc s1).
  destruct (cleanup s1) as [y s2]. cbn in *. by rewrite Hc, Hb.
Qed.

(** A call that acquires [r], then one that drops it. *)
Definition takes {A} (res : A → resource) (m : MM A) : Prop :=
  ∀ s, held (snd (m s)) = match fst (m s) with Ok a => res a :: held s | _ => held s end.

Lemma takes_bind {A B} res (m : MM A) (f : A → MM B) : takes res m → (∀ a, drops (res a) (f a)) → balanced (m ≫= f).
Proof.
  intros Hm Hf s. unfold mbind, SM_bind. specialize (Hm s). destruct (m s) as [[a|e|p] s1]; cbn in *; [|done..].
  rewrite Hf, Hm. cbn. by rewrite decide_True.
Qed.

Lemma takes_try {A} f (op : sysop (result A)) (res : A → resource) :
  (∀ a, acquires op (inr a) = [res a]) → (∀ e, acquires op (inl e) = []) → releases op = None → takes res (try f (call op)).
Proof.
  intros Ha He Hr s. unfold try, mbind, SM_bind, call. destruct (sys op (world s) (mem s)) as [[[e|a] w] m]; cbn;
    by rewrite ?Ha, ?He, Hr.
Qed.

(** The same with several resources, and a clean-up given as what it leaves. *)
Lemma balanced_bracket {A B} (rs : A → list resource) (o : MM A) (f : A → MM B) :
  (∀ s, held (snd (o s)) = match fst (o s) with Ok a => rs a ++ held s | _ => held s end) →
  (∀ a s h, held s = rs a ++ h → held (snd (f a s)) = h) → balanced (o ≫= f).
Proof.
  intros Ho Hf s. unfold mbind, SM_bind. specialize (Ho s). destruct (o s) as [[a|e|p] s1]; cbn in *; [|done..].
  by apply Hf.
Qed.

Lemma balanced_defer {A} (body : MM A) cleanup : balanced body → balanced cleanup → balanced (defer body cleanup).
Proof.
  intros Hb Hc s. unfold defer. specialize (Hb s). destruct (body s) as [x s1]. specialize (Hc s1).
  destruct (cleanup s1). cbn in *. congruence.
Qed.

(** ** Outcomes *)

(** Every outcome of the call satisfies [Q]. *)
Definition yields {A} (m : MM A) (Q : outcome A → Prop) : Prop := ∀ s, Q (fst (m s)).

Lemma yields_weaken {A} (m : MM A) (P Q : outcome A → Prop) : yields m P → (∀ r, P r → Q r) → yields m Q.
Proof. intros Hm HPQ s. apply HPQ, Hm. Qed.
Lemma yields_ret {A} (a : A) Q : Q (Ok a) → yields (mret a) Q.
Proof. by intros HQ s. Qed.
Lemma yields_lift {A} (m : outcome A) (Q : outcome A → Prop) : Q m → yields (lift m) Q.
Proof. by intros HQ s. Qed.
Lemma yields_call {R} (op : sysop R) (Q : outcome R → Prop) : (∀ r, Q (Ok r)) → yields (call op) Q.
Proof. intros HQ s. unfold call. destruct (sys op (world s) (mem s)) as [[r w] m]. apply HQ. Qed.
Lemma yields_bind {A B} (m : MM A) (f : A → MM B) (P : A → Prop) (Q : outcome B → Prop) :
  yields m (λ r, match r with Ok a => P a | Err e => Q (Err e) | Panic p => Q (Panic p) end) →
  (∀ a, P a → yields (f a) Q) → yields (m ≫= f) Q.
Proof.
  intros Hm Hf s. specialize (Hm s). unfold mbind, SM_bind. destruct (m s) as [[a|e|p] s1]; cbn in *; [|done..].
  by apply Hf.
Qed.
Lemma yields_defer {A} (body : MM A) (cleanup : MM unit) Q : yields body Q → yields (defer body cleanup) Q.
Proof. intros Hb s. specialize (Hb s). unfold defer. destruct (body s) as [r s1]. by destruct (cleanup s1). Qed.
Lemma yields_map_errS {A} f (m : MM A) (Q : outcome A → Prop) : yields m (λ r, Q (map_err f r)) → yields (map_errS f m) Q.
Proof. intros Hm s. specialize (Hm s). unfold map_errS. by destruct (m s). Qed.

Lemma call_Ok {R} (op : sysop R) s : ∃ r, fst (call op s) = Ok r.
Proof. unfold call. destruct (sys op (world s) (mem s)) as [[r w] m]. by exists r. Qed.

End Machine.

Abbreviation MM := (SM machine).

#[export] Hint Resolve balanced_ret balanced_lift balanced_make balanced_put balanced_fetch balanced_bind
  balanced_must balanced_try balanced_map_errS balanced_defer : iks.
#[export] Hint Extern 1 (balanced (call _)) => (apply balanced_call; [intros ?; reflexivity|reflexivity]) : iks.
#[export] Hint Extern 1 (drops _ (call _)) => (apply drops_call; [intros ?; reflexivity|reflexivity]) : iks.
#[export] Hint Extern 5 (balanced (match ?x with _ => _ end)) => destruct x : iks.

(** ** A first-fit allocator of whole pages *)
Definition pages (n : nat) : Z := (4096 * ((Z.of_nat n + 4095) / 4096))%Z.
Definition used (m : memory) (a : Z) (n : nat) : list Z := base.filter (λ x, is_Some (m !! x)) (seqZ a (Z.of_nat n)).
Definition block (n k : nat) : Z := (pages n * (1 + Z.of_nat k))%Z.
Definition firstFit (m : memory) (n : nat) : Z :=
  block n (default 0 (head (base.filter (λ k, used m (block n k) n = []) (seq 0 (S (size m)))))).

Lemma pages_range n : 0 < n → (Z.of_nat n ≤ pages n < Z.of_nat n + 4096)%Z.
Proof.
  intros Hn. unfold pages. pose proof (Z.div_mod (Z.of_nat n + 4095) 4096 ltac:(lia)).
  pose proof (Z.mod_pos_bound (Z.of_nat n + 4095) 4096 ltac:(lia)). lia.
Qed.

Lemma firstFit_aligned m n : (firstFit m n mod 4096 = 0)%Z.
Proof. unfold firstFit, block, pages. rewrite <- Z.mul_assoc, Z.mul_comm. apply Z.mod_mul. lia. Qed.

Lemma used_nil m a n : used m a n = [] → unused m a n.
Proof.
  intros Hu x Hx. destruct (m !! x) eqn:Hm; [|done]. exfalso.
  apply (not_elem_of_nil x). rewrite <- Hu. apply list_elem_of_filter. split; [eauto|]. apply elem_of_seqZ. lia.
Qed.

(** Of more blocks than the memory has bytes, one is unused. *)
Lemma free_block m n : 0 < n → ∃ k, k ∈ seq 0 (S (size m)) ∧ used m (block n k) n = [].
Proof.
  intros Hn. destruct (decide (Exists (λ k, used m (block n k) n = []) (seq 0 (S (size m))))) as [He|He].
  { apply list.Exists_exists in He as (k & ? & ?). eauto. }
  exfalso. apply not_Exists_Forall in He; [|apply _]. rewrite list.Forall_forall in He.
  set (pick := λ k, default 0%Z (head (used m (block n k) n))).
  assert (∀ k, k ∈ seq 0 (S (size m)) → is_Some (m !! pick k) ∧ (block n k ≤ pick k < block n k + Z.of_nat n)%Z) as Hpick.
  { intros k Hk. specialize (He k Hk). subst pick. cbn. destruct (used m (block n k) n) as [|x l] eqn:Hu; [done|].
    assert (x ∈ used m (block n k) n) as Hx by (rewrite Hu; left).
    apply list_elem_of_filter in Hx as [? Hx%elem_of_seqZ]. done. }
  assert (NoDup (pick <$> seq 0 (S (size m)))) as Hnd.
  { apply NoDup_fmap_2_strong; [|apply NoDup_seq]. intros k k' Hk Hk' Heq.
    destruct (Hpick k Hk) as [_ H1], (Hpick k' Hk') as [_ H2]. pose proof (pages_range n Hn). unfold block in *. rewrite Heq in H1. nia. }
  pose proof (size_list_to_set (C := gset Z) _ Hnd) as Hsize. rewrite length_fmap, length_seq in Hsize.
  assert (list_to_set (pick <$> seq 0 (S (size m))) ⊆@{gset Z} dom m) as Hsub.
  { intros x Hx. apply elem_of_list_to_set, list_elem_of_fmap in Hx as (k & -> & Hk). apply elem_of_dom. by apply Hpick. }
  apply subseteq_size in Hsub. rewrite size_dom in Hsub. lia.
Qed.

Lemma firstFit_ok m n : 0 < n → room m (Z.of_nat n) →
  unused m (firstFit m n) n ∧ (0 < firstFit m n)%Z ∧ (firstFit m n + Z.of_nat n < 2 ^ 64)%Z.
Proof.
  intros Hn Hroom. destruct (free_block m n Hn) as (k & Hk & Hu). unfold firstFit.
  destruct (base.filter _ _) as [|k0 ks] eqn:Hf.
  { exfalso. apply (not_elem_of_nil k). rewrite <- Hf. by apply list_elem_of_filter. }
  assert (k0 ∈ base.filter (λ k, used m (block n k) n = []) (seq 0 (S (size m)))) as H0 by (rewrite Hf; left).
  apply list_elem_of_filter in H0 as [H0 H1]. apply elem_of_seq in H1. cbn [head from_option]. unfold id.
  split; [by apply used_nil|]. pose proof (pages_range n Hn). unfold block, room in *.
  assert (pages n * 1 ≤ pages n * (1 + Z.of_nat k0) ≤ 2 ^ 32 * 2 ^ 31)%Z as Hb.
  { split; [apply Z.mul_le_mono_nonneg_l; lia|apply Z.mul_le_mono_nonneg; lia]. }
  change (2 ^ 32 * 2 ^ 31)%Z with (2 ^ 63)%Z in *. lia.
Qed.

End Machine.
