(* ===== verification/Regex.v ===== *)
(** * regexp: the anchored expressions of the program

    The constructs of Go's syntax the program's patterns use, as an abstract
    syntax, with a derivative matcher and its correctness against the language
    an expression denotes. The classes are ASCII, so matching bytes agrees with
    matching code points. *)
From S2P Require Import Prelude Bytes.

Module Regex.

Inductive re :=
  | Empty
  | Eps
  | Cls (p : byte → bool)
  | Seq (r s : re)
  | Alt (r s : re)
  | Star (r : re).

(** [r+], [r?], [r{n}], [r{n,}], and a literal string. *)
Definition Plus (r : re) : re := Seq r (Star r).
Definition Opt (r : re) : re := Alt r Eps.
Fixpoint Rep (n : nat) (r : re) : re :=
  match n with O => Eps | S n => Seq r (Rep n r) end.
Definition RepFrom (n : nat) (r : re) : re := Seq (Rep n r) (Star r).
Definition Lit (s : bytes) : re := foldr (λ b r, Seq (Cls (λ c, bool_decide (c = b))) r) Eps s.

(** ** The language *)
Inductive matches : re → bytes → Prop :=
  | MEps : matches Eps []
  | MCls p b : p b = true → matches (Cls p) [b]
  | MSeq r s l k : matches r l → matches s k → matches (Seq r s) (l ++ k)
  | MAltL r s l : matches r l → matches (Alt r s) l
  | MAltR r s l : matches s l → matches (Alt r s) l
  | MStarNil r : matches (Star r) []
  | MStarApp r l k : matches r l → matches (Star r) k → matches (Star r) (l ++ k).

(** ** The matcher *)
Fixpoint nullable (r : re) : bool :=
  match r with
  | Empty | Cls _ => false
  | Eps | Star _ => true
  | Seq r s => nullable r && nullable s
  | Alt r s => nullable r || nullable s
  end.

Fixpoint deriv (b : byte) (r : re) : re :=
  match r with
  | Empty | Eps => Empty
  | Cls p => if p b then Eps else Empty
  | Seq r s => if nullable r then Alt (Seq (deriv b r) s) (deriv b s) else Seq (deriv b r) s
  | Alt r s => Alt (deriv b r) (deriv b s)
  | Star r => Seq (deriv b r) (Star r)
  end.

(** [regexp.MustCompile("^...$").MatchString(s)] *)
Fixpoint MatchString (r : re) (s : bytes) : bool :=
  match s with
  | [] => nullable r
  | b :: s => MatchString (deriv b r) s
  end.

(** ** Correctness *)
Lemma matches_Seq r s l : matches (Seq r s) l ↔ ∃ l1 l2, l = l1 ++ l2 ∧ matches r l1 ∧ matches s l2.
Proof.
  split; [intros H; inversion H; subst; eauto|]. intros (l1 & l2 & -> & ? & ?). by constructor.
Qed.

Lemma nullable_spec r : nullable r = true ↔ matches r [].
Proof.
  induction r; cbn [nullable]; (split; intros H; [|inversion H; subst]); try done.
  - constructor.
  - apply andb_true_iff in H as [??]. change (@nil byte) with (@nil byte ++ []). constructor; naive_solver.
  - apply andb_true_iff. destruct (app_eq_nil _ _ H2). subst. naive_solver.
  - apply orb_true_iff in H as [?|?]; [apply MAltL|apply MAltR]; naive_solver.
  - apply orb_true_iff. naive_solver.
  - apply orb_true_iff. naive_solver.
  - constructor.
Qed.

Lemma star_cons r b s : matches (Star r) (b :: s) →
  ∃ l k, s = l ++ k ∧ matches r (b :: l) ∧ matches (Star r) k.
Proof.
  intros Hm. remember (Star r) as R eqn:HR. remember (b :: s) as w eqn:Hw.
  revert b s Hw. induction Hm as [| | | | | |r' l k Hl _ Hk IHk]; intros c t Hw; try discriminate.
  injection HR as ->. destruct l as [|c' l]; [by apply IHk|].
  injection Hw as -> <-. eauto.
Qed.

Lemma deriv_spec b r s : matches (deriv b r) s ↔ matches r (b :: s).
Proof.
  revert s. induction r as [| |p|r IHr r' IHr'|r IHr r' IHr'|r IHr]; intros s; cbn [deriv].
  - split; intros H; inversion H.
  - split; intros H; inversion H.
  - destruct (p b) eqn:Hp; split; intros H; inversion H; subst; [by constructor|constructor|congruence].
  - assert (matches (Seq (deriv b r) r') s →  matches (Seq r r') (b :: s)) as H1.
    { intros H. inversion H; subst. rewrite app_comm_cons. constructor; [by apply IHr|done]. }
    destruct (nullable r) eqn:Hn.
    + split.
      * intros H. inversion H; subst; [by apply H1|]. apply nullable_spec in Hn.
        change (b :: s) with ([] ++ b :: s). constructor; [done|by apply IHr'].
      * intros (l & k & Heq & Hl & Hk)%matches_Seq. destruct l as [|c l]; cbn in Heq.
        -- subst k. apply MAltR. by apply IHr'.
        -- injection Heq as <- ->. apply MAltL. constructor; [by apply IHr|done].
    + split; [done|]. intros (l & k & Heq & Hl & Hk)%matches_Seq. destruct l as [|c l]; cbn in Heq.
      * apply nullable_spec in Hl. congruence.
      * injection Heq as <- ->. constructor; [by apply IHr|done].
  - split; intros H; inversion H; subst; [apply MAltL|apply MAltR|apply MAltL|apply MAltR]; naive_solver.
  - split.
    + intros H. inversion H; subst. rewrite app_comm_cons. constructor; [by apply IHr|done].
    + intros (l & k & -> & Hl & Hk)%star_cons. constructor; [by apply IHr|done].
Qed.

Lemma MatchString_spec r s : MatchString r s = true ↔ matches r s.
Proof.
  revert r. induction s as [|b s IH]; intros r; cbn [MatchString]; [apply nullable_spec|].
  by rewrite IH, deriv_spec.
Qed.

(** ** Languages of the derived forms *)
Lemma matches_Star_Cls p s : matches (Star (Cls p)) s ↔ Forall (λ b, p b = true) s.
Proof.
  split.
  - remember (Star (Cls p)) as R eqn:HR. intros Hm.
    induction Hm as [| | | | | |r l k Hl _ Hk IHk]; try discriminate; [constructor|].
    injection HR as ->. inversion Hl; subst. constructor; [done|by apply IHk].
  - induction 1 as [|b s Hb Hs IH]; [constructor|].
    change (b :: s) with ([b] ++ s). constructor; [by constructor|done].
Qed.

Lemma matches_Cls p l : matches (Cls p) l ↔ ∃ b, l = [b] ∧ p b = true.
Proof. split; [intros H; inversion H; subst; eauto|]. intros (b & -> & ?). by constructor. Qed.

Lemma matches_Plus_Cls p s : matches (Plus (Cls p)) s ↔ s ≠ [] ∧ Forall (λ b, p b = true) s.
Proof.
  unfold Plus. rewrite matches_Seq. setoid_rewrite matches_Cls. setoid_rewrite matches_Star_Cls. split.
  - intros (l1 & l2 & -> & (b & -> & Hb) & Hs). split; [done|]. by constructor.
  - intros [Hne Hs]. destruct Hs as [|b s Hb Hs]; [done|]. exists [b], s. eauto.
Qed.

(** Every byte of a match satisfies a property all the classes imply. *)
Fixpoint classes (Q : byte → Prop) (r : re) : Prop :=
  match r with
  | Empty | Eps => True
  | Cls p => ∀ b, p b = true → Q b
  | Seq r s | Alt r s => classes Q r ∧ classes Q s
  | Star r => classes Q r
  end.

Lemma matches_classes Q r s : classes Q r → matches r s → Forall Q s.
Proof.
  intros Hc Hm. induction Hm; cbn in Hc; try (constructor; naive_solver);
    try (apply Forall_app; naive_solver); naive_solver.
Qed.

End Regex.
