(* ===== verification/ChipID.v ===== *)
(** * pkg/chipid: the chip identifier of an AMD processor

    The vendor from /proc/cpuinfo, the ChipID payload of the UEFI event log, the
    SEV_GET_ID2 ioctl on /dev/sev, and [Extract], which tries the sources in
    order. The event log parser (go-eventlog) is a parameter; so is, here, the
    direct read from the device that [ChipIDPCIe] models. *)
From S2P Require Import Prelude Bytes Text Os Machine.
Import Text Os Machine.

Module ChipID.

(** ** chipid.go: data *)
Definition VendorAMDSEVSNP : bytes := str "amd-sev-snp".
Record Result := mkResult { Vendor : bytes; ID : bytes }.

Definition newline : byte := Byte.x0a.
Definition colon : byte := Byte.x3a.
Definition cpuInfoPath : path := str <$> ["proc"; "cpuinfo"]%string.
Definition uefiEventLogPath : path := str <$> ["sys"; "kernel"; "security"; "tpm0"; "binary_bios_measurements"]%string.
Definition amdChipIDSize : nat := 64.
Definition ivesTag : bytes := [Byte.x49; Byte.x56; Byte.x45; Byte.x53].

(** ** The vendor *)
Fixpoint vendorLoop (lines : list bytes) : bytes :=
  match lines with
  | [] => []
  | line :: lines =>
    let '(key, value, ok) := Cut colon line in
    if negb ok || negb (bool_decide (TrimSpace key = str "vendor_id")) then vendorLoop lines
    else TrimSpace value
  end.
Definition parseCPUVendor (content : bytes) : bytes := vendorLoop (Split newline content).

Definition linuxCPUVendor (fs : FS) : bytes :=
  match ReadFile fs cpuInfoPath with inl _ => [] | inr data => parseCPUVendor data end.

(** [init]: the vendor found, and whether the AMD extractor was selected. *)
Definition init (fs : FS) (GOOS GOARCH : bytes) : bytes * bool :=
  if decide (GOOS ≠ str "linux" ∨ GOARCH ≠ str "amd64") then ([], false) else
  let cpuVendorID := linuxCPUVendor fs in
  (cpuVendorID, bool_decide (cpuVendorID = str "AuthenticAMD")).

(** ** The event log *)

(** [raw[0:4]] and [raw[8:72]] are within the bounds checked. *)
Definition ParseAMDChipIDPayload (raw : bytes) : outcome bytes :=
  if decide (length raw < 8 + amdChipIDSize) then Err (err_fmt "payload too short: %d bytes" [AInt (zlen raw)])
  else if decide (take 4 raw ≠ ivesTag) then Err (err_msg "payload missing IVES tag")
  else Ok (take amdChipIDSize (drop 8 raw)).

(** [tcg.Event], of which the index and the raw data are used. *)
Record Event := mkEvent { Index : Z; RawData : bytes }.

Fixpoint extractAMDChipID (events : list Event) : outcome Result :=
  match events with
  | [] => Err (err_msg "AMD SEV-SNP ChipID event not found in PCR1 event log")
  | event :: events =>
    if decide (Index event ≠ 1)%Z then extractAMDChipID events else
    match ParseAMDChipIDPayload (RawData event) with
    | Ok id => Ok (mkResult VendorAMDSEVSNP id)
    | _ => extractAMDChipID events
    end
  end.

(** ** chipid_sev_dev.go *)
Definition sevGetID2 : Z := 8.
Definition getID2Size : nat := 12.
Definition sevIssueCmdSize : nat := 16.
Definition sevIssueCmdErrOff : Z := 12.

Definition iocNRBits : Z := 8.
Definition iocTypeBits : Z := 8.
Definition iocSizeBits : Z := 14.
Definition iocNRShift : Z := 0.
Definition iocTypeShift : Z := iocNRShift + iocNRBits.
Definition iocSizeShift : Z := iocTypeShift + iocTypeBits.
Definition iocDirShift : Z := iocSizeShift + iocSizeBits.
Definition iocWrite : Z := 1.
Definition iocRead : Z := 2.

(** [uintptr] has 64 bits. *)
Definition ioc (dir typ nr size : Z) : Z :=
  Z.lor (Z.lor (Z.lor (u64 (Z.shiftl dir iocDirShift)) (u64 (Z.shiftl typ iocTypeShift)))
    (u64 (Z.shiftl nr iocNRShift))) (u64 (Z.shiftl size iocSizeShift)).
Definition sevIssueCmdIOCTL : Z := ioc (Z.lor iocRead iocWrite) 0x53 0 (Z.of_nat sevIssueCmdSize).

Section Kernel.
Context {W : Type} `{!Kernel W}.

(** What is made of the buffers after the ioctl. *)
Definition sevResult (errno sevError length : Z) (chipID : bytes) : outcome bytes :=
  if decide (errno ≠ 0)%Z then
    if decide (sevError ≠ 0)%Z then Err (EFmt "SEV_GET_ID2 ioctl: %w (SEV firmware error %d)" [AInt sevError] [EErrno errno])
    else Err (err_wrap "SEV_GET_ID2 ioctl: %w" (EErrno errno))
  else if decide (sevError ≠ 0)%Z then Err (err_fmt "SEV_GET_ID2 ioctl returned SEV firmware error %d" [AInt sevError])
  else if decide (length = 0 ∨ Z.of_nat amdChipIDSize < length)%Z then
    Err (err_fmt "SEV_GET_ID2 returned invalid ChipID length %d" [AInt length])
  else Ok (take (Z.to_nat length) chipID).

Definition devSEV : path := str <$> ["dev"; "sev"]%string.

Definition issueGetID2 (device : Z) : MM bytes :=
  chipID ← make amdChipIDSize;
  getID2 ← make getID2Size;
  _ ← put getID2 (le_bytes 8 chipID);
  _ ← put (getID2 + 8) (le_bytes 4 (Z.of_nat amdChipIDSize));
  cmd ← make sevIssueCmdSize;
  _ ← put cmd (le_bytes 4 sevGetID2);
  _ ← put (cmd + 4) (le_bytes 8 getID2);
  errno ← call (Ioctl device sevIssueCmdIOCTL cmd);
  sevError ← fetch (cmd + sevIssueCmdErrOff) 4;
  length ← fetch (getID2 + 8) 4;
  data ← fetch chipID amdChipIDSize;
  lift (sevResult errno (le_Z sevError) (le_Z length) data).

Definition readSEVChipID : MM bytes :=
  device ← try id (call (OpenFile devSEV));
  defer (issueGetID2 device) (_ ← call (CloseFile device); mret ()).

(** ** [Extract] and [Get] *)
Section Extract.
Variable fs : FS.
(** [tcg.ParseEventLog] and [Events(register.HashSHA256)]. *)
Variable ParseEventLog : bytes → result (list Event).
Variable readSEVChipIDDirect : SM (@machine W) Result.

(** After /dev/sev is known to be absent. *)
Definition fallback : MM Result :=
  data ← match ReadFile fs uefiEventLogPath with
    | inl err => lift (Err (err_wrap "failed to read UEFI event log: %w" err))
    | inr data => mret data
    end;
  events ← match ParseEventLog data with
    | inl err => lift (Err (err_wrap "failed to parse event log: %w" err))
    | inr events => mret events
    end;
  match extractAMDChipID events with
  | Ok result => mret result
  | _ => map_errS (err_wrap "failed direct ChipID read from SP: %w") readSEVChipIDDirect
  end.

Definition Extract : MM Result := λ s,
  match readSEVChipID s with
  | (Ok data, s) => (Ok (mkResult VendorAMDSEVSNP data), s)
  | (Err err, s) =>
    if errors_Is os_ErrNotExist err then fallback s
    else (Err (err_wrap "failed to read ID from ASP: %w" err), s)
  | (Panic p, s) => (Panic p, s)
  end.

Definition Get (GOOS GOARCH : bytes) : MM Result :=
  let '(cpuVendorID, selected) := init fs GOOS GOARCH in
  if selected then map_errS (err_wrap "no chip ID found: %w") Extract
  else lift (Err (err_fmt "no chip ID extractor registered for %s/%s vendor_id=%s"
                    [AStr GOOS; AStr GOARCH; AStr cpuVendorID])).
End Extract.
End Kernel.

(** ** /dev/sev *)

(** The Linux driver on SEV_ISSUE_CMD (0xC0105300) with the command SEV_GET_ID2: it follows the
    pointer of the command to the request, and that of the request to the buffer. *)
Definition sevDriver {W} `{!Kernel W} (id : bytes) : Prop :=
  (∀ w m, ∃ fd w', sys (OpenFile devSEV) w m = (inr fd, w', m)) ∧
  ∀ fd cmd w m,
    le_Z (load cmd 4 m) = 8%Z →
    let request := le_Z (load (cmd + 4) 8 m) in
    let buffer := le_Z (load request 8 m) in
    (Z.of_nat (length id) ≤ le_Z (load (request + 8) 4 m))%Z →
    ∃ w', sys (Ioctl fd 0xC0105300 cmd) w m =
      (0%Z, w', store (cmd + 12) (le_bytes 4 0) (store (request + 8) (le_bytes 4 (zlen id)) (store buffer id m))).

Lemma sevIssueCmdIOCTL_value : sevIssueCmdIOCTL = 0xC0105300%Z.
Proof. reflexivity. Qed.

Section Read.
Context {W : Type} `{!Kernel W}.

Lemma sevResult_inv errno sevError len chipID id : length chipID = amdChipIDSize →
  sevResult errno sevError len chipID = Ok id → (0 ≤ len)%Z → (0 < length id ≤ amdChipIDSize)%nat.
Proof.
  intros Hl. unfold sevResult. repeat case_decide; try done. intros [= <-] Hlen.
  rewrite length_take, Hl. unfold amdChipIDSize in *. lia.
Qed.

(** Where the three buffers are, given what is in memory when each is made. *)
Lemma buffers_apart m : allocates → room m 104 →
  let c := place m 64 in let m1 := store c (replicate 64 Byte.x00) m in
  let g := place m1 12 in
  let m3 := store (g + 8) (le_bytes 4 64) (store g (le_bytes 8 c) (store g (replicate 12 Byte.x00) m1)) in
  let k := place m3 16 in
  (0 < c < 2 ^ 64 ∧ 0 < g < 2 ^ 64)%Z ∧ disj c 64 g 12 ∧ disj g 12 k 16 ∧ disj c 64 k 16.
Proof.
  intros Halloc Hroom c m1 g m3 k.
  destruct (Halloc m 64 ltac:(lia) ltac:(by eapply room_mono; [exact Hroom|])) as (_ & Hc0 & Hc1). fold c in Hc0, Hc1.
  assert (room m1 40) as Hroom1 by (apply (room_store c _ m 64 40); [exact Hroom|done]).
  assert (room m3 16) as Hroom3.
  { apply (room_store _ _ _ 4 16); [|done]. apply (room_store _ _ _ 8 20); [|done].
    apply (room_store _ _ _ 12 28); [|done]. exact Hroom1. }
  destruct (Halloc m1 12 ltac:(lia) ltac:(by eapply room_mono; [exact Hroom1|])) as (Hg & Hg0 & Hg1). fold g in Hg, Hg0, Hg1.
  destruct (Halloc m3 16 ltac:(lia) Hroom3) as (Hk & _). fold k in Hk.
  assert (mapped m3 g 12) as Mg by by apply mapped_mono, mapped_mono, (mapped_store g (replicate 12 Byte.x00)).
  assert (mapped m3 c 64) as Mc
    by by apply mapped_mono, mapped_mono, mapped_mono, (mapped_store c (replicate 64 Byte.x00)).
  split; [lia|]. split; [|split].
  - apply (mapped_unused_disj m1); [lia|lia|apply (mapped_store c (replicate 64 Byte.x00))|done].
  - by apply (mapped_unused_disj m3); [lia|lia|..].
  - by apply (mapped_unused_disj m3); [lia|lia|..].
Qed.

(** The run of [issueGetID2] up to and including the ioctl. *)
Lemma issueGetID2_Ok fd id s : allocates → sevDriver id → length id = amdChipIDSize →
  room (mem s) 104 → fst (issueGetID2 fd s) = Ok id.
Proof.
  intros Halloc [_ Hioctl] Hid Hroom. destruct s as [m w h]. cbn [mem] in Hroom. unfold issueGetID2.
  unfold mbind, SM_bind, make, put, fetch, call, lift. cbn [mem world held].
  unfold amdChipIDSize, getID2Size, sevIssueCmdSize in *.
  destruct (buffers_apart m Halloc Hroom) as (Hrange & Dcg & Dgk & Dck).
  set (c := place m 64) in *. set (m1 := store c _ m) in *. set (g := place m1 12) in *.
  change (Z.of_nat 64) with 64%Z. set (m3 := store (g + 8) _ _) in *. set (k := place m3 16) in *.
  set (m6 := store (k + 4) _ _). unfold disj in Dcg, Dgk, Dck.
  assert (load k 4 m6 = le_bytes 4 sevGetID2) as L1.
  { unfold m6. rewrite load_store_disj by (unfold disj; rewrite length_le_bytes; lia). by apply load_store_eq. }
  assert (load (k + 4) 8 m6 = le_bytes 8 g) as L2 by by apply load_store_eq.
  assert (∀ a n, disj a n k 16 → load a n m6 = load a n m3) as L3.
  { intros a n Hd. unfold m6, disj in *.
    do 3 (rewrite load_store_disj by (unfold disj; rewrite ?length_le_bytes, ?length_replicate; lia)). done. }
  assert (load g 8 m6 = le_bytes 8 c) as L4.
  { rewrite L3 by (unfold disj; lia). unfold m3. rewrite load_store_disj by (unfold disj; rewrite length_le_bytes; lia).
    by apply load_store_eq. }
  assert (load (g + 8) 4 m6 = le_bytes 4 64) as L5.
  { rewrite L3 by (unfold disj; lia). by apply load_store_eq. }
  specialize (Hioctl fd k w m6). rewrite L1, L2 in Hioctl. cbv zeta in Hioctl.
  rewrite (le_Z_le_bytes 8 g), Z.mod_small in Hioctl by lia. rewrite L4, L5 in Hioctl.
  rewrite (le_Z_le_bytes 8 c), Z.mod_small in Hioctl by lia.
  destruct Hioctl as [w' Hio]; [done|rewrite Hid; done|]. unfold zlen in Hio. rewrite Hid in Hio.
  change (sys (Ioctl fd sevIssueCmdIOCTL k) w m6) with (sys (Ioctl fd 0xC0105300 k) w m6). rewrite Hio. cbn [fst mem].
  unfold sevIssueCmdErrOff. rewrite load_store_eq by done.
  rewrite load_store_disj by (unfold disj; rewrite length_le_bytes; lia). rewrite load_store_eq by done.
  do 2 (rewrite load_store_disj by (unfold disj; rewrite length_le_bytes; lia)). rewrite load_store_eq by done.
  unfold sevResult. rewrite !le_Z_le_bytes. cbn -[take]. rewrite take_ge; [done|]. rewrite Hid. done.
Qed.

Lemma balanced_readSEVChipID : balanced readSEVChipID.
Proof.
  apply (takes_bind RFile); [by apply takes_try|]. intros fd. apply drops_defer.
  - unfold issueGetID2. eauto 20 with iks.
  - apply drops_bind_l; [eauto with iks|apply call_Ok|eauto with iks].
Qed.

Lemma defer_fst {A} (body : MM A) (cleanup : SM (@machine W) unit) s : fst (defer body cleanup s) = fst (body s).
Proof. unfold defer. destruct (body s) as [r s1]. by destruct (cleanup s1). Qed.

Lemma readSEVChipID_cases s : ∃ r, fst (readSEVChipID s) = r ∧ (∀ p, r ≠ Panic p) ∧
  ∀ id, r = Ok id → (0 < length id ≤ amdChipIDSize)%nat.
Proof.
  eexists. split; [reflexivity|]. unfold readSEVChipID, try. unfold mbind, SM_bind. destruct (call _ s) as [r1 s1] eqn:Hc.
  assert (∃ r, r1 = Ok r) as [r ->] by (destruct (call_Ok (OpenFile devSEV) s) as [r Hr]; rewrite Hc in Hr; eauto).
  destruct r as [err|fd]; [done|]. cbn [mret SM_ret]. rewrite defer_fst. generalize s1. clear. intros s1.
  unfold issueGetID2, mbind, SM_bind, make, put, fetch, call, lift. cbn [mem world held].
  destruct (sys _ _ _) as [[errno w] m]. cbn [fst].
  split; [unfold sevResult; intros p; repeat case_decide; done|].
  intros id Hid. eapply sevResult_inv; [|exact Hid|apply le_Z_range]. apply length_load.
Qed.

(** C25: with the Linux driver and the Go allocator, the buffers and pointers the code lays out make
    the ioctl return the processor's identifier; whatever the kernel does, the read never panics,
    closes the device, and returns an identifier of 1 to 64 bytes or an error. *)
Theorem readSEVChipID_correct s :
  (∀ id, allocates → sevDriver id → length id = amdChipIDSize → room (mem s) 104 →
     fst (readSEVChipID s) = Ok id) ∧
  held (snd (readSEVChipID s)) = held s ∧
  match fst (readSEVChipID s) with
  | Ok id => (0 < length id ≤ amdChipIDSize)%nat
  | Err _ => True
  | Panic _ => False
  end.
Proof.
  split; [|split; [apply balanced_readSEVChipID|]].
  - intros id Halloc Hsev Hid Hroom. unfold readSEVChipID, try. unfold mbind, SM_bind, call at 1.
    destruct (proj1 Hsev (world s) (mem s)) as (fd & w' & ->). cbn [mret SM_ret]. rewrite defer_fst.
    by apply issueGetID2_Ok.
  - destruct (readSEVChipID_cases s) as (r & -> & Hp & Hid). destruct r; [by apply Hid|done|by eapply Hp].
Qed.

(** ** The order of the sources *)
Definition validPayload (raw : bytes) : Prop := (8 + amdChipIDSize ≤ length raw)%nat ∧ take 4 raw = ivesTag.

Lemma ParseAMDChipIDPayload_spec raw id : ParseAMDChipIDPayload raw = Ok id ↔
  validPayload raw ∧ id = take amdChipIDSize (drop 8 raw).
Proof.
  unfold ParseAMDChipIDPayload, validPayload. repeat case_decide; split; try done.
  - intros [[? _] _]. lia.
  - by intros [[_ ?] _].
  - intros [= <-]. split; [|done]. split; [lia|done].
  - by intros [_ ->].
Qed.

Lemma extractAMDChipID_Ok events r : extractAMDChipID events = Ok r ↔ ∃ pre ev post,
  events = pre ++ ev :: post ∧ Index ev = 1%Z ∧ validPayload (RawData ev) ∧
  r = mkResult VendorAMDSEVSNP (take amdChipIDSize (drop 8 (RawData ev))) ∧
  ∀ ev', ev' ∈ pre → Index ev' = 1%Z → ¬ validPayload (RawData ev').
Proof.
  assert (∀ ev, (∃ id, ParseAMDChipIDPayload (RawData ev) = Ok id) ↔ validPayload (RawData ev)) as Hv.
  { intros ev. setoid_rewrite ParseAMDChipIDPayload_spec. split; [by intros (? & ? & _)|eauto]. }
  induction events as [|ev events IH]; cbn [extractAMDChipID].
  { split; [done|]. intros (pre & ? & ? & Heq & _). by destruct pre. }
  assert (¬ (Index ev = 1%Z ∧ validPayload (RawData ev)) → extractAMDChipID events = Ok r ↔ ∃ pre ev0 post,
    ev :: events = pre ++ ev0 :: post ∧ Index ev0 = 1%Z ∧ validPayload (RawData ev0) ∧
    r = mkResult VendorAMDSEVSNP (take amdChipIDSize (drop 8 (RawData ev0))) ∧
    ∀ ev', ev' ∈ pre → Index ev' = 1%Z → ¬ validPayload (RawData ev')) as Hskip.
  { intros Hn. rewrite IH. split.
    - intros (pre & ev0 & post & -> & ? & ? & ? & Hpre). exists (ev :: pre), ev0, post. do 4 (split; [done|]).
      intros ev' [->|Hin]%elem_of_cons ?; [tauto|by apply Hpre].
    - intros (pre & ev0 & post & Heq & ? & ? & ? & Hpre). destruct pre as [|ev1 pre]; injection Heq as -> ->; [tauto|].
      exists pre, ev0, post. do 4 (split; [done|]). intros ev' Hin. apply Hpre. by right. }
  case_decide as Hi; [apply Hskip; tauto|].
  destruct (ParseAMDChipIDPayload (RawData ev)) as [id|e|p] eqn:Hp.
  2,3: apply Hskip; intros [_ Hval]; apply Hv in Hval as [? ?]; congruence.
  apply ParseAMDChipIDPayload_spec in Hp as [Hval ->]. split.
  - intros [= <-]. exists [], ev, events. split; [done|]. split; [lia|]. do 2 (split; [done|]). by intros ? ?%elem_of_nil.
  - intros (pre & ev0 & post & Heq & ? & ? & -> & Hpre). destruct pre as [|ev1 pre]; injection Heq as -> ->; [done|].
    exfalso. apply (Hpre ev1); [left|lia|done].
Qed.

Lemma extractAMDChipID_total events ev : ev ∈ events → Index ev = 1%Z → validPayload (RawData ev) →
  ∃ r, extractAMDChipID events = Ok r.
Proof.
  intros Hin Hidx Hval. induction events as [|ev' events IH]; [by apply elem_of_nil in Hin|].
  cbn [extractAMDChipID]. apply elem_of_cons in Hin as [<-|Hin].
  - rewrite decide_False by tauto.
    assert (ParseAMDChipIDPayload (RawData ev) = Ok (take amdChipIDSize (drop 8 (RawData ev)))) as -> by
      by apply ParseAMDChipIDPayload_spec. eauto.
  - case_decide; [by apply IH|]. destruct (ParseAMDChipIDPayload _); eauto.
Qed.

(** When [Extract] goes to the device itself. *)
Definition directAllowed (fs : FS) (ParseEventLog : bytes → result (list Event)) (s : @machine W) : Prop :=
  ∃ err data events, fst (readSEVChipID s) = Err err ∧ errors_Is os_ErrNotExist err = true ∧
    ReadFile fs uefiEventLogPath = inr data ∧ ParseEventLog data = inr events ∧
    ∀ ev, ev ∈ events → Index ev = 1%Z → ¬ validPayload (RawData ev).

(** C26: poking the device directly is the last resort: the direct read has no influence on [Extract],
    its state included, unless /dev/sev is absent and the event log was read, was parsed, and holds
    no ChipID in PCR 1. An unreadable log is an error and not such a case. *)
Theorem Extract_last_resort fs ParseEventLog direct direct' s : ¬ directAllowed fs ParseEventLog s →
  Extract fs ParseEventLog direct s = Extract fs ParseEventLog direct' s.
Proof.
  intros Hn. unfold Extract. destruct (readSEVChipID s) as [[data|err|p] s1] eqn:Hr; [done| |done].
  destruct (errors_Is _ _) eqn:He; [|done]. unfold fallback, mbind, SM_bind, lift, mret, SM_ret.
  destruct (ReadFile fs _) as [e|data] eqn:Hf; [done|]. destruct (ParseEventLog data) as [e|events] eqn:Hp; [done|].
  destruct (extractAMDChipID events) as [r|e|p] eqn:Hx; [done|..]; exfalso; apply Hn;
    exists err, data, events; rewrite Hr; do 4 (split; [done|]); intros ev Hin Hidx Hval;
    destruct (extractAMDChipID_total events ev Hin Hidx Hval) as [r Hok]; congruence.
Qed.

End Read.

(** ** Examples and a host *)
Example vendor_first : parseCPUVendor (str "processor	: 0
vendor_id	: AuthenticAMD
vendor_id	: GenuineIntel") = str "AuthenticAMD".
Proof. vm_compute. reflexivity. Qed.
Example vendor_none : parseCPUVendor (str "vendor_id AuthenticAMD
model : 1") = [].
Proof. vm_compute. reflexivity. Qed.

Module Demo.

Definition chip : bytes := replicate 64 (byte_of_Z 0xA5).

(** A kernel with the SEV driver for [chip]; the other calls fail or do nothing. *)
Definition demoSys {R} (op : sysop R) (w : unit) (m : memory) : R * unit * memory :=
  match op in sysop R return R * unit * memory with
  | OpenFile p => (if decide (p = devSEV) then inr 3%Z else inl (EErrno ENOENT), w, m)
  | Ioctl fd req cmd =>
    let request := le_Z (load (cmd + 4) 8 m) in
    let buffer := le_Z (load request 8 m) in
    if decide (req = 0xC0105300 ∧ le_Z (load cmd 4 m) = 8 ∧ 64 ≤ le_Z (load (request + 8) 4 m))%Z
    then (0%Z, w, store (cmd + 12) (le_bytes 4 0) (store (request + 8) (le_bytes 4 64) (store buffer chip m)))
    else (22%Z, w, m)
  | CloseFile _ | Seek _ _ | Unmap _ | Mlock _ _ | Munlock _ _ => (None, w, m)
  | Read _ _ | MapRegion _ _ _ => (inl (EErrno ENOENT), w, m)
  | RegRead _ _ | Now => (0%Z, w, m)
  | RegWrite _ _ _ | Sleep _ => (tt, w, m)
  end.
#[export] Instance demoKernel : Kernel unit := {| sys := @demoSys; place := firstFit |}.

Lemma demo_allocates : allocates.
Proof. intros m n Hn Hr. by apply firstFit_ok. Qed.

Lemma demo_driver : sevDriver chip.
Proof.
  split; [intros [] m; by exists 3%Z, tt|]. intros fd cmd [] m Hcmd request buffer Hlen. exists tt.
  change (zlen chip) with 64%Z. cbn [sys demoKernel demoSys].
  rewrite decide_True; [done|]. split; [done|]. split; [done|exact Hlen].
Qed.

Definition boot : @machine unit := mkMachine ∅ tt [].

Lemma readSEVChipID_correct_witness : fst (readSEVChipID boot) = Ok chip ∧ held (snd (readSEVChipID boot)) = [].
Proof.
  destruct (readSEVChipID_correct boot) as (Hok & Hheld & _).
  split; [apply (Hok chip demo_allocates demo_driver); vm_compute; congruence|exact Hheld].
Defined.

(** No file can be read here, and one of the two direct reads panics. *)
Definition noFS : FS :=
  let none {A} (_ : path) : result A := inl (ESentinel os_ErrNotExist) in mkFS none none none none.

Lemma Extract_last_resort_witness :
  Extract noFS (λ _, inr []) (lift (Err (err_msg "no device"))) boot =
  Extract noFS (λ _, inr []) (lift (Panic NilDereference)) boot.
Proof.
  apply (Extract_last_resort noFS (λ _, inr []) _ _ boot).
  intros (err & data & events & Herr & _). vm_compute in Herr. discriminate.
Defined.

End Demo.

End ChipID.
