(* ===== verification/ChipIDPCIe.v ===== *)
(** * pkg/chipid: the chip identifier straight from the security processor

    The PCI scan for AMD's security processor, the mapping of its registers
    through /dev/mem, the GET_ID command over its mailbox with a DMA buffer, and
    the loop that waits for the answer. *)
From S2P Require Import Prelude Bytes Text Os Machine ChipID.
Import Text Os Machine ChipID.

Module ChipIDPCIe.

(** ** Constants *)
Definition amdPCIVendorID : Z := 0x1022.
Definition aspRegCmdResp : Z := 0x10980.
Definition aspRegCmdBuffLo : Z := 0x109e0.
Definition aspRegCmdBuffHi : Z := 0x109e4.
Definition aspCmdRespCmdShift : Z := 16.
Definition aspCmdRespRespBit : Z := Z.shiftl 1 31.
Definition aspCmdRespStsMask : Z := 0xFFFF.
Definition sevCmdGetID : Z := 0x00C.
(** Durations are in nanoseconds. *)
Definition aspTimeout : Z := 5 * 10 ^ 9.
Definition pollInterval : Z := 100 * 10 ^ 3.
Definition aspDeviceIDs : list Z := [0x1456; 0x1486; 0x14CA; 0x156E; 0x15DF; 0x1649; 0x17D8]%Z.
Definition aspChipIDSentinel : bytes :=
  concat (replicate (amdChipIDSize `div` 4) [Byte.xde; Byte.xad; Byte.xbe; Byte.xef]).

Record aspDevice := mkDevice { location : bytes; mmioBase : Z; mmioSize : Z }.
(** [mapped]: the length of the mapped slice. *)
Record aspMMIO := mkMMIO { dev : Z; mmap : Z; mapLen : Z }.

(** ** The scan *)
Definition pciDevicesPath : path := str <$> ["sys"; "bus"; "pci"; "devices"]%string.

Definition parseHexUint16 (s : bytes) : option Z :=
  ParseUint16 16 (TrimPrefix (TrimPrefix s (str "0x")) (str "0X")).
Definition parseHexUint64 (s : bytes) : option Z :=
  ParseUint16 64 (TrimPrefix (TrimPrefix s (str "0x")) (str "0X")).

(** A file's contents, when it can be read. *)
Definition read (fs : FS) (p : path) : option bytes :=
  match ReadFile fs p with inr b => Some b | inl _ => None end.

(** BAR 2: the third line of the resource file, as base and size. *)
Definition parseBAR2 (resource : bytes) : option (Z * Z) :=
  line ← Split newline resource !! 2;
  match Fields line with
  | start :: fin :: _ :: _ =>
    bar2Start ← parseHexUint64 start;
    bar2End ← parseHexUint64 fin;
    let bar2Size := u64 (u64 (bar2End - bar2Start) + 1) in
    if decide (bar2Size = 0)%Z then None else Some (bar2Start, bar2Size)
  | _ => None
  end.

(** The body of the loop over the PCI devices. *)
Definition probe (fs : FS) (entry : DirEntry) : option aspDevice :=
  let devicePath := pciDevicesPath ++ [entryName entry] in
  vendorBytes ← read fs (devicePath ++ [str "vendor"]);
  vendor ← parseHexUint16 (TrimSpace vendorBytes);
  if decide (vendor ≠ amdPCIVendorID) then None else
  deviceBytes ← read fs (devicePath ++ [str "device"]);
  deviceID ← parseHexUint16 (TrimSpace deviceBytes);
  if decide (deviceID ∉ aspDeviceIDs) then None else
  resourceBytes ← read fs (devicePath ++ [str "resource"]);
  '(base, size) ← parseBAR2 resourceBytes;
  Some (mkDevice (entryName entry) base size).

Definition findASPDevices (fs : FS) : outcome (list aspDevice) :=
  match ReadDir fs pciDevicesPath with
  | inl err => Err (err_wrap "failed to read PCI devices: %w" err)
  | inr entries => Ok (omap (probe fs) entries)
  end.

(** ** The result *)
Definition isZero (b : byte) : bool := bool_decide (b = Byte.x00).
Definition checkDMAChipID (buf : bytes) (idLen : Z) : option error :=
  if decide (buf = aspChipIDSentinel) then
    Some (err_msg "ASP GET_ID reported success without writing the ChipID buffer")
  else if decide (idLen ≤ 0 ∨ zlen buf < idLen)%Z then Some (err_fmt "invalid chip ID length: %d" [AInt idLen])
  else if decide (zlen (base.filter (λ b, isZero b = true) (take (Z.to_nat idLen) buf)) = idLen)%Z then
    Some (err_msg "ASP GET_ID returned an all-zero ChipID")
  else None.

(** ** The device *)
Definition devMem : path := str <$> ["dev"; "mem"]%string.
Definition pagemapPath : path := str <$> ["proc"; "self"; "pagemap"]%string.
Definition pageSize : Z := 4096.
Definition maxInt : Z := 2 ^ 63 - 1.

Section Device.
Context {W : Type} `{!Kernel W}.

Definition openASPMMIO (mmioBase mmioSize : Z) : MM aspMMIO :=
  dev ← try (err_wrap "failed to open /dev/mem: %w") (call (OpenFile devMem));
  let offset := (mmioBase mod pageSize)%Z in
  let mapBase := (mmioBase - offset)%Z in
  let mapSize := u64 (mmioSize + offset) in
  if decide (maxInt < mapSize)%Z then
    _ ← call (CloseFile dev); lift (Err (err_fmt "MMIO size too large: %d" [AInt mapSize]))
  else if decide (maxInt < mapBase)%Z then
    _ ← call (CloseFile dev); lift (Err (err_fmt "MMIO base too large: %d" [AInt mapBase]))
  else
    r ← call (MapRegion dev mapSize mapBase);
    match r with
    | inl err => _ ← call (CloseFile dev); lift (Err (err_wrap "failed to mmap ASP MMIO: %w" err))
    | inr (mmap, len) => mret (mkMMIO dev mmap len)
    end.

Definition close (p : aspMMIO) : MM (option error) :=
  e1 ← call (Unmap (mmap p));
  e2 ← call (CloseFile (dev p));
  mret (match option_list e1 ++ option_list e2 with [] => None | errs => Some (EJoin errs) end).

(** [p.mmap[offset:]], and the four bytes at its start. *)
Definition window (p : aspMMIO) (offset : Z) : outcome unit :=
  if decide (mapLen p < offset)%Z then Panic SliceOutOfRange
  else if decide (mapLen p - offset < 4)%Z then Panic IndexOutOfRange
  else Ok ().
Definition read32 (p : aspMMIO) (offset : Z) : MM Z :=
  _ ← lift (window p offset); call (RegRead (mmap p) offset).
Definition write32 (p : aspMMIO) (offset value : Z) : MM unit :=
  _ ← lift (window p offset); call (RegWrite (mmap p) offset value).

Fixpoint pollLoop (fuel : nat) (p : aspMMIO) (deadline : Z) : MM (Z * option error) :=
  match fuel with
  | O => lift (Panic OutOfFuel)
  | S fuel =>
    now ← call Now;
    if decide (now < deadline)%Z then
      reg ← read32 p aspRegCmdResp;
      if decide (Z.land reg aspCmdRespRespBit ≠ 0)%Z then
        let status := Z.land reg aspCmdRespStsMask in
        if decide (status ≠ 0)%Z
        then mret (status, Some (err_fmt "ASP command failed with status 0x%x" [AInt status]))
        else mret (0%Z, None)
      else _ ← call (Sleep pollInterval); pollLoop fuel p deadline
    else mret (0%Z, Some (err_msg "ASP command timeout"))
  end.

(** Two iterations more than the sleeps that fit in the timeout. *)
Definition pollFuel (timeout : Z) : nat := Z.to_nat (timeout / pollInterval) + 2.
Definition pollCmd (p : aspMMIO) (timeout : Z) : MM (Z * option error) :=
  now ← call Now;
  pollLoop (pollFuel timeout) p (now + timeout).

(** [buf] is the address of the slice, [n] its length. *)
Definition getPhysicalAddress (buf : Z) (n : nat) : MM Z :=
  if decide (n = 0) then lift (Err (err_msg "empty buffer")) else
  pagemap ← try (err_wrap "failed to open /proc/self/pagemap: %w (need root?)") (call (OpenFile pagemapPath));
  defer
    (let vaddr := buf in
     let pfnIndex := u64 (vaddr / pageSize * 8) in
     if decide (maxInt < pfnIndex)%Z then lift (Err (err_fmt "page index too large: %d" [AInt pfnIndex])) else
     _ ← must (err_wrap "failed to seek pagemap: %w") (call (Seek pagemap pfnIndex));
     entry ← try (err_wrap "failed to read pagemap: %w") (call (Read pagemap 8));
     let pfn := le_Z (take 8 (entry ++ replicate 8 Byte.x00)) in
     if decide (Z.land pfn (Z.shiftl 1 63) = 0)%Z then lift (Err (err_msg "page not present")) else
     let pageFrame := Z.land pfn (Z.shiftl 1 55 - 1) in
     mret (u64 (u64 (pageFrame * pageSize) + vaddr mod pageSize)))
    (_ ← call (CloseFile pagemap); mret ()).

(** From the locked buffer on. *)
Definition runGetID (asp : aspMMIO) (chipIDBuf : Z) : MM Result :=
  _ ← put chipIDBuf aspChipIDSentinel;
  physAddr ← map_errS (err_wrap "failed to get physical address: %w") (getPhysicalAddress chipIDBuf amdChipIDSize);
  cmdBuf ← make 16;
  cmdPhysAddr ← map_errS (err_wrap "failed to get command buffer physical address: %w") (getPhysicalAddress cmdBuf 16);
  _ ← put cmdBuf (le_bytes 8 physAddr);
  _ ← put (cmdBuf + 8) (le_bytes 4 (Z.of_nat amdChipIDSize));
  _ ← put (cmdBuf + 12) (le_bytes 4 0);
  _ ← write32 asp aspRegCmdBuffLo (Z.land cmdPhysAddr 0xFFFFFFFF);
  _ ← write32 asp aspRegCmdBuffHi (u32 (Z.shiftr cmdPhysAddr 32));
  _ ← write32 asp aspRegCmdResp (u32 (Z.shiftl sevCmdGetID aspCmdRespCmdShift));
  '(status, err) ← pollCmd asp aspTimeout;
  match err with
  | Some err => lift (Err (EFmt "ASP GET_ID command failed: %w (status 0x%x)" [AInt status] [err]))
  | None =>
    lenBytes ← fetch (cmdBuf + 8) 4;
    buf ← fetch chipIDBuf amdChipIDSize;
    let idLen := le_Z lenBytes in
    match checkDMAChipID buf idLen with
    | Some err => lift (Err err)
    | None => mret (mkResult VendorAMDSEVSNP (take (Z.to_nat idLen) buf))
    end
  end.

Definition getChipIDFromDevice (dev : aspDevice) : MM Result :=
  asp ← openASPMMIO (mmioBase dev) (mmioSize dev);
  defer
    (chipIDBuf ← make amdChipIDSize;
     _ ← must (err_wrap "failed to lock Chip ID buffer in memory: %w") (call (Mlock chipIDBuf (Z.of_nat amdChipIDSize)));
     defer (runGetID asp chipIDBuf) (_ ← call (Munlock chipIDBuf (Z.of_nat amdChipIDSize)); mret ()))
    (_ ← close asp; mret ()).

Fixpoint tryDevices (devices : list aspDevice) (lastErr : error) : MM Result :=
  match devices with
  | [] => lift (Err (err_wrap "failed to get chip ID from any ASP device: %w" lastErr))
  | dev :: devices => λ s,
    match getChipIDFromDevice dev s with
    | (Err err, s) => tryDevices devices err s
    | r => r
    end
  end.

Definition readSEVChipIDDirect (fs : FS) : MM Result :=
  devices ← lift (map_err (err_wrap "failed to find ASP devices: %w") (findASPDevices fs));
  if decide (length devices = 0) then lift (Err (err_msg "no AMD SP device found"))
  else tryDevices devices (err_msg "nil").

End Device.

(** ** The result *)
Definition validID (id : bytes) : Prop := (0 < length id ≤ amdChipIDSize)%nat ∧ ∃ b, b ∈ id ∧ b ≠ Byte.x00.

Lemma isZero_true b : isZero b = true ↔ b = Byte.x00.
Proof. apply bool_decide_eq_true. Qed.

Lemma zeros_all l : length (base.filter (λ b, isZero b = true) l) = length l ↔ ∀ b, b ∈ l → b = Byte.x00.
Proof.
  induction l as [|b l IH]; [split; [by intros _ ? ?%elem_of_nil|done]|]. rewrite list.filter_cons. cbn [length].
  setoid_rewrite elem_of_cons. pose proof (list.length_filter (λ b, isZero b = true) l).
  case_decide as Hb; cbn [length].
  - rewrite isZero_true in Hb. subst. split; [|naive_solver]. intros Hl b [->|Hin]; [done|]. apply IH; [lia|done].
  - split; [lia|]. intros Ha. destruct Hb. apply isZero_true. auto.
Qed.

Lemma checkDMAChipID_None buf idLen : length buf = amdChipIDSize → checkDMAChipID buf idLen = None ↔
  buf ≠ aspChipIDSentinel ∧ validID (take (Z.to_nat idLen) buf) ∧ (idLen ≤ Z.of_nat amdChipIDSize)%Z.
Proof.
  intros Hl. unfold checkDMAChipID, validID. rewrite length_take, Hl.
  destruct (decide (buf = _)); [split; [done|tauto]|]. case_decide as Hr.
  { split; [done|]. intros (_ & (? & _) & ?). unfold amdChipIDSize in *. lia. }
  assert (length (base.filter (λ b, isZero b = true) (take (Z.to_nat idLen) buf)) = length (take (Z.to_nat idLen) buf) ↔
    ∀ b, b ∈ take (Z.to_nat idLen) buf → b = Byte.x00) as Hz by apply zeros_all.
  rewrite length_take, Hl in Hz. unfold amdChipIDSize in *. case_decide as Hc.
  - split; [done|]. intros (_ & (_ & b & Hin & Hne) & _). exfalso. apply Hne, Hz; [lia|done].
  - split; [|done]. intros _. split; [done|]. split; [|lia]. split; [lia|].
    destruct (decide (Exists (λ b, b ≠ Byte.x00) (take (Z.to_nat idLen) buf))) as [He|He].
    { by apply list.Exists_exists in He. }
    exfalso. apply Hc. assert (∀ b, b ∈ take (Z.to_nat idLen) buf → b = Byte.x00) as Hall%Hz; [|lia].
    intros b Hin. destruct (decide (b = Byte.x00)); [done|]. exfalso. apply He, list.Exists_exists. eauto.
Qed.

(** ** Resources and outcomes *)
Section Safe.
Context {W : Type} `{!Kernel W}.

Lemma openASPMMIO_held base size (s : @machine W) : held (snd (openASPMMIO base size s)) =
  match fst (openASPMMIO base size s) with
  | Ok p => [RMap (mmap p); RFile (dev p)] ++ held s
  | _ => held s
  end.
Proof.
  unfold openASPMMIO, try, mbind, SM_bind, mret, SM_ret, lift, call.
  destruct (sys (OpenFile devMem) _ _) as [[[err|fd] w] m]; [done|]. cbn [acquires releases held app fst snd].
  repeat case_decide.
  1,2: destruct (sys (CloseFile _) _ _) as [[? ?] ?]; cbn; by rewrite decide_True.
  destruct (sys (MapRegion _ _ _) _ _) as [[[err|[h l]] w'] m']; cbn; [|done].
  destruct (sys (CloseFile _) _ _) as [[? ?] ?]; cbn; by rewrite decide_True.
Qed.

Lemma close_held p s h : held s = [RMap (mmap p); RFile (dev p)] ++ h →
  held (snd ((_ ← close p; mret ()) s : outcome unit * @machine W)) = h.
Proof.
  intros Hs. unfold close, mbind, SM_bind, mret, SM_ret, call.
  destruct (sys (Unmap _) _ _) as [[? ?] ?]. cbn. destruct (sys (CloseFile _) _ _) as [[? ?] ?]. cbn.
  rewrite Hs. cbn. rewrite decide_True by done. cbn. by rewrite decide_True.
Qed.

Lemma balanced_write32 p o v : balanced (write32 p o v).
Proof. unfold write32. eauto with iks. Qed.
Lemma balanced_read32 p o : balanced (read32 p o).
Proof. unfold read32. eauto with iks. Qed.

Lemma balanced_pollLoop fuel p deadline : balanced (pollLoop fuel p deadline).
Proof.
  induction fuel as [|fuel IH]; cbn [pollLoop]; [eauto with iks|]. apply balanced_bind; [eauto with iks|]. intros now.
  case_decide; [|eauto with iks]. apply balanced_bind; [apply balanced_read32|]. intros reg.
  case_decide; [case_decide; eauto with iks|]. apply balanced_bind; eauto with iks.
Qed.

Lemma balanced_getPhysicalAddress buf n : balanced (getPhysicalAddress buf n).
Proof.
  unfold getPhysicalAddress. case_decide; [eauto with iks|]. apply (takes_bind RFile); [by apply takes_try|].
  intros fd. apply drops_defer; [|apply drops_bind_l; [eauto with iks|apply call_Ok|eauto with iks]].
  cbv zeta. case_decide; [eauto with iks|]. apply balanced_bind; [eauto with iks|]. intros _.
  apply balanced_bind; [eauto with iks|]. intros entry. case_decide; eauto with iks.
Qed.

Lemma balanced_runGetID asp buf : balanced (runGetID asp buf).
Proof.
  unfold runGetID. pose proof balanced_getPhysicalAddress. pose proof balanced_write32.
  assert (∀ p t, balanced (pollCmd p t)) by (intros p t; unfold pollCmd; pose proof balanced_pollLoop; eauto with iks).
  do 10 (apply balanced_bind; [eauto with iks|intros ?]). apply balanced_bind; [eauto with iks|].
  intros [status [err|]]; [eauto with iks|]. do 2 (apply balanced_bind; [eauto with iks|intros ?]).
  cbv zeta. destruct (checkDMAChipID _ _); eauto with iks.
Qed.

(** The body of [getChipIDFromDevice] under its mapping. *)
Definition locked (asp : aspMMIO) : SM (@machine W) Result :=
  chipIDBuf ← make amdChipIDSize;
  _ ← must (err_wrap "failed to lock Chip ID buffer in memory: %w") (call (Mlock chipIDBuf (Z.of_nat amdChipIDSize)));
  defer (runGetID asp chipIDBuf) (_ ← call (Munlock chipIDBuf (Z.of_nat amdChipIDSize)); mret ()).

Lemma balanced_locked asp : balanced (locked asp).
Proof.
  apply balanced_bind; [eauto with iks|]. intros a.
  apply (takes_bind (λ _, RLock a)).
  - intros s. unfold must, mbind, SM_bind, call. by destruct (sys (Mlock _ _) _ _) as [[[err|] w] m].
  - intros _. apply drops_defer; [apply balanced_runGetID|].
    apply drops_bind_l; [eauto with iks|apply call_Ok|eauto with iks].
Qed.

Lemma defer_held {A} (body : SM (@machine W) A) cleanup s : held (snd (defer body cleanup s)) = held (snd (cleanup (snd (body s)))).
Proof. unfold defer. destruct (body s) as [r s1]. cbn. by destruct (cleanup s1). Qed.

Lemma balanced_getChipIDFromDevice d : balanced (getChipIDFromDevice d).
Proof.
  apply (balanced_bracket (λ p, [RMap (mmap p); RFile (dev p)])); [apply openASPMMIO_held|].
  intros p s h Hs. rewrite defer_held. apply close_held. etransitivity; [apply (balanced_locked p s)|exact Hs].
Qed.

Lemma balanced_tryDevices devices err : balanced (tryDevices devices err).
Proof.
  revert err. induction devices as [|d devices IH]; intros err; cbn [tryDevices]; [eauto with iks|]. intros s.
  pose proof (balanced_getChipIDFromDevice d s) as Hd. destruct (getChipIDFromDevice d s) as [[r|e|p] s1]; cbn in *; [done| |done].
  by rewrite IH.
Qed.

Lemma balanced_readSEVChipIDDirect fs : balanced (readSEVChipIDDirect fs).
Proof.
  apply balanced_bind; [eauto with iks|]. intros devices. case_decide; [eauto with iks|]. apply balanced_tryDevices.
Qed.

(** ** Outcomes *)

(** A clock that does not go back, and that a sleep advances by at least its duration. *)
Definition clock (time : W → Z) : Prop := ∀ m w,
  (let '(now, w', _) := sys Now w m in (now ≤ time w' ∧ time w ≤ now)%Z) ∧
  (∀ h o, let '(_, w', _) := sys (RegRead h o) w m in (time w ≤ time w')%Z) ∧
  (∀ d, let '(_, w', _) := sys (Sleep d) w m in (time w + d ≤ time w')%Z).

(** The only panics are those of a register outside the mapping. *)
Definition safeOutcome {A} (Q : A → Prop) (r : outcome A) : Prop :=
  match r with Ok a => Q a | Err _ => True | Panic p => p = SliceOutOfRange ∨ p = IndexOutOfRange end.

Lemma window_safe p o : safeOutcome (λ _, True) (window p o).
Proof. unfold window. repeat case_decide; cbn; auto. Qed.

Lemma yields_read32 p o : yields (read32 p o) (safeOutcome (λ _, True)).
Proof.
  apply (yields_bind _ _ (λ _, True)); [|intros _ _; by apply yields_call].
  apply yields_lift. pose proof (window_safe p o). by destruct (window p o).
Qed.
Lemma yields_write32 p o v : yields (write32 p o v) (safeOutcome (λ _, True)).
Proof.
  apply (yields_bind _ _ (λ _, True)); [|intros _ _; by apply yields_call].
  apply yields_lift. pose proof (window_safe p o). by destruct (window p o).
Qed.

(** The wait ends: each turn sleeps, and the clock passes the deadline before the fuel runs out. *)
Lemma pollLoop_ends time fuel p deadline s : clock time → (deadline - time (world s) < pollInterval * (Z.of_nat fuel - 1))%Z →
  0 < fuel → safeOutcome (λ _, True) (fst (pollLoop fuel p deadline s)).
Proof.
  intros Hclock. revert s. induction fuel as [|fuel IH]; intros s Hd Hf; [lia|]. cbn [pollLoop].
  unfold mbind at 1, SM_bind at 1. unfold call at 1. destruct (Hclock (mem s) (world s)) as [Hnow _].
  destruct (sys Now (world s) (mem s)) as [[now w1] m1]. case_decide as Hlt; [|done].
  set (s1 := mkMachine m1 w1 _).
  unfold mbind at 1, SM_bind at 1. unfold read32, mbind at 1, SM_bind at 1, lift.
  pose proof (window_safe p aspRegCmdResp) as Hw. destruct (window p aspRegCmdResp) as [[]|e|pn]; [|done..].
  unfold call at 1. destruct (Hclock (mem s1) (world s1)) as (_ & Hread & _). specialize (Hread (mmap p) aspRegCmdResp).
  destruct (sys (RegRead _ _) (world s1) (mem s1)) as [[reg w2] m2]. case_decide; [by case_decide|].
  set (s2 := mkMachine m2 w2 _). unfold mbind, SM_bind, call.
  destruct (Hclock (mem s2) (world s2)) as (_ & _ & Hsleep). specialize (Hsleep pollInterval).
  destruct (sys (Sleep pollInterval) (world s2) (mem s2)) as [[u w3] m3]. subst s1 s2. cbn [world] in *.
  destruct fuel as [|fuel]; [unfold pollInterval in *; lia|]. apply IH; [|lia].
  cbn [world]. unfold pollInterval in *. lia.
Qed.

Section Clock.
Context (time : W → Z) (Hclock : clock time).

Lemma yields_pollCmd p : yields (pollCmd p aspTimeout) (safeOutcome (λ _, True)).
Proof.
  intros s. unfold pollCmd, mbind, SM_bind, call. destruct (Hclock (mem s) (world s)) as [Hnow _].
  destruct (sys Now (world s) (mem s)) as [[now w1] m1].
  apply (pollLoop_ends time); [done| |unfold pollFuel; lia]. cbn [world].
  change (Z.of_nat (pollFuel aspTimeout)) with 50002%Z. unfold pollInterval, aspTimeout. lia.
Qed.

Lemma yields_must f (m : SM (@machine W) (option error)) :
  (∀ s, ∃ r, fst (m s) = Ok r) → yields (must f m) (safeOutcome (λ _, True)).
Proof.
  intros Hm. apply (yields_bind _ _ (λ _, True)); [intros s; by destruct (Hm s) as [r ->]|].
  intros [e|] _; [by apply yields_lift|by apply yields_ret].
Qed.
Lemma yields_try {A} f (m : SM (@machine W) (result A)) :
  (∀ s, ∃ r, fst (m s) = Ok r) → yields (try f m) (safeOutcome (λ _, True)).
Proof.
  intros Hm. apply (yields_bind _ _ (λ _, True)); [intros s; by destruct (Hm s) as [r ->]|].
  intros [e|] _; [by apply yields_lift|by apply yields_ret].
Qed.

(** A step whose value does not matter. *)
Lemma safe_bind {A B} (m : SM (@machine W) A) (f : A → MM B) Q :
  yields m (safeOutcome (λ _, True)) → (∀ a, yields (f a) (safeOutcome Q)) → yields (m ≫= f) (safeOutcome Q).
Proof.
  intros Hm Hf. apply (yields_bind _ _ (λ _, True)); [|by intros a _].
  eapply yields_weaken; [exact Hm|]. by intros [].
Qed.

Lemma safe_map_errS {A} f (m : SM (@machine W) A) Q : yields m (safeOutcome Q) → yields (map_errS f m) (safeOutcome Q).
Proof. intros Hm. apply yields_map_errS. eapply yields_weaken; [exact Hm|]. by intros []. Qed.

Lemma yields_getPhysicalAddress buf n : yields (getPhysicalAddress buf n) (safeOutcome (λ _, True)).
Proof.
  unfold getPhysicalAddress. case_decide; [by apply yields_lift|].
  apply safe_bind; [apply yields_try, call_Ok|]. intros fd. apply yields_defer. cbv zeta.
  case_decide; [by apply yields_lift|]. apply safe_bind; [apply yields_must, call_Ok|]. intros _.
  apply safe_bind; [apply yields_try, call_Ok|]. intros entry. case_decide; [by apply yields_lift|by apply yields_ret].
Qed.

Lemma yields_runGetID asp buf : yields (runGetID asp buf) (safeOutcome (λ r, Vendor r = VendorAMDSEVSNP ∧ validID (ID r))).
Proof.
  assert (∀ a bs, yields (put a bs : SM (@machine W) unit) (safeOutcome (λ _, True))) as Hput by done.
  pose proof (λ b n f, safe_map_errS f _ _ (yields_getPhysicalAddress b n)) as Hphys.
  unfold runGetID. apply safe_bind; [done|intros _]. apply safe_bind; [apply Hphys|intros pa].
  apply safe_bind; [done|intros cmd]. apply safe_bind; [apply Hphys|intros cpa].
  do 3 (apply safe_bind; [done|intros _]). do 3 (apply safe_bind; [apply yields_write32|intros _]).
  apply safe_bind; [apply yields_pollCmd|]. intros [status [err|]]; [by apply yields_lift|].
  apply safe_bind; [done|]. intros lenBytes s. unfold mbind, SM_bind, fetch. cbv zeta.
  destruct (checkDMAChipID _ _) as [err|] eqn:Hc; [done|]. apply checkDMAChipID_None in Hc as (_ & Hv & _); [|apply length_load].
  done.
Qed.

Lemma yields_openASPMMIO base size : yields (openASPMMIO base size) (safeOutcome (λ _, True)).
Proof.
  apply safe_bind; [apply yields_try, call_Ok|]. intros fd. cbv zeta.
  repeat case_decide; [apply safe_bind; [by apply yields_call|by intros _; apply yields_lift]..|].
  apply safe_bind; [by apply yields_call|]. intros [err|[h l]]; [|by apply yields_ret].
  apply safe_bind; [by apply yields_call|by intros _; apply yields_lift].
Qed.

Lemma yields_getChipIDFromDevice d :
  yields (getChipIDFromDevice d) (safeOutcome (λ r, Vendor r = VendorAMDSEVSNP ∧ validID (ID r))).
Proof.
  apply safe_bind; [apply yields_openASPMMIO|]. intros asp. apply yields_defer.
  apply safe_bind; [done|]. intros buf. apply safe_bind; [apply yields_must, call_Ok|]. intros _.
  apply yields_defer, yields_runGetID.
Qed.

Lemma yields_tryDevices devices err :
  yields (tryDevices devices err) (safeOutcome (λ r, Vendor r = VendorAMDSEVSNP ∧ validID (ID r))).
Proof.
  revert err. induction devices as [|d devices IH]; intros err s; cbn [tryDevices]; [done|].
  pose proof (yields_getChipIDFromDevice d s) as Hd. destruct (getChipIDFromDevice d s) as [[r|e|p] s1]; [done|apply IH|done].
Qed.
End Clock.

(** Whatever the kernel and the device do, the direct read gives up every file, mapping and lock
    it took, also when it panics; and if the clock advances it ends, with an error, a panic for a
    register outside the mapping, or an identifier of 1 to 64 bytes that is not all zero. *)
Theorem readSEVChipIDDirect_safe fs (s : @machine W) :
  held (snd (readSEVChipIDDirect fs s)) = held s ∧
  ∀ time, clock time →
    match fst (readSEVChipIDDirect fs s) with
    | Ok r => Vendor r = VendorAMDSEVSNP ∧ validID (ID r)
    | Err _ => True
    | Panic p => p = SliceOutOfRange ∨ p = IndexOutOfRange
    end.
Proof.
  split; [apply balanced_readSEVChipIDDirect|]. intros time Hclock.
  apply (safe_bind (A := list aspDevice) (B := Result)).
  - apply yields_lift. unfold findASPDevices. by destruct (ReadDir _ _).
  - intros devices. case_decide; [by apply yields_lift|]. by apply (yields_tryDevices time).
Qed.

(** ** A BAR smaller than the mailbox *)

(** A kernel whose calls all succeed, with a mapping of the length asked for. *)
Record cooperative : Prop := {
  coop_place : ∀ m n, (0 ≤ place m n < 2 ^ 64)%Z;
  coop_open : ∀ p w m, ∃ fd, fst (fst (sys (OpenFile p) w m)) = inr fd;
  coop_map : ∀ fd n o w m, ∃ h, fst (fst (sys (MapRegion fd n o) w m)) = inr (h, n);
  coop_lock : ∀ a n w m, fst (fst (sys (Mlock a n) w m)) = None;
  coop_seek : ∀ fd o w m, fst (fst (sys (Seek fd o) w m)) = None;
  coop_read : ∀ fd w m, ∃ e, fst (fst (sys (Read fd 8) w m)) = inr e ∧ length e = 8 ∧ Z.testbit (le_Z e) 63 = true;
}.

Lemma sys_run {R} (op : sysop R) (s : @machine W) r : fst (fst (sys op (world s) (mem s))) = r →
  ∃ s', call op s = (Ok r, s').
Proof. intros <-. unfold call. destruct (sys op (world s) (mem s)) as [[r w] m]. cbn. eauto. Qed.

Lemma pfnIndex_fits buf : (0 ≤ buf < 2 ^ 64)%Z →
  u64 (buf / pageSize * 8) = (buf / pageSize * 8)%Z ∧ (buf / pageSize * 8 ≤ maxInt)%Z.
Proof.
  intros Hbuf. assert (0 ≤ buf / pageSize ≤ 2 ^ 52)%Z.
  { unfold pageSize. split; [apply Z.div_pos; lia|apply Z.div_le_upper_bound; lia]. }
  split; [apply wrap_small; lia|unfold maxInt; lia].
Qed.

Lemma getPhysicalAddress_run buf n s : cooperative → n ≠ 0 → (0 ≤ buf < 2 ^ 64)%Z →
  ∃ a s', getPhysicalAddress buf n s = (Ok a, s').
Proof.
  intros Hk Hn Hbuf. unfold getPhysicalAddress. rewrite decide_False by done.
  destruct (coop_open Hk pagemapPath (world s) (mem s)) as [fd Hfd]. destruct (sys_run _ _ _ Hfd) as [s1 H1].
  rewrite (bind_run_Ok _ _ _ _ _ (try_run _ _ _ _ _ H1)).
  destruct (pfnIndex_fits buf Hbuf) as [Hu Hmax]. cbv zeta. rewrite Hu, decide_False by lia.
  destruct (sys_run _ s1 _ (coop_seek Hk fd (buf / pageSize * 8) _ _)) as [s2 H2].
  destruct (coop_read Hk fd (world s2) (mem s2)) as (e & He & Hl & Hbit). destruct (sys_run _ s2 _ He) as [s3 H3].
  eexists _, _. apply defer_run. rewrite (bind_run_Ok _ _ _ _ _ (must_run _ _ _ _ H2)).
  rewrite (bind_run_Ok _ _ _ _ _ (try_run _ _ _ _ _ H3)). rewrite take_app_le, take_ge by lia.
  rewrite decide_False; [reflexivity|]. rewrite Z.shiftl_1_l, land_pow2, Hbit by lia. done.
Qed.

(** A mapping too small for a register. *)
Lemma write32_panics p o v s : (mapLen p < o)%Z → write32 p o v s = (Panic SliceOutOfRange, s).
Proof. intros Ho. unfold write32, window. rewrite decide_True by lia. done. Qed.

Lemma runGetID_panics asp buf s : cooperative → (0 ≤ buf < 2 ^ 64)%Z →
  (mapLen asp < aspRegCmdBuffLo)%Z → fst (runGetID asp buf s) = Panic SliceOutOfRange.
Proof.
  intros Hk Hbuf Hlen. unfold runGetID.
  rewrite bind_put. match goal with |- context [(map_errS _ _ ≫= _) ?st] => set (s0 := st) end.
  destruct (getPhysicalAddress_run buf amdChipIDSize s0 Hk ltac:(done) Hbuf) as (pa & s1 & H1).
  rewrite (bind_run_Ok _ _ _ _ _ (map_errS_run _ _ _ _ _ H1)).
  rewrite bind_make. match goal with |- context [(map_errS _ _ ≫= _) ?st] => set (s2 := st) end.
  destruct (getPhysicalAddress_run (place (mem s1) 16) 16 s2 Hk ltac:(done) (coop_place Hk _ _)) as (ca & s3 & H2).
  rewrite (bind_run_Ok _ _ _ _ _ (map_errS_run _ _ _ _ _ H2)).
  rewrite !bind_put.
  by rewrite (bind_run _ _ _ _ _ (write32_panics asp _ _ _ Hlen)).
Qed.

(** A register block smaller than the mailbox crashes the caller. If the kernel refuses nothing,
    a device whose BAR 2 does not reach the mailbox registers makes the read panic instead of
    fail; and a BAR that was never assigned, all zeros in sysfs, passes the scan as one byte. *)
Theorem small_BAR_panics d s : cooperative → (0 ≤ mmioBase d ≤ maxInt)%Z →
  (u64 (mmioSize d + mmioBase d mod pageSize) < aspRegCmdBuffLo)%Z →
  fst (getChipIDFromDevice d s) = Panic SliceOutOfRange ∧
  parseBAR2 (str "0x00 0x00 0x00
0x00 0x00 0x00
0x0000000000000000 0x0000000000000000 0x0000000000000000
") = Some (0, 1)%Z.
Proof.
  intros Hk Hbase Hsize. split; [|vm_compute; reflexivity]. unfold getChipIDFromDevice.
  assert (∃ h fd s', openASPMMIO (mmioBase d) (mmioSize d) s =
    (Ok (mkMMIO fd h (u64 (mmioSize d + mmioBase d mod pageSize))), s')) as (h & fd & s1 & H1).
  { unfold openASPMMIO. destruct (coop_open Hk devMem (world s) (mem s)) as [fd Hfd]. destruct (sys_run _ _ _ Hfd) as [s1 H1].
    rewrite (bind_run_Ok _ _ _ _ _ (try_run _ _ _ _ _ H1)). cbv zeta.
    rewrite decide_False by (unfold maxInt, aspRegCmdBuffLo in *; lia).
    pose proof (Z.mod_pos_bound (mmioBase d) pageSize ltac:(done)).
    rewrite decide_False by (unfold maxInt in *; lia).
    destruct (coop_map Hk fd (u64 (mmioSize d + mmioBase d mod pageSize)) (mmioBase d - mmioBase d mod pageSize) (world s1) (mem s1)) as [h Hh].
    destruct (sys_run _ _ _ Hh) as [s2 H2]. rewrite (bind_run_Ok _ _ _ _ _ H2). by eexists _, _, _. }
  rewrite (bind_run_Ok _ _ _ _ _ H1). rewrite defer_fst.
  rewrite bind_make. match goal with |- context [(must _ _ ≫= _) ?st] => set (s0 := st) end.
  destruct (sys_run _ s0 _ (coop_lock Hk (place (mem s1) amdChipIDSize) (Z.of_nat amdChipIDSize) _ _)) as [s2 H2].
  rewrite (bind_run_Ok _ _ _ _ _ (must_run _ _ _ _ H2)). rewrite defer_fst.
  apply runGetID_panics; [done|apply (coop_place Hk)|done].
Qed.

End Safe.

(** ** chipid_sev_pcie_stub.go *)
Module Stub.
Definition readSEVChipIDDirect : outcome Result := Err (err_msg "AMD SP PCIe access not supported on this platform").
End Stub.

(** ** A host *)
Module Demo.

(** A kernel that refuses nothing, with a clock and a silent device; every buffer is at one address. *)
Definition demoSys {R} (op : sysop R) (w : Z) (m : memory) : R * Z * memory :=
  match op in sysop R return R * Z * memory with
  | OpenFile _ => (inr 3%Z, w, m)
  | CloseFile _ | Seek _ _ | Unmap _ | Mlock _ _ | Munlock _ _ => (None, w, m)
  | Read _ _ => (inr (le_bytes 8 (2 ^ 63 + 1)), w, m)
  | Ioctl _ _ _ => (25%Z, w, m)
  | MapRegion _ n _ => (inr (7%Z, n), w, m)
  | RegRead _ _ => (0%Z, w, m)
  | RegWrite _ _ _ => (tt, w, m)
  | Now => (w, w, m)
  | Sleep d => (tt, (w + d)%Z, m)
  end.
#[export] Instance demoKernel : Kernel Z := {| sys := @demoSys; place := λ _ _, 4096%Z |}.

Definition boot : @machine Z := mkMachine ∅ 0%Z [].

(** A Milan host: one bridge, and the security processor with an unassigned BAR 2. *)
Definition demoFS : FS :=
  let dev d file := pciDevicesPath ++ [str d; str file] in
  let none {A} (_ : path) : result A := inl (ESentinel os_ErrNotExist) in
  mkFS (find [(pciDevicesPath, inr [mkEntry (str "0000:00:00.0") false; mkEntry (str "0000:21:00.2") false])])
    none none
    (find [(dev "0000:00:00.0" "vendor", inr (str "0x8086"));
           (dev "0000:21:00.2" "vendor", inr (str "0x1022
")); (dev "0000:21:00.2" "device", inr (str "0x1486
"));
           (dev "0000:21:00.2" "resource", inr (str "0x00 0x00 0x00
0x00 0x00 0x00
0x0000000000000000 0x0000000000000000 0x0000000000000000
"))])%string.

Example demo_scan : findASPDevices demoFS = Ok [mkDevice (str "0000:21:00.2") 0 1].
Proof. vm_compute. reflexivity. Qed.

Lemma demo_clock : clock (λ w : Z, w).
Proof. intros m w. cbn. split; [lia|]. split; [lia|]. intros d. lia. Qed.

Lemma readSEVChipIDDirect_safe_witness : held (snd (readSEVChipIDDirect demoFS boot)) = [] ∧
  match fst (readSEVChipIDDirect demoFS boot) with
  | Ok r => Vendor r = VendorAMDSEVSNP ∧ validID (ID r)
  | Err _ => True
  | Panic p => p = SliceOutOfRange ∨ p = IndexOutOfRange
  end.
Proof.
  destruct (readSEVChipIDDirect_safe demoFS boot) as [Hheld Hsafe]. split; [exact Hheld|exact (Hsafe _ demo_clock)].
Defined.

Lemma small_BAR_panics_witness :
  fst (getChipIDFromDevice (mkDevice (str "0000:21:00.2") 0 1) boot) = Panic SliceOutOfRange ∧
  parseBAR2 (str "0x00 0x00 0x00
0x00 0x00 0x00
0x0000000000000000 0x0000000000000000 0x0000000000000000
") = Some (0, 1)%Z.
Proof.
  apply (small_BAR_panics (mkDevice (str "0000:21:00.2") 0 1) boot); [|vm_compute; split; discriminate|reflexivity].
  split; [intros; cbn; lia|cbn; eauto|cbn; eauto|done|done|].
  intros fd w m. eexists. split; [reflexivity|]. split; vm_compute; reflexivity.
Defined.

End Demo.

End ChipIDPCIe.
