(* ===== verification/ChipIDGet.v ===== *)
(** * pkg/chipid, end to end

    [Get] with the direct read of [ChipIDPCIe] in its place: what the package
    promises its callers on a Linux host. *)
From S2P Require Import Prelude Bytes Text Os Machine ChipID ChipIDPCIe.
Import Text Os Machine ChipID.

Module ChipIDGet.

Section Get.
Context {W : Type} `{!Kernel W}.
Variables (fs : FS) (ParseEventLog : bytes → result (list Event)).

(** chipid.go linked with chipid_sev_pcie.go. *)
Definition Get (GOOS GOARCH : bytes) : SM (@machine W) Result :=
  ChipID.Get fs ParseEventLog (ChipIDPCIe.readSEVChipIDDirect fs) GOOS GOARCH.

Lemma balanced_fallback : balanced (fallback fs ParseEventLog (ChipIDPCIe.readSEVChipIDDirect fs)).
Proof.
  unfold fallback. apply balanced_bind; [destruct (ReadFile _ _); eauto with iks|]. intros data.
  apply balanced_bind; [destruct (ParseEventLog _); eauto with iks|]. intros events.
  destruct (extractAMDChipID _); [eauto with iks|..];
    apply balanced_map_errS, ChipIDPCIe.balanced_readSEVChipIDDirect.
Qed.

Lemma balanced_Extract : balanced (Extract fs ParseEventLog (ChipIDPCIe.readSEVChipIDDirect fs)).
Proof.
  intros s. unfold Extract. pose proof (balanced_readSEVChipID s) as Hs. destruct (readSEVChipID s) as [[d|e|p] s1]; [done| |done].
  destruct (errors_Is _ _); [|done]. cbn [snd] in Hs. by rewrite balanced_fallback.
Qed.

(** What a caller may rely on of a result. *)
Definition goodResult (r : Result) : Prop := Vendor r = VendorAMDSEVSNP ∧ (0 < length (ID r) ≤ amdChipIDSize)%nat.

Lemma extractAMDChipID_good events r : extractAMDChipID events = Ok r → goodResult r.
Proof.
  intros (pre & ev & post & _ & _ & [Hlen _] & -> & _)%extractAMDChipID_Ok. split; [done|]. cbn [ID].
  rewrite length_take, length_drop. unfold amdChipIDSize in *. lia.
Qed.

Section Clock.
Context (time : W → Z) (Hclock : ChipIDPCIe.clock time).

Lemma yields_direct : yields (ChipIDPCIe.readSEVChipIDDirect fs) (ChipIDPCIe.safeOutcome goodResult).
Proof.
  apply (ChipIDPCIe.safe_bind (A := list ChipIDPCIe.aspDevice) (B := Result)).
  - apply yields_lift. unfold ChipIDPCIe.findASPDevices. by destruct (ReadDir _ _).
  - intros devices. case_decide; [by apply yields_lift|].
    eapply yields_weaken; [by apply (ChipIDPCIe.yields_tryDevices time)|]. intros [r|e|p]; [|done..].
    intros (Hv & Hl & _). by split.
Qed.

Lemma yields_fallback :
  yields (fallback fs ParseEventLog (ChipIDPCIe.readSEVChipIDDirect fs)) (ChipIDPCIe.safeOutcome goodResult).
Proof.
  unfold fallback. apply ChipIDPCIe.safe_bind; [by destruct (ReadFile _ _); first [apply yields_lift|apply yields_ret]|].
  intros data. apply ChipIDPCIe.safe_bind; [by destruct (ParseEventLog _); first [apply yields_lift|apply yields_ret]|].
  intros events. destruct (extractAMDChipID events) as [r|e|p] eqn:Hx;
    [apply yields_ret; by eapply extractAMDChipID_good|..]; apply ChipIDPCIe.safe_map_errS, yields_direct.
Qed.

Lemma yields_Extract :
  yields (Extract fs ParseEventLog (ChipIDPCIe.readSEVChipIDDirect fs)) (ChipIDPCIe.safeOutcome goodResult).
Proof.
  intros s. unfold Extract. destruct (readSEVChipID_cases s) as (r & Hr & Hp & Hok).
  destruct (readSEVChipID s) as [[d|e|p] s1]; cbn [fst] in Hr; subst r.
  - split; [done|by apply Hok].
  - destruct (errors_Is _ _); [apply yields_fallback|done].
  - by destruct (Hp p).
Qed.
End Clock.

(** C21: [Get] keeps nothing open, mapped or locked, whatever the host does and whichever source answers;
    with a clock that advances it ends, with an error, a panic for a register outside a mapping, or a
    result of the one vendor there is with an identifier of 1 to 64 bytes. *)
Theorem Get_safe GOOS GOARCH s :
  held (snd (Get GOOS GOARCH s)) = held s ∧
  ∀ time, ChipIDPCIe.clock time →
    match fst (Get GOOS GOARCH s) with
    | Ok r => goodResult r
    | Err _ => True
    | Panic p => p = SliceOutOfRange ∨ p = IndexOutOfRange
    end.
Proof.
  unfold Get, ChipID.Get. destruct (init fs GOOS GOARCH) as [vendor [|]]; [|done].
  split; [apply balanced_map_errS, balanced_Extract|]. intros time Hclock.
  apply (ChipIDPCIe.safe_map_errS _ _ goodResult). by apply (yields_Extract time).
Qed.

End Get.

(** ** A host *)
Module Demo.
Import ChipID.Demo.
#[local] Existing Instance ChipIDPCIe.Demo.demoKernel.

(** A Milan host with the SEV driver. *)
Definition amdFS : FS :=
  let none {A} (_ : path) : result A := inl (ESentinel os_ErrNotExist) in
  mkFS none none none (find [(cpuInfoPath, inr (str "processor	: 0
vendor_id	: AuthenticAMD
"))]).

(** On the host of [ChipIDPCIe.Demo], with a clock and no driver. *)
Lemma Get_safe_witness :
  held (snd (Get amdFS (λ _, inr []) (str "linux") (str "amd64") ChipIDPCIe.Demo.boot)) = [] ∧
  match fst (Get amdFS (λ _, inr []) (str "linux") (str "amd64") ChipIDPCIe.Demo.boot) with
  | Ok r => goodResult r
  | Err _ => True
  | Panic p => p = SliceOutOfRange ∨ p = IndexOutOfRange
  end.
Proof.
  destruct (Get_safe amdFS (λ _, inr []) (str "linux") (str "amd64") ChipIDPCIe.Demo.boot) as [Hheld Hsafe].
  split; [exact Hheld|exact (Hsafe _ ChipIDPCIe.Demo.demo_clock)].
Defined.

(** With the SEV driver the identifier comes through. *)
Example Get_milan : fst (Get amdFS (λ _, inr []) (str "linux") (str "amd64") boot) = Ok (mkResult VendorAMDSEVSNP chip).
Proof. vm_compute. reflexivity. Qed.
Example Get_other : fst (Get noFS (λ _, inr []) (str "linux") (str "amd64") boot) =
  Err (err_fmt "no chip ID extractor registered for %s/%s vendor_id=%s" [AStr (str "linux"); AStr (str "amd64"); AStr []]).
Proof. vm_compute. reflexivity. Qed.

End Demo.

End ChipIDGet.
