(* ===== verification/AspSim.v ===== *)
(** * A host with an AMD security processor

    A kernel and a device that behave as documented: /proc/self/pagemap maps
    virtual to physical pages, a mapping of /dev/mem from a page boundary shows the
    physical addresses from there on, the device has its registers at the address
    of its BAR, its mailbox takes the physical address of a command in two of them, GET_ID follows it to a buffer, writes the identifier there by
    DMA after some polls, and raises the response bit. On this host the direct
    read of [ChipIDPCIe] returns the identifier. *)
From S2P Require Import Prelude Bytes Text Os Machine ChipID ChipIDPCIe.
Import Text Os Machine ChipID ChipIDPCIe.

Module AspSim.

(** The clock, the position in the page map, the physical address that the mapped
    window shows first, the two address registers, and the polls a running command
    still takes. *)
Record asp := mkAsp { clk : Z; seekpos : Z; mapping : option Z; lo : Z; hi : Z; busy : option nat }.
Definition set_seekpos (o : Z) (w : asp) : asp := mkAsp (clk w) o (mapping w) (lo w) (hi w) (busy w).
Definition set_mapping (b : option Z) (w : asp) : asp := mkAsp (clk w) (seekpos w) b (lo w) (hi w) (busy w).
Definition set_lo (v : Z) (w : asp) : asp := mkAsp (clk w) (seekpos w) (mapping w) v (hi w) (busy w).
Definition set_hi (v : Z) (w : asp) : asp := mkAsp (clk w) (seekpos w) (mapping w) (lo w) v (busy w).
Definition set_busy (k : option nat) (w : asp) : asp := mkAsp (clk w) (seekpos w) (mapping w) (lo w) (hi w) k.
Definition set_clk (t : Z) (w : asp) : asp := mkAsp t (seekpos w) (mapping w) (lo w) (hi w) (busy w).

Section Sim.
Variable id : bytes.
Variables frame unframe : Z → Z.
Variable delay : nat.
(** Where the device's registers are in physical memory. *)
Variable bar : Z.
Variable alloc : memory → nat → Z.

(** Physical and virtual addresses. *)
Definition phys (v : Z) : Z := (frame (v / 4096) * 4096 + v mod 4096)%Z.
Definition virt (p : Z) : Z := (unframe (p / 4096) * 4096 + p mod 4096)%Z.

(** What the device reads and writes, byte by byte, by physical address. *)
Fixpoint dload (p : Z) (n : nat) (m : memory) : bytes :=
  match n with O => [] | S n => default Byte.x00 (m !! virt p) :: dload (p + 1) n m end.
Fixpoint dstore (p : Z) (bs : bytes) (m : memory) : memory :=
  match bs with [] => m | b :: bs => <[virt p := b]> (dstore (p + 1) bs m) end.

Definition command (w : asp) : Z := (hi w * 2 ^ 32 + lo w)%Z.
Definition complete (w : asp) (m : memory) : memory :=
  let cmd := command w in
  let buffer := le_Z (dload cmd 8 m) in
  if decide (zlen id ≤ le_Z (dload (cmd + 8) 4 m))%Z
  then dstore (cmd + 8) (le_bytes 4 (zlen id)) (dstore buffer id m)
  else m.

(** The register of the device that byte [o] of the mapped window shows. *)
Definition register (w : asp) (handle o : Z) : option Z :=
  if decide (handle = 7)%Z then (λ base, base + o - bar)%Z <$> mapping w else None.

Definition EINVAL : Z := 22.

Definition simSys {R} (op : sysop R) (w : asp) (m : memory) : R * asp * memory :=
  match op in sysop R return R * asp * memory with
  | OpenFile p =>
    (if decide (p = devMem) then inr 3%Z else if decide (p = pagemapPath) then inr 4%Z
     else inl (EErrno ENOENT), w, m)
  | CloseFile _ | Mlock _ _ | Munlock _ _ => (None, w, m)
  | Seek _ o => (None, set_seekpos o w, m)
  | Read fd _ =>
    (if decide (fd = 4)%Z then inr (le_bytes 8 (2 ^ 63 + frame (seekpos w / 8))) else inl (EErrno EINVAL), w, m)
  | Ioctl _ _ _ => (25%Z, w, m)
  | MapRegion fd n o =>
    if decide (fd = 3 ∧ o mod 4096 = 0)%Z then (inr (7%Z, n), set_mapping (Some o) w, m)
    else (inl (EErrno EINVAL), w, m)
  | Unmap _ => (None, set_mapping None w, m)
  | RegWrite h o v =>
    (tt, if decide (register w h o = Some aspRegCmdBuffLo) then set_lo v w
         else if decide (register w h o = Some aspRegCmdBuffHi) then set_hi v w
         else if decide (register w h o = Some aspRegCmdResp ∧ v = 0xC0000%Z) then set_busy (Some delay) w
         else w, m)
  | RegRead h o =>
    if decide (register w h o = Some aspRegCmdResp) then
      match busy w with
      | Some (S k) => (0%Z, set_busy (Some k) w, m)
      | Some O => ((2 ^ 31)%Z, set_busy None w, complete w m)
      | None => (0%Z, w, m)
      end
    else (0%Z, w, m)
  | Now => (clk w, w, m)
  | Sleep d => (tt, set_clk (clk w + d) w, m)
  end.
#[local] Instance simKernel : Kernel asp := {| sys := @simSys; place := alloc |}.

Context (Hframe : ∀ v, (0 ≤ v < 2 ^ 52 → 0 ≤ frame v < 2 ^ 52 ∧ unframe (frame v) = v)%Z).

Lemma virt_phys a i : (0 ≤ a < 2 ^ 64)%Z → (0 ≤ i)%Z → (a mod 4096 + i < 4096)%Z → virt (phys a + i) = (a + i)%Z.
Proof.
  intros Ha Hi Hp. pose proof (Z.mod_pos_bound a 4096 ltac:(lia)). pose proof (Z.div_mod a 4096 ltac:(lia)).
  destruct (Hframe (a / 4096)) as [_ Hu]; [split; [apply Z.div_pos; lia|apply Z.div_lt_upper_bound; lia]|].
  unfold virt, phys.
  assert ((frame (a / 4096) * 4096 + a mod 4096 + i) / 4096 = frame (a / 4096) ∧
          (frame (a / 4096) * 4096 + a mod 4096 + i) mod 4096 = a mod 4096 + i)%Z as [-> ->]; [|lia].
  replace (frame (a / 4096) * 4096 + a mod 4096 + i)%Z with (a mod 4096 + i + frame (a / 4096) * 4096)%Z by lia.
  rewrite Z.div_add, Z.mod_add, Z.div_small, Z.mod_small by lia. lia.
Qed.

(** Within a page the device sees what the process sees. *)
Lemma dload_load a i n m : (0 ≤ a < 2 ^ 64)%Z → (0 ≤ i)%Z → (a mod 4096 + i + Z.of_nat n ≤ 4096)%Z →
  dload (phys a + i) n m = load (a + i) n m.
Proof.
  intros Ha. revert i. induction n as [|n IH]; intros i Hi Hp; [done|]. cbn [dload load].
  rewrite virt_phys by lia. f_equal. rewrite <- !Z.add_assoc. apply IH; lia.
Qed.
Lemma dstore_store a i bs m : (0 ≤ a < 2 ^ 64)%Z → (0 ≤ i)%Z → (a mod 4096 + i + zlen bs ≤ 4096)%Z →
  dstore (phys a + i) bs m = store (a + i) bs m.
Proof.
  intros Ha. revert i. induction bs as [|b bs IH]; intros i Hi Hp; [done|]. cbn [dstore store length] in *.
  rewrite virt_phys by lia. f_equal. rewrite <- !Z.add_assoc. apply IH; lia.
Qed.

Lemma phys_range a : (0 ≤ a < 2 ^ 64)%Z → (0 ≤ phys a < 2 ^ 64)%Z.
Proof.
  intros Ha. destruct (Hframe (a / 4096)) as [Hf _]; [split; [apply Z.div_pos; lia|apply Z.div_lt_upper_bound; lia]|].
  pose proof (Z.mod_pos_bound a 4096 ltac:(lia)). unfold phys. lia.
Qed.

(** One call of the simulated kernel. *)
Ltac run1 := erewrite bind_run_Ok;
  [|first [eapply try_run | eapply must_run | idtac]; unfold call; cbn [sys simKernel simSys world mem]; reflexivity].

(** The calls in between do not touch memory, the clock or the mailbox. *)
Definition quiet (s s' : @machine asp) : Prop :=
  mem s' = mem s ∧ clk (world s') = clk (world s) ∧ lo (world s') = lo (world s) ∧
  hi (world s') = hi (world s) ∧ busy (world s') = busy (world s) ∧ mapping (world s') = mapping (world s).

(** Through a window that starts at the device's registers. *)
Lemma register_aligned w o : mapping w = Some bar → register w 7 o = Some o.
Proof. unfold register. intros ->. cbn. f_equal. lia. Qed.

(** A page table entry: the present bit and the frame. *)
Lemma present f : (0 ≤ f < 2 ^ 52)%Z → Z.testbit (2 ^ 63 + f) 63 = true.
Proof.
  intros Hf. rewrite Z.testbit_true by lia. replace (2 ^ 63 + f)%Z with (f + 1 * 2 ^ 63)%Z by lia.
  rewrite Z.div_add, Z.div_small by lia. done.
Qed.
Lemma frame_bits f : (0 ≤ f < 2 ^ 52)%Z → Z.land (2 ^ 63 + f) (Z.shiftl 1 55 - 1) = f.
Proof.
  intros Hf. change (Z.shiftl 1 55 - 1)%Z with (Z.ones 55). rewrite Z.land_ones by lia.
  replace (2 ^ 63 + f)%Z with (f + 2 ^ 8 * 2 ^ 55)%Z by lia. rewrite Z.mod_add, Z.mod_small by lia. done.
Qed.

(** The page tables are read as they are. *)
Lemma getPhysicalAddress_phys a n s : n ≠ 0 → (0 ≤ a < 2 ^ 64)%Z →
  ∃ s', getPhysicalAddress a n s = (Ok (phys a), s') ∧ quiet s s'.
Proof.
  intros Hn Ha. unfold getPhysicalAddress. rewrite decide_False by done.
  run1. destruct (pfnIndex_fits a Ha) as [Hu Hmax]. cbv zeta. rewrite Hu, decide_False by lia.
  destruct (Hframe (a / 4096)) as [Hf _]; [split; [apply Z.div_pos; lia|apply Z.div_lt_upper_bound; lia]|].
  pose proof (Z.mod_pos_bound a 4096 ltac:(lia)).
  eexists. split.
  - apply defer_run. run1. run1. cbn [seekpos set_seekpos world]. rewrite take_app_le, take_ge by by rewrite length_le_bytes.
    rewrite le_Z_le_bytes. unfold pageSize in *. rewrite Z.div_mul by lia.
    change (256 ^ Z.of_nat 8)%Z with (2 ^ 64)%Z. rewrite (Z.mod_small (2 ^ 63 + _)) by lia.
    rewrite frame_bits, Z.shiftl_1_l, land_pow2, present, decide_False by lia.
    rewrite (wrap_small _ (frame _ * _)), wrap_small by lia. reflexivity.
  - done.
Qed.

(** ** The wait *)

(** While the device works, each poll takes one sleep; then the response bit is up
    and memory is as the device left it. *)
Lemma pollLoop_answer p deadline k fuel s : (aspRegCmdResp + 4 ≤ mapLen p)%Z → mmap p = 7%Z →
  mapping (world s) = Some bar → busy (world s) = Some k → k < fuel →
  (clk (world s) + Z.of_nat k * pollInterval < deadline)%Z →
  ∃ s', pollLoop fuel p deadline s = (Ok (0%Z, None), s') ∧ mem s' = complete (world s) (mem s).
Proof.
  intros Hp H7. assert (window p aspRegCmdResp = Ok ()) as Hw.
  { unfold window. rewrite !decide_False by lia. done. }
  revert fuel s. induction k as [|k IH]; intros [|fuel] s Hbar Hb Hf Hd; [lia| |lia|]; cbn [pollLoop].
  - run1. rewrite decide_True by lia. unfold read32. rewrite Hw.
    erewrite bind_run_Ok by (unfold mbind, SM_bind, lift, call; cbn [sys simKernel simSys world mem];
         rewrite H7, decide_True by (by apply register_aligned); rewrite Hb; reflexivity).
    rewrite decide_True by done. eexists. split; reflexivity.
  - run1. rewrite decide_True by (unfold pollInterval in *; lia). unfold read32. rewrite Hw.
    erewrite bind_run_Ok by (unfold mbind, SM_bind, lift, call; cbn [sys simKernel simSys world mem];
         rewrite H7, decide_True by (by apply register_aligned); rewrite Hb; reflexivity).
    rewrite decide_False by (intros Hn; apply Hn; reflexivity). run1. 
    edestruct (IH fuel) as (s' & Hs' & Hm); [| | | |rewrite Hs'; eexists; split; [reflexivity|]];
      cbn [world mem busy clk mapping set_busy set_clk]; [done|done|lia|lia|].
    rewrite Hm. done.
Qed.

(** ** The command *)

Lemma load_app a n k m : load a (n + k) m = load a n m ++ load (a + Z.of_nat n) k m.
Proof.
  revert a. induction n as [|n IH]; intros a; cbn [Nat.add load app]; [by rewrite Z.add_0_r|].
  rewrite IH. do 3 f_equal. lia.
Qed.

(** The whole of a buffer of which the first bytes are overwritten. *)
Lemma load_overwrite a bs bs' m : load a (length bs) m = bs → length bs' ≤ length bs →
  load a (length bs) (store a bs' m) = bs' ++ drop (length bs') bs.
Proof.
  intros Hbs Hl. replace (length bs) with (length bs' + (length bs - length bs')) in * by lia.
  rewrite load_app, load_store. f_equal. rewrite load_app in Hbs.
  rewrite load_store_disj by (unfold disj; lia).
  rewrite <- Hbs at 2. rewrite drop_app_ge by (rewrite length_load; lia). rewrite length_load, Nat.sub_diag. done.
Qed.

(** The command's address goes through the two registers. *)
Lemma registers_value p : (0 ≤ p < 2 ^ 64)%Z →
  (u32 (Z.shiftr p 32) * 2 ^ 32 + Z.land p 0xFFFFFFFF = p)%Z.
Proof.
  intros Hp. change 0xFFFFFFFF%Z with (Z.ones 32). rewrite Z.land_ones, Z.shiftr_div_pow2 by lia.
  rewrite wrap_small; [rewrite Z.mul_comm; symmetry; apply Z.div_mod; lia|].
  split; [apply Z.div_pos; lia|apply Z.div_lt_upper_bound; lia].
Qed.

(** What the device does with the command at [c] for the buffer at [a]. *)
Lemma complete_spec w m c a n : command w = phys c → (0 ≤ a < 2 ^ 64)%Z → (0 ≤ c < 2 ^ 64)%Z →
  (a mod 4096 + zlen id ≤ 4096)%Z → (c mod 4096 + 16 ≤ 4096)%Z →
  load c 8 m = le_bytes 8 (phys a) → load (c + 8) 4 m = le_bytes 4 n → (zlen id ≤ n < 2 ^ 32)%Z →
  complete w m = store (c + 8) (le_bytes 4 (zlen id)) (store a id m).
Proof.
  intros Hw Ha Hc Hpa Hpc H1 H2 Hn. unfold complete. cbv zeta. rewrite Hw.
  pose proof (phys_range a Ha). pose proof (Z.mod_pos_bound a 4096 ltac:(lia)). pose proof (Z.mod_pos_bound c 4096 ltac:(lia)).
  rewrite (dload_load c 8 4) by lia. rewrite H2, le_Z_le_bytes.
  change (256 ^ Z.of_nat 4)%Z with (2 ^ 32)%Z. rewrite Z.mod_small by lia. rewrite decide_True by lia.
  rewrite dstore_store by (rewrite ?length_le_bytes; lia). f_equal.
  pose proof (dload_load c 0 8 m Hc ltac:(lia) ltac:(lia)) as Hd. rewrite !Z.add_0_r in Hd. rewrite Hd, H1, le_Z_le_bytes.
  change (256 ^ Z.of_nat 8)%Z with (2 ^ 64)%Z. rewrite Z.mod_small by lia.
  pose proof (dstore_store a 0 id m Ha ltac:(lia) ltac:(lia)) as Hs. by rewrite !Z.add_0_r in Hs.
Qed.

Lemma write32_run p o v s : (0 ≤ o)%Z → (o + 4 ≤ mapLen p)%Z → ∃ s', write32 p o v s = (Ok (), s') ∧
  mem s' = mem s ∧ world s' = snd (fst (simSys (RegWrite (mmap p) o v) (world s) (mem s))).
Proof.
  intros Ho Hp. unfold write32, window. rewrite !decide_False by lia. eexists. split; [|split].
  - unfold mbind, SM_bind, lift, call. cbn [sys simKernel simSys world mem fst snd]. reflexivity.
  - reflexivity.
  - reflexivity.
Qed.

(** The three writes start the command at [v]. *)
Lemma submit_run p v s : (aspRegCmdBuffHi + 4 ≤ mapLen p)%Z → mmap p = 7%Z → mapping (world s) = Some bar →
  (0 ≤ v < 2 ^ 64)%Z →
  ∃ s', (∀ A (f : unit → SM machine A), (_ ← write32 p aspRegCmdBuffLo (Z.land v 0xFFFFFFFF);
         _ ← write32 p aspRegCmdBuffHi (u32 (Z.shiftr v 32));
         write32 p aspRegCmdResp (u32 (Z.shiftl sevCmdGetID aspCmdRespCmdShift)) ≫= f) s = f () s') ∧
    mem s' = mem s ∧ clk (world s') = clk (world s) ∧ command (world s') = v ∧ busy (world s') = Some delay ∧
    mapping (world s') = Some bar.
Proof.
  intros Hp H7 Hbar Hv. unfold aspRegCmdBuffHi in Hp.
  destruct (write32_run p aspRegCmdBuffLo (Z.land v 0xFFFFFFFF) s) as (s1 & H1 & M1 & W1); [by vm_compute|unfold aspRegCmdBuffLo; lia|].
  destruct (write32_run p aspRegCmdBuffHi (u32 (Z.shiftr v 32)) s1) as (s2 & H2 & M2 & W2); [by vm_compute|unfold aspRegCmdBuffHi; lia|].
  destruct (write32_run p aspRegCmdResp (u32 (Z.shiftl sevCmdGetID aspCmdRespCmdShift)) s2) as (s3 & H3 & M3 & W3);
    [by vm_compute|unfold aspRegCmdResp; lia|].
  cbn [simSys fst snd] in W1, W2, W3. rewrite H7 in W1, W2, W3.
  exists s3.
  rewrite decide_True in W1 by (by apply register_aligned).
  assert (mapping (world s1) = Some bar) as B1 by by rewrite W1.
  rewrite (register_aligned _ _ B1), decide_False, decide_True in W2 by done.
  assert (mapping (world s2) = Some bar) as B2 by by rewrite W2.
  rewrite (register_aligned _ _ B2), decide_False, decide_False, decide_True in W3 by done.
  split; [intros A f; by rewrite (bind_run_Ok _ _ _ _ _ H1), (bind_run_Ok _ _ _ _ _ H2), (bind_run_Ok _ _ _ _ _ H3)|].
  rewrite M3, M2, M1. split; [done|]. unfold command. rewrite W3. cbn [clk lo hi busy mapping set_busy].
  rewrite W2. cbn [clk lo hi busy mapping set_hi]. rewrite W1. cbn [clk lo hi busy mapping set_lo].
  split; [done|]. split; [by apply registers_value|done].
Qed.

Lemma pollCmd_answer p s : (aspRegCmdResp + 4 ≤ mapLen p)%Z → mmap p = 7%Z → mapping (world s) = Some bar →
  busy (world s) = Some delay →
  (Z.of_nat delay * pollInterval < aspTimeout)%Z →
  ∃ s', pollCmd p aspTimeout s = (Ok (0%Z, None), s') ∧ mem s' = complete (world s) (mem s).
Proof.
  intros Hp H7 Hbar Hb Hd. unfold pollCmd. run1.
  match goal with |- context [pollLoop _ _ _ ?st] => set (s1 := st) end.
  assert (mem s1 = mem s ∧ world s1 = world s) as [HM HW] by done. clearbody s1. rewrite <- HM, <- HW in *.
  apply (pollLoop_answer p _ delay); [done|done|done|done|unfold pollFuel; change (aspTimeout / pollInterval)%Z with 50000%Z|lia].
  unfold aspTimeout, pollInterval in Hd. lia.
Qed.

(** The two buffers do not cross a page, as 64 and 16 divide a page and Go aligns
    small objects of such sizes to them. *)
Context (Halloc : allocates) (Hpages : ∀ m n, n = amdChipIDSize ∨ n = 16 → (alloc m n mod 4096 + Z.of_nat n ≤ 4096)%Z).
Context (Hdelay : (Z.of_nat delay * pollInterval < aspTimeout)%Z).
Context (Hid : validID id) (Hfresh : ¬ id `prefix_of` aspChipIDSentinel).

(** The identifier is accepted, and the rest of the buffer is cut off. *)
Lemma checkDMAChipID_id buf : length buf = amdChipIDSize → id `prefix_of` buf →
  checkDMAChipID buf (zlen id) = None ∧ take (Z.to_nat (zlen id)) buf = id.
Proof.
  intros Hl [k ->]. rewrite Nat2Z.id, take_app_length. split; [|done]. apply checkDMAChipID_None; [done|].
  rewrite Nat2Z.id, take_app_length. split; [|split; [done|destruct Hid as [? _]; lia]].
  intros Heq. apply Hfresh. rewrite <- Heq. by exists k.
Qed.

(** What the program reads back when the device has answered. *)
Lemma answered a c m0 m : disj a amdChipIDSize c 16 → (0 ≤ a < 2 ^ 64)%Z →
  mem m0 = store (c + 12) (le_bytes 4 0) (store (c + 8) (le_bytes 4 64) (store c (le_bytes 8 (phys a))
    (store c (replicate 16 Byte.x00) (store a aspChipIDSentinel m)))) →
  load c 8 (mem m0) = le_bytes 8 (phys a) ∧ load (c + 8) 4 (mem m0) = le_bytes 4 64 ∧
  load a amdChipIDSize (store (c + 8) (le_bytes 4 (zlen id)) (store a id (mem (W := asp) m0))) =
    id ++ drop (length id) aspChipIDSentinel.
Proof.
  intros Hd Ha ->. destruct Hid as [Hlen _]. unfold disj, amdChipIDSize in *.
  split; [|split].
  - rewrite !load_store_disj by (unfold disj; rewrite ?length_le_bytes; lia).
    by rewrite load_store_eq by by rewrite length_le_bytes.
  - rewrite load_store_disj by (unfold disj; rewrite ?length_le_bytes; lia).
    by rewrite load_store_eq by by rewrite length_le_bytes.
  - rewrite load_store_disj by (unfold disj; rewrite ?length_le_bytes; lia).
    change amdChipIDSize with (length aspChipIDSentinel). change 64 with (length aspChipIDSentinel) in *.
    apply load_overwrite; [|lia]. change (length aspChipIDSentinel) with 64 in *.
    rewrite !load_store_disj by (unfold disj; rewrite ?length_le_bytes, ?length_replicate; lia).
    by apply load_store_eq.
Qed.

Lemma runGetID_id p a s : (aspRegCmdBuffHi + 4 ≤ mapLen p)%Z → mmap p = 7%Z → mapping (world s) = Some bar → (0 ≤ a < 2 ^ 64)%Z →
  (a mod 4096 + Z.of_nat amdChipIDSize ≤ 4096)%Z → mapped (mem s) a amdChipIDSize → room (mem s) 128 →
  fst (runGetID p a s) = Ok (mkResult VendorAMDSEVSNP id).
Proof.
  intros Hp H7 Hbar Ha Hpa Hmap Hroom. unfold runGetID. rewrite bind_put.
  match goal with |- context [(map_errS _ _ ≫= _) ?st] => set (s0 := st) end.
  destruct (getPhysicalAddress_phys a amdChipIDSize s0 ltac:(done) Ha) as (s1 & H1 & Hm1 & _ & _ & _ & _ & Hb1).
  rewrite (bind_run_Ok _ _ _ _ _ (map_errS_run _ _ _ _ _ H1)). rewrite bind_make.
  set (c := place (mem s1) 16). match goal with |- context [(map_errS _ _ ≫= _) ?st] => set (s2 := st) end.
  assert (room (mem s1) 64) as Hroom1.
  { rewrite Hm1. eapply (room_store _ _ _ amdChipIDSize); [eapply room_mono; [exact Hroom|]|]; done. }
  destruct (Halloc (mem s1) 16 ltac:(lia) ltac:(eapply room_mono; [exact Hroom1|lia])) as (Hunused & Hc & Hc').
  pose proof (Hpages (mem s1) 16 ltac:(by right)) as Hpc. change (alloc (mem s1) 16) with c in Hpc. fold c in Hunused, Hc, Hc'.
  assert (disj a amdChipIDSize c 16) as Hdisj.
  { eapply (mapped_unused_disj (mem s1)); [unfold amdChipIDSize; lia..| |done].
    rewrite Hm1. cbn [mem s0]. by apply mapped_mono. }
  destruct (getPhysicalAddress_phys c 16 s2 ltac:(done) ltac:(lia)) as (s3 & H3 & Hm3 & _ & _ & _ & _ & Hb3).
  rewrite (bind_run_Ok _ _ _ _ _ (map_errS_run _ _ _ _ _ H3)). rewrite !bind_put.
  match goal with |- context [(write32 _ _ _ ≫= _) ?st] => set (s4 := st) end.
  destruct (submit_run p (phys c) s4) as (s5 & Hrun & Hm5 & _ & Hcmd & Hbusy & Hbar5);
    [done|done|by cbn [world s4]; rewrite Hb3; cbn [world s2]; rewrite Hb1|apply phys_range; lia|].
  rewrite Hrun.
  destruct (pollCmd_answer p s5) as (s6 & H6 & Hm6); [unfold aspRegCmdResp, aspRegCmdBuffHi in *; lia|done..|].
  rewrite (bind_run_Ok _ _ _ _ _ H6). cbv beta iota. rewrite !bind_fetch.
  destruct (answered a c s5 (mem s)) as (L1 & L2 & L3); [done|done|by rewrite Hm5; cbn [mem s4]; rewrite Hm3; cbn [mem s2]; rewrite Hm1|].
  destruct Hid as [Hlen _]. unfold amdChipIDSize in Hlen.
  rewrite (complete_spec _ _ c a 64) in Hm6 by first [done | lia | unfold amdChipIDSize in *; lia].
  rewrite Hm6, L3. rewrite load_store_eq by by rewrite length_le_bytes.
  rewrite le_Z_le_bytes. change (256 ^ Z.of_nat 4)%Z with (2 ^ 32)%Z. rewrite Z.mod_small by lia.
  destruct (checkDMAChipID_id (id ++ drop (length id) aspChipIDSentinel)) as [-> ->]; [|by eexists|done].
  rewrite length_app, length_drop. change (length aspChipIDSentinel) with 64. unfold amdChipIDSize. lia.
Qed.

(** The window starts at the page of [base]: its offset in the page is dropped. *)
Lemma openASPMMIO_run base size s : (0 ≤ base ≤ maxInt)%Z → (u64 (size + base mod pageSize) ≤ maxInt)%Z →
  ∃ s', openASPMMIO base size s = (Ok (mkMMIO 3 7 (u64 (size + base mod pageSize))), s') ∧ mem s' = mem s ∧
    mapping (world s') = Some (base - base mod pageSize)%Z.
Proof.
  intros Hb Hs. pose proof (Z.mod_pos_bound base pageSize ltac:(done)). unfold openASPMMIO. run1. cbv zeta.
  rewrite !(decide_False (P := (maxInt < _)%Z)) by lia.
  assert ((base - base mod pageSize) mod 4096 = 0)%Z as Hal.
  { change 4096%Z with pageSize. rewrite Zminus_mod_idemp_r, Z.sub_diag. done. }
  erewrite bind_run_Ok.
  2:{ unfold call; cbn [sys simKernel simSys world mem]. rewrite decide_True by done. reflexivity. }
  eexists. split; [reflexivity|]. by split.
Qed.

(** C20: on a host whose kernel and security processor behave as documented, whatever the page tables, the
    allocator and the device's delay below the timeout, the direct read of a device whose BAR is page-aligned
    returns the identifier the device wrote, cut to the length it reported. *)
Theorem ASP_GET_ID d (s : @machine asp) : room (mem s) 192 →
  mmioBase d = bar → (bar mod pageSize = 0)%Z → (0 ≤ bar ≤ maxInt)%Z →
  (aspRegCmdBuffHi + 4 ≤ mmioSize d ≤ maxInt)%Z →
  fst (getChipIDFromDevice d s) = Ok (mkResult VendorAMDSEVSNP id).
Proof.
  intros Hroom Hd Hal Hbar Hsize. unfold getChipIDFromDevice. rewrite Hd.
  assert (u64 (mmioSize d + bar mod pageSize) = mmioSize d) as Hlen.
  { rewrite Hal, Z.add_0_r, wrap_small; [done|]. unfold maxInt, aspRegCmdBuffHi in *. lia. }
  destruct (openASPMMIO_run bar (mmioSize d) s Hbar ltac:(lia)) as (s1 & H1 & Hm1 & Hb1).
  rewrite Hal, Z.sub_0_r in Hb1.
  rewrite (bind_run_Ok _ _ _ _ _ H1), defer_fst, bind_make. run1. rewrite defer_fst.
  destruct (Halloc (mem s1) amdChipIDSize) as (_ & Ha & Ha'); [unfold amdChipIDSize; lia|rewrite Hm1; eapply room_mono; [exact Hroom|done]|].
  pose proof (Hpages (mem s1) amdChipIDSize ltac:(by left)).
  apply runGetID_id; cbn [mapLen mmap mem world]; [lia|done|done|change (alloc (mem s1) amdChipIDSize) with (place (mem s1) amdChipIDSize) in *; lia|done| |].
  - apply (mapped_store _ (replicate amdChipIDSize Byte.x00)).
  - eapply (room_store _ _ _ amdChipIDSize); [rewrite Hm1; eapply room_mono; [exact Hroom|done]|apply length_replicate].
Qed.

End Sim.

(** ** A concrete host *)
Module Demo.

Definition id1 : bytes := replicate 30 Byte.x5a.
Definition start : @machine asp := mkMachine ∅ (mkAsp 0 0 None 0 0 None) [].
Definition device1 : aspDevice := mkDevice (str "0000:21:00.2") 0xe0900000 0x100000.

Lemma firstFit_page m n : n = amdChipIDSize ∨ n = 16 → (firstFit m n mod 4096 + Z.of_nat n ≤ 4096)%Z.
Proof. unfold amdChipIDSize. intros Hn. rewrite firstFit_aligned. lia. Qed.

(** Neighbouring pages are swapped, the answer takes 3 polls and the identifier has 30 bytes. *)
Lemma swap_frames v : (0 ≤ v < 2 ^ 52 → 0 ≤ Z.lxor v 1 < 2 ^ 52 ∧ Z.lxor (Z.lxor v 1) 1 = v)%Z.
Proof.
  intros Hv. rewrite Z.lxor_assoc, Z.lxor_nilpotent, Z.lxor_0_r. split; [|done].
  assert (0 ≤ Z.lxor v 1)%Z by (apply Z.lxor_nonneg; lia). split; [done|].
  destruct (decide (Z.lxor v 1 = 0)%Z) as [->|Hne]; [lia|]. apply Z.log2_lt_pow2; [lia|].
  eapply Z.le_lt_trans; [apply Z.log2_lxor; lia|]. apply Z.max_lub_lt; [|done].
  destruct (decide (v = 0)%Z) as [->|]; [done|]. apply Z.log2_lt_pow2; lia.
Qed.

Lemma ASP_GET_ID_witness : let swap := λ v, Z.lxor v 1 in
  fst (getChipIDFromDevice (Kernel0 := simKernel id1 swap swap 3 0xe0900000 firstFit) device1 start) = Ok (mkResult VendorAMDSEVSNP id1).
Proof.
  intros swap. apply (ASP_GET_ID id1 swap swap 3 0xe0900000 firstFit swap_frames).
  - intros m n. apply firstFit_ok.
  - exact firstFit_page.
  - reflexivity.
  - split; [vm_compute; lia|]. exists Byte.x5a. split; [vm_compute; left|done].
  - intros [k Hk]. discriminate Hk.
  - vm_compute. discriminate.
  - reflexivity.
  - reflexivity.
  - split; vm_compute; discriminate.
  - split; vm_compute; discriminate.
Defined.
End Demo.

End AspSim.
