(* ===== verification/Blob.v ===== *)
(** * pkg/blob: the serialized form of TPM-wrapped data

    [Blob] is the struct, [Pack]/[Unpack]/[GetType] the three exported
    functions and [packInt16]/[unpackInt16] their helpers. [Unpack] works on a [slice] because its bounds are
    checked by the Go run time against lengths and capacities, not by the code. *)
From S2P Require Import Prelude Bytes.

Module Blob.

Definition ErrMismatchedTypes : string := "blob.ErrMismatchedTypes".

(** ** Constants of [SessionType] and [Type], both [byte] *)
Definition NullSession : byte := Byte.x01.
Definition AuthSession : byte := Byte.x02.
Definition PCRSession : byte := Byte.x03.

Definition WrapTypeSW : byte := Byte.x01.
Definition WrapTypeTPM : byte := Byte.x02.
Definition KeyTypeSW : byte := Byte.x03.
Definition KeyTypeTPM : byte := Byte.x04.
Definition ImportTypeSW : byte := Byte.x05.
Definition ImportTypeTPM : byte := Byte.x06.
Definition KeyTypeCryptoOracle : byte := Byte.x07.
Definition WrapTypeEATS : byte := Byte.x08.

(** [PCRs] is a [[]uint]: 64-bit unsigned numbers. *)
Record Blob := mkBlob {
  Public : bytes;
  Private : bytes;
  PCRs : list Z;
  EncryptedSeeds : bytes;
  Btype : byte;
  Stype : byte;
}.

(** ** Operations *)
Definition packInt16 (d : Z) : bytes := le_bytes 2 d.

Definition unpackInt16 (b : bytes) : outcome Z :=
  if decide (length b ≠ 2)
  then Err (err_fmt "invalid int16 length: %d" [AInt (zlen b)])
  else Ok (le_Z b).

Definition expectedCap (b : Blob) : nat :=
  9 + length (Public b) + length (Private b) + length (PCRs b)
    + length (EncryptedSeeds b).

Definition Pack (b : Blob) : bytes :=
  let pubLen := u16 (zlen (Public b)) in
  let privLen := u16 (zlen (Private b)) in
  let seedLen := u16 (zlen (EncryptedSeeds b)) in
  [Btype b] ++ [Stype b] ++ packInt16 pubLen ++ packInt16 privLen
    ++ Public b ++ Private b
    ++ [byte_of_Z (zlen (PCRs b))] ++ (byte_of_Z <$> PCRs b)
    ++ packInt16 seedLen ++ EncryptedSeeds b.

(** [for i := range pcrLen { b.PCRs[i] = uint(data[offset]); offset++ }] *)
Fixpoint readPCRs (data : slice) (offset pcrLen : nat) : outcome (list Z) :=
  match pcrLen with
  | O => Ok []
  | S n => pcr ← index data offset;
           rest ← readPCRs data (S offset) n;
           Ok (Z_of_byte pcr :: rest)
  end.

Definition Unpack (data : slice) (expectedType : byte) : outcome Blob :=
  if decide (sl_len data < 1 ∨ sl_data data !! 0 ≠ Some expectedType) then
    (* the error message formats data[0], also when there is none *)
    t ← index data 0;
    Err (EFmt "%w: invalid blob type %v" [AInt (Z_of_byte t)] [ESentinel ErrMismatchedTypes])
  else
    btype ← index data 0;
    stype ← index data 1;
    let offset := 2 in
    pubLenB ← reslice data offset (offset + 2);
    pubLen ← unpackInt16 pubLenB;
    privLenB ← reslice data (offset + 2) (offset + 4);
    privLen ← unpackInt16 privLenB;
    let offset := offset + 4 in
    public ← reslice data offset (offset + Z.to_nat pubLen);
    let offset := offset + Z.to_nat pubLen in
    private ← reslice data offset (offset + Z.to_nat privLen);
    let offset := offset + Z.to_nat privLen in
    pcrLenB ← index data offset;
    let pcrLen := Z.to_nat (Z_of_byte pcrLenB) in
    let offset := offset + 1 in
    pcrs ← readPCRs data offset pcrLen;
    let offset := offset + pcrLen in
    seedLenB ← reslice data offset (offset + 2);
    seedLen ← map_err (err_wrap "failed to get encryptedSeed length: %w")
                      (unpackInt16 seedLenB);
    let offset := offset + 2 in
    seeds ← reslice data offset (offset + Z.to_nat seedLen);
    Ok (mkBlob public private pcrs seeds btype stype).

Definition GetType (data : slice) : outcome byte := index data 0.

(** ** Well-formed blobs: the ones every field of which fits its wire slot *)
Definition wf (b : Blob) : Prop :=
  (zlen (Public b) < 2 ^ 16)%Z ∧ (zlen (Private b) < 2 ^ 16)%Z ∧
  (zlen (EncryptedSeeds b) < 2 ^ 16)%Z ∧ (zlen (PCRs b) < 2 ^ 8)%Z ∧
  Forall (λ p, 0 ≤ p < 256)%Z (PCRs b).

#[export] Instance wf_dec b : Decision (wf b).
Proof. unfold wf. apply _. Defined.

(** ** Lemmas on the parts of the format *)
Lemma length_packInt16 d : length (packInt16 d) = 2.
Proof. apply length_le_bytes. Qed.

Lemma unpackInt16_packInt16 d : unpackInt16 (packInt16 d) = Ok (u16 d).
Proof.
  unfold unpackInt16. rewrite length_packInt16, decide_False by lia.
  unfold packInt16. by rewrite le_Z_le_bytes.
Qed.

Lemma unpackInt16_Ok l d :
  unpackInt16 l = Ok d → l = packInt16 d ∧ (0 ≤ d < 2 ^ 16)%Z.
Proof.
  unfold unpackInt16. case_decide as Hl; intros [= <-].
  assert (length l = 2) as Hl2 by lia. split.
  - unfold packInt16. by rewrite <-Hl2, le_bytes_le_Z.
  - pose proof (le_Z_range l) as Hr. rewrite Hl2 in Hr. lia.
Qed.

Lemma readPCRs_at s i (pcrs : list Z) post :
  drop i (sl_all s) = (byte_of_Z <$> pcrs) ++ post →
  i + length pcrs ≤ sl_len s → Forall (λ p, 0 ≤ p < 256)%Z pcrs →
  readPCRs s i (length pcrs) = Ok pcrs ∧ drop (i + length pcrs) (sl_all s) = post.
Proof.
  revert i. induction pcrs as [|p pcrs IH]; intros i Hd Hi Hp; simpl in *.
  { split; [done|]. by rewrite Nat.add_0_r. }
  apply Forall_cons_1 in Hp as [Hp Hps].
  destruct (index_at s i _ _ Hd) as [-> Hd']; [lia|]. simpl.
  destruct (IH (S i) Hd') as [-> Hd'']; [lia|done|]. simpl.
  rewrite byte_of_Z_small by done. split; [done|]. rewrite <-Hd''. f_equal. lia.
Qed.

Lemma readPCRs_split s i n pcrs :
  readPCRs s i n = Ok pcrs →
  drop i (sl_all s) = (byte_of_Z <$> pcrs) ++ drop (i + n) (sl_all s) ∧
  length pcrs = n ∧ (n = 0 ∨ i + n ≤ sl_len s) ∧ Forall (λ p, 0 ≤ p < 256)%Z pcrs.
Proof.
  revert i pcrs. induction n as [|n IH]; simpl; intros i pcrs H.
  { injection H as <-. rewrite Nat.add_0_r. repeat split; auto. }
  apply bind_Ok in H as (p & Hp & H). apply bind_Ok in H as (ps & Hps & H).
  injection H as <-. apply index_split in Hp as [Hd Hi].
  apply IH in Hps as (Hd' & Hl & Hn & Hf). simpl. rewrite Hd, byte_of_Z_of_byte.
  repeat split; [|lia|lia|].
  - f_equal. rewrite Hd'. do 2 f_equal. lia.
  - constructor; [apply Z_of_byte_range|done].
Qed.

(** The size of the fixed prefix: up to and including the PCR values. *)
Definition headLen (b : Blob) : nat :=
  7 + length (Public b) + length (Private b) + length (PCRs b).

Lemma length_Pack b : length (Pack b) = expectedCap b.
Proof.
  unfold Pack, expectedCap.
  rewrite !length_app, !length_packInt16, length_fmap. simpl. lia.
Qed.

(** Step over the [reslice] in the goal, the bytes in view being known by [Hd]. *)
Ltac next_slice Hd :=
  match type of Hd with drop ?i _ = ?l ++ _ =>
    match goal with |- context [reslice _ i ?j] =>
      let Hr := fresh in
      destruct (reslice_at _ i j l _ Hd) as [Hr Hd']; [try rewrite length_packInt16; try lia..|];
      rewrite Hr; clear Hr Hd; rename Hd' into Hd; cbn [mbind outcome_bind map_err]
    end end.

(** ** The contract of [Unpack]

    [Unpack] succeeds exactly on the serialization of a well-formed blob of the
    expected type, read off the front of the bytes in view. *)
Lemma Unpack_complete s b tail :
  wf b → sl_all s = Pack b ++ tail → headLen b ≤ sl_len s →
  Unpack s (Btype b) = Ok b.
Proof.
  intros (Hpub & Hpriv & Hseed & Hn & Hp) Hs Hlen. unfold headLen in Hlen.
  assert (drop 0 (sl_all s) = Pack b ++ tail) as Hd by (by rewrite drop_0).
  unfold Pack in Hd. rewrite <-!app_assoc in Hd. cbn [app] in Hd.
  assert (length (sl_all s) = expectedCap b + length tail) as Hall
    by (by rewrite Hs, length_app, length_Pack).
  unfold expectedCap in Hall.
  destruct (index_at _ _ _ _ Hd) as [H0 Hd1]; [lia|].
  destruct (index_at _ _ _ _ Hd1) as [H1 Hd2]; [lia|].
  unfold Unpack. rewrite decide_False, H0, H1; cbn [mbind outcome_bind].
  2: { apply index_Ok in H0. intros [?|?]; [lia|congruence]. }
  next_slice Hd2. rewrite unpackInt16_packInt16. cbn [mbind outcome_bind].
  next_slice Hd2. rewrite unpackInt16_packInt16. cbn [mbind outcome_bind].
  rewrite !wrap_idemp, !wrap_small by lia. rewrite !Nat2Z.id.
  next_slice Hd2. next_slice Hd2.
  destruct (index_at _ _ _ _ Hd2) as [Hpl Hd3]; [lia|]. rewrite Hpl. cbn [mbind outcome_bind].
  rewrite byte_of_Z_small, Nat2Z.id by lia.
  rewrite <-Nat.add_1_r in Hd3.
  destruct (readPCRs_at _ _ _ _ Hd3) as [-> Hd4]; [lia|done|]. cbn [mbind outcome_bind].
  next_slice Hd4. rewrite unpackInt16_packInt16. cbn [mbind outcome_bind map_err].
  rewrite !wrap_idemp, !wrap_small, Nat2Z.id by lia.
  next_slice Hd4. by destruct b.
Qed.

Lemma Unpack_Ok s t :
  ∀ b, Unpack s t = Ok b →
  wf b ∧ Btype b = t ∧ headLen b ≤ sl_len s ∧ ∃ tail, sl_all s = Pack b ++ tail.
Proof.
  intros b H. unfold Unpack in H. case_decide as Hg; [by destruct (index s 0)|].
  apply bind_Ok in H as (bt & H0 & H). apply bind_Ok in H as (st & H1 & H).
  apply bind_Ok in H as (l2 & H2 & H). apply bind_Ok in H as (pl & Hpl & H).
  apply bind_Ok in H as (l3 & H3 & H). apply bind_Ok in H as (vl & Hvl & H).
  apply bind_Ok in H as (pub & H4 & H). apply bind_Ok in H as (priv & H5 & H).
  apply bind_Ok in H as (n & H6 & H). apply bind_Ok in H as (pcrs & H7 & H).
  apply bind_Ok in H as (l8 & H8 & H). apply bind_Ok in H as (sl & Hsl & H).
  apply bind_Ok in H as (seeds & H9 & H). injection H as <-. apply map_err_Ok in Hsl.
  assert (bt = t) as ->.
  { apply index_Ok in H0. destruct (decide (bt = t)) as [|Hne]; [done|].
    exfalso. apply Hg. right. rewrite H0. congruence. }
  apply unpackInt16_Ok in Hpl as [-> Hpl], Hvl as [-> Hvl], Hsl as [-> Hsl].
  apply index_split in H0 as [H0 L0], H1 as [H1 L1], H6 as [H6 L6].
  apply reslice_split in H2 as [H2 _], H3 as [H3 _], H4 as [H4 L4], H5 as [H5 L5],
    H8 as [H8 _], H9 as [H9 L9].
  apply readPCRs_split in H7 as (H7 & L7 & L7' & Hps). pose proof (Z_of_byte_range n) as Hn.
  split; [|split; [done|split]].
  - unfold wf; simpl. repeat split; [lia..|done].
  - unfold headLen; simpl. lia.
  - exists (drop (2 + 4 + Z.to_nat pl + Z.to_nat vl + 1 + Z.to_nat (Z_of_byte n) + 2
                  + Z.to_nat sl) (sl_all s)).
    rewrite <-(drop_0 (sl_all s)) at 1. unfold Pack.
    cbn [Public Private PCRs EncryptedSeeds Btype Stype].
    rewrite !wrap_small by lia.
    replace (zlen pub) with pl by lia. replace (zlen priv) with vl by lia.
    replace (zlen seeds) with sl by lia.
    replace (zlen pcrs) with (Z_of_byte n) by lia. rewrite byte_of_Z_of_byte.
    rewrite H0, H1. do 2 f_equal. rewrite <-!app_assoc; cbn [app].
    rewrite H2, H3, H4, H5, H6. do 5 f_equal.
    replace (S _) with (2 + 4 + Z.to_nat pl + Z.to_nat vl + 1) by lia.
    rewrite H7, H8, H9. done.
Qed.

(** ** Errors *)
Lemma readPCRs_not_Err s i n e : readPCRs s i n ≠ Err e.
Proof.
  revert i. induction n as [|n IH]; intros i; simpl; [done|].
  intros [?%index_not_Err | (p & _ & [?%IH | (ps & _ & [=])]%bind_Err)]%bind_Err; done.
Qed.

Lemma unpackInt16_reslice_not_Err s i j l e :
  reslice s i j = Ok l → j - i = 2 → unpackInt16 l ≠ Err e.
Proof.
  intros Hl%length_reslice ?. unfold unpackInt16. rewrite decide_False by lia. done.
Qed.

(** Peel a call that cannot return an error off a hypothesis [_ = Err _]. *)
Ltac no_err H :=
  apply bind_Err in H as [H|(? & ? & H)];
  [exfalso; first [eapply index_not_Err, H | eapply reslice_not_Err, H
    | eapply readPCRs_not_Err, H
    | eapply unpackInt16_reslice_not_Err, H; [eassumption|lia]] |].

Lemma Unpack_Err s t e :
  Unpack s t = Err e →
  ∃ x, sl_data s !! 0 = Some x ∧ x ≠ t ∧
  e = EFmt "%w: invalid blob type %v" [AInt (Z_of_byte x)] [ESentinel ErrMismatchedTypes].
Proof.
  unfold Unpack. case_decide as Hg; intros H.
  - apply bind_Err in H as [H|(x & Hx%index_Ok & H)]; [by apply index_not_Err in H|].
    injection H as <-. exists x. split; [done|]. split; [|done]. intros ->.
    apply lookup_lt_Some in Hx as ?. unfold sl_len in Hg. destruct Hg; [lia|congruence].
  - do 11 no_err H. apply bind_Err in H as [H|(? & ? & H)].
    { apply map_err_Err in H as (e' & H & _). exfalso.
      eapply unpackInt16_reslice_not_Err, H; [eassumption|lia]. }
    no_err H. discriminate H.
Qed.

Arguments Pack : simpl never.

(** ** Properties *)

(** C31: [Unpack] is exactly the inverse of [Pack]: whatever the slice, its
    capacity and the expected type, it returns the blob [b] if and only if [b]
    fits the format (lengths below 2^16, fewer than 256 PCRs each below 256),
    has the expected type, the bytes in view start with [Pack b], and the slice
    is long enough to index the PCR bytes of [b]. *)
Theorem Unpack_iff s t b :
  Unpack s t = Ok b ↔
  wf b ∧ Btype b = t ∧ headLen b ≤ sl_len s ∧ ∃ tail, sl_all s = Pack b ++ tail.
Proof.
  split; [apply Unpack_Ok|]. intros (Hwf & <- & Hl & tail & Hs).
  by eapply Unpack_complete.
Qed.

(** C13: packing and unpacking a blob gives it back if and only if the blob fits
    the wire format: [Pack] silently truncates lengths to 16 bits, the PCR count
    and the PCR indices to 8, so outside these bounds the round trip is lost. *)
Theorem Pack_Unpack_roundtrip b :
  Unpack (exact (Pack b)) (Btype b) = Ok b ↔ wf b.
Proof.
  split.
  - intros H%Unpack_Ok. apply H.
  - intros Hwf. eapply (Unpack_complete _ _ []); [done|..].
    + by rewrite sl_all_exact, app_nil_r.
    + change (headLen b ≤ length (Pack b)).
      rewrite length_Pack. unfold headLen, expectedCap. lia.
Qed.

(** A truncated blob is not reported as an error: for every strict prefix of
    a well-formed packed blob, [Unpack] panics with an index or slice bound. *)
Theorem Unpack_truncated_panics b n :
  wf b → n < length (Pack b) →
  is_Panic (Unpack (exact (take n (Pack b))) (Btype b)) = true.
Proof.
  intros Hwf Hn. destruct (Unpack _ _) as [b'|e|] eqn:H; [..|done]; exfalso.
  - apply Unpack_Ok in H as (Hwf' & Ht & _ & tail & Hs).
    rewrite sl_all_exact in Hs.
    assert (Unpack (exact (Pack b)) (Btype b) = Ok b') as Hb'.
    { rewrite <-Ht. apply (Unpack_complete _ _ (tail ++ drop n (Pack b))); [done|..].
      - by rewrite sl_all_exact, app_assoc, <-Hs, take_drop.
      - change (headLen b' ≤ length (Pack b)). apply (f_equal length) in Hs.
        rewrite length_take, length_app, (length_Pack b') in Hs.
        unfold headLen. unfold expectedCap in Hs. lia. }
    apply Pack_Unpack_roundtrip in Hwf. rewrite Hwf in Hb'. injection Hb' as <-.
    apply (f_equal length) in Hs. rewrite length_take, length_app in Hs. lia.
  - apply Unpack_Err in H as (x & Hx & Hne & _). simpl in Hx.
    rewrite lookup_take in Hx. case_decide; [|done]. simpl in Hx. congruence.
Qed.

(** A small blob of every field, for the witnesses. *)
Definition sample : Blob :=
  mkBlob [Byte.x0a; Byte.x0b] [Byte.x0c] [0; 7]%Z [Byte.x0d] WrapTypeTPM PCRSession.

Lemma Unpack_truncated_panics_witness :
  wf sample ∧ 5 < length (Pack sample) ∧
  is_Panic (Unpack (exact (take 5 (Pack sample))) (Btype sample)) = true.
Proof.
  assert (wf sample) as Hwf by (apply (bool_decide_unpack _); vm_compute; exact I).
  assert (5 < length (Pack sample)) as Hl by (vm_compute; lia).
  exact (conj Hwf (conj Hl (Unpack_truncated_panics sample 5 Hwf Hl))).
Defined.

(** The capacity is what bounds a read: when the truncated blob is a prefix of a
    larger buffer, [Unpack] reads on past its length instead of panicking. *)
Example Unpack_overread :
  Unpack (Slice (take 12 (Pack sample)) (drop 12 (Pack sample))) (Btype sample) = Ok sample
  ∧ 12 < length (Pack sample).
Proof. split; [reflexivity|vm_compute; lia]. Qed.

End Blob.
