(* ===== verification/Wrap.v ===== *)
(** * pkg/tpm/wrap.go and key.go: splitting data into sealed segments

    [Sealer] is the Go interface, its state (the TPM behind it) passed
    explicitly; [SealerLaws] is what [Wrap] and [Unwrap] rely on of an
    implementation. [Wrap] and [Unwrap] are the two functions of wrap.go with
    their loops; [encode] and [chunks] are the reference they are compared to.
    [ReadKeyParts] is key.go's. *)
From S2P Require Import Prelude Bytes Blob.

Module Wrap.

(** A policy is a [*tpm2.TPM2BDigest]: its buffer, or nil. *)
Class Sealer (S Sess : Type) := {
  Seal : bytes → option bytes → SM S (bytes * bytes);
  Unseal : bytes → bytes → option Sess → SM S bytes;
}.

(** The promise of a sealer: an object sealed under a policy can be unsealed to
    the same data by a session that satisfies the policy, and neither sealing
    nor unsealing destroys what was sealed before. *)
Class SealerLaws (S Sess : Type) `{Sealer S Sess} := {
  sealed : S → bytes → bytes → bytes → option bytes → Prop;
  satisfies : S → option Sess → option bytes → Prop;
  seal_sealed s d p s' priv pub :
    Seal d p s = (Ok (priv, pub), s') → sealed s' priv pub d p;
  sealed_seal s d p r s' priv pub d' p' :
    sealed s priv pub d' p' → Seal d p s = (r, s') → sealed s' priv pub d' p';
  sealed_unseal s priv' pub' sess r s' priv pub d p :
    sealed s priv pub d p → Unseal priv' pub' sess s = (r, s') →
    sealed s' priv pub d p;
  satisfies_unseal s priv' pub' sess' r s' sess p :
    satisfies s sess p → Unseal priv' pub' sess' s = (r, s') → satisfies s' sess p;
  unseal_sealed s sess priv pub d p :
    sealed s priv pub d p → satisfies s sess p → (Unseal priv pub sess s).1 = Ok d;
}.

Definition maxSealLength : nat := 128.
Definition maxSealCount : nat := 254.

Definition ErrNoData : string := "tpm.ErrNoData".
Definition ErrCorruptedData : string := "tpm.ErrCorruptedData".
Definition ErrTooMuchData : string := "tpm.ErrTooMuchData".

Section Wrap.
Context {S Sess : Type} `{Sealer S Sess}.

(** The [for ofs < len(data)] loop. Every iteration consumes at least one
    byte, so [length data] is enough fuel: see [wrapLoop_eq]. *)
Fixpoint wrapLoop (fuel : nat) (data : bytes) (policy : option bytes)
    (ofs : nat) (wrapped : bytes) : SM S bytes :=
  match fuel with
  | O => mret wrapped
  | Datatypes.S fuel =>
    if decide (ofs < length data) then
      let count := Nat.min (length data - ofs) maxSealLength in
      chunk ← lift (reslice (exact data) ofs (ofs + count));
      '(private, public) ← Seal chunk policy;
      if decide (255 < length private ∨ 255 < length public)
      then lift (Err (ESentinel ErrTooMuchData))
      else wrapLoop fuel data policy (ofs + count)
             (wrapped ++ [byte_of_Z (zlen private)] ++ private
                      ++ [byte_of_Z (zlen public)] ++ public)
    else mret wrapped
  end.

Definition Wrap (data : bytes) (policy : option bytes) : SM S bytes :=
  if decide (maxSealLength * maxSealCount < length data)
  then lift (Err (ESentinel ErrTooMuchData))
  else wrapLoop (length data) data policy 0
         [byte_of_Z (Z.of_nat ((length data + maxSealLength - 1) `div` maxSealLength))].

(** The [for segments > 0] loop, [segments] counting down. *)
Fixpoint unwrapLoop (segments : nat) (sealedData : slice) (sess : option Sess)
    (ofs : nat) (data : bytes) : SM S bytes :=
  match segments with
  | O => mret data
  | Datatypes.S segments =>
    privateLenB ← lift (index sealedData ofs);
    let privateLen := Z.to_nat (Z_of_byte privateLenB) in
    let ofs := ofs + 1 in
    private ← lift (reslice sealedData ofs (ofs + privateLen));
    let ofs := ofs + privateLen in
    publicLenB ← lift (index sealedData ofs);
    let publicLen := Z.to_nat (Z_of_byte publicLenB) in
    let ofs := ofs + 1 in
    public ← lift (reslice sealedData ofs (ofs + publicLen));
    let ofs := ofs + publicLen in
    segment ← Unseal private public sess;
    unwrapLoop segments sealedData sess ofs (data ++ segment)
  end.

Definition Unwrap (sealedData : slice) (sess : option Sess) : SM S bytes :=
  segmentsB ← lift (index sealedData 0);
  let segments := Z.to_nat (Z_of_byte segmentsB) in
  if decide (segments = 0 ∨ maxSealCount < segments)
  then lift (Err (ESentinel ErrCorruptedData))
  else unwrapLoop segments sealedData sess 1 [].

End Wrap.

(** ** pkg/tpm/key.go *)
Definition ReadKeyParts (keyBlob : slice) : outcome (bytes * bytes) :=
  match Blob.Unpack keyBlob Blob.KeyTypeTPM with
  | Ok b => Ok (Blob.Public b, Blob.Private b)
  | Err e => if errors_Is Blob.ErrMismatchedTypes e
             then Err (ESentinel ErrCorruptedData) else Err e
  | Panic p => Panic p
  end.

(** ** Reference: the chunks of the data, sealed in order *)
Fixpoint chunksF (fuel : nat) (data : bytes) : list bytes :=
  match fuel, data with
  | O, _ | _, [] => []
  | Datatypes.S fuel, _ => take maxSealLength data :: chunksF fuel (drop maxSealLength data)
  end.

Definition chunks (data : bytes) : list bytes := chunksF (length data) data.

Definition encodeSegment (o : bytes * bytes) : bytes :=
  [byte_of_Z (zlen o.1)] ++ o.1 ++ [byte_of_Z (zlen o.2)] ++ o.2.

(** The wire format of a list of sealed objects: their number, then each. *)
Definition encode (objs : list (bytes * bytes)) : bytes :=
  byte_of_Z (zlen objs) :: concat (encodeSegment <$> objs).

(** ** Chunking *)
Lemma chunksF_fuel n m data :
  length data ≤ n → length data ≤ m → chunksF n data = chunksF m data.
Proof.
  revert m data. induction n as [|n IH]; intros [|m] [|b data]; simpl; try done; try lia.
  intros. f_equal. apply IH; rewrite length_drop; lia.
Qed.

Lemma chunks_nil : chunks [] = [].
Proof. done. Qed.

Lemma chunks_cons data :
  data ≠ [] → chunks data = take maxSealLength data :: chunks (drop maxSealLength data).
Proof.
  intros Hne. unfold chunks. destruct data as [|b data]; [done|]. cbn [length chunksF].
  f_equal. apply chunksF_fuel; rewrite length_drop; unfold maxSealLength; cbn [length]; lia.
Qed.

(** Induction along the chunks of the data. *)
Lemma chunks_ind (P : bytes → Prop) :
  P [] → (∀ data, data ≠ [] → P (drop maxSealLength data) → P data) → ∀ data, P data.
Proof.
  intros H0 HS data. remember (length data) as n eqn:Hn.
  assert (length data ≤ n) as Hle by lia. clear Hn. revert data Hle.
  induction n as [|n IH]; intros data Hle.
  - destruct data; [done|simpl in Hle; lia].
  - destruct data as [|b data]; [done|]. apply HS; [done|]. apply IH.
    rewrite length_drop. unfold maxSealLength. simpl in *. lia.
Qed.

Lemma concat_chunks data : concat (chunks data) = data.
Proof.
  induction data as [|data Hne IH] using chunks_ind; [done|].
  rewrite chunks_cons by done. cbn [concat]. by rewrite IH, take_drop.
Qed.

Lemma chunks_bound data :
  Forall (λ c, 1 ≤ length c ≤ maxSealLength) (chunks data).
Proof.
  induction data as [|data Hne IH] using chunks_ind; [constructor|].
  rewrite chunks_cons by done. constructor; [|done].
  rewrite length_take. destruct data; [done|]. unfold maxSealLength. cbn [length]. lia.
Qed.

Lemma length_chunks data :
  length (chunks data) = (length data + maxSealLength - 1) `div` maxSealLength.
Proof.
  induction data as [|data Hne IH] using chunks_ind; [done|].
  rewrite chunks_cons by done. cbn [length]. rewrite IH, length_drop.
  assert (0 < length data) by (destruct data; simpl; [done|lia]).
  unfold maxSealLength. destruct (decide (length data ≤ 128)).
  - replace (length data - 128 + 128 - 1) with 127 by lia.
    replace (length data + 128 - 1) with (1 * 128 + (length data - 1)) by lia.
    rewrite Nat.div_add_l, (Nat.div_small (_ - 1)) by lia. done.
  - replace (length data + 128 - 1) with (1 * 128 + (length data - 128 + 128 - 1)) by lia.
    rewrite Nat.div_add_l by lia. done.
Qed.

Lemma chunks_drop data ofs :
  ofs < length data →
  chunks (drop ofs data) =
    take (Nat.min (length data - ofs) maxSealLength) (drop ofs data)
    :: chunks (drop (ofs + Nat.min (length data - ofs) maxSealLength) data).
Proof.
  intros Hofs. rewrite chunks_cons.
  2: { intros Hd. apply (f_equal length) in Hd. rewrite length_drop in Hd. simpl in Hd. lia. }
  rewrite drop_drop. destruct (decide (length data - ofs ≤ maxSealLength)).
  - rewrite Nat.min_l by lia. f_equal.
    + rewrite !(take_ge (drop ofs data)); rewrite ?length_drop; done || lia.
    + rewrite !drop_ge; done || lia.
  - by rewrite Nat.min_r by lia.
Qed.

Lemma chunks_count data :
  length data ≤ maxSealLength * maxSealCount → length (chunks data) ≤ maxSealCount.
Proof.
  rewrite length_chunks. unfold maxSealLength, maxSealCount. intros Hle.
  apply Nat.lt_succ_r, Nat.Div0.div_lt_upper_bound. lia.
Qed.

(** ** [Wrap] and [Unwrap] against the reference *)
Lemma concat_encode_cons priv pub objs :
  concat (encodeSegment <$> (priv, pub) :: objs) =
  byte_of_Z (zlen priv) :: priv ++ byte_of_Z (zlen pub) :: pub
    ++ concat (encodeSegment <$> objs).
Proof. cbn. by rewrite <-app_assoc. Qed.

Definition fits (o : bytes * bytes) : Prop := length o.1 ≤ 255 ∧ length o.2 ≤ 255.

Section Reference.
Context {S Sess : Type} `{Sealer S Sess}.

(** Seal the chunks in order, refusing an object whose parts need more than one
    length byte. *)
Fixpoint sealAll (cs : list bytes) (policy : option bytes) : SM S (list (bytes * bytes)) :=
  match cs with
  | [] => mret []
  | c :: cs =>
    o ← Seal c policy;
    if decide (255 < length o.1 ∨ 255 < length o.2)
    then lift (Err (ESentinel ErrTooMuchData))
    else os ← sealAll cs policy; mret (o :: os)
  end.

(** Unseal the objects in order. *)
Fixpoint unsealAll (objs : list (bytes * bytes)) (sess : option Sess) : SM S (list bytes) :=
  match objs with
  | [] => mret []
  | o :: objs => d ← Unseal o.1 o.2 sess; ds ← unsealAll objs sess; mret (d :: ds)
  end.

Lemma wrapLoop_spec fuel data p ofs w s :
  length data - ofs ≤ fuel →
  wrapLoop fuel data p ofs w s =
  (objs ← sealAll (chunks (drop ofs data)) p;
   mret (w ++ concat (encodeSegment <$> objs))) s.
Proof.
  revert ofs w s. induction fuel as [|fuel IH]; intros ofs w s Hf; cbn [wrapLoop].
  { rewrite drop_ge by lia. rewrite chunks_nil. cbn [sealAll]. rewrite SM_bind_ret. cbn. by rewrite app_nil_r. }
  case_decide as Hofs.
  2: { rewrite drop_ge by lia. rewrite chunks_nil. cbn [sealAll].
       rewrite SM_bind_ret. cbn. by rewrite app_nil_r. }
  rewrite chunks_drop by done. cbn [sealAll].
  assert (reslice (exact data) ofs (ofs + Nat.min (length data - ofs) maxSealLength)
    = Ok (take (Nat.min (length data - ofs) maxSealLength) (drop ofs data))) as ->.
  { apply reslice_Ok. rewrite sl_all_exact. split; [lia|]. f_equal. lia. }
  rewrite SM_bind_lift.
  rewrite SM_bind_assoc. apply SM_bind_ext. intros [priv pub] s'. cbn [fst snd].
  case_decide; [done|]. rewrite SM_bind_assoc, IH by (unfold maxSealLength; lia).
  apply SM_bind_ext. intros os s''. rewrite SM_bind_ret. unfold mret, SM_ret.
  do 2 f_equal. cbn. by rewrite <-!app_assoc; cbn; rewrite <-!app_assoc.
Qed.

(** The invariant of [Unwrap]'s loop: the remaining objects are the bytes still
    ahead of [ofs]. *)
Lemma unwrapLoop_spec objs l sess ofs data s :
  Forall fits objs →
  drop ofs l = concat (encodeSegment <$> objs) →
  unwrapLoop (length objs) (exact l) sess ofs data s =
  (ds ← unsealAll objs sess; mret (data ++ concat ds)) s.
Proof.
  revert ofs data s. induction objs as [|[priv pub] objs IH]; intros ofs data s Hfit Hd.
  { cbn [unsealAll]. rewrite SM_bind_ret. cbn. by rewrite app_nil_r. }
  apply Forall_cons_1 in Hfit as [[Hpriv Hpub] Hfit]. cbn [fst snd] in Hpriv, Hpub.
  rewrite concat_encode_cons in Hd. rewrite <-(sl_all_exact l) in Hd.
  assert (ofs + (2 + length priv + length pub) ≤ length l) as Hlen.
  { apply (f_equal length) in Hd. rewrite length_drop, sl_all_exact in Hd.
    cbn [length] in Hd. rewrite length_app in Hd. cbn [length] in Hd.
    rewrite length_app in Hd. lia. }
  destruct (index_at _ _ _ _ Hd) as [H1 Hd1]; [unfold sl_len; simpl; lia|]. rewrite <-Nat.add_1_r in Hd1.
  destruct (reslice_at _ _ (ofs + 1 + length priv) _ _ Hd1) as [H2 Hd2];
    [done|rewrite sl_all_exact; lia|].
  destruct (index_at _ _ _ _ Hd2) as [H3 Hd3]; [unfold sl_len; simpl; lia|]. rewrite <-Nat.add_1_r in Hd3.
  destruct (reslice_at _ _ (ofs + 1 + length priv + 1 + length pub) _ _ Hd3) as [H4 Hd4];
    [done|rewrite sl_all_exact; lia|].
  cbn [length unwrapLoop]. rewrite H1. rewrite SM_bind_lift.
  rewrite byte_of_Z_small, Nat2Z.id, H2 by lia. rewrite SM_bind_lift.
  rewrite H3. rewrite SM_bind_lift.
  rewrite byte_of_Z_small, Nat2Z.id, H4 by lia. rewrite SM_bind_lift.
  cbn [unsealAll fst snd]. rewrite SM_bind_assoc. apply SM_bind_ext. intros d s'.
  rewrite IH; [|done|by rewrite <-Hd4, sl_all_exact].
  rewrite SM_bind_assoc. apply SM_bind_ext. intros ds s''. rewrite SM_bind_ret. cbn. by rewrite <-app_assoc.
Qed.

Lemma sealAll_length cs p s objs s' :
  sealAll cs p s = (Ok objs, s') → length objs = length cs ∧ Forall fits objs.
Proof.
  revert s objs s'. induction cs as [|c cs IH]; intros s objs s' Hs; cbn [sealAll] in Hs.
  { injection Hs as <- <-. by split. }
  apply SM_bind_Ok in Hs as (o & s1 & _ & Hs). case_decide as Hdec; [done|].
  apply SM_bind_Ok in Hs as (os & s2 & Hos & Hs). injection Hs as <- <-.
  apply IH in Hos as [Hl Hf]. split; [unfold sl_len; simpl; lia|]. constructor; [|done].
  unfold fits. lia.
Qed.

End Reference.

(** ** Round trip under the sealer's laws *)
Section Laws.
Context {S Sess : Type} `{SealerLaws S Sess}.

Lemma sealAll_preserves cs p s r s' priv pub d q :
  sealed s priv pub d q → sealAll cs p s = (r, s') → sealed s' priv pub d q.
Proof.
  revert s r s'. induction cs as [|c cs IH]; intros s r s' Hs Hall; cbn [sealAll] in Hall.
  { by injection Hall as <- <-. }
  unfold mbind, SM_bind in Hall. destruct (Seal c p s) as [[o|e|pn] s1] eqn:Hseal.
  - assert (sealed s1 priv pub d q) by (eapply sealed_seal; eauto).
    case_decide; [by injection Hall as <- <-|].
    destruct (sealAll cs p s1) as [[os|e|pn] s2] eqn:Hrest;
      injection Hall as <- <-; eauto.
  - injection Hall as <- <-. eapply sealed_seal; eauto.
  - injection Hall as <- <-. eapply sealed_seal; eauto.
Qed.

Lemma sealAll_sealed cs p s objs s' :
  sealAll cs p s = (Ok objs, s') → Forall2 (λ c o, sealed s' o.1 o.2 c p) cs objs.
Proof.
  revert s objs s'. induction cs as [|c cs IH]; intros s objs s' Hall; cbn [sealAll] in Hall.
  { injection Hall as <- <-. constructor. }
  apply SM_bind_Ok in Hall as ([priv pub] & s1 & Hseal & Hall). case_decide; [done|].
  apply SM_bind_Ok in Hall as (os & s2 & Hos & Hall). injection Hall as <- <-.
  constructor; [|by eapply IH]. eapply sealAll_preserves; [|exact Hos].
  by eapply seal_sealed.
Qed.

Lemma unsealAll_sealed cs objs p sess s :
  Forall2 (λ c o, sealed s o.1 o.2 c p) cs objs → satisfies s sess p →
  ∃ s', unsealAll objs sess s = (Ok cs, s').
Proof.
  intros Hall. revert s Hall. induction cs as [|c cs IH] in objs |- *; intros s Hall Hsat.
  { apply Forall2_nil_inv_l in Hall as ->. by exists s. }
  apply Forall2_cons_inv_l in Hall as ([priv pub] & os & Hc & Hcs & ->).
  cbn [unsealAll fst snd] in *.
  destruct (Unseal priv pub sess s) as [r s1] eqn:Hu.
  pose proof (unseal_sealed _ _ _ _ _ _ Hc Hsat) as Hr. rewrite Hu in Hr. simpl in Hr. subst r.
  destruct (IH os s1) as [s2 Hs2].
  - eapply Forall2_impl; [|exact Hcs]. intros ???. by eapply sealed_unseal; eauto.
  - by eapply satisfies_unseal.
  - exists s2. unfold mbind, SM_bind. by rewrite Hu, Hs2.
Qed.
End Laws.

Lemma Wrap_small {S Sess} `{Sealer S Sess} data p s :
  length data ≤ maxSealLength * maxSealCount →
  Wrap data p s = (objs ← sealAll (chunks data) p; mret (encode objs)) s.
Proof.
  intros Hl. unfold Wrap. rewrite decide_False, wrapLoop_spec by lia.
  rewrite drop_0. unfold mbind, SM_bind.
  destruct (sealAll (chunks data) p s) as [[os|e|pn] s'] eqn:Hs; [|done|done].
  apply sealAll_length in Hs as [Hlen _]. unfold encode. by rewrite Hlen, length_chunks.
Qed.

Lemma Unwrap_encode {S Sess} `{Sealer S Sess} objs (sess : option Sess) s :
  Forall fits objs → 1 ≤ length objs ≤ maxSealCount →
  Unwrap (exact (encode objs)) sess s = (ds ← unsealAll objs sess; mret (concat ds)) s.
Proof.
  intros Hfit Hn. unfold maxSealCount in Hn. unfold Unwrap, encode. cbn [index exact sl_data lookup list_lookup].
  rewrite SM_bind_lift, byte_of_Z_small, Nat2Z.id by lia.
  rewrite decide_False by (unfold maxSealCount; lia). by rewrite (unwrapLoop_spec objs).
Qed.

(** ** A concrete sealer

    The state counts the calls; an object's private part is the data, its public
    part the policy digest, which the session has to present. *)
Module Demo.

Definition demoSeal (d : bytes) (p : option bytes) : SM nat (bytes * bytes) :=
  λ n, (Ok (d, default [] p), Datatypes.S n).
Definition demoUnseal (priv pub : bytes) (sess : option bytes) : SM nat bytes :=
  λ n, (if decide (pub = [] ∨ sess = Some pub) then Ok priv
        else Err (ERC 0x99d), Datatypes.S n).

#[export] Instance demo_sealer : Sealer nat bytes :=
  { Seal := demoSeal; Unseal := demoUnseal }.

#[export] Instance demo_laws : SealerLaws nat bytes.
Proof.
  refine {|
    sealed _ priv pub d p := priv = d ∧ pub = default [] p;
    satisfies _ sess p := default [] p = [] ∨ sess = p;
  |}.
  - intros s d p s' priv pub [= <- <- <-]. done.
  - done.
  - done.
  - done.
  - intros s sess priv pub d p [-> ->] Hp. cbn. rewrite decide_True; [done|].
    destruct p as [p|]; simpl in *; [|by left]. destruct Hp as [->| ->]; auto.
Defined.
End Demo.
Import Demo.

(** ** Properties *)

(** C32: [Wrap] is the reference: beyond 128 * 254 bytes it fails without calling
    the sealer; otherwise it seals, in order, consecutive chunks of 1 to 128
    bytes that concatenate to the data, at most 254 of them, and returns their
    number followed by the length-prefixed parts of each. *)
Theorem Wrap_refines {S Sess} `{Sealer S Sess} data p s :
  Wrap data p s =
    (if decide (maxSealLength * maxSealCount < length data)
     then (Err (ESentinel ErrTooMuchData), s)
     else (objs ← sealAll (chunks data) p; mret (encode objs)) s) ∧
  concat (chunks data) = data ∧
  Forall (λ c, 1 ≤ length c ≤ maxSealLength) (chunks data) ∧
  (length data ≤ maxSealLength * maxSealCount → length (chunks data) ≤ maxSealCount).
Proof.
  split; [|split; [apply concat_chunks|split; [apply chunks_bound|apply chunks_count]]].
  case_decide as Hl.
  - unfold Wrap. by rewrite decide_True.
  - apply Wrap_small. lia.
Qed.

(** round trip: for a lawful sealer, non-empty data that [Wrap] accepted
    under a policy is given back by [Unwrap] with a session that satisfies the
    policy. *)
Lemma Wrap_Unwrap {S Sess} `{SealerLaws S Sess} data p (sess : option Sess) s w s1 :
  data ≠ [] → Wrap data p s = (Ok w, s1) → satisfies s1 sess p →
  ∃ s2, Unwrap (exact w) sess s1 = (Ok data, s2).
Proof.
  intros Hne Hw Hsat.
  assert (length data ≤ maxSealLength * maxSealCount) as Hl.
  { unfold Wrap in Hw. case_decide; [done|lia]. }
  rewrite Wrap_small in Hw by done. apply SM_bind_Ok in Hw as (objs & s' & Hseal & Hw).
  injection Hw as <- <-. destruct (sealAll_length _ _ _ _ _ Hseal) as [Hlen Hfit].
  destruct (unsealAll_sealed _ _ _ sess _ (sealAll_sealed _ _ _ _ _ Hseal) Hsat) as [s2 Hs2].
  exists s2. rewrite Unwrap_encode; [|done|].
  - unfold mbind, SM_bind. rewrite Hs2. cbn. by rewrite concat_chunks.
  - rewrite Hlen. split; [|by apply chunks_count]. rewrite chunks_cons by done. simpl. lia.
Qed.

Lemma Wrap_Unwrap_witness :
  ∃ s2, Unwrap (exact (match Wrap (replicate 130 Byte.x41) (Some [Byte.x07]) 0 with
                       | (Ok w, _) => w | _ => [] end)) (Some [Byte.x07]) 2
        = (Ok (replicate 130 Byte.x41), s2).
Proof.
  apply (Wrap_Unwrap (Sess := bytes) (replicate 130 Byte.x41) (Some [Byte.x07])
           (Some [Byte.x07]) 0 _ 2).
  - discriminate.
  - vm_compute. reflexivity.
  - right. reflexivity.
Defined.

(** Empty data does not survive the round trip: [Wrap] accepts it, without
    calling the sealer, as the single count byte 0, which [Unwrap] reserves and
    rejects as corrupted. *)
Theorem Wrap_empty {S Sess} `{Sealer S Sess} p (sess : option Sess) s :
  Wrap [] p s = (Ok [Byte.x00], s) ∧
  Unwrap (exact [Byte.x00]) sess s = (Err (ESentinel ErrCorruptedData), s).
Proof. done. Qed.

(** [ReadKeyParts] returns the parts of exactly the well-formed TPM key
    blobs, its only error is [ErrCorruptedData], and it is returned exactly when
    there is a first byte and it is not [KeyTypeTPM]. *)
Theorem ReadKeyParts_spec k :
  (∀ pub priv, ReadKeyParts k = Ok (pub, priv) ↔
    ∃ b tail, Blob.wf b ∧ Blob.Btype b = Blob.KeyTypeTPM ∧
      Blob.headLen b ≤ sl_len k ∧ sl_all k = Blob.Pack b ++ tail ∧
      pub = Blob.Public b ∧ priv = Blob.Private b) ∧
  (∀ e, ReadKeyParts k = Err e ↔
    e = ESentinel ErrCorruptedData ∧
    ∃ x, sl_data k !! 0 = Some x ∧ x ≠ Blob.KeyTypeTPM).
Proof.
  split.
  - intros pub priv. split.
    + unfold ReadKeyParts. destruct (Blob.Unpack _ _) as [b|e|] eqn:Hu; [|by case_match|done].
      intros [= <- <-]. apply Blob.Unpack_Ok in Hu as (? & ? & ? & tail & ?).
      exists b, tail. done.
    + intros (b & tail & Hwf & Ht & Hl & Hs & -> & ->). unfold ReadKeyParts.
      by rewrite <-Ht, (Blob.Unpack_complete _ b tail).
  - intros e. unfold ReadKeyParts. split.
    + destruct (Blob.Unpack _ _) as [b|e'|] eqn:Hu; [done| |done].
      apply Blob.Unpack_Err in Hu as (x & Hx & Hne & ->). cbn. intros [= <-]. eauto.
    + intros (-> & x & Hx & Hne). unfold Blob.Unpack.
      rewrite decide_True by (right; congruence). unfold index. by rewrite Hx.
Qed.

End Wrap.
