(* ===== verification/TpmErrors.v ===== *)
(** * pkg/tpm/errors.go and tpm2_errors.go: classifying TPM and system errors

    The response-code constants [tpm2.TPMRC*] come from go-tpm: they are a
    parameter ([TPMRCs]), with the layout the TPM 2.0 specification (Part 2,
    table "TPM_RC Constants") gives the three code formats as its laws
    ([TPMRCLayout]). The tables, the bit tests, [ToErrorType] and
    [CategorizedError] are the code's. *)
From S2P Require Import Prelude Bytes.

Module TpmErrors.

(** ** Response codes (third-party constants) *)

Inductive fmt0Name :=
  | RCInitialize | RCFailure | RCSequence | RCPrivate | RCHMAC
  | RCDisabled | RCExclusive | RCAuthType | RCAuthMissing | RCPolicy
  | RCPCR | RCPCRChanged | RCUpgrade | RCTooManyContexts | RCAuthUnavailable
  | RCReboot | RCUnbalanced | RCCommandSize | RCCommandCode | RCAuthSize
  | RCAuthContext | RCNVRange | RCNVSize | RCNVLocked | RCNVAuthorization
  | RCNVUninitialized | RCNVSpace | RCNVDefined | RCBadContext | RCCPHash
  | RCParent | RCNeedsTest | RCNoResult | RCSensitive.

Inductive fmt1Name :=
  | RCAsymmetric | RCAttributes | RCHash | RCValue | RCHierarchy
  | RCKeySize | RCMGF | RCMode | RCType | RCHandle
  | RCKDF | RCRange | RCAuthFail | RCNonce | RCPP
  | RCScheme | RCSize | RCSymmetric | RCTag | RCSelector
  | RCInsufficient | RCSignature | RCKey | RCPolicyFail | RCIntegrity
  | RCTicket | RCReservedBits | RCBadAuth | RCExpired | RCPolicyCC
  | RCBinding | RCCurve | RCECCPoint.

Inductive warnName :=
  | RCContextGap | RCObjectMemory | RCSessionMemory | RCMemory | RCSessionHandles
  | RCObjectHandles | RCLocality | RCYielded | RCCanceled | RCTesting
  | RCReferenceH0 | RCReferenceH1 | RCReferenceH2 | RCReferenceH3 | RCReferenceH4
  | RCReferenceH5 | RCReferenceH6 | RCReferenceS0 | RCReferenceS1 | RCReferenceS2
  | RCReferenceS3 | RCReferenceS4 | RCReferenceS5 | RCReferenceS6 | RCNVRate
  | RCLockout | RCRetry | RCNVUnavailable.

Class TPMRCs := {
  fmt0RC : fmt0Name → Z;
  fmt1RC : fmt1Name → Z;
  warnRC : warnName → Z;
}.

(** Constants of tpm2_errors.go. *)
Definition rcVer1 : Z := 0x00000100.
Definition rcFmt1 : Z := 0x00000080.
Definition rcWarn : Z := 0x00000900.
Definition rcP : Z := 0x00000040.
Definition rcS : Z := 0x00000800.

(** Format-zero codes are [RC_VER1 + n], format-one codes [RC_FMT1 + n] with
    [n] in six bits, warnings [RC_WARN + n]; no two constants are equal. *)
Class TPMRCLayout `{TPMRCs} := {
  fmt0RC_range n : (0 ≤ fmt0RC n - rcVer1 < 128)%Z;
  fmt1RC_range n : (0 ≤ fmt1RC n - rcFmt1 < 64)%Z;
  warnRC_range n : (0 ≤ warnRC n - rcWarn < 128)%Z;
  #[global] fmt0RC_inj :: Inj (=) (=) fmt0RC;
  #[global] fmt1RC_inj :: Inj (=) (=) fmt1RC;
  #[global] warnRC_inj :: Inj (=) (=) warnRC;
}.

Record errorDesc := mkDesc { desc_name : string; description : string }.

(** ** The description tables, in source order *)

Definition fmt0DescsTable : list (fmt0Name * errorDesc) := [
  (RCInitialize, mkDesc "TPM_RC_INITIALIZE"
    "TPM not initialized by TPM2_Startup or already initialized");
  (RCFailure, mkDesc "TPM_RC_FAILURE"
    "commands not being accepted because of a TPM failure");
  (RCSequence, mkDesc "TPM_RC_SEQUENCE"
    "improper use of a sequence handle");
  (RCPrivate, mkDesc "TPM_RC_PRIVATE"
    "not currently used");
  (RCHMAC, mkDesc "TPM_RC_HMAC"
    "not currently used");
  (RCDisabled, mkDesc "TPM_RC_DISABLED"
    "the command is disabled");
  (RCExclusive, mkDesc "TPM_RC_EXCLUSIVE"
    "command failed because audit sequence required exclusivity");
  (RCAuthType, mkDesc "TPM_RC_AUTH_TYPE"
    "authorization handle is not correct for command");
  (RCAuthMissing, mkDesc "TPM_RC_AUTH_MISSING"
    "command requires an authorization session for handle and it is not present.");
  (RCPolicy, mkDesc "TPM_RC_POLICY"
    "policy failure in math operation or an invalid authPolicy value");
  (RCPCR, mkDesc "TPM_RC_PCR"
    "PCR check fail");
  (RCPCRChanged, mkDesc "TPM_RC_PCR_CHANGED"
    "PCR have changed since checked.");
  (RCUpgrade, mkDesc "TPM_RC_UPGRADE"
    "for all commands other than TPM2_FieldUpgradeData(), this code indicates that the TPM is in field upgrade mode; for TPM2_FieldUpgradeData(), this code indicates that the TPM is not in field upgrade mode");
  (RCTooManyContexts, mkDesc "TPM_RC_TOO_MANY_CONTEXTS"
    "context ID counter is at maximum.");
  (RCAuthUnavailable, mkDesc "TPM_RC_AUTH_UNAVAILABLE"
    "authValue or authPolicy is not available for selected entity.");
  (RCReboot, mkDesc "TPM_RC_REBOOT"
    "a _TPM_Init and Startup(CLEAR) is required before the TPM can resume operation.");
  (RCUnbalanced, mkDesc "TPM_RC_UNBALANCED"
    "the protection algorithms (hash and symmetric) are not reasonably balanced. The digest size of the hash must be larger than the key size of the symmetric algorithm.");
  (RCCommandSize, mkDesc "TPM_RC_COMMAND_SIZE"
    "command commandSize value is inconsistent with contents of the command buffer; either the size is not the same as the octets loaded by the hardware interface layer or the value is not large enough to hold a command header");
  (RCCommandCode, mkDesc "TPM_RC_COMMAND_CODE"
    "command code not supported");
  (RCAuthSize, mkDesc "TPM_RC_AUTHSIZE"
    "the value of authorizationSize is out of range or the number of octets in the Authorization Area is greater than required");
  (RCAuthContext, mkDesc "TPM_RC_AUTH_CONTEXT"
    "use of an authorization session with a context command or another command that cannot have an authorization session.");
  (RCNVRange, mkDesc "TPM_RC_NV_RANGE"
    "NV offset+size is out of range.");
  (RCNVSize, mkDesc "TPM_RC_NV_SIZE"
    "Requested allocation size is larger than allowed.");
  (RCNVLocked, mkDesc "TPM_RC_NV_LOCKED"
    "NV access locked.");
  (RCNVAuthorization, mkDesc "TPM_RC_NV_AUTHORIZATION"
    "NV access authorization fails in command actions (this failure does not affect lockout.action)");
  (RCNVUninitialized, mkDesc "TPM_RC_NV_UNINITIALIZED"
    "an NV Index is used before being initialized or the state saved by TPM2_Shutdown(STATE) could not be restored");
  (RCNVSpace, mkDesc "TPM_RC_NV_SPACE"
    "insufficient space for NV allocation");
  (RCNVDefined, mkDesc "TPM_RC_NV_DEFINED"
    "NV Index or persistent object already defined");
  (RCBadContext, mkDesc "TPM_RC_BAD_CONTEXT"
    "context in TPM2_ContextLoad() is not valid");
  (RCCPHash, mkDesc "TPM_RC_CPHASH"
    "cpHash value already set or not correct for use");
  (RCParent, mkDesc "TPM_RC_PARENT"
    "handle for parent is not a valid parent");
  (RCNeedsTest, mkDesc "TPM_RC_NEEDS_TEST"
    "some function needs testing.");
  (RCNoResult, mkDesc "TPM_RC_NO_RESULT"
    "an internal function cannot process a request due to an unspecified problem. This code is usually related to invalid parameters that are not properly filtered by the input unmarshaling code.");
  (RCSensitive, mkDesc "TPM_RC_SENSITIVE"
    "the sensitive area did not unmarshal correctly after decryption – this code is used in lieu of the other unmarshaling errors so that an attacker cannot determine where the unmarshaling error occurred")
].

Definition fmt1DescsTable : list (fmt1Name * errorDesc) := [
  (RCAsymmetric, mkDesc "TPM_RC_ASYMMETRIC"
    "asymmetric algorithm not supported or not correct");
  (RCAttributes, mkDesc "TPM_RC_ATTRIBUTES"
    "inconsistent attributes");
  (RCHash, mkDesc "TPM_RC_HASH"
    "hash algorithm not supported or not appropriate");
  (RCValue, mkDesc "TPM_RC_VALUE"
    "value is out of range or is not correct for the context");
  (RCHierarchy, mkDesc "TPM_RC_HIERARCHY"
    "hierarchy is not enabled or is not correct for the use");
  (RCKeySize, mkDesc "TPM_RC_KEY_SIZE"
    "key size is not supported");
  (RCMGF, mkDesc "TPM_RC_MGF"
    "mask generation function not supported");
  (RCMode, mkDesc "TPM_RC_MODE"
    "mode of operation not supported");
  (RCType, mkDesc "TPM_RC_TYPE"
    "the type of the value is not appropriate for the use");
  (RCHandle, mkDesc "TPM_RC_HANDLE"
    "the handle is not correct for the use");
  (RCKDF, mkDesc "TPM_RC_KDF"
    "unsupported key derivation function or function not appropriate for use");
  (RCRange, mkDesc "TPM_RC_RANGE"
    "value was out of allowed range.");
  (RCAuthFail, mkDesc "TPM_RC_AUTH_FAIL"
    "the authorization HMAC check failed and DA counter incremented");
  (RCNonce, mkDesc "TPM_RC_NONCE"
    "invalid nonce size or nonce value mismatch");
  (RCPP, mkDesc "TPM_RC_PP"
    "authorization requires assertion of PP");
  (RCScheme, mkDesc "TPM_RC_SCHEME"
    "unsupported or incompatible scheme");
  (RCSize, mkDesc "TPM_RC_SIZE"
    "structure is the wrong size");
  (RCSymmetric, mkDesc "TPM_RC_SYMMETRIC"
    "unsupported symmetric algorithm or key size, or not appropriate for instance");
  (RCTag, mkDesc "TPM_RC_TAG"
    "incorrect structure tag");
  (RCSelector, mkDesc "TPM_RC_SELECTOR"
    "union selector is incorrect");
  (RCInsufficient, mkDesc "TPM_RC_INSUFFICIENT"
    "the TPM was unable to unmarshal a value because there were not enough octets in the input buffer");
  (RCSignature, mkDesc "TPM_RC_SIGNATURE"
    "the signature is not valid");
  (RCKey, mkDesc "TPM_RC_KEY"
    "key fields are not compatible with the selected use");
  (RCPolicyFail, mkDesc "TPM_RC_POLICY_FAIL"
    "a policy check failed");
  (RCIntegrity, mkDesc "TPM_RC_INTEGRITY"
    "integrity check failed");
  (RCTicket, mkDesc "TPM_RC_TICKET"
    "invalid ticket");
  (RCReservedBits, mkDesc "TPM_RC_RESERVED_BITS"
    "reserved bits not set to zero as required");
  (RCBadAuth, mkDesc "TPM_RC_BAD_AUTH"
    "authorization failure without DA implications");
  (RCExpired, mkDesc "TPM_RC_EXPIRED"
    "the policy has expired");
  (RCPolicyCC, mkDesc "TPM_RC_POLICY_CC"
    "the commandCode in the policy is not the commandCode of the command or the command code in a policy command references a command that is not implemented");
  (RCBinding, mkDesc "TPM_RC_BINDING"
    "public and sensitive portions of an object are not cryptographically bound");
  (RCCurve, mkDesc "TPM_RC_CURVE"
    "curve not supported");
  (RCECCPoint, mkDesc "TPM_RC_ECC_POINT"
    "point is not on the required curve.")
].

Definition warnDescsTable : list (warnName * errorDesc) := [
  (RCContextGap, mkDesc "TPM_RC_CONTEXT_GAP"
    "gap for context ID is too large");
  (RCObjectMemory, mkDesc "TPM_RC_OBJECT_MEMORY"
    "out of memory for object contexts");
  (RCSessionMemory, mkDesc "TPM_RC_SESSION_MEMORY"
    "out of memory for session contexts");
  (RCMemory, mkDesc "TPM_RC_MEMORY"
    "out of shared object/session memory or need space for internal operations");
  (RCSessionHandles, mkDesc "TPM_RC_SESSION_HANDLES"
    "out of session handles – a session must be flushed before a new session may be created");
  (RCObjectHandles, mkDesc "TPM_RC_OBJECT_HANDLES"
    "out of object handles – the handle space for objects is depleted and a reboot is required");
  (RCLocality, mkDesc "TPM_RC_LOCALITY"
    "bad locality");
  (RCYielded, mkDesc "TPM_RC_YIELDED"
    "the TPM has suspended operation on the command; forward progress was made and the command may be retried");
  (RCCanceled, mkDesc "TPM_RC_CANCELED"
    "the command was canceled");
  (RCTesting, mkDesc "TPM_RC_TESTING"
    "TPM is performing self-tests");
  (RCReferenceH0, mkDesc "TPM_RC_REFERENCE_H0"
    "the 1st handle in the handle area references a transient object or session that is not loaded");
  (RCReferenceH1, mkDesc "TPM_RC_REFERENCE_H1"
    "the 2nd handle in the handle area references a transient object or session that is not loaded");
  (RCReferenceH2, mkDesc "TPM_RC_REFERENCE_H2"
    "the 3rd handle in the handle area references a transient object or session that is not loaded");
  (RCReferenceH3, mkDesc "TPM_RC_REFERENCE_H3"
    "the 4th handle in the handle area references a transient object or session that is not loaded");
  (RCReferenceH4, mkDesc "TPM_RC_REFERENCE_H4"
    "the 5th handle in the handle area references a transient object or session that is not loaded");
  (RCReferenceH5, mkDesc "TPM_RC_REFERENCE_H5"
    "the 6th handle in the handle area references a transient object or session that is not loaded");
  (RCReferenceH6, mkDesc "TPM_RC_REFERENCE_H6"
    "the 7th handle in the handle area references a transient object or session that is not loaded");
  (RCReferenceS0, mkDesc "TPM_RC_REFERENCE_S0"
    "the 1st authorization session handle references a session that is not loaded");
  (RCReferenceS1, mkDesc "TPM_RC_REFERENCE_S1"
    "the 2nd authorization session handle references a session that is not loaded");
  (RCReferenceS2, mkDesc "TPM_RC_REFERENCE_S2"
    "the 3rd authorization session handle references a session that is not loaded");
  (RCReferenceS3, mkDesc "TPM_RC_REFERENCE_S3"
    "the 4th authorization session handle references a session that is not loaded");
  (RCReferenceS4, mkDesc "TPM_RC_REFERENCE_S4"
    "the 5th session handle references a session that is not loaded");
  (RCReferenceS5, mkDesc "TPM_RC_REFERENCE_S5"
    "the 6th session handle references a session that is not loaded");
  (RCReferenceS6, mkDesc "TPM_RC_REFERENCE_S6"
    "the 7th authorization session handle references a session that is not loaded");
  (RCNVRate, mkDesc "TPM_RC_NV_RATE"
    "the TPM is rate-limiting accesses to prevent wearout of NV");
  (RCLockout, mkDesc "TPM_RC_LOCKOUT"
    "authorizations for objects subject to DA protection are not allowed at this time because the TPM is in DA lockout mode");
  (RCRetry, mkDesc "TPM_RC_RETRY"
    "the TPM was not able to start the command");
  (RCNVUnavailable, mkDesc "TPM_RC_NV_UNAVAILABLE"
    "the command may require writing of NV and NV is not current accessible")
].

(** The maps, keyed by the numeric codes. *)
Section Maps.
Context `{TPMRCs}.
Definition fmt0Descs : gmap Z errorDesc :=
  list_to_map (prod_map fmt0RC id <$> fmt0DescsTable).
Definition fmt1Descs : gmap Z errorDesc :=
  list_to_map (prod_map fmt1RC id <$> fmt1DescsTable).
Definition warnDescs : gmap Z errorDesc :=
  list_to_map (prod_map warnRC id <$> warnDescsTable).
End Maps.

(** ** Bit tests *)
Definition isFmt0Error (r : Z) : bool :=
  (Z.land r rcVer1 =? rcVer1)%Z && negb (Z.land r rcWarn =? rcWarn)%Z.

Definition isFmt1Error (r : Z) : bool * Z :=
  if negb (Z.land r rcFmt1 =? rcFmt1)%Z then (false, 0%Z)
  else
    let r := if (Z.land r rcP =? rcP)%Z then Z.lxor r rcP
             else if (Z.land r rcS =? rcS)%Z then Z.lxor r rcS else r in
    (true, Z.land r 0xFFFFF0FF).

Definition IsWarning (rc : Z) : bool :=
  if (isFmt1Error rc).1 then false
  else (Z.land rc rcVer1 =? rcVer1)%Z && (Z.land rc rcWarn =? rcWarn)%Z.

(** ** Error categories (errors.go) *)
Definition MissingDeviceErrType : string := "TPM_DEVICE_FILE_MISSING".
Definition ResourceBusyErrType : string := "TPM_RESOURCE_BUSY".
Definition SealMismatchErrType : string := "TPM_SEAL_MISMATCH".
Definition TimeoutErrType : string := "TPM_TIMEOUT".
Definition TPMOpenErrType : string := "TPM_OPEN_ERROR".
Definition TPMNotProvisionedErrType : string := "TPM_NOT_PROVISIONED".
Definition TPMShutdown : string := "TPM_IN_SHUTDOWN".
Definition TPMNeedsFirmware : string := "TPM_NEEDS_FIRMWARE".
Definition OtherErrType : string := "OTHER_ERROR".

(** [errors.As] for a target type, given by the nodes it is assignable from: the
    first such node in a depth-first walk. The [As] method of [*Error] delegates
    to the wrapped error, as the walk does. *)
Definition first_some {A B} (f : A → option B) : list A → option B :=
  fix go l := match l with
              | [] => None
              | a :: l => match f a with Some b => Some b | None => go l end
              end.

Fixpoint errors_As {T} (pick : error → option T) (e : error) : option T :=
  match pick e with
  | Some t => Some t
  | None =>
    match e with
    | EFmt _ _ es | EJoin es => first_some (errors_As pick) es
    | ETpm _ e => errors_As pick e
    | _ => None
    end
  end.

Definition pickTpm (e : error) : option (string * error) :=
  match e with ETpm ty inner => Some (ty, inner) | _ => None end.
Definition pickRC (e : error) : option Z :=
  match e with ERC rc => Some rc | _ => None end.
Definition pickErrno (e : error) : option Z :=
  match e with EErrno n => Some n | _ => None end.

(** [syscall] numbers on Linux. *)
Definition EAGAIN : Z := 11.
Definition EBUSY : Z := 16.
Definition ETIME : Z := 62.
Definition ETIMEDOUT : Z := 110.

Section Classify.
Context `{TPMRCs}.

Definition ToErrorType (rc : Z) : string :=
  let found :=
    if (isFmt1Error rc).1 then fmt1Descs !! (isFmt1Error rc).2
    else if isFmt0Error rc then fmt0Descs !! rc
    else if IsWarning rc then warnDescs !! rc
    else None in
  match found with
  | Some desc => desc_name desc
  | None => OtherErrType
  end.

(** The [errType] the system-call branch computes; the zero value [""] when the
    switch has no case. *)
Definition errnoType (n : Z) : string :=
  if bool_decide (n = EBUSY) then ResourceBusyErrType
  else if bool_decide (n = ETIMEDOUT ∨ n = ETIME ∨ n = EAGAIN) then TimeoutErrType
  else "".

(** The result is the [*Error]'s two fields, or nil. *)
Definition CategorizedError (err : option error) : option (string * error) :=
  match err with
  | None => None
  | Some e =>
    match errors_As pickTpm e with
    | Some t => Some t
    | None =>
      match errors_As pickRC e with
      | Some rc => Some (ToErrorType rc, e)
      | None =>
        match errors_As pickErrno e with
        | Some n => Some (errnoType n, EErrno n)
        | None => Some (OtherErrType, e)
        end
      end
    end
  end.
End Classify.

(** ** The tables are keyed by distinct codes *)
#[export] Instance fmt0Name_eq_dec : EqDecision fmt0Name.
Proof. solve_decision. Defined.
#[export] Instance fmt1Name_eq_dec : EqDecision fmt1Name.
Proof. solve_decision. Defined.
#[export] Instance warnName_eq_dec : EqDecision warnName.
Proof. solve_decision. Defined.

(** The name each table gives a constant; every constant has one. *)
Definition name0 (n : fmt0Name) : string := from_option desc_name "" (assoc fmt0DescsTable n).
Definition name1 (n : fmt1Name) : string := from_option desc_name "" (assoc fmt1DescsTable n).
Definition nameW (n : warnName) : string := from_option desc_name "" (assoc warnDescsTable n).

Lemma assoc_fmt0 n : ∃ d, assoc fmt0DescsTable n = Some d.
Proof. destruct n; eexists; vm_compute; reflexivity. Qed.
Lemma assoc_fmt1 n : ∃ d, assoc fmt1DescsTable n = Some d.
Proof. destruct n; eexists; vm_compute; reflexivity. Qed.
Lemma assoc_warn n : ∃ d, assoc warnDescsTable n = Some d.
Proof. destruct n; eexists; vm_compute; reflexivity. Qed.

(** ** The bit tests as bits *)
Lemma rcWarn_test r :
  (Z.land r rcWarn =? rcWarn)%Z = Z.testbit r 8 && Z.testbit r 11.
Proof.
  unfold rcWarn. change 0x900%Z with (Z.lor (2 ^ 8) (2 ^ 11)).
  rewrite Z.land_lor_distr_r, !land_pow2 by lia.
  destruct (Z.testbit r 8), (Z.testbit r 11); reflexivity.
Qed.

Lemma bit_test r n : (0 ≤ n)%Z → (Z.land r (2 ^ n) =? 2 ^ n)%Z = Z.testbit r n.
Proof.
  intros Hn. rewrite land_pow2 by done. destruct (Z.testbit r n); [apply Z.eqb_refl|].
  apply Z.eqb_neq. lia.
Qed.

Lemma rcVer1_test r : (Z.land r rcVer1 =? rcVer1)%Z = Z.testbit r 8.
Proof. exact (bit_test r 8 ltac:(lia)). Qed.
Lemma rcFmt1_test r : (Z.land r rcFmt1 =? rcFmt1)%Z = Z.testbit r 7.
Proof. exact (bit_test r 7 ltac:(lia)). Qed.
Lemma rcP_test r : (Z.land r rcP =? rcP)%Z = Z.testbit r 6.
Proof. exact (bit_test r 6 ltac:(lia)). Qed.
Lemma rcS_test r : (Z.land r rcS =? rcS)%Z = Z.testbit r 11.
Proof. exact (bit_test r 11 ltac:(lia)). Qed.

(** Clearing a set bit with an exclusive or. *)
Lemma lxor_clear r n m :
  (0 ≤ n)%Z → Z.testbit m n = false → Z.land (Z.lxor r (2 ^ n)) m = Z.land r m.
Proof.
  intros Hn Hm. apply Z.bits_inj'. intros i Hi. rewrite !Z.land_spec, Z.lxor_spec.
  destruct (decide (n = i)) as [->|Hne]; [by rewrite Hm, !andb_false_r|].
  rewrite Z.pow2_bits_false by done. by rewrite xorb_false_r.
Qed.

Lemma isFmt0Error_bits r : isFmt0Error r = Z.testbit r 8 && negb (Z.testbit r 11).
Proof.
  unfold isFmt0Error. rewrite rcWarn_test, rcVer1_test.
  by destruct (Z.testbit r 8), (Z.testbit r 11).
Qed.

(** Of a format-one code, the parameter bit (6) and the four number bits (8 to
    11) are dropped, whatever they say. *)
Definition canonMask : Z := 0xFFFFF0BF.
Definition decorMask : Z := 0xF40.

Lemma isFmt1Error_bits r :
  isFmt1Error r = (Z.testbit r 7, if Z.testbit r 7 then Z.land r canonMask else 0%Z).
Proof.
  unfold isFmt1Error. rewrite rcFmt1_test, rcP_test, rcS_test.
  destruct (Z.testbit r 7); [|done]. cbn [negb]. f_equal.
  assert (∀ m, Z.testbit m 6 = false → Z.land m 0xFFFFF0FF = Z.land m canonMask) as Hsplit.
  { intros m Hm. change 0xFFFFF0FF%Z with (Z.lor canonMask (2 ^ 6)).
    rewrite Z.land_lor_distr_r, land_pow2, Hm by lia. apply Z.lor_0_r. }
  destruct (Z.testbit r 6) eqn:H6; [|destruct (Z.testbit r 11)].
  - rewrite Hsplit; [exact (lxor_clear r 6 canonMask ltac:(lia) eq_refl)|].
    rewrite Z.lxor_spec, H6. reflexivity.
  - rewrite Hsplit; [exact (lxor_clear r 11 canonMask ltac:(lia) eq_refl)|].
    rewrite Z.lxor_spec, H6. reflexivity.
  - by apply Hsplit.
Qed.

Lemma IsWarning_bits r :
  IsWarning r = negb (Z.testbit r 7) && Z.testbit r 8 && Z.testbit r 11.
Proof.
  unfold IsWarning. rewrite isFmt1Error_bits, rcWarn_test, rcVer1_test. cbn [fst].
  by destruct (Z.testbit r 7), (Z.testbit r 8), (Z.testbit r 11).
Qed.

(** ** What [ToErrorType] promises: the documented codes, decorated or not *)
Inductive documented `{TPMRCs} : Z → string → Prop :=
  | doc_fmt1 n d : Z.land d decorMask = d → documented (Z.lor (fmt1RC n) d) (name1 n)
  | doc_fmt0 n : documented (fmt0RC n) (name0 n)
  | doc_warn n : documented (warnRC n) (nameW n).

Section Spec.
Context `{TPMRCLayout}.

Lemma fmt1RC_bits n :
  Z.testbit (fmt1RC n) 7 = true ∧ Z.land (fmt1RC n) canonMask = fmt1RC n.
Proof.
  pose proof (fmt1RC_range n) as Hr. unfold rcFmt1 in Hr.
  pose proof (Z_range_check
    (λ z, Z.testbit z 7 && (Z.land z canonMask =? z)%Z) 128 64 eq_refl (fmt1RC n)) as Hb.
  rewrite andb_true_iff, Z.eqb_eq in Hb. apply Hb. lia.
Qed.

Lemma fmt0RC_bits n :
  Z.testbit (fmt0RC n) 7 = false ∧ Z.testbit (fmt0RC n) 8 = true
  ∧ Z.testbit (fmt0RC n) 11 = false.
Proof.
  pose proof (fmt0RC_range n) as Hr. unfold rcVer1 in Hr.
  pose proof (Z_range_check
    (λ z, negb (Z.testbit z 7) && Z.testbit z 8 && negb (Z.testbit z 11))
    256 128 eq_refl (fmt0RC n)) as Hb.
  rewrite !andb_true_iff, !negb_true_iff in Hb. naive_solver lia.
Qed.

Lemma warnRC_bits n :
  Z.testbit (warnRC n) 7 = false ∧ Z.testbit (warnRC n) 8 = true
  ∧ Z.testbit (warnRC n) 11 = true.
Proof.
  pose proof (warnRC_range n) as Hr. unfold rcWarn in Hr.
  pose proof (Z_range_check
    (λ z, negb (Z.testbit z 7) && Z.testbit z 8 && Z.testbit z 11)
    2304 128 eq_refl (warnRC n)) as Hb.
  rewrite !andb_true_iff, !negb_true_iff in Hb. naive_solver lia.
Qed.

Lemma fmt0Descs_lookup n : fmt0Descs !! fmt0RC n = assoc fmt0DescsTable n.
Proof. apply lookup_list_to_map_assoc, _. Qed.
Lemma fmt1Descs_lookup n : fmt1Descs !! fmt1RC n = assoc fmt1DescsTable n.
Proof. apply lookup_list_to_map_assoc, _. Qed.
Lemma warnDescs_lookup n : warnDescs !! warnRC n = assoc warnDescsTable n.
Proof. apply lookup_list_to_map_assoc, _. Qed.

Lemma ToErrorType_fmt1 r n :
  Z.testbit r 7 = true → Z.land r canonMask = fmt1RC n → ToErrorType r = name1 n.
Proof.
  intros H7 Hc. unfold ToErrorType, name1. rewrite isFmt1Error_bits, H7. cbn [fst snd].
  rewrite Hc, fmt1Descs_lookup. by destruct (assoc_fmt1 n) as [d ->].
Qed.

Lemma ToErrorType_fmt0 n : ToErrorType (fmt0RC n) = name0 n.
Proof.
  destruct (fmt0RC_bits n) as (H7 & H8 & H11). unfold ToErrorType, name0.
  rewrite isFmt1Error_bits, isFmt0Error_bits, H7, H8, H11. cbn [fst snd andb negb].
  rewrite fmt0Descs_lookup. by destruct (assoc_fmt0 n) as [d ->].
Qed.

Lemma ToErrorType_warn n : ToErrorType (warnRC n) = nameW n.
Proof.
  destruct (warnRC_bits n) as (H7 & H8 & H11). unfold ToErrorType, nameW.
  rewrite isFmt1Error_bits, isFmt0Error_bits, IsWarning_bits, H7, H8, H11.
  cbn [fst snd andb negb]. rewrite warnDescs_lookup. by destruct (assoc_warn n) as [d ->].
Qed.

(** A 32-bit code splits into its canonical part and its decoration. *)
Lemma canon_decor r :
  (0 ≤ r < 2 ^ 32)%Z → r = Z.lor (Z.land r canonMask) (Z.land r decorMask).
Proof.
  intros Hr. rewrite <-Z.land_lor_distr_r.
  change (Z.lor canonMask decorMask) with (Z.ones 32). rewrite Z.land_ones by lia.
  symmetry. by apply Z.mod_small.
Qed.

Lemma ToErrorType_found r :
  (0 ≤ r < 2 ^ 32)%Z → ToErrorType r = OtherErrType ∨ documented r (ToErrorType r).
Proof.
  intros Hr. destruct (Z.testbit r 7) eqn:H7.
  - destruct (fmt1Descs !! Z.land r canonMask) as [d|] eqn:Hd.
    + apply list_to_map_Some_assoc in Hd as [n Hn]. right.
      rewrite (ToErrorType_fmt1 r n H7 Hn), (canon_decor r Hr), Hn. constructor.
      rewrite <-Z.land_assoc. f_equal.
    + left. unfold ToErrorType. rewrite isFmt1Error_bits, H7. cbn [fst snd]. by rewrite Hd.
  - unfold ToErrorType. rewrite isFmt1Error_bits, H7. cbn [fst snd].
    destruct (isFmt0Error r); [|destruct (IsWarning r); [|by left]].
    + destruct (fmt0Descs !! r) as [d|] eqn:Hd; [|by left]. right.
      destruct (list_to_map_Some_assoc _ _ _ _ Hd) as [n ->].
      rewrite fmt0Descs_lookup in Hd. replace (desc_name d) with (name0 n); [constructor|].
      unfold name0. by rewrite Hd.
    + destruct (warnDescs !! r) as [d|] eqn:Hd; [|by left]. right.
      destruct (list_to_map_Some_assoc _ _ _ _ Hd) as [n ->].
      rewrite warnDescs_lookup in Hd. replace (desc_name d) with (nameW n); [constructor|].
      unfold nameW. by rewrite Hd.
Qed.

Lemma ToErrorType_documented r s : documented r s → ToErrorType r = s.
Proof.
  destruct 1 as [n d Hd| n | n]; [|apply ToErrorType_fmt0|apply ToErrorType_warn].
  destruct (fmt1RC_bits n) as [H7 Hc]. apply ToErrorType_fmt1.
  - by rewrite Z.lor_spec, H7.
  - rewrite Z.land_lor_distr_l, Hc, <-Hd, <-Z.land_assoc.
    change (Z.land decorMask canonMask) with 0%Z. by rewrite Z.land_0_r, Z.lor_0_r.
Qed.

End Spec.

(** ** The values the TPM 2.0 specification assigns, for the witnesses *)
Module TCG.
Definition tcg0 (n : fmt0Name) : Z :=
  match n with
    | RCInitialize => rcVer1 + 0x000
    | RCFailure => rcVer1 + 0x001
    | RCSequence => rcVer1 + 0x003
    | RCPrivate => rcVer1 + 0x00B
    | RCHMAC => rcVer1 + 0x019
    | RCDisabled => rcVer1 + 0x020
    | RCExclusive => rcVer1 + 0x021
    | RCAuthType => rcVer1 + 0x024
    | RCAuthMissing => rcVer1 + 0x025
    | RCPolicy => rcVer1 + 0x026
    | RCPCR => rcVer1 + 0x027
    | RCPCRChanged => rcVer1 + 0x028
    | RCUpgrade => rcVer1 + 0x02D
    | RCTooManyContexts => rcVer1 + 0x02E
    | RCAuthUnavailable => rcVer1 + 0x02F
    | RCReboot => rcVer1 + 0x030
    | RCUnbalanced => rcVer1 + 0x031
    | RCCommandSize => rcVer1 + 0x042
    | RCCommandCode => rcVer1 + 0x043
    | RCAuthSize => rcVer1 + 0x044
    | RCAuthContext => rcVer1 + 0x045
    | RCNVRange => rcVer1 + 0x046
    | RCNVSize => rcVer1 + 0x047
    | RCNVLocked => rcVer1 + 0x048
    | RCNVAuthorization => rcVer1 + 0x049
    | RCNVUninitialized => rcVer1 + 0x04A
    | RCNVSpace => rcVer1 + 0x04B
    | RCNVDefined => rcVer1 + 0x04C
    | RCBadContext => rcVer1 + 0x050
    | RCCPHash => rcVer1 + 0x051
    | RCParent => rcVer1 + 0x052
    | RCNeedsTest => rcVer1 + 0x053
    | RCNoResult => rcVer1 + 0x054
    | RCSensitive => rcVer1 + 0x055
  end%Z.
Definition tcg1 (n : fmt1Name) : Z :=
  match n with
    | RCAsymmetric => rcFmt1 + 1
    | RCAttributes => rcFmt1 + 2
    | RCHash => rcFmt1 + 3
    | RCValue => rcFmt1 + 4
    | RCHierarchy => rcFmt1 + 5
    | RCKeySize => rcFmt1 + 7
    | RCMGF => rcFmt1 + 8
    | RCMode => rcFmt1 + 9
    | RCType => rcFmt1 + 0xA
    | RCHandle => rcFmt1 + 0xB
    | RCKDF => rcFmt1 + 0xC
    | RCRange => rcFmt1 + 0xD
    | RCAuthFail => rcFmt1 + 0xE
    | RCNonce => rcFmt1 + 0xF
    | RCPP => rcFmt1 + 0x10
    | RCScheme => rcFmt1 + 0x12
    | RCSize => rcFmt1 + 0x15
    | RCSymmetric => rcFmt1 + 0x16
    | RCTag => rcFmt1 + 0x17
    | RCSelector => rcFmt1 + 0x18
    | RCInsufficient => rcFmt1 + 0x1A
    | RCSignature => rcFmt1 + 0x1B
    | RCKey => rcFmt1 + 0x1C
    | RCPolicyFail => rcFmt1 + 0x1D
    | RCIntegrity => rcFmt1 + 0x1F
    | RCTicket => rcFmt1 + 0x20
    | RCReservedBits => rcFmt1 + 0x21
    | RCBadAuth => rcFmt1 + 0x22
    | RCExpired => rcFmt1 + 0x23
    | RCPolicyCC => rcFmt1 + 0x24
    | RCBinding => rcFmt1 + 0x25
    | RCCurve => rcFmt1 + 0x26
    | RCECCPoint => rcFmt1 + 0x27
  end%Z.
Definition tcgW (n : warnName) : Z :=
  match n with
    | RCContextGap => rcWarn + 1
    | RCObjectMemory => rcWarn + 2
    | RCSessionMemory => rcWarn + 3
    | RCMemory => rcWarn + 4
    | RCSessionHandles => rcWarn + 5
    | RCObjectHandles => rcWarn + 6
    | RCLocality => rcWarn + 7
    | RCYielded => rcWarn + 8
    | RCCanceled => rcWarn + 9
    | RCTesting => rcWarn + 0xA
    | RCReferenceH0 => rcWarn + 0x10
    | RCReferenceH1 => rcWarn + 0x11
    | RCReferenceH2 => rcWarn + 0x12
    | RCReferenceH3 => rcWarn + 0x13
    | RCReferenceH4 => rcWarn + 0x14
    | RCReferenceH5 => rcWarn + 0x15
    | RCReferenceH6 => rcWarn + 0x16
    | RCReferenceS0 => rcWarn + 0x18
    | RCReferenceS1 => rcWarn + 0x19
    | RCReferenceS2 => rcWarn + 0x1A
    | RCReferenceS3 => rcWarn + 0x1B
    | RCReferenceS4 => rcWarn + 0x1C
    | RCReferenceS5 => rcWarn + 0x1D
    | RCReferenceS6 => rcWarn + 0x1E
    | RCNVRate => rcWarn + 0x20
    | RCLockout => rcWarn + 0x21
    | RCRetry => rcWarn + 0x22
    | RCNVUnavailable => rcWarn + 0x23
  end%Z.

#[export] Instance tcg_codes : TPMRCs :=
  { fmt0RC := tcg0; fmt1RC := tcg1; warnRC := tcgW }.

#[export] Instance tcg_layout : TPMRCLayout.
Proof.
  split.
  - intros n. destruct n; vm_compute; split; congruence.
  - intros n. destruct n; vm_compute; split; congruence.
  - intros n. destruct n; vm_compute; split; congruence.
  - intros a b Hab. destruct a, b; try reflexivity; vm_compute in Hab; discriminate Hab.
  - intros a b Hab. destruct a, b; try reflexivity; vm_compute in Hab; discriminate Hab.
  - intros a b Hab. destruct a, b; try reflexivity; vm_compute in Hab; discriminate Hab.
Defined.
End TCG.
Import TCG.

(** ** [errors.As] and wrapping *)
Lemma ToErrorType_nonempty `{TPMRCs} r : ToErrorType r ≠ "".
Proof.
  assert (Forall (λ x : _ * errorDesc, desc_name x.2 ≠ "") fmt0DescsTable) as H0
    by (repeat constructor; discriminate).
  assert (Forall (λ x : _ * errorDesc, desc_name x.2 ≠ "") fmt1DescsTable) as H1
    by (repeat constructor; discriminate).
  assert (Forall (λ x : _ * errorDesc, desc_name x.2 ≠ "") warnDescsTable) as HW
    by (repeat constructor; discriminate).
  unfold ToErrorType.
  destruct (isFmt1Error r).1; [|destruct (isFmt0Error r); [|destruct (IsWarning r); [|discriminate]]];
    destruct (_ !! _) as [d|] eqn:Hd; try discriminate;
    match goal with H : _ !! _ = Some _ |- _ =>
      apply elem_of_list_to_map_2, list_elem_of_fmap in H as ([n' d'] & [= _ ->] & Hin) end;
    apply list_elem_of_In in Hin; rewrite Forall_forall in H0, H1, HW;
    first [exact (H0 _ Hin)|exact (H1 _ Hin)|exact (HW _ Hin)].
Qed.

Section Categorized.
Context `{TPMRCs}.

(** Response codes are classified by their layout: a code with bit 7 set is
    format-one whatever its other bits, otherwise bit 8 with bit 11 clear is an
    error and with bit 11 set a warning. The three tests partition the codes the
    classifier can name; warnings are never errors. *)
Theorem rc_tests r :
  (isFmt1Error r).1 = Z.testbit r 7 ∧
  isFmt0Error r = Z.testbit r 8 && negb (Z.testbit r 11) ∧
  IsWarning r = negb (Z.testbit r 7) && Z.testbit r 8 && Z.testbit r 11 ∧
  (IsWarning r = true → isFmt0Error r = false ∧ (isFmt1Error r).1 = false).
Proof.
  rewrite IsWarning_bits, isFmt0Error_bits, isFmt1Error_bits. cbn [fst].
  by destruct (Z.testbit r 7), (Z.testbit r 8), (Z.testbit r 11).
Qed.

(** C38: [ToErrorType] names every documented code by its table entry, a
    format-one code whatever parameter, session or handle number decorates it,
    and every other 32-bit code [OTHER_ERROR]. *)
Theorem ToErrorType_spec `{!TPMRCLayout} r :
  (0 ≤ r < 2 ^ 32)%Z →
  (∀ s, documented r s → ToErrorType r = s) ∧
  ((∀ s, ¬ documented r s) → ToErrorType r = OtherErrType).
Proof.
  intros Hr. split; [apply ToErrorType_documented|].
  intros Hnone. destruct (ToErrorType_found r Hr) as [|Hd]; [done|].
  by apply Hnone in Hd.
Qed.

(** Categorizing is stable: the categorized error, wrapped again by any
    number of layers, is found and returned unchanged; nil stays nil and no
    other error becomes nil. *)
Theorem CategorizedError_stable e :
  CategorizedError None = None ∧
  ∃ ty i, CategorizedError (Some e) = Some (ty, i) ∧
    ∀ layers : list (string * list fmt_arg),
      CategorizedError (Some (foldr (λ l e, EFmt l.1 l.2 [e]) (ETpm ty i) layers))
      = Some (ty, i).
Proof.
  split; [done|].
  assert (∃ ty i, CategorizedError (Some e) = Some (ty, i)) as (ty & i & Hc).
  { unfold CategorizedError. repeat case_match; try destruct p; eauto. }
  exists ty, i. split; [done|]. intros layers. clear Hc. unfold CategorizedError.
  assert (errors_As pickTpm (foldr (λ l e, EFmt l.1 l.2 [e]) (ETpm ty i) layers)
    = Some (ty, i)) as ->; [|done].
  induction layers as [|l layers IH]; [done|]. cbn. by rewrite IH.
Qed.

(** The category is empty exactly for a system error outside the switch:
    an error that carries neither an [*Error] nor a TPM response code gets type
    "" if and only if it carries an errno other than EBUSY, ETIMEDOUT, ETIME and
    EAGAIN, although [OTHER_ERROR] is the category of uncategorized errors. *)
Theorem CategorizedError_empty_type e ty i :
  errors_As pickTpm e = None → CategorizedError (Some e) = Some (ty, i) →
  ty = "" ↔ errors_As pickRC e = None ∧
    ∃ n, errors_As pickErrno e = Some n ∧ n ∉ [EBUSY; ETIMEDOUT; ETIME; EAGAIN].
Proof.
  intros Ht. unfold CategorizedError. rewrite Ht.
  destruct (errors_As pickRC e) as [rc|].
  { intros [= <- <-]. split; [by intros ?%ToErrorType_nonempty|by intros [? _]]. }
  destruct (errors_As pickErrno e) as [n|].
  2: { intros [= <- <-]. split; [done|]. by intros (_ & ? & ? & _). }
  intros [= <- <-]. unfold errnoType. set_unfold. split.
  - intros Hty. split; [done|]. exists n. split; [done|].
    repeat case_bool_decide; try discriminate. intuition.
  - intros (_ & n' & [= <-] & Hn). rewrite !bool_decide_eq_false_2 by intuition. done.
Qed.

End Categorized.

Lemma ToErrorType_spec_witness :
  documented 0x1CE (name1 RCAuthFail) ∧ ToErrorType 0x1CE = "TPM_RC_AUTH_FAIL".
Proof.
  assert (documented 0x1CE (name1 RCAuthFail)) as Hd by (exact (doc_fmt1 RCAuthFail 0x140 eq_refl)).
  split; [exact Hd|]. exact (proj1 (ToErrorType_spec 0x1CE ltac:(lia)) _ Hd).
Defined.

Lemma CategorizedError_empty_type_witness :
  "" = "" ↔ errors_As pickRC (err_wrap "write" (EErrno 5)) = None ∧
    ∃ n, errors_As pickErrno (err_wrap "write" (EErrno 5)) = Some n ∧
         n ∉ [EBUSY; ETIMEDOUT; ETIME; EAGAIN].
Proof.
  apply (CategorizedError_empty_type (err_wrap "write" (EErrno 5)) "" (EErrno 5));
    reflexivity.
Defined.

End TpmErrors.
