(* ===== verification/Asn1.v ===== *)
(** * encoding/asn1: the part of the standard library cert.go and signature.go use

    [asn1.Unmarshal] into an [asn1.RawValue] and [asn1.Marshal] of one: the
    tag-length-value layer of DER, with the parser's restrictions (minimal tags
    and lengths, no indefinite length, lengths below 2^31). *)
From S2P Require Import Prelude Bytes.

Module Asn1.

Definition ClassUniversal : Z := 0.
Definition ClassContextSpecific : Z := 2.
Definition TagInteger : Z := 2.
Definition TagSequence : Z := 16.

Record RawValue := mkRaw {
  Class : Z;
  Tag : Z;
  IsCompound : bool;
  Bytes : bytes;
  FullBytes : bytes;
}.

(** ** Parsing *)
Definition MaxInt32 : Z := 2 ^ 31 - 1.

Fixpoint parseBase128Int (shifted : nat) (ret64 : Z) (l : bytes) : outcome (Z * bytes) :=
  match l with
  | [] => Err (err_msg "truncated base 128 integer")
  | b :: l =>
    if decide (shifted = 5) then Err (err_msg "base 128 integer too large")
    else if decide (shifted = 0 ∧ b = Byte.x80)
    then Err (err_msg "integer is not minimally encoded")
    else
      let ret64 := (ret64 * 128 + Z_of_byte b mod 128)%Z in
      if decide (Z_of_byte b < 128)%Z then
        if decide (MaxInt32 < ret64)%Z then Err (err_msg "base 128 integer too large")
        else Ok (ret64, l)
      else parseBase128Int (S shifted) ret64 l
  end.

(** The length octets after the first, accumulated big-endian. *)
Fixpoint parseLength (numBytes : nat) (len : Z) (l : bytes) : outcome (Z * bytes) :=
  match numBytes with
  | O => Ok (len, l)
  | S numBytes =>
    match l with
    | [] => Err (err_msg "truncated tag or length")
    | b :: l =>
      if decide (2 ^ 23 ≤ len)%Z then Err (err_msg "length too large")
      else
        let len := (len * 256 + Z_of_byte b)%Z in
        if decide (len = 0)%Z then Err (err_msg "superfluous leading zeros in length")
        else parseLength numBytes len l
    end
  end.

(** Class, tag, constructed bit and length, and the bytes that follow. *)
Definition parseTagAndLength (l : bytes) : outcome (Z * Z * bool * Z * bytes) :=
  match l with
  | [] => Err (err_msg "asn1: internal error in parseTagAndLength")
  | b :: l =>
    let class := (Z_of_byte b / 64)%Z in
    let isCompound := Z.testbit (Z_of_byte b) 5 in
    let tag := (Z_of_byte b mod 32)%Z in
    '(tag, l) ←
      (if decide (tag = 31)%Z then
         '(tag, l) ← parseBase128Int 0 0 l;
         if decide (tag < 31)%Z then Err (err_msg "non-minimal tag") else Ok (tag, l)
       else Ok (tag, l));
    match l with
    | [] => Err (err_msg "truncated tag or length")
    | b :: l =>
      if decide (Z_of_byte b < 128)%Z then Ok (class, tag, isCompound, Z_of_byte b, l)
      else
        let numBytes := Z.to_nat (Z_of_byte b mod 128) in
        if decide (numBytes = 0) then Err (err_msg "indefinite length found (not DER)")
        else
          '(len, l) ← parseLength numBytes 0 l;
          if decide (len < 128)%Z then Err (err_msg "non-minimal length")
          else Ok (class, tag, isCompound, len, l)
    end
  end.

(** [rest, err := asn1.Unmarshal(l, &rv)] *)
Definition Unmarshal (l : bytes) : outcome (RawValue * bytes) :=
  if decide (l = []) then Err (err_msg "sequence truncated")
  else
    '(class, tag, isCompound, len, r) ← parseTagAndLength l;
    if decide (zlen r < len)%Z then Err (err_msg "data truncated")
    else
      let n := Z.to_nat len in
      Ok (mkRaw class tag isCompound (take n r)
                (take (length l - length r + n) l), drop n r).

(** ** Printing *)

(** Number of octets of a length: an [int] has at most eight. *)
Fixpoint lengthLength (fuel : nat) (i : Z) : nat :=
  match fuel with
  | O => 1
  | S fuel => if decide (255 < i)%Z then S (lengthLength fuel (i / 256)) else 1
  end.

(** The seven-bit groups of a tag number, most significant first. *)
Fixpoint base128 (fuel : nat) (z : Z) (last : bool) : bytes :=
  let b := byte_of_Z (z mod 128 + if last then 0 else 128)%Z in
  match fuel with
  | O => [b]
  | S fuel => if decide (z < 128)%Z then [b] else base128 fuel (z / 128) false ++ [b]
  end.

Definition appendLength (n : Z) : bytes :=
  if decide (128 ≤ n)%Z then
    let k := lengthLength 7 n in
    byte_of_Z (128 + Z.of_nat k) :: be_bytes k n
  else [byte_of_Z n].

Definition appendTagAndLength (class tag : Z) (isCompound : bool) (len : Z) : bytes :=
  let b := (class * 64 + if isCompound then 32 else 0)%Z in
  (if decide (31 ≤ tag)%Z then byte_of_Z (b + 31) :: base128 9 tag true
   else [byte_of_Z (b + tag)]) ++ appendLength len.

(** [asn1.Marshal(rv)]: raw values always marshal. *)
Definition Marshal (rv : RawValue) : bytes :=
  if decide (FullBytes rv ≠ []) then FullBytes rv
  else appendTagAndLength (Class rv) (Tag rv) (IsCompound rv) (zlen (Bytes rv)) ++ Bytes rv.

(** ** The two directions agree *)
Definition tlv (class tag : Z) (isCompound : bool) (body : bytes) : bytes :=
  Marshal (mkRaw class tag isCompound body []).

Lemma tlv_eq class tag c body :
  tlv class tag c body = appendTagAndLength class tag c (zlen body) ++ body.
Proof. unfold tlv, Marshal. by rewrite decide_False by (cbn; congruence). Qed.

Lemma lengthLength_bounds fuel i :
  (0 ≤ i < 256 ^ Z.of_nat (S fuel))%Z →
  let k := lengthLength fuel i in
  1 ≤ k ≤ S fuel ∧ (i < 256 ^ Z.of_nat k)%Z ∧ (1 < k → (256 ^ Z.of_nat (k - 1) ≤ i)%Z).
Proof.
  revert i. induction fuel as [|fuel IH]; intros i Hi; cbn [lengthLength].
  { simpl in *. repeat split; lia. }
  case_decide as H255; [|simpl; repeat split; lia].
  rewrite Nat2Z.inj_succ, Z.pow_succ_r in Hi by lia.
  destruct (IH (i / 256)%Z) as (Hk & Hlt & Hge).
  { split; [apply Z.div_pos; lia|apply Z.div_lt_upper_bound; lia]. }
  remember (lengthLength fuel (i / 256)) as k eqn:Hkeq. cbn zeta.
  repeat split; [lia|lia|..].
  - rewrite Nat2Z.inj_succ, Z.pow_succ_r by lia.
    pose proof (Z.div_mod i 256 ltac:(lia)). pose proof (Z.mod_pos_bound i 256). lia.
  - intros _. replace (Z.of_nat (S k - 1)) with (Z.of_nat k) by lia.
    destruct (decide (k = 1)) as [->|Hne]; [simpl; lia|].
    replace (Z.of_nat k) with (Z.succ (Z.of_nat (k - 1))) by lia.
    rewrite Z.pow_succ_r by lia. pose proof (Hge ltac:(lia)) as Hge'.
    pose proof (Z.mul_div_le i 256 ltac:(lia)). lia.
Qed.


(** The parser reads back big-endian length octets: from an accumulated value
    [acc] it appends the octets, as long as no prefix is zero and all but the
    last leave room for eight more bits. *)
Lemma parseLength_app bs acc r :
  (0 ≤ acc)%Z →
  (acc * 256 ^ zlen bs + be_Z bs < 2 ^ 31)%Z →
  (acc = 0 → ∀ b bs', bs = b :: bs' → b ≠ Byte.x00)%Z →
  parseLength (length bs) acc (bs ++ r) = Ok (acc * 256 ^ zlen bs + be_Z bs, r)%Z.
Proof.
  revert acc. induction bs as [|b bs IH]; intros acc Hacc Hlt Hnz.
  { cbn. do 2 f_equal. unfold be_Z. simpl. lia. }
  pose proof (Z_of_byte_range b) as Hb.
  pose proof (be_Z_range bs) as Hbs.
  assert (acc * 256 ^ zlen (b :: bs) + be_Z (b :: bs)
          = (acc * 256 + Z_of_byte b) * 256 ^ zlen bs + be_Z bs)%Z as Heq.
  { rewrite be_Z_cons. cbn [length]. rewrite Nat2Z.inj_succ, Z.pow_succ_r by lia. lia. }
  rewrite Heq in *. cbn [length app parseLength].
  assert (1 ≤ 256 ^ zlen bs)%Z by (apply Z.pow_le_mono_r with (b := 0%Z); lia).
  rewrite decide_False.
  2: { intros ?. assert ((acc * 256) * 1 ≤ (acc * 256 + Z_of_byte b) * 256 ^ zlen bs)%Z
         by (apply Z.mul_le_mono_nonneg; lia). lia. }
  assert (acc * 256 + Z_of_byte b ≠ 0)%Z as Hne.
  { intros H0. assert (acc = 0)%Z as Ha by lia. apply (Hnz Ha b bs eq_refl).
    apply (inj Z_of_byte). change (Z_of_byte Byte.x00) with 0%Z. lia. }
  cbn zeta. rewrite decide_False by done. apply IH; [lia|lia|]. intros ?. contradiction.
Qed.

Lemma be_bytes_head k n b bs :
  (0 ≤ n < 256 ^ Z.of_nat k)%Z → (1 ≤ k → (256 ^ Z.of_nat (k - 1) ≤ n)%Z) →
  be_bytes k n = b :: bs → b ≠ Byte.x00.
Proof.
  intros Hn Hge Hb ->. pose proof (be_Z_be_bytes k n) as Hz.
  pose proof (length_be_bytes k n) as Hl. rewrite Hb in Hl, Hz. simpl in Hl.
  rewrite Z.mod_small, be_Z_cons in Hz by done. change (Z_of_byte Byte.x00) with 0%Z in Hz.
  pose proof (be_Z_range bs). replace (k - 1) with (length bs) in Hge by lia. lia.
Qed.

(** A longer body never has a shorter encoding. *)
Lemma lengthLength_mono fuel i j : (i ≤ j)%Z → lengthLength fuel i ≤ lengthLength fuel j.
Proof.
  revert i j. induction fuel as [|fuel IH]; intros i j Hij; cbn [lengthLength]; [done|].
  repeat case_decide; try lia. apply le_n_S, IH, Z.div_le_mono; lia.
Qed.

Lemma length_tlv_mono class tag c body body' :
  length body ≤ length body' → length (tlv class tag c body) ≤ length (tlv class tag c body').
Proof.
  intros Hl. rewrite !tlv_eq, !length_app. apply Nat.add_le_mono; [|done].
  unfold appendTagAndLength. rewrite !length_app. apply Nat.add_le_mono_l.
  unfold appendLength. pose proof (lengthLength_mono 7 (zlen body) (zlen body') ltac:(lia)).
  repeat case_decide; cbn [length]; rewrite ?length_be_bytes; lia.
Qed.

(** Header bytes of a low tag. *)
Lemma Z_of_byte_header class tag (c : bool) :
  (0 ≤ class < 4)%Z → (0 ≤ tag < 32)%Z →
  let z := (class * 64 + (if c then 32 else 0) + tag)%Z in
  (0 ≤ z < 256)%Z ∧ (z / 64 = class)%Z ∧ (z mod 32 = tag)%Z ∧ Z.testbit z 5 = c.
Proof.
  intros Hc Ht. cbn zeta. split; [destruct c; lia|].
  replace (class * 64 + (if c then 32 else 0) + tag)%Z
    with (tag + (class * 2 + (if c then 1 else 0)) * 32)%Z by (destruct c; lia).
  split; [|split].
  - symmetry. apply (Z.div_unique _ _ _ (tag + if c then 32 else 0)%Z); destruct c; lia.
  - rewrite Z.mod_add, Z.mod_small by lia. done.
  - rewrite Z.testbit_eqb by lia. change (2 ^ 5)%Z with 32%Z.
    rewrite Z.div_add, (Z.div_small tag), Z.add_0_l by lia.
    rewrite Z.add_comm, (Z.mul_comm class), Z.add_mod, Z.mul_comm, Z.mod_mul by lia.
    by destruct c.
Qed.

Lemma parse_appendLength n r class tag c :
  (0 ≤ n < 2 ^ 31)%Z → (0 ≤ class < 4)%Z → (0 ≤ tag < 31)%Z →
  parseTagAndLength (appendTagAndLength class tag c n ++ r) = Ok (class, tag, c, n, r).
Proof.
  intros Hn Hc Ht. unfold appendTagAndLength. rewrite decide_False by lia.
  destruct (Z_of_byte_header class tag c Hc ltac:(lia)) as (Hr & Hd & Hm & Hb).
  cbn [app parseTagAndLength]. rewrite byte_of_Z_small, Hd, Hm, Hb by done.
  rewrite decide_False by lia. cbn [mbind outcome_bind]. unfold appendLength.
  case_decide as H128; cbn [app].
  - destruct (lengthLength_bounds 7 n) as (Hk & Hlt & Hge); [lia|].
    set (k := lengthLength 7 n) in *.
    rewrite byte_of_Z_small by lia. rewrite decide_False by lia.
    replace (Z.to_nat ((128 + Z.of_nat k) mod 128)) with k.
    2: { replace (128 + Z.of_nat k)%Z with (Z.of_nat k + 1 * 128)%Z by lia.
         rewrite Z.mod_add, Z.mod_small by lia. lia. }
    rewrite decide_False by lia.
    pose proof (length_be_bytes k n) as Hlen.
    pose proof (be_Z_be_bytes k n) as Hval. rewrite Z.mod_small in Hval by lia.
    rewrite <-Hlen at 1. rewrite parseLength_app; [|lia|lia|].
    + rewrite Z.mul_0_l, Z.add_0_l, Hval. cbn [mbind outcome_bind]. by rewrite decide_False by lia.
    + intros _ b bs Hbs. eapply be_bytes_head; [|..|exact Hbs]; [lia|].
      intros _. destruct (decide (1 < k)); [auto|].
      replace (Z.of_nat (k - 1)) with 0%Z by lia. lia.
  - by rewrite byte_of_Z_small, decide_True by lia.
Qed.

(** ** The round trip of an element *)
Lemma length_appendTagAndLength class tag c n : 0 < length (appendTagAndLength class tag c n).
Proof. unfold appendTagAndLength. case_decide; simpl; lia. Qed.

Lemma Unmarshal_tlv class tag c body r :
  (0 ≤ class < 4)%Z → (0 ≤ tag < 31)%Z → (zlen body < 2 ^ 31)%Z →
  Unmarshal (tlv class tag c body ++ r) =
    Ok (mkRaw class tag c body (tlv class tag c body), r).
Proof.
  intros Hc Ht Hb. unfold Unmarshal. rewrite decide_False.
  2: { unfold tlv, Marshal. cbn. pose proof (length_appendTagAndLength class tag c (zlen body)).
       destruct (appendTagAndLength _ _ _ _); simpl in *; [lia|done]. }
  unfold tlv, Marshal. rewrite decide_False by (cbn; congruence).
  cbn [Class Tag IsCompound Bytes]. rewrite <-app_assoc, parse_appendLength by lia.
  cbn [mbind outcome_bind]. rewrite length_app, decide_False by lia. rewrite Nat2Z.id.
  rewrite take_app_length, drop_app_length. do 3 f_equal.
  rewrite app_assoc. apply take_app_exact. rewrite !length_app. lia.
Qed.

(** ** DER is canonical: what the parser accepts is what the printer prints *)
Lemma parseLength_split k acc l n r :
  (0 ≤ acc)%Z → parseLength k acc l = Ok (n, r) →
  ∃ bs, l = bs ++ r ∧ length bs = k ∧ n = (acc * 256 ^ Z.of_nat k + be_Z bs)%Z ∧
    (acc < 2 ^ 31 → n < 2 ^ 31)%Z ∧
    (acc = 0%Z → 1 ≤ k → (256 ^ Z.of_nat (k - 1) ≤ n)%Z).
Proof.
  revert acc l. induction k as [|k IH]; intros acc l Hacc H; cbn [parseLength] in H.
  { injection H as <- <-. exists []. repeat split; try lia. unfold be_Z. simpl. lia. }
  destruct l as [|b l]; [done|]. case_decide as Hbig; [done|]. cbn zeta in H.
  case_decide as H0; [done|]. pose proof (Z_of_byte_range b) as Hb.
  apply IH in H as (bs & -> & Hl & Hn & Hlt & _); [|lia].
  pose proof (be_Z_range bs) as Hbs. rewrite Hl in Hbs.
  exists (b :: bs). rewrite be_Z_cons, Hl. repeat split.
  - by simpl; f_equal.
  - rewrite Hn, Nat2Z.inj_succ, Z.pow_succ_r by lia. lia.
  - intros _. apply Hlt. lia.
  - intros -> _. replace (S k - 1) with k by lia. rewrite Hn.
    assert (1 * 256 ^ Z.of_nat k ≤ (0 * 256 + Z_of_byte b) * 256 ^ Z.of_nat k)%Z
      by (apply Z.mul_le_mono_nonneg_r; [apply Z.pow_nonneg|]; lia). lia.
Qed.

Lemma lengthLength_unique k n :
  (0 ≤ n < 2 ^ 31)%Z → 1 ≤ k → (n < 256 ^ Z.of_nat k)%Z →
  (256 ^ Z.of_nat (k - 1) ≤ n)%Z → lengthLength 7 n = k.
Proof.
  intros Hn Hk Hlt Hge. destruct (lengthLength_bounds 7 n) as (Hk' & Hlt' & Hge'); [lia|].
  set (k' := lengthLength 7 n) in *.
  destruct (Nat.lt_trichotomy k' k) as [Hc|[Hc|Hc]]; [exfalso| done |exfalso].
  - assert (256 ^ Z.of_nat k' ≤ 256 ^ Z.of_nat (k - 1))%Z by (apply Z.pow_le_mono_r; lia). lia.
  - assert (256 ^ Z.of_nat k ≤ 256 ^ Z.of_nat (k' - 1))%Z by (apply Z.pow_le_mono_r; lia).
    specialize (Hge' ltac:(lia)). lia.
Qed.

Lemma appendLength_long k b bs n :
  Z_of_byte b = (128 + Z.of_nat k)%Z → 1 ≤ k → length bs = k → n = be_Z bs →
  (128 ≤ n < 2 ^ 31)%Z → (256 ^ Z.of_nat (k - 1) ≤ n)%Z → appendLength n = b :: bs.
Proof.
  intros Hb Hk Hl -> Hn Hge. unfold appendLength. rewrite decide_True by lia.
  pose proof (be_Z_range bs) as Hr. rewrite Hl in Hr.
  rewrite (lengthLength_unique k) by lia. cbn zeta. f_equal.
  - by rewrite <-Hb, byte_of_Z_of_byte.
  - by rewrite <-Hl, be_bytes_be_Z.
Qed.

Lemma header_byte b tag :
  (tag = Z_of_byte b mod 32)%Z →
  (Z_of_byte b / 64 * 64 + (if Z.testbit (Z_of_byte b) 5 then 32 else 0) + tag = Z_of_byte b)%Z.
Proof.
  intros ->. pose proof (Z_of_byte_range b) as Hb.
  apply (Z.eqb_eq _ _), (Z_range_check
    (λ z, z / 64 * 64 + (if Z.testbit z 5 then 32 else 0) + z mod 32 =? z)%Z 0 256 eq_refl).
  lia.
Qed.

Lemma parseTagAndLength_canonical l class tag c n r :
  parseTagAndLength l = Ok (class, tag, c, n, r) → (tag < 31)%Z →
  l = appendTagAndLength class tag c n ++ r ∧
  (0 ≤ class < 4)%Z ∧ (0 ≤ tag)%Z ∧ (0 ≤ n < 2 ^ 31)%Z.
Proof.
  unfold parseTagAndLength. destruct l as [|b l]; [done|]. intros H Ht.
  pose proof (Z_of_byte_range b) as Hb. cbn zeta in H.
  apply bind_Ok in H as ([tag' l'] & Htag & H). destruct l' as [|b' l']; [done|].
  pose proof (Z_of_byte_range b') as Hb'.
  assert (tag' = tag ∧ class = Z_of_byte b / 64 ∧ c = Z.testbit (Z_of_byte b) 5)%Z as (-> & -> & ->).
  { case_decide; [by injection H as <- <- <- <- <-|]. case_decide; [done|].
    apply bind_Ok in H as ([len l2] & _ & H). case_decide; [done|]. by injection H as <- <- <- <- <-. }
  case_decide as H31.
  { apply bind_Ok in Htag as ([t2 l2] & _ & Htag). case_decide; [done|].
    injection Htag as -> _. lia. }
  injection Htag as Htag ->. symmetry in Htag.
  unfold appendTagAndLength. rewrite decide_False, (header_byte b) by (done || lia).
  rewrite byte_of_Z_of_byte. cbn [app].
  assert (0 ≤ tag ∧ 0 ≤ Z_of_byte b / 64 < 4)%Z as [? ?].
  { rewrite Htag. split; [apply Z.mod_pos_bound; lia|].
    split; [apply Z.div_pos; lia|apply Z.div_lt_upper_bound; lia]. }
  case_decide as Hs.
  { injection H as <- <-. split; [|lia]. unfold appendLength.
    rewrite decide_False by lia. by rewrite byte_of_Z_of_byte. }
  case_decide as Hk0; [done|]. apply bind_Ok in H as ([len l2] & Hlen & H).
  case_decide as Hmin; [done|]. injection H as <- <-.
  apply parseLength_split in Hlen as (bs & -> & Hl & Hn & Hlt & Hge); [|lia].
  specialize (Hge eq_refl ltac:(lia)). specialize (Hlt ltac:(lia)).
  rewrite Z.mul_0_l, Z.add_0_l in Hn. pose proof (Z.mod_pos_bound (Z_of_byte b') 128).
  assert (Z_of_byte b' = 128 + Z_of_byte b' mod 128)%Z as Hb2.
  { pose proof (Z.div_mod (Z_of_byte b') 128 ltac:(lia)).
    assert (1 ≤ Z_of_byte b' / 128)%Z by (apply Z.div_le_lower_bound; lia).
    assert (Z_of_byte b' / 128 < 2)%Z by (apply Z.div_lt_upper_bound; lia). lia. }
  rewrite (appendLength_long (Z.to_nat (Z_of_byte b' mod 128)) b' bs) by (done || lia).
  split; [done|lia].
Qed.

Lemma Unmarshal_canonical l rv r :
  Unmarshal l = Ok (rv, r) → (Tag rv < 31)%Z →
  l = FullBytes rv ++ r ∧
  FullBytes rv = tlv (Class rv) (Tag rv) (IsCompound rv) (Bytes rv) ∧
  (0 ≤ Class rv < 4)%Z ∧ (0 ≤ Tag rv)%Z ∧ (zlen (Bytes rv) < 2 ^ 31)%Z.
Proof.
  unfold Unmarshal. case_decide; [done|]. intros Hu Ht.
  apply bind_Ok in Hu as ([[[[class tag] c] n] rest] & Hp & Hu).
  case_decide as Hn; [done|]. injection Hu as <- <-. cbn [Tag Class IsCompound Bytes FullBytes] in *.
  apply parseTagAndLength_canonical in Hp as (-> & Hc & Ht0 & Hn0); [|done].
  assert (zlen (take (Z.to_nat n) rest) = n) as Hlen by (rewrite length_take; lia).
  assert (∀ k (h : bytes), take (length (h ++ rest) - length rest + k) (h ++ rest)
    = h ++ take k rest) as Htake.
  { intros k h. rewrite length_app.
    replace (length h + length rest - length rest + k) with (length h + k) by lia.
    by rewrite take_app_add. }
  rewrite Htake. split; [by rewrite <-app_assoc, take_drop|].
  split; [|lia]. unfold tlv, Marshal. cbn [Class Tag IsCompound Bytes FullBytes].
  by rewrite decide_False, Hlen by congruence.
Qed.

End Asn1.
