(* ===== verification/Cert.v ===== *)
(** * pkg/tpm/cert.go: parsing EK certificates with malformed serial numbers

    [extractEKCertificateDER] and [stripSerialNumberLeadingNullBytes] are the
    two byte-level helpers, over the DER layer of [Asn1]; [ParseEKCertificate]
    is the fallback logic around two parsers that are parameters: the
    go-attestation helper and [x509.ParseCertificate]. *)
From S2P Require Import Prelude Bytes Asn1.
Import Asn1.

Module Cert.

Definition STMicroelectronicsIssuerOrganization : bytes := str "STMicroelectronics NV".

(** The fields of [x509.Certificate] the code touches, and the rest. *)
Record Certificate (X : Type) := mkCertificate {
  Raw : bytes;
  RawTBSCertificate : bytes;
  IssuerOrganization : list bytes;
  parsedFields : X;
}.
Arguments mkCertificate {X}.
Arguments Raw {X}.
Arguments RawTBSCertificate {X}.
Arguments IssuerOrganization {X}.
Arguments parsedFields {X}.

(** [None] is the nil pointer. *)
Definition IsSTMicroelectronicsEKCertificate {X} (cert : option (Certificate X)) : bool :=
  match cert with
  | None => false
  | Some cert => bool_decide (STMicroelectronicsIssuerOrganization ∈ IssuerOrganization cert)
  end.

Definition newEKCertificateFallbackError (parseErr fallbackErr : error) : error :=
  EFmt "failed to parse EK certificate: %w; STMicroelectronics serial normalization fallback failed: %w"
    [] [parseErr; fallbackErr].

(** [Class == ClassUniversal && Tag == TagSequence && IsCompound] *)
Definition isSequence (rv : RawValue) : bool :=
  bool_decide (Class rv = ClassUniversal) && bool_decide (Tag rv = TagSequence) && IsCompound rv.

Definition extractEKCertificateDER (certBytes : bytes) : outcome bytes :=
  certBytes ←
    (if decide (5 ≤ length certBytes ∧ take 3 certBytes = [Byte.x10; Byte.x01; Byte.x00]) then
       let certLen := Z.to_nat (be_Z (take 2 (drop 3 certBytes))) in
       if decide (certLen = 0) then Err (err_msg "TCG NV wrapper contains an empty certificate")
       else if decide (length certBytes < certLen + 5) then
         Err (err_fmt "TCG NV wrapper declares certificate length %d with only %d bytes available"
                [AInt (Z.of_nat certLen); AInt (zlen certBytes - 5)%Z])
       else reslice (exact certBytes) 5 (5 + certLen)
     else Ok certBytes);
  '(cert, _) ← map_err (err_wrap "unmarshalling certificate DER: %w") (Unmarshal certBytes);
  if negb (isSequence cert) then Err (err_msg "certificate is not a compound ASN.1 SEQUENCE")
  else Ok (FullBytes cert).

(** [for len(b) > 1 && b[0] == 0 && b[1]&0x80 == 0 { b = b[1:] }] *)
Fixpoint normalizeSerial (b : bytes) : bytes :=
  match b with
  | b0 :: ((b1 :: _) as rest) =>
    if decide (b0 = Byte.x00 ∧ Z.land (Z_of_byte b1) 0x80 = 0%Z) then normalizeSerial rest else b
  | _ => b
  end.

Definition stripSerialNumberLeadingNullBytes (certDER : bytes) : outcome (bytes * bytes) :=
  '(cert, remaining) ← map_err (err_wrap "unmarshalling certificate: %w") (Unmarshal certDER);
  if decide (length remaining ≠ 0) then Err (err_msg "certificate contains trailing data")
  else if negb (isSequence cert)
  then Err (err_msg "certificate is not a compound ASN.1 SEQUENCE")
  else
    '(tbs, tbsRemainder) ←
      map_err (err_wrap "unmarshalling TBSCertificate: %w") (Unmarshal (Bytes cert));
    if negb (isSequence tbs)
    then Err (err_msg "TBSCertificate is not a compound ASN.1 SEQUENCE")
    else
      '(firstField, fieldRemainder) ←
        map_err (err_wrap "unmarshalling first TBSCertificate field: %w") (Unmarshal (Bytes tbs));
      '(serialOffset, serial, serialRemainder) ←
        (if decide (Class firstField = ClassContextSpecific ∧ Tag firstField = 0%Z) then
           '(serial, serialRemainder) ←
             map_err (err_wrap "unmarshalling certificate serial number: %w")
                     (Unmarshal fieldRemainder);
           Ok (length (Bytes tbs) - length fieldRemainder, serial, serialRemainder)
         else Ok (0, firstField, fieldRemainder));
      if decide (Class serial ≠ ClassUniversal ∨ Tag serial ≠ TagInteger ∨ IsCompound serial = true)
      then Err (err_msg "certificate serial number is not a primitive ASN.1 INTEGER")
      else
        let normalizedSerialBytes := normalizeSerial (Bytes serial) in
        let removedBytes := length (Bytes serial) - length normalizedSerialBytes in
        if decide (removedBytes = 0)
        then Err (err_msg "serial number has no redundant leading zero padding")
        else
          let normalizedSerial :=
            Marshal (mkRaw ClassUniversal TagInteger false normalizedSerialBytes []) in
          let normalizedTBSBody :=
            take serialOffset (Bytes tbs) ++ normalizedSerial ++ serialRemainder in
          let normalizedTBS :=
            Marshal (mkRaw (Class tbs) (Tag tbs) (IsCompound tbs) normalizedTBSBody []) in
          let normalizedCertBody := normalizedTBS ++ tbsRemainder in
          let normalizedCert :=
            Marshal (mkRaw (Class cert) (Tag cert) (IsCompound cert) normalizedCertBody []) in
          Ok (normalizedCert, FullBytes tbs).

(** ** The fallback *)
Section Parse.
Context {X : Type}.
(** [attestHelper.ParseEKCertificate] of go-attestation and
    [x509.ParseCertificate] of the standard library. *)
Variables (attest_ParseEKCertificate x509_ParseCertificate : bytes → outcome (Certificate X)).

Definition ParseEKCertificate (certBytes : bytes) : outcome (Certificate X) :=
  match attest_ParseEKCertificate certBytes with
  | Ok cert => Ok cert
  | Panic p => Panic p
  | Err parseErr =>
    certDER ← map_err (newEKCertificateFallbackError parseErr) (map_err (err_wrap "extracting certificate DER: %w")
                          (extractEKCertificateDER certBytes));
    '(normalizedDER, originalTBS) ←
      map_err (newEKCertificateFallbackError parseErr) (map_err (err_wrap "normalizing serial number: %w")
                  (stripSerialNumberLeadingNullBytes certDER));
    cert ← map_err (newEKCertificateFallbackError parseErr) (map_err (err_wrap "parsing normalized certificate: %w")
                       (x509_ParseCertificate normalizedDER));
    if negb (IsSTMicroelectronicsEKCertificate (Some cert)) then
      Err (newEKCertificateFallbackError parseErr
             (err_fmt "issuer organizations %q do not include %q, not valid for fallback parsing"
                ((AStr <$> IssuerOrganization cert) ++ [AStr STMicroelectronicsIssuerOrganization])))
    else
      Ok (mkCertificate certDER originalTBS (IssuerOrganization cert) (parsedFields cert))
  end.
End Parse.

(** ** The shape of the certificates the normalization is for *)

(** A version field, or none. *)
Definition isVersion (ver : bytes) : Prop :=
  ver = [] ∨ ∃ c body, ver = tlv ClassContextSpecific 0 c body ∧ (zlen body < 2 ^ 31)%Z.

Definition tbsOf (ver serial after : bytes) : bytes :=
  tlv ClassUniversal TagSequence true (ver ++ tlv ClassUniversal TagInteger false serial ++ after).
Definition certOf (ver serial after tail : bytes) : bytes :=
  tlv ClassUniversal TagSequence true (tbsOf ver serial after ++ tail).

(** A minimally encoded non-negative integer. *)
Definition minimalSerial (s : bytes) : Prop :=
  match s with
  | [] => False
  | b :: s => (Z_of_byte b < 128)%Z ∧
    match s with [] => True | b' :: _ => b = Byte.x00 → (128 ≤ Z_of_byte b')%Z end
  end.

(** ** Serial padding *)
Lemma high_bit_clear b : Z.land (Z_of_byte b) 0x80 = 0%Z ↔ (Z_of_byte b < 128)%Z.
Proof.
  pose proof (Z_of_byte_range b) as Hb.
  pose proof (Z_range_check (λ z, Bool.eqb (Z.land z 0x80 =? 0) (z <? 128))%Z 0 256 eq_refl
                (Z_of_byte b) ltac:(lia)) as Hc.
  rewrite eqb_true_iff in Hc. rewrite <-Z.eqb_eq, Hc. apply Z.ltb_lt.
Qed.

Lemma normalizeSerial_cons2 b0 b1 l :
  normalizeSerial (b0 :: b1 :: l) =
    if decide (b0 = Byte.x00 ∧ Z.land (Z_of_byte b1) 0x80 = 0%Z)
    then normalizeSerial (b1 :: l) else b0 :: b1 :: l.
Proof. done. Qed.

Lemma normalizeSerial_pad k s :
  minimalSerial s → normalizeSerial (replicate k Byte.x00 ++ s) = s.
Proof.
  intros Hs. destruct s as [|b s]; [done|]. destruct Hs as [Hb Hs].
  induction k as [|k IH].
  - simpl app. destruct s as [|b' s]; [done|]. rewrite normalizeSerial_cons2, decide_False; [done|].
    intros [-> Hb'%high_bit_clear]. specialize (Hs eq_refl). lia.
  - cbn [replicate app]. destruct (replicate k Byte.x00 ++ b :: s) as [|b1 l] eqn:Hl.
    { by destruct k. }
    rewrite normalizeSerial_cons2, decide_True; [done|]. split; [done|].
    apply high_bit_clear. destruct k; simpl in Hl; injection Hl as <- _; [done|].
    by vm_compute.
Qed.

Lemma normalizeSerial_stuck l b0 b1 s :
  normalizeSerial l = b0 :: b1 :: s → b0 = Byte.x00 → (128 ≤ Z_of_byte b1)%Z.
Proof.
  induction l as [|c0 [|c1 l] IH]; [done|done|]. rewrite normalizeSerial_cons2.
  case_decide as Hc; [done|]. intros [= -> -> ->] ->. rewrite high_bit_clear in Hc.
  destruct (decide (Z_of_byte b1 < 128)%Z); [|lia]. by destruct Hc.
Qed.

Lemma normalizeSerial_split l :
  ∃ k, l = replicate k Byte.x00 ++ normalizeSerial l ∧
       (0 < k → minimalSerial (normalizeSerial l)).
Proof.
  assert (∃ k, l = replicate k Byte.x00 ++ normalizeSerial l ∧
    (0 < k → ∃ b s, normalizeSerial l = b :: s ∧ (Z_of_byte b < 128)%Z)) as (k & Hk & Hhead).
  { induction l as [|b0 [|b1 l] IH].
    - exists 0. split; [done|lia].
    - exists 0. split; [done|lia].
    - rewrite normalizeSerial_cons2. case_decide as H; [|exists 0; split; [done|lia]].
      destruct H as [-> H1%high_bit_clear], IH as (k & Hk & Hmin).
      exists (S k). split; [cbn [replicate app]; by f_equal|]. intros _.
      destruct k as [|k]; [|apply Hmin; lia]. cbn [replicate app] in Hk. rewrite <-Hk. eauto. }
  exists k. split; [done|]. intros Hpos. destruct (Hhead ltac:(lia)) as (b & s & Hs & Hb).
  rewrite Hs. split; [done|]. destruct s as [|b' s]; [done|]. by eapply normalizeSerial_stuck.
Qed.

(** Padding does not change the number. *)
Lemma be_Z_pad k s : be_Z (replicate k Byte.x00 ++ s) = be_Z s.
Proof.
  induction k as [|k IH]; [done|]. cbn [replicate app]. rewrite be_Z_cons, IH.
  change (Z_of_byte Byte.x00) with 0%Z. lia.
Qed.

(** ** Elements with low tags *)
Lemma length_tlv class tag c body : length body < length (tlv class tag c body).
Proof.
  rewrite tlv_eq, length_app.
  pose proof (length_appendTagAndLength class tag c (zlen body)). lia.
Qed.

Lemma tlv_inj_Full l rv r :
  Unmarshal l = Ok (rv, r) → isSequence rv = true →
  l = tlv ClassUniversal TagSequence true (Bytes rv) ++ r ∧
  FullBytes rv = tlv ClassUniversal TagSequence true (Bytes rv) ∧
  (zlen (Bytes rv) < 2 ^ 31)%Z ∧
  (Class rv, Tag rv, IsCompound rv) = (ClassUniversal, TagSequence, true).
Proof.
  intros Hu Hs. unfold isSequence in Hs. rewrite !andb_true_iff, !bool_decide_eq_true in Hs.
  destruct Hs as [[Hc Ht] Hcomp].
  apply Unmarshal_canonical in Hu as (-> & -> & _ & _ & Hb); [|by rewrite Ht].
  rewrite Hc, Ht, Hcomp. done.
Qed.

Lemma Unmarshal_seq body r :
  (zlen body < 2 ^ 31)%Z →
  Unmarshal (tlv ClassUniversal TagSequence true body ++ r) =
    Ok (mkRaw ClassUniversal TagSequence true body
          (tlv ClassUniversal TagSequence true body), r).
Proof. intros. by apply Unmarshal_tlv. Qed.

Lemma isSequence_seq body full :
  isSequence (mkRaw ClassUniversal TagSequence true body full) = true.
Proof. done. Qed.

(** ** What [stripSerialNumberLeadingNullBytes] accepts *)
Definition noPadding : error := err_msg "serial number has no redundant leading zero padding".

Lemma strip_run ver k s after tail :
  isVersion ver → minimalSerial s →
  (zlen (tbsOf ver (replicate k Byte.x00 ++ s) after ++ tail) < 2 ^ 31)%Z →
  stripSerialNumberLeadingNullBytes (certOf ver (replicate k Byte.x00 ++ s) after tail) =
    if decide (k = 0) then Err noPadding
    else Ok (certOf ver s after tail, tbsOf ver (replicate k Byte.x00 ++ s) after).
Proof.
  intros Hver Hs Hlen. set (p := replicate k Byte.x00 ++ s) in *.
  pose proof (length_tlv ClassUniversal TagSequence true
    (ver ++ tlv ClassUniversal TagInteger false p ++ after)) as Ht.
  pose proof (length_tlv ClassUniversal TagInteger false p) as Hi.
  fold (tbsOf ver p after) in Ht. rewrite length_app in Hlen. rewrite !length_app in Ht.
  unfold stripSerialNumberLeadingNullBytes.
  rewrite <-(app_nil_r (certOf _ _ _ _)). unfold certOf at 1.
  rewrite Unmarshal_seq by (rewrite length_app; lia).
  cbn [map_err mbind outcome_bind length Bytes]. rewrite decide_False by lia.
  rewrite isSequence_seq. cbn [negb].
  assert (Unmarshal (tbsOf ver p after ++ tail) =
    Ok (mkRaw ClassUniversal TagSequence true
          (ver ++ tlv ClassUniversal TagInteger false p ++ after) (tbsOf ver p after), tail))
    as -> by (apply Unmarshal_seq; rewrite !length_app; lia).
  cbn [map_err mbind outcome_bind Bytes FullBytes Class Tag IsCompound].
  rewrite isSequence_seq. cbn [negb].
  assert (normalizeSerial p = s) as Hn by (by apply normalizeSerial_pad).
  assert (length p - length s = k) as Hrem
    by (unfold p; rewrite length_app, length_replicate; lia).
  destruct Hver as [->|(c & body & -> & Hbody)].
  - rewrite app_nil_l, Unmarshal_tlv by (done || lia).
    cbn [map_err mbind outcome_bind Bytes FullBytes Class Tag IsCompound].
    rewrite decide_False by (by intros []).
    cbn [mbind outcome_bind Bytes Class Tag IsCompound]. rewrite decide_False by (by intros [|[]]).
    cbn zeta. rewrite Hn, Hrem. case_decide; [done|]. by rewrite take_0.
  - rewrite Unmarshal_tlv by (done || lia).
    cbn [map_err mbind outcome_bind Bytes FullBytes Class Tag IsCompound].
    rewrite decide_True by done. rewrite Unmarshal_tlv by (done || lia).
    cbn [map_err mbind outcome_bind Bytes FullBytes Class Tag IsCompound].
    rewrite decide_False by (by intros [|[]]).
    cbn zeta. rewrite Hn, Hrem. case_decide; [done|].
    rewrite take_app_exact; [done|]. rewrite !length_app. lia.
Qed.

Lemma serial_element l rv r :
  Unmarshal l = Ok (rv, r) →
  ¬ (Class rv ≠ ClassUniversal ∨ Tag rv ≠ TagInteger ∨ IsCompound rv = true) →
  l = tlv ClassUniversal TagInteger false (Bytes rv) ++ r.
Proof.
  intros Hu Hs. assert (Class rv = ClassUniversal) as Hc by (destruct (decide (Class rv = ClassUniversal)); tauto).
  assert (Tag rv = TagInteger) as Ht by (destruct (decide (Tag rv = TagInteger)); tauto).
  assert (IsCompound rv = false) as Hb by (destruct (IsCompound rv); tauto).
  apply Unmarshal_canonical in Hu as (-> & -> & _); [|by rewrite Ht]. by rewrite Hc, Ht, Hb.
Qed.

(** The shape a successful normalization implies. *)
Definition stripped (der n t : bytes) : Prop :=
  ∃ ver k s after tail,
    isVersion ver ∧ 0 < k ∧ minimalSerial s ∧
    (zlen (tbsOf ver (replicate k Byte.x00 ++ s) after ++ tail) < 2 ^ 31)%Z ∧
    der = certOf ver (replicate k Byte.x00 ++ s) after tail ∧
    n = certOf ver s after tail ∧
    t = tbsOf ver (replicate k Byte.x00 ++ s) after.

Lemma strip_sound der n t :
  stripSerialNumberLeadingNullBytes der = Ok (n, t) → stripped der n t.
Proof.
  unfold stripSerialNumberLeadingNullBytes. intros H.
  apply bind_Ok in H as ([cert rem] & Hcert%map_err_Ok & H).
  case_decide as Hrem; [done|]. destruct (isSequence cert) eqn:Hseq; [|done]. cbn [negb] in H.
  apply bind_Ok in H as ([tbs tail] & Htbs%map_err_Ok & H).
  destruct (isSequence tbs) eqn:Hseq'; [|done]. cbn [negb] in H.
  apply bind_Ok in H as ([first fr] & Hfirst%map_err_Ok & H).
  apply bind_Ok in H as ([[off serial] after] & Hserial & H).
  case_decide as Hint; [done|]. cbn zeta in H. case_decide as Hpad; [done|].
  injection H as <- <-.
  destruct (tlv_inj_Full _ _ _ Hcert Hseq) as (-> & _ & Hlen & Hcf).
  destruct (tlv_inj_Full _ _ _ Htbs Hseq') as (Hcb & Htf & _ & Htb).
  destruct rem; [|simpl in Hrem; lia]. rewrite app_nil_r.
  injection Hcf as -> -> ->. injection Htb as -> -> ->.
  destruct (normalizeSerial_split (Bytes serial)) as (k & Hk & Hmin).
  assert (0 < k) as Hkpos.
  { destruct k; [|lia]. simpl in Hk. rewrite <-Hk in Hpad. lia. }
  assert (∃ ver, isVersion ver ∧ take off (Bytes tbs) = ver ∧
    Bytes tbs = ver ++ tlv ClassUniversal TagInteger false (Bytes serial) ++ after)
    as (ver & Hver & Htake & Hbody).
  { case_decide as Hv.
    - apply bind_Ok in Hserial as ([sr a] & Hs%map_err_Ok & [= <- <- <-]).
      apply Unmarshal_canonical in Hfirst as (Hb & Hf & _ & _ & Hlv); [|destruct Hv; lia].
      destruct Hv as [Hv1 Hv2]. rewrite Hv1, Hv2 in Hf.
      exists (FullBytes first). apply serial_element in Hs; [|done]. repeat split.
      + right. eauto.
      + rewrite Hb. apply take_app_exact. rewrite length_app. lia.
      + by rewrite Hb, Hs at 1.
    - injection Hserial as <- <- <-. exists []. apply serial_element in Hfirst; [|done].
      split; [by left|]. by rewrite take_0. }
  exists ver, k, (normalizeSerial (Bytes serial)), after, tail. rewrite <-Hk.
  unfold certOf, tbsOf. rewrite <-Hbody, Htake, <-Hcb. auto 10.
Qed.

(** ** Properties *)

(** C36: [stripSerialNumberLeadingNullBytes] succeeds on exactly the certificates
    (one SEQUENCE, no trailing data) whose serial, after an optional version, is
    a primitive INTEGER with redundant zero padding; it returns the certificate
    with only that padding removed and every length recomputed, and the original
    to-be-signed bytes. The serial's value is unchanged. *)
Theorem strip_iff der n t :
  (stripSerialNumberLeadingNullBytes der = Ok (n, t) ↔ stripped der n t) ∧
  (∀ k s, be_Z (replicate k Byte.x00 ++ s) = be_Z s).
Proof.
  split; [|apply be_Z_pad]. split; [apply strip_sound|].
  intros (ver & k & s & after & tail & Hver & Hk & Hs & Hlen & -> & -> & ->).
  rewrite strip_run by done. by rewrite decide_False by lia.
Qed.

(** Normalizing is done once: the normalized certificate has no redundant
    padding left, so normalizing it again fails with that very error. *)
Theorem strip_idempotent der n t :
  stripSerialNumberLeadingNullBytes der = Ok (n, t) →
  stripSerialNumberLeadingNullBytes n = Err noPadding.
Proof.
  intros (ver & k & s & after & tail & Hver & Hk & Hs & Hlen & -> & -> & ->)%strip_sound.
  apply (strip_run ver 0 s after tail); [done|done|]. cbn [replicate app].
  rewrite length_app in *.
  assert (length (tbsOf ver s after) ≤ length (tbsOf ver (replicate k Byte.x00 ++ s) after)); [|lia].
  apply length_tlv_mono. rewrite !length_app. apply Nat.add_le_mono_l, Nat.add_le_mono_r.
  apply length_tlv_mono. rewrite length_app. lia.
Qed.

(** A padded certificate, 02 03 00 00 05 for its serial, for the witnesses. *)
Definition padded : bytes :=
  certOf (tlv ClassContextSpecific 0 true [Byte.x02; Byte.x01; Byte.x02])
    [Byte.x00; Byte.x00; Byte.x05] [Byte.x30; Byte.x00] [Byte.x03; Byte.x00].

Lemma strip_idempotent_witness :
  stripSerialNumberLeadingNullBytes
    (match stripSerialNumberLeadingNullBytes padded with Ok (n, _) => n | _ => [] end)
  = Err noPadding.
Proof.
  eapply (strip_idempotent padded). vm_compute. reflexivity.
Defined.

Lemma seq_head body : ∃ l, tlv ClassUniversal TagSequence true body = Byte.x30 :: l.
Proof. rewrite tlv_eq. eexists. reflexivity. Qed.

Lemma extract_bare l body r :
  l = tlv ClassUniversal TagSequence true body ++ r → (zlen body < 2 ^ 31)%Z →
  map_err (err_wrap "unmarshalling certificate DER: %w") (Unmarshal l) ≫=
    (λ '(cert, _), if negb (isSequence cert)
       then Err (err_msg "certificate is not a compound ASN.1 SEQUENCE")
       else Ok (FullBytes cert)) = Ok (tlv ClassUniversal TagSequence true body).
Proof. intros -> Hb. by rewrite Unmarshal_seq. Qed.

Lemma extract_sound l der :
  extractEKCertificateDER l = Ok der →
  ∃ body pre post, l = pre ++ der ++ post ∧ der = tlv ClassUniversal TagSequence true body.
Proof.
  unfold extractEKCertificateDER. intros H.
  apply bind_Ok in H as (l' & Hl & H). apply bind_Ok in H as ([cert r] & Hc%map_err_Ok & H).
  destruct (isSequence cert) eqn:Hs; [|done]. injection H as <-.
  destruct (tlv_inj_Full _ _ _ Hc Hs) as (-> & -> & _).
  case_decide as Hw; [|injection Hl as ->; exists (Bytes cert), [], r; done].
  cbn zeta in Hl. case_decide; [done|]. case_decide as Hlen; [done|].
  apply reslice_split in Hl as [Hl _]. rewrite sl_all_exact in Hl.
  eexists (Bytes cert), (take 5 l), (r ++ drop _ l). split; [|done].
  rewrite <-(take_drop 5 l) at 1. rewrite Hl. by rewrite <-!app_assoc.
Qed.

(** C37: [extractEKCertificateDER] returns exactly the certificate, bare or in
    the TCG NV wrapper (10 01 00, big-endian length), whatever padding follows
    it inside the wrapper and whatever bytes follow the wrapper. *)
Theorem extract_roundtrip body pad junk :
  let cert := tlv ClassUniversal TagSequence true body in
  (zlen body < 2 ^ 31)%Z →
  extractEKCertificateDER (cert ++ junk) = Ok cert ∧
  ((zlen (cert ++ pad) < 2 ^ 16)%Z →
   extractEKCertificateDER
     ([Byte.x10; Byte.x01; Byte.x00] ++ be_bytes 2 (zlen (cert ++ pad)) ++ (cert ++ pad) ++ junk)
   = Ok cert).
Proof.
  intros cert Hbody. destruct (seq_head body) as [tl Htl]. fold cert in Htl. split.
  - unfold extractEKCertificateDER. rewrite decide_False.
    2: { intros [_ Ht]. rewrite Htl in Ht. cbn [app] in Ht. discriminate Ht. }
    by apply (extract_bare _ body junk).
  - intros Hlen. set (c := cert ++ pad) in *.
    assert (0 < length c) by (unfold c; rewrite Htl; simpl; lia).
    assert (∀ r, drop 3 ([Byte.x10; Byte.x01; Byte.x00] ++ r) = r) as Hdrop3 by done.
    assert (length (be_bytes 2 (zlen c)) = 2) as Hbe by apply length_be_bytes.
    unfold extractEKCertificateDER. rewrite decide_True.
    2: { split; [|done]. rewrite !length_app, Hbe. simpl. lia. }
    rewrite Hdrop3, take_app_exact, be_Z_be_bytes by done.
    rewrite Z.mod_small, Nat2Z.id by lia.
    rewrite decide_False by lia. rewrite decide_False.
    2: { rewrite !length_app, Hbe. simpl. lia. }
    assert (reslice (exact ([Byte.x10; Byte.x01; Byte.x00] ++ be_bytes 2 (zlen c) ++ c ++ junk))
              5 (5 + length c) = Ok c) as ->.
    { eapply reslice_at; [|done|].
      - rewrite sl_all_exact, app_assoc. apply drop_app_exact. by rewrite length_app, Hbe.
      - rewrite sl_all_exact, !length_app, Hbe. simpl. lia. }
    cbn [mbind outcome_bind]. by apply (extract_bare _ body pad).
Qed.

Lemma extract_roundtrip_witness :
  extractEKCertificateDER
    ([Byte.x10; Byte.x01; Byte.x00] ++ [Byte.x00; Byte.x04]
       ++ [Byte.x30; Byte.x01; Byte.x05; Byte.xff] ++ [Byte.xff; Byte.xff])
  = Ok [Byte.x30; Byte.x01; Byte.x05].
Proof.
  apply (extract_roundtrip [Byte.x05] [Byte.xff] [Byte.xff; Byte.xff]); vm_compute; reflexivity.
Defined.

Section ParseProperties.
Context {X : Type}.
Variables (attest_ParseEKCertificate x509_ParseCertificate : bytes → outcome (Certificate X)).

(** C34: the fallback cannot be used to smuggle a certificate: when the strict
    parser rejects the bytes and a certificate is returned nevertheless, its
    issuer organizations include STMicroelectronics, its raw bytes are a
    contiguous part of the input, its signed bytes are the to-be-signed part of
    those, unmodified, and its fields are what the standard parser reads from
    that certificate with only the serial's padding removed. A certificate the
    strict parser accepts is returned as it is. *)
Theorem ParseEKCertificate_fallback l :
  (∀ c, attest_ParseEKCertificate l = Ok c →
     ParseEKCertificate attest_ParseEKCertificate x509_ParseCertificate l = Ok c) ∧
  (∀ c e, attest_ParseEKCertificate l = Err e →
     ParseEKCertificate attest_ParseEKCertificate x509_ParseCertificate l = Ok c →
     STMicroelectronicsIssuerOrganization ∈ IssuerOrganization c ∧
     ∃ n x pre post,
       l = pre ++ Raw c ++ post ∧ stripped (Raw c) n (RawTBSCertificate c) ∧
       x509_ParseCertificate n = Ok x ∧
       IssuerOrganization c = IssuerOrganization x ∧ parsedFields c = parsedFields x).
Proof.
  unfold ParseEKCertificate. split; [by intros c ->|]. intros c e -> H.
  apply bind_Ok in H as (der & Hder%map_err_Ok%map_err_Ok & H).
  apply bind_Ok in H as ([n t] & Hs%map_err_Ok%map_err_Ok & H).
  apply bind_Ok in H as (x & Hx%map_err_Ok%map_err_Ok & H).
  destruct (IsSTMicroelectronicsEKCertificate (Some x)) eqn:Hst; [|done].
  injection H as <-. cbn in Hst. apply bool_decide_eq_true in Hst.
  apply extract_sound in Hder as (body & pre & post & -> & _). apply strip_sound in Hs.
  split; [done|]. exists n, x, pre, post. done.
Qed.
End ParseProperties.

Lemma ParseEKCertificate_fallback_witness :
  let x509 n := Ok (mkCertificate n n [STMicroelectronicsIssuerOrganization] tt) in
  ∃ c, ParseEKCertificate (λ _, Err (EExt "x509: negative serial number")) x509 padded = Ok c ∧
       STMicroelectronicsIssuerOrganization ∈ IssuerOrganization c.
Proof.
  intros x509. eexists. split; [vm_compute; reflexivity|].
  eapply (proj2 (ParseEKCertificate_fallback
    (λ _, Err (EExt "x509: negative serial number")) x509 padded)); [reflexivity|].
  vm_compute. reflexivity.
Defined.

End Cert.
