(* ===== verification/Iommu.v ===== *)
(** * pkg/iommu: which NICs bypass DMA translation

    The enumeration over a snapshot of sysfs. The pointers to [pciFunction] are
    indexes into the list of functions, which is also their store. *)
From S2P Require Import Prelude Bytes Text Os Regex.
Import Text Os.

Module Iommu.

(** ** Standard library *)

(** [net.ParseMAC] and [HardwareAddr.String]. *)
(** [xtoi2(s, e)]: two hex digits, then the end or the byte [e]. *)
Definition hexPair (a b : byte) : option byte :=
  x ← hexVal a; y ← hexVal b; Some (byte_of_Z (x * 16 + y)).
Definition xtoi2 (s : bytes) (e : byte) : option byte :=
  match s with
  | a :: b :: [] => hexPair a b
  | a :: b :: c :: _ => if decide (c ≠ e) then None else hexPair a b
  | _ => None
  end.

(** The loop of the colon or hyphen form. *)
Fixpoint parseGroups (n : nat) (sep : byte) (s : bytes) : option bytes :=
  match n with
  | O => Some []
  | S n =>
    b ← xtoi2 s sep;
    rest ← parseGroups n sep (drop 3 s);
    Some (b :: rest)
  end.

(** The loop of the dotted form: two bytes per group. *)
Fixpoint parseDotted (n : nat) (sep : byte) (s : bytes) : option bytes :=
  match n with
  | O => Some []
  | S n =>
    b1 ← xtoi2 (take 2 s) Byte.x00;
    b2 ← xtoi2 (drop 2 s) sep;
    rest ← parseDotted n sep (drop 5 s);
    Some (b1 :: b2 :: rest)
  end.

Definition ParseMAC (s : bytes) : option bytes :=
  if decide (length s < 14) then None else
  match s !! 2, s !! 4 with
  | Some c2, Some c4 =>
    if decide (c2 = Byte.x3a ∨ c2 = Byte.x2d) then
      let n := (length s + 1) `div` 3 in
      if decide ((length s + 1) `mod` 3 ≠ 0) then None
      else if decide (n ≠ 6 ∧ n ≠ 8 ∧ n ≠ 20) then None
      else parseGroups n c2 s
    else if decide (c4 = Byte.x2e) then
      let n := 2 * (length s + 1) `div` 5 in
      if decide ((length s + 1) `mod` 5 ≠ 0) then None
      else if decide (n ≠ 6 ∧ n ≠ 8 ∧ n ≠ 20) then None
      else parseDotted (n `div` 2) c4 s
    else None
  | _, _ => None
  end.

Definition hexDigit (z : Z) : byte := nth (Z.to_nat z) (str "0123456789abcdef") Byte.x00.
Definition hexByte (b : byte) : bytes :=
  [hexDigit (Z_of_byte b / 16); hexDigit (Z_of_byte b mod 16)].
Fixpoint MAC_String (mac : bytes) : bytes :=
  match mac with
  | [] => []
  | [b] => hexByte b
  | b :: mac => hexByte b ++ [Byte.x3a] ++ MAC_String mac
  end.

(** ** Patterns *)
Definition isHex (b : byte) : bool := bool_decide (is_Some (hexVal b)).
Definition isOctal (b : byte) : bool := bool_decide (0x30 ≤ Z_of_byte b ≤ 0x37)%Z.

Import Regex.
Definition bdfPattern : re :=
  Seq (RepFrom 4 (Cls isHex)) (Seq (Lit (str ":")) (Seq (Rep 2 (Cls isHex)) (Seq (Lit (str ":"))
    (Seq (Rep 2 (Cls isHex)) (Seq (Lit (str ".")) (Cls isOctal)))))).
Definition groupPattern : re := Plus (Cls isDigit).
Definition representorPattern : re :=
  Seq (Opt (Seq (Lit (str "c")) (Plus (Cls isDigit))))
    (Seq (Lit (str "pf")) (Seq (Plus (Cls isDigit))
      (Opt (Seq (Alt (Lit (str "vf")) (Alt (Lit (str "sf")) (Lit (str "s")))) (Plus (Cls isDigit)))))).

(** ** Data *)
Definition sysfsRoot : bytes := str "/sys".

Record options := mkOptions { opt_forced : bytes }.
Definition WithForcedInterface (name : bytes) : options → options :=
  λ _, mkOptions (TrimSpace name).

Definition errNotPCI : string := "iommu.errNotPCI".
Definition errOnlyRepresentors : string := "iommu.errOnlyRepresentors".

(** Whether a known domain is protected. *)
Definition iommuDomainProtects (domain : bytes) : option bool :=
  if decide (domain = str "dma") then Some true
  else if decide (domain = str "dma-fq") then Some true
  else if decide (domain = str "blocked") then Some true
  else if decide (domain = str "identity") then Some false
  else None.

Record PassthroughNIC := mkNIC {
  nic_Interface : bytes;
  nic_BDF : bytes;
  IOMMUGroup : bytes;
  MAC : bytes;
  Forced : bool;
}.

(** [Reason] is the error whose text the code keeps. *)
Record UndeterminedNIC := mkUndetermined {
  und_Interface : bytes;
  und_BDF : bytes;
  Reason : error;
}.

Record Enumeration := mkEnumeration {
  NICs : list PassthroughNIC;
  Undetermined : list UndeterminedNIC;
}.

Record pciFunction := mkFunction {
  bdf : bytes;
  ports : list bytes;
  representors : list bytes;
}.

(** [enumerator]: its output and the keys reported; [netDir] and [forced] are fixed. *)
Record enumerator := mkEnumerator { out : Enumeration; reported : gset bytes }.

(** ** Reading sysfs *)
Section Read.
Variable fs : FS.
Implicit Types netDir : path.

Definition resolveBDF (netDir : path) (iface : bytes) : result bytes :=
  match Readlink fs (netDir ++ [iface; str "device"]) with
  | inl err =>
    if errors_Is os_ErrNotExist err then inl (ESentinel errNotPCI)
    else inl (err_wrap "unreadable device link: %w" err)
  | inr target =>
    let b := Base target in
    if MatchString bdfPattern b then inr b else inl (ESentinel errNotPCI)
  end.

Definition isRepresentor (netDir : path) (iface : bytes) : bool :=
  match ReadFile fs (netDir ++ [iface; str "phys_port_name"]) with
  | inr raw => MatchString representorPattern (TrimSpace raw)
  | inl _ => false
  end.

Definition readIOMMUGroup (netDir : path) (iface : bytes) : result bytes :=
  match Readlink fs (netDir ++ [iface; str "device"; str "iommu_group"]) with
  | inl err => inl (err_wrap "no IOMMU group: %w" err)
  | inr target =>
    let group := Base target in
    if MatchString groupPattern group then inr group
    else inl (err_fmt "malformed IOMMU group %q" [AStr group])
  end.

(** The group comes back also with an error, when it could be read. *)
Definition classify (netDir : path) (iface : bytes) : bytes * bool * option error :=
  match readIOMMUGroup netDir iface with
  | inr group =>
    match ReadFile fs [sysfsRoot; str "kernel"; str "iommu_groups"; group; str "type"] with
    | inr raw =>
      let domain := ToLower (TrimSpace raw) in
      match iommuDomainProtects domain with
      | None => (group, false, Some (err_fmt "unknown IOMMU domain %q for group %s" [AStr domain; AStr group]))
      | Some protects => (group, negb protects, None)
      end
    | inl err => (group, false, Some (EFmt "unreadable IOMMU domain for group %s: %w" [AStr group] [err]))
    end
  | inl err => ([], false, Some err)
  end.

Definition isZeroMAC (mac : bytes) : bool := forallb (λ b, bool_decide (b = Byte.x00)) mac.

(** [len(mac) != 6 || mac[0]&0x01 != 0 || isZeroMAC(mac)], negated. *)
Definition usableMAC (mac : bytes) : bool :=
  bool_decide (length mac = 6) &&
  match mac with b :: _ => negb (Z.testbit (Z_of_byte b) 0) | [] => true end &&
  negb (isZeroMAC mac).

(** [bonding_slave]: enslaved or not, and the error that left it open. *)
Definition enslavedState (netDir : path) (iface : bytes) : bool * option error :=
  match Stat fs (netDir ++ [iface; str "bonding_slave"]) with
  | inl err => if errors_Is os_ErrNotExist err then (false, None) else (true, Some err)
  | inr _ => (true, None)
  end.

(** The loop over the files that may hold the address. *)
Fixpoint firstMAC (netDir : path) (iface : bytes) (candidates : list path) : option bytes :=
  match candidates with
  | [] => None
  | name :: candidates =>
    match ReadFile fs (netDir ++ [iface] ++ name) with
    | inr raw =>
      match ParseMAC (TrimSpace raw) with
      | Some mac => if usableMAC mac then Some (MAC_String mac) else firstMAC netDir iface candidates
      | None => firstMAC netDir iface candidates
      end
    | inl _ => firstMAC netDir iface candidates
    end
  end.

Definition macCandidates (enslaved : bool) : list path :=
  [[str "perm_address"]] ++
  (if enslaved then [[str "bonding_slave"; str "perm_hwaddr"]] else [[str "address"]]).

Definition readMAC (netDir : path) (iface : bytes) : result bytes :=
  let '(enslaved, statErr) := enslavedState netDir iface in
  match firstMAC netDir iface (macCandidates enslaved) with
  | Some mac => inr mac
  | None =>
    if enslaved then
      match statErr with
      | Some statErr => inl (EFmt "%s exposes no permanent MAC and its bonding state is unreadable, so the address may belong to a bond; refusing to join on it: %w" [AStr iface] [statErr])
      | None => inl (err_fmt "%s is enslaved to a bond and exposes no permanent MAC; refusing to join on the bond address" [AStr iface])
      end
    else inl (err_fmt "no usable MAC address for %s" [AStr iface])
  end.

(** ** The verdicts *)

(** [cmp.Or(bdf, iface)] *)
Definition cmp_Or (bdf iface : bytes) : bytes := if decide (bdf = []) then iface else bdf.

Definition undetermined (e : enumerator) (iface bdf : bytes) (err : error) : enumerator :=
  let key := cmp_Or bdf iface in
  if decide (key ∈ reported e) then e
  else mkEnumerator
    (mkEnumeration (NICs (out e)) (Undetermined (out e) ++ [mkUndetermined iface bdf err]))
    ({[key]} ∪ reported e).

Definition addNIC (e : enumerator) (nic : PassthroughNIC) : enumerator :=
  mkEnumerator (mkEnumeration (NICs (out e) ++ [nic]) (Undetermined (out e))) (reported e).

(** [slices.Index] *)
Fixpoint indexOf (l : list bytes) (x : bytes) : option nat :=
  match l with
  | [] => None
  | y :: l => if decide (y = x) then Some 0 else S <$> indexOf l x
  end.

(** The ports, a forced one first. *)
Definition candidatesOf (fn : pciFunction) (forced : bytes) : list bytes :=
  match indexOf (ports fn) forced with
  | Some (S i) => [forced] ++ take (S i) (ports fn) ++ drop (S (S i)) (ports fn)
  | _ => ports fn
  end.

(** The loop over the candidates: the first usable MAC, or the first error. *)
Fixpoint firstPort (netDir : path) (candidates : list bytes) (firstErr : option error)
    : (bytes * bytes) + option error :=
  match candidates with
  | [] => inr firstErr
  | iface :: candidates =>
    match readMAC netDir iface with
    | inr mac => inl (iface, mac)
    | inl err =>
      firstPort netDir candidates (match firstErr with None => Some err | _ => firstErr end)
    end
  end.

Definition report (netDir : path) (forced : bytes) (e : enumerator) (fn : pciFunction) : outcome enumerator :=
  let netdevs := ports fn ++ representors fn in
  match netdevs with
  | [] => Panic IndexOutOfRange
  | netdev0 :: _ =>
    let '(group, exposed, err) := classify netDir netdev0 in
    let e := match err with Some err => undetermined e netdev0 (bdf fn) err | None => e end in
    let isForced := bool_decide (forced ≠ [] ∧ forced ∈ netdevs) in
    if negb isForced && (bool_decide (is_Some err) || negb exposed) then Ok e else
    let candidates := candidatesOf fn forced in
    match candidates with
    | [] => Ok (undetermined e netdev0 (bdf fn) (ESentinel errOnlyRepresentors))
    | candidate0 :: _ =>
      match firstPort netDir candidates None with
      | inl (iface, mac) => Ok (addNIC e (mkNIC iface (bdf fn) group mac (negb exposed)))
      | inr (Some firstErr) => Ok (undetermined e candidate0 (bdf fn) firstErr)
      | inr None => Panic NilDereference
      end
    end
  end.

(** The functions found so far and their index by BDF. *)
Record scan := mkScan {
  s_enum : enumerator;
  functions : list pciFunction;
  byBDF : gmap bytes nat;
}.

Definition addNetdev (representor : bool) (iface : bytes) (fn : pciFunction) : pciFunction :=
  if representor then mkFunction (bdf fn) (ports fn) (representors fn ++ [iface])
  else mkFunction (bdf fn) (ports fn ++ [iface]) (representors fn).

(** The body of the loop over the directory. *)
Definition scanEntry (netDir : path) (s : scan) (entry : DirEntry) : scan :=
  if isRegular entry then s else
  let iface := entryName entry in
  match resolveBDF netDir iface with
  | inl err =>
    if errors_Is errNotPCI err then s
    else mkScan (undetermined (s_enum s) iface [] err) (functions s) (byBDF s)
  | inr b =>
    let '(fn, fns, index) :=
      match byBDF s !! b with
      | Some fn => (fn, functions s, byBDF s)
      | None => (length (functions s), functions s ++ [mkFunction b [] []],
                 <[b := length (functions s)]> (byBDF s))
      end in
    mkScan (s_enum s) (alter (addNetdev (isRepresentor netDir iface) iface) fn fns) index
  end.

Fixpoint reportAll (netDir : path) (forced : bytes) (e : enumerator) (fns : list pciFunction)
    : outcome enumerator :=
  match fns with
  | [] => Ok e
  | fn :: fns => e ← report netDir forced e fn; reportAll netDir forced e fns
  end.

Definition FindPassthroughNICs (opts : list (options → options)) : outcome Enumeration :=
  let o := foldl (λ o opt, opt o) (mkOptions []) opts in
  let netDir := [sysfsRoot; str "class"; str "net"] in
  match ReadDir fs netDir with
  | inl err => Err (err_wrap "failed to list network interfaces: %w" err)
  | inr entries =>
    let s := foldl (scanEntry netDir) (mkScan (mkEnumerator (mkEnumeration [] []) ∅) [] ∅) entries in
    e ← reportAll netDir (opt_forced o) (s_enum s) (functions s);
    Ok (out e)
  end.

End Read.

(** ** Reading one netdev *)

Lemma hexVal_hexDigit z : (0 ≤ z < 16)%Z → hexVal (hexDigit z) = Some z.
Proof.
  intros Hz. assert (z ∈ seqZ 0 16) as Hin by (apply elem_of_seqZ; lia).
  revert Hin. generalize z. apply list.Forall_forall. vm_compute. repeat constructor.
Qed.

Lemma hexDigits_byte b :
  hexVal (hexDigit (Z_of_byte b / 16)) = Some (Z_of_byte b / 16)%Z ∧
  hexVal (hexDigit (Z_of_byte b mod 16)) = Some (Z_of_byte b mod 16)%Z.
Proof.
  pose proof (Z_of_byte_range b). split; apply hexVal_hexDigit;
    [split; [apply Z.div_pos; lia|apply Z.div_lt_upper_bound; lia]|apply Z.mod_pos_bound; lia].
Qed.

Lemma xtoi2_hexByte b rest e : (∀ c, head rest = Some c → c = e) → xtoi2 (hexByte b ++ rest) e = Some b.
Proof.
  intros He. destruct (hexDigits_byte b) as [Hhi Hlo].
  assert (hexPair (hexDigit (Z_of_byte b / 16)) (hexDigit (Z_of_byte b mod 16)) = Some b) as Hb.
  { unfold hexPair. rewrite Hhi, Hlo. cbn [mbind option_bind]. f_equal.
    rewrite <- (byte_of_Z_of_byte b) at 3. f_equal. pose proof (Z.div_mod (Z_of_byte b) 16). lia. }
  unfold hexByte, xtoi2. destruct rest as [|c rest]; cbn [app]; [done|].
  rewrite decide_False by (rewrite (He c eq_refl); tauto). done.
Qed.

Lemma length_MAC_String mac : mac ≠ [] → length (MAC_String mac) + 1 = 3 * length mac.
Proof.
  induction mac as [|b [|c mac] IH]; intros Hne; [done|done|].
  change (MAC_String (b :: c :: mac)) with (hexByte b ++ [Byte.x3a] ++ MAC_String (c :: mac)).
  rewrite !length_app. specialize (IH ltac:(done)). cbn [length hexByte] in *. lia.
Qed.

Lemma parseGroups_MAC_String mac : parseGroups (length mac) Byte.x3a (MAC_String mac) = Some mac.
Proof.
  induction mac as [|b mac IH]; [done|]. cbn [length parseGroups]. destruct mac as [|c mac].
  - change (MAC_String [b]) with (hexByte b). rewrite <- (app_nil_r (hexByte b)), xtoi2_hexByte by done. done.
  - change (MAC_String (b :: c :: mac)) with (hexByte b ++ [Byte.x3a] ++ MAC_String (c :: mac)).
    rewrite xtoi2_hexByte by (intros ? [= <-]; done). cbn [mbind option_bind].
    change (drop 3 (hexByte b ++ [Byte.x3a] ++ MAC_String (c :: mac))) with (MAC_String (c :: mac)).
    by rewrite IH.
Qed.

(** A port address prints as a string that parses back to it. *)
Lemma ParseMAC_String mac : length mac = 6 → ParseMAC (MAC_String mac) = Some mac.
Proof.
  intros Hl. pose proof (length_MAC_String mac) as Hs. pose proof (parseGroups_MAC_String mac) as Hp.
  unfold ParseMAC. rewrite Hl in *. destruct mac as [|b [|c [|d mac]]]; try discriminate.
  specialize (Hs ltac:(done)). rewrite decide_False by lia.
  change (MAC_String (b :: c :: d :: mac) !! 2) with (Some Byte.x3a).
  change (MAC_String (b :: c :: d :: mac) !! 4) with (Some (hexDigit (Z_of_byte c mod 16))).
  rewrite Hs. cbv beta iota zeta. rewrite decide_True by auto.
  change ((3 * 6) `mod` 3) with 0. change ((3 * 6) `div` 3) with 6.
  rewrite decide_False by lia. rewrite decide_False by lia. done.
Qed.

Section Netdev.
Variable fs : FS.
Implicit Types netDir : path.

Lemma firstMAC_Some netDir iface cs m : firstMAC fs netDir iface cs = Some m →
  ∃ pre name post raw mac, cs = pre ++ name :: post ∧ firstMAC fs netDir iface pre = None ∧
    ReadFile fs (netDir ++ [iface] ++ name) = inr raw ∧ ParseMAC (TrimSpace raw) = Some mac ∧
    usableMAC mac = true ∧ m = MAC_String mac.
Proof.
  induction cs as [|name cs IH]; [done|]. cbn [firstMAC]. intros Hf.
  assert (firstMAC fs netDir iface [name] = None → firstMAC fs netDir iface cs = Some m →
    ∃ pre name' post raw mac, name :: cs = pre ++ name' :: post ∧ firstMAC fs netDir iface pre = None ∧
    ReadFile fs (netDir ++ [iface] ++ name') = inr raw ∧ ParseMAC (TrimSpace raw) = Some mac ∧
    usableMAC mac = true ∧ m = MAC_String mac) as Hskip.
  { intros Hn (pre & name' & post & raw & mac & -> & Hpre & Hrest)%IH.
    exists (name :: pre), name', post, raw, mac. split; [done|]. split; [|done].
    revert Hn. cbn [firstMAC]. repeat (case_match; try done). }
  revert Hskip. cbn [firstMAC]. destruct (ReadFile fs _) as [err|raw] eqn:Hraw; [by auto|].
  destruct (ParseMAC _) as [mac|] eqn:Hmac; [|by auto].
  destruct (usableMAC mac) eqn:Hu; [|by auto]. intros _. injection Hf as <-.
  exists [], name, cs, raw, mac. eauto 10.
Qed.

(** What [usableMAC] accepts. *)
Lemma usableMAC_true mac : usableMAC mac = true ↔
  length mac = 6 ∧ (∀ b, head mac = Some b → Z.testbit (Z_of_byte b) 0 = false) ∧ ∃ b, b ∈ mac ∧ b ≠ Byte.x00.
Proof.
  unfold usableMAC, isZeroMAC. rewrite !andb_true_iff, bool_decide_eq_true, negb_true_iff.
  assert (forallb (λ b, bool_decide (b = Byte.x00)) mac = false ↔ ∃ b, b ∈ mac ∧ b ≠ Byte.x00) as Hz.
  { rewrite <- not_true_iff_false, forallb_forall. split.
    - intros Hn. destruct (decide (Exists (λ b, b ≠ Byte.x00) mac)) as [He|He].
      + apply list.Exists_exists in He. done.
      + exfalso. apply Hn. intros b Hb%list_elem_of_In. apply bool_decide_eq_true.
        destruct (decide (b = Byte.x00)); [done|]. exfalso. apply He, list.Exists_exists. eauto.
    - intros (b & Hb%list_elem_of_In & Hne) Ha. apply Ha, bool_decide_eq_true in Hb. done. }
  rewrite Hz. assert ((match mac with b :: _ => negb (Z.testbit (Z_of_byte b) 0) | [] => true end) = true ↔
    (∀ b, head mac = Some b → Z.testbit (Z_of_byte b) 0 = false)) as Hu; [|rewrite Hu; tauto].
  destruct mac as [|b mac]; cbn; [naive_solver|]. rewrite negb_true_iff. naive_solver.
Qed.

Lemma enslavedState_true netDir iface : fst (enslavedState fs netDir iface) = false ↔
  ∃ err, Stat fs (netDir ++ [iface; str "bonding_slave"]) = inl err ∧ errors_Is os_ErrNotExist err = true.
Proof.
  unfold enslavedState. destruct (Stat _ _) as [err|]; [|naive_solver].
  destruct (errors_Is _ _) eqn:He; cbn; naive_solver.
Qed.

Lemma readMAC_Some netDir iface m : readMAC fs netDir iface = inr m ↔
  firstMAC fs netDir iface (macCandidates (fst (enslavedState fs netDir iface))) = Some m.
Proof.
  unfold readMAC. destruct (enslavedState _ _ _) as [enslaved statErr]. cbn [fst].
  destruct (firstMAC _ _ _ _); [naive_solver|]. destruct enslaved, statErr; naive_solver.
Qed.

Lemma readMAC_inr netDir iface m : readMAC fs netDir iface = inr m →
  ∃ mac, m = MAC_String mac ∧ ParseMAC m = Some mac ∧ usableMAC mac = true.
Proof.
  intros (pre & name & post & raw & mac & _ & _ & _ & Hp & Hu & ->)%readMAC_Some%firstMAC_Some.
  exists mac. apply usableMAC_true in Hu as Hl. rewrite ParseMAC_String by tauto. done.
Qed.

(** C18: [readMAC] answers with the canonical text of a six-byte, unicast, nonzero address read
    from the interface, [perm_address] before any other file; it reads the current [address], which a
    bond overwrites, only for an interface whose [bonding_slave] certainly does not exist. *)
Theorem readMAC_safe netDir iface m : readMAC fs netDir iface = inr m →
  ∃ mac file raw,
    m = MAC_String mac ∧ ParseMAC m = Some mac ∧
    length mac = 6 ∧ (∀ b, head mac = Some b → Z.testbit (Z_of_byte b) 0 = false) ∧ (∃ b, b ∈ mac ∧ b ≠ Byte.x00) ∧
    ReadFile fs (netDir ++ [iface] ++ file) = inr raw ∧ ParseMAC (TrimSpace raw) = Some mac ∧
    (file = [str "perm_address"] ∨
     firstMAC fs netDir iface [[str "perm_address"]] = None ∧
     ((file = [str "address"] ∧ ∃ err, Stat fs (netDir ++ [iface; str "bonding_slave"]) = inl err ∧
        errors_Is os_ErrNotExist err = true) ∨
      (file = [str "bonding_slave"; str "perm_hwaddr"] ∧
        ∀ err, Stat fs (netDir ++ [iface; str "bonding_slave"]) = inl err → errors_Is os_ErrNotExist err = false))).
Proof.
  intros (pre & file & post & raw & mac & Hc & Hpre & Hraw & Hp & Hu & ->)%readMAC_Some%firstMAC_Some.
  apply usableMAC_true in Hu as (Hl & Huni & Hnz). exists mac, file, raw. rewrite ParseMAC_String by done.
  do 7 (split; [done|]). pose proof (enslavedState_true netDir iface) as Hen. unfold macCandidates in Hc.
  destruct (fst (enslavedState fs netDir iface)) eqn:Hs.
  - destruct pre as [|? [|? [|? ?]]]; simplify_eq/=; [by left|]. right. split; [done|]. right. split; [done|].
    intros err He. destruct (errors_Is _ _) eqn:Hi; [|done]. destruct Hen as [_ Hen]. discriminate Hen. eauto.
  - destruct pre as [|? [|? [|? ?]]]; simplify_eq/=; [by left|]. right. split; [done|]. left. split; [done|].
    by apply Hen.
Qed.

Lemma iommuDomainProtects_spec d p : iommuDomainProtects d = Some p →
  p = negb (bool_decide (d = str "identity")) ∧ d ∈ [str "dma"; str "dma-fq"; str "blocked"; str "identity"].
Proof.
  unfold iommuDomainProtects.
  repeat (case_decide; [intros [= <-]; subst; split; [by vm_compute|by repeat constructor]|]). done.
Qed.

(** A verdict without an error read the group's domain. *)
Lemma classify_known netDir iface group exposed : classify fs netDir iface = (group, exposed, None) →
  readIOMMUGroup fs netDir iface = inr group ∧ ∃ raw,
    ReadFile fs [sysfsRoot; str "kernel"; str "iommu_groups"; group; str "type"] = inr raw ∧
    iommuDomainProtects (ToLower (TrimSpace raw)) = Some (negb exposed).
Proof.
  unfold classify. destruct (readIOMMUGroup _ _ _) as [err|g]; [done|].
  destruct (ReadFile _ _) as [err|raw] eqn:Hraw; [done|].
  destruct (iommuDomainProtects _) as [p|] eqn:Hp; [|done]. intros [= -> <-]. rewrite negb_involutive. eauto.
Qed.

Lemma classify_exposed netDir iface group err : classify fs netDir iface = (group, true, err) → err = None.
Proof.
  unfold classify. repeat case_match; naive_solver.
Qed.

(** The group is a component of a path: only digits. *)
Lemma readIOMMUGroup_digits netDir iface group : readIOMMUGroup fs netDir iface = inr group →
  group ≠ [] ∧ Forall (λ b, isDigit b = true) group.
Proof.
  unfold readIOMMUGroup. destruct (Readlink _ _); [done|]. case_match eqn:Hm; [|done]. intros [= <-].
  apply MatchString_spec, matches_Plus_Cls in Hm. done.
Qed.

Lemma resolveBDF_nonempty netDir iface b : resolveBDF fs netDir iface = inr b → b ≠ [].
Proof.
  unfold resolveBDF. destruct (Readlink _ _); [case_match; done|]. case_match eqn:Hm; [|done].
  intros [= Hb]. rewrite Hb in Hm. intros ->. by vm_compute in Hm.
Qed.

End Netdev.

(** ** Grouping *)

(** What the loop over the directory computes: the netdevs are partitioned by
    the BDF behind them, in order of first appearance. *)
Lemma filter_none {A} (P : A → Prop) `{!∀ x, Decision (P x)} l : (∀ x, x ∈ l → ¬ P x) → base.filter P l = [].
Proof.
  induction l as [|x l IH]; intros Hn; [done|].
  rewrite filter_cons_False by (apply Hn; left). apply IH. intros y Hy. apply Hn. by right.
Qed.

Section Grouping.
Variable fs : FS.
Variable netDir : path.

Definition netdevs (entries : list DirEntry) : list bytes :=
  entryName <$> base.filter (λ e, isRegular e = false) entries.

Definition on (b iface : bytes) : bool :=
  match resolveBDF fs netDir iface with inr b' => bool_decide (b' = b) | inl _ => false end.
Definition functionOf (names : list bytes) (b : bytes) : pciFunction :=
  mkFunction b
    (base.filter (λ n, on b n = true ∧ isRepresentor fs netDir n = false) names)
    (base.filter (λ n, on b n = true ∧ isRepresentor fs netDir n = true) names).

Definition addBDF (bs : list bytes) (iface : bytes) : list bytes :=
  match resolveBDF fs netDir iface with
  | inr b => if decide (b ∈ bs) then bs else bs ++ [b]
  | inl _ => bs
  end.
Definition bdfs (names : list bytes) : list bytes := foldl addBDF [] names.

Definition addUnreadable (e : enumerator) (iface : bytes) : enumerator :=
  match resolveBDF fs netDir iface with
  | inl err => if errors_Is errNotPCI err then e else undetermined e iface [] err
  | inr _ => e
  end.

Lemma bdfs_snoc names n : bdfs (names ++ [n]) = addBDF (bdfs names) n.
Proof. apply foldl_snoc. Qed.

Lemma bdfs_NoDup names : NoDup (bdfs names).
Proof.
  induction names as [|n names IH] using rev_ind; [constructor|]. rewrite bdfs_snoc. unfold addBDF.
  destruct (resolveBDF _ _ _); [done|]. case_decide as Hb; [done|].
  apply list.NoDup_app. split; [done|]. split; [intros x Hx ->%list_elem_of_singleton; done|apply NoDup_singleton].
Qed.

Lemma elem_of_bdfs names b : b ∈ bdfs names ↔ ∃ n, n ∈ names ∧ resolveBDF fs netDir n = inr b.
Proof.
  induction names as [|n names IH] using rev_ind.
  { split; [by intros ?%elem_of_nil|intros (? & ?%elem_of_nil & _); done]. }
  rewrite bdfs_snoc. unfold addBDF. setoid_rewrite elem_of_app. setoid_rewrite list_elem_of_singleton.
  destruct (resolveBDF fs netDir n) as [err|b'] eqn:Hn.
  - rewrite IH. split; [naive_solver|]. intros (m & [?| ->] & ?); [naive_solver|congruence].
  - assert (b ∈ bdfs names ∨ b = b' ↔ ∃ m, (m ∈ names ∨ m = n) ∧ resolveBDF fs netDir m = inr b) as Hor.
    { rewrite IH. split.
      - intros [(m & ? & ?)| ->]; eauto.
      - intros (m & [?| ->] & ?); [eauto|right; congruence]. }
    case_decide; [|by rewrite elem_of_app, list_elem_of_singleton].
    rewrite <- Hor. naive_solver.
Qed.

Lemma on_true b n : on b n = true ↔ resolveBDF fs netDir n = inr b.
Proof.
  unfold on. destruct (resolveBDF _ _ _); [done|]. rewrite bool_decide_eq_true. naive_solver.
Qed.

Lemma functionOf_other names n b : resolveBDF fs netDir n ≠ inr b →
  functionOf (names ++ [n]) b = functionOf names b.
Proof.
  intros Hn. unfold functionOf. rewrite !list.filter_app, !filter_cons_False, !filter_nil, !app_nil_r; [done| |];
    rewrite on_true; tauto.
Qed.

Lemma functionOf_same names n b : resolveBDF fs netDir n = inr b →
  functionOf (names ++ [n]) b = addNetdev (isRepresentor fs netDir n) n (functionOf names b).
Proof.
  intros Hn. unfold functionOf, addNetdev. rewrite !list.filter_app. cbn [bdf ports representors].
  destruct (isRepresentor fs netDir n) eqn:Hr; f_equal.
  - rewrite filter_cons_False by (intros [_ ?]; congruence). by rewrite filter_nil, app_nil_r.
  - rewrite filter_cons_True by (split; [by rewrite on_true|done]). by rewrite filter_nil.
  - rewrite filter_cons_True by (split; [by rewrite on_true|done]). by rewrite filter_nil.
  - rewrite filter_cons_False by (intros [_ ?]; congruence). by rewrite filter_nil, app_nil_r.
Qed.

Lemma functionOf_fresh names b : b ∉ bdfs names → functionOf names b = mkFunction b [] [].
Proof.
  intros Hb. unfold functionOf. f_equal; apply filter_none; intros n Hn [Ho _];
    apply Hb, elem_of_bdfs; exists n; by rewrite on_true in Ho.
Qed.

(** Every function found has a netdev. *)
Lemma functionOf_nonempty names b : b ∈ bdfs names →
  ports (functionOf names b) ++ representors (functionOf names b) ≠ [].
Proof.
  intros (n & Hn & Hb)%elem_of_bdfs Hnil. apply app_eq_nil in Hnil as [Hp Hr]. cbn in Hp, Hr.
  destruct (isRepresentor fs netDir n) eqn:Hrep.
  - apply (not_elem_of_nil n). rewrite <- Hr. apply list_elem_of_filter. by rewrite on_true.
  - apply (not_elem_of_nil n). rewrite <- Hp. apply list_elem_of_filter. by rewrite on_true.
Qed.

Lemma elem_of_netdevs_functionOf names b n :
  n ∈ ports (functionOf names b) ++ representors (functionOf names b) ↔
  n ∈ names ∧ resolveBDF fs netDir n = inr b.
Proof.
  cbn. rewrite elem_of_app, !list_elem_of_filter, on_true.
  destruct (isRepresentor fs netDir n); intuition congruence.
Qed.

Definition scanned (e : enumerator) (names : list bytes) (s : scan) : Prop :=
  s_enum s = foldl addUnreadable e names ∧
  functions s = functionOf names <$> bdfs names ∧
  ∀ b i, byBDF s !! b = Some i ↔ bdfs names !! i = Some b.

Lemma scanned_step e names s entry : scanned e names s →
  scanned e (names ++ netdevs [entry]) (scanEntry fs netDir s entry).
Proof.
  intros (He & Hf & Hi). unfold scanEntry, netdevs. destruct (isRegular entry) eqn:Hreg.
  { rewrite filter_cons_False by congruence. cbn. by rewrite app_nil_r. }
  rewrite filter_cons_True, filter_nil by done. cbn [fmap list_fmap].
  set (n := entryName entry). unfold scanned. rewrite bdfs_snoc, foldl_snoc, <- He. unfold addBDF, addUnreadable.
  destruct (resolveBDF fs netDir n) as [err|b] eqn:Hn.
  { assert ((functionOf (names ++ [n]) <$> bdfs names) = (functionOf names <$> bdfs names)) as Hsame.
    { apply list_fmap_ext. intros _ b _. apply functionOf_other. congruence. }
    rewrite Hsame. by destruct (errors_Is _ _). }
  assert (∀ bs : list bytes, b ∉ bs → (functionOf (names ++ [n]) <$> bs) = (functionOf names <$> bs)) as Hother.
  { intros bs Hb. apply list_fmap_ext. intros i b' Hb'. apply functionOf_other. rewrite Hn.
    intros [= ->]. apply Hb. by eapply list_elem_of_lookup_2. }
  destruct (byBDF s !! b) as [i|] eqn:Hb.
  - apply Hi in Hb as Hlk. rewrite decide_True by (by eapply list_elem_of_lookup_2). cbn. split; [done|].
    split; [|done]. apply list_eq. intros j. rewrite Hf. destruct (decide (j = i)) as [->|Hj].
    + rewrite list_lookup_alter_eq, !list_lookup_fmap, Hlk. cbn. by rewrite functionOf_same.
    + rewrite list_lookup_alter_ne, !list_lookup_fmap by done. destruct (bdfs names !! j) as [b'|] eqn:Hb'; [|done].
      cbn. rewrite functionOf_other; [done|]. rewrite Hn. intros [= ->]. apply Hj.
      eapply NoDup_lookup; [apply (bdfs_NoDup names)|done..].
  - assert (b ∉ bdfs names) as Hfresh.
    { intros [i Hlk]%list_elem_of_lookup_1. apply Hi in Hlk. congruence. }
    assert (length (functions s) = length (bdfs names)) as Hlen by by rewrite Hf, length_fmap.
    rewrite decide_False by done. cbn [s_enum functions byBDF]. split; [done|]. split.
    + rewrite fmap_app, (Hother (bdfs names)) by done. cbn [fmap list_fmap].
      rewrite functionOf_same, functionOf_fresh by done. rewrite <- Hf.
      rewrite alter_app_r_alt by lia. by rewrite Nat.sub_diag.
    + intros b' i. rewrite lookup_snoc_Some, <- Hlen. destruct (decide (b' = b)) as [->|Hne].
      * rewrite lookup_insert_eq. split; [intros [= <-]; by right|].
        intros [[_ ?]|[-> _]]; [|done]. exfalso. apply Hfresh. by eapply list_elem_of_lookup_2.
      * rewrite lookup_insert_ne by done. rewrite Hi. split; [|intros [[_ ?]|[_ ?]]; by simplify_eq].
        intros Hlk. left. split; [|done]. rewrite Hlen. by eapply lookup_lt_Some.
Qed.


Lemma scanned_foldl e entries :
  scanned e (netdevs entries) (foldl (scanEntry fs netDir) (mkScan e [] ∅) entries).
Proof.
  induction entries as [|entry entries IH] using rev_ind.
  - split; [done|]. split; [done|]. intros b i.
    change ((∅ : gmap bytes nat) !! b = Some i ↔ @nil bytes !! i = Some b). by rewrite lookup_empty.
  - rewrite foldl_snoc. unfold netdevs. rewrite list.filter_app, fmap_app. by apply scanned_step.
Qed.

End Grouping.

(** ** The verdict on one function *)
Section Verdict.
Variable fs : FS.
Variable netDir : path.

Definition netdev0 (fn : pciFunction) : bytes := default [] (head (ports fn ++ representors fn)).
Definition isForced (forced : bytes) (fn : pciFunction) : bool :=
  bool_decide (forced ≠ [] ∧ forced ∈ ports fn ++ representors fn).

(** A function is collected when it is exposed or forced. *)
Definition collected (forced : bytes) (fn : pciFunction) : bool :=
  isForced forced fn || snd (fst (classify fs netDir (netdev0 fn))).

Definition nicOf (forced : bytes) (fn : pciFunction) : option PassthroughNIC :=
  if collected forced fn then
    match firstPort fs netDir (candidatesOf fn forced) None with
    | inl (iface, mac) =>
      let '(group, exposed, _) := classify fs netDir (netdev0 fn) in
      Some (mkNIC iface (bdf fn) group mac (negb exposed))
    | inr _ => None
    end
  else None.

Definition undOf (forced : bytes) (fn : pciFunction) : option UndeterminedNIC :=
  match snd (classify fs netDir (netdev0 fn)) with
  | Some err => Some (mkUndetermined (netdev0 fn) (bdf fn) err)
  | None =>
    if collected forced fn then
      match firstPort fs netDir (candidatesOf fn forced) None with
      | inl _ => None
      | inr (Some err) => Some (mkUndetermined (default [] (head (candidatesOf fn forced))) (bdf fn) err)
      | inr None => Some (mkUndetermined (netdev0 fn) (bdf fn) (ESentinel errOnlyRepresentors))
      end
    else None
  end.

Definition undetermined_ (e : enumerator) (u : UndeterminedNIC) : enumerator :=
  undetermined e (und_Interface u) (und_BDF u) (Reason u).
Definition record (forced : bytes) (e : enumerator) (fn : pciFunction) : enumerator :=
  let e := match undOf forced fn with Some u => undetermined_ e u | None => e end in
  match nicOf forced fn with Some nic => addNIC e nic | None => e end.

Lemma firstPort_inl cs fe iface mac : firstPort fs netDir cs fe = inl (iface, mac) →
  iface ∈ cs ∧ readMAC fs netDir iface = inr mac.
Proof.
  revert fe. induction cs as [|c cs IH]; intros fe; cbn [firstPort]; [done|].
  destruct (readMAC fs netDir c) as [err|m] eqn:Hm.
  - intros [? ?]%IH. split; [by right|done].
  - intros [= <- <-]. split; [left|done].
Qed.

Lemma firstPort_inr cs fe r : firstPort fs netDir cs fe = inr r →
  (∀ c, c ∈ cs → ∃ err, readMAC fs netDir c = inl err) ∧ (cs ≠ [] ∨ is_Some fe → is_Some r) ∧ (cs = [] → r = fe).
Proof.
  revert fe. induction cs as [|c cs IH]; intros fe; cbn [firstPort].
  - intros [= ->]. split; [by intros c ?%elem_of_nil|]. split; [intros [?|?]; done|done].
  - destruct (readMAC fs netDir c) as [err|m] eqn:Hm; [|done]. intros (Ha & Hr & _)%IH.
    split; [intros c' [->|?]%elem_of_cons; eauto|]. split; [|done]. intros _. apply Hr. right. by destruct fe.
Qed.

Lemma undetermined_again e iface iface' b err err' : b ≠ [] →
  undetermined (undetermined e iface b err) iface' b err' = undetermined e iface b err.
Proof.
  intros Hb. unfold undetermined at 1. apply decide_True.
  assert (∀ i, cmp_Or b i = b) as Hk by (intros i; unfold cmp_Or; by rewrite decide_False).
  rewrite Hk. unfold undetermined. rewrite Hk. case_decide; [done|]. cbn. set_solver.
Qed.

(** [report] never panics on a function that has a netdev. *)
Lemma report_record forced e fn : bdf fn ≠ [] → ports fn ++ representors fn ≠ [] →
  report fs netDir forced e fn = Ok (record forced e fn).
Proof.
  intros Hb Hne. unfold report, record, nicOf, undOf, collected, isForced, netdev0, undetermined_.
  destruct (ports fn ++ representors fn) as [|n ns]; [done|]. cbn [head default id].
  destruct (classify fs netDir n) as [[group exposed] err] eqn:Hc. cbn [fst snd].
  assert (err ≠ None → exposed = false) as Hexp.
  { intros Herr. destruct exposed; [|done]. by apply classify_exposed in Hc. }
  set (forcedFn := bool_decide _).
  assert (negb forcedFn && (bool_decide (is_Some err) || negb exposed) = negb (forcedFn || exposed)) as ->.
  { destruct err; [rewrite Hexp by done|]; by destruct forcedFn, exposed. }
  destruct (forcedFn || exposed); cbn [negb]; [|by destruct err].
  destruct (firstPort _ _ _ _) as [[iface mac]|r] eqn:Hp.
  { destruct (candidatesOf fn forced); [done|]. by destruct err. }
  apply firstPort_inr in Hp as (_ & Hr & Hn). destruct (candidatesOf fn forced) as [|c cs].
  - rewrite Hn by done. destruct err; cbn; by rewrite ?undetermined_again by done.
  - destruct Hr as [err' ->]; [by left|]. destruct err; cbn; by rewrite ?undetermined_again by done.
Qed.

Lemma reportAll_record forced e fns :
  Forall (λ fn, bdf fn ≠ [] ∧ ports fn ++ representors fn ≠ []) fns →
  reportAll fs netDir forced e fns = Ok (foldl (record forced) e fns).
Proof.
  intros Hf. revert e. induction Hf as [|fn fns [Hb Hne] _ IH]; intros e; [done|].
  cbn [reportAll]. rewrite report_record by done. apply IH.
Qed.

(** ** What is recorded *)
Definition keyOf (u : UndeterminedNIC) : bytes := cmp_Or (und_BDF u) (und_Interface u).
Definition keys (en : Enumeration) : list bytes := keyOf <$> Undetermined en.
Definition wf (e : enumerator) : Prop :=
  NoDup (keys (out e)) ∧ ∀ k, k ∈ reported e ↔ k ∈ keys (out e).

Lemma undetermined_wf e u : wf e → wf (undetermined_ e u).
Proof.
  intros [Hnd Hr]. unfold undetermined_, undetermined. fold (keyOf u). case_decide as Hk; [done|].
  assert (mkUndetermined (und_Interface u) (und_BDF u) (Reason u) = u) as -> by by destruct u.
  unfold wf, keys. cbn. rewrite fmap_app. cbn. split.
  - apply list.NoDup_app. split; [done|]. split; [|apply NoDup_singleton].
    intros k Hin ->%list_elem_of_singleton. by apply Hk, Hr.
  - intros k. rewrite elem_of_union, elem_of_singleton, elem_of_app, list_elem_of_singleton, Hr. unfold keys. tauto.
Qed.

Lemma undetermined_keys e u k : wf e → k ∈ keys (out (undetermined_ e u)) ↔ k ∈ keys (out e) ∨ k = keyOf u.
Proof.
  intros Hw. pose proof (undetermined_wf e u Hw) as [_ Hr]. destruct Hw as [_ Hr0]. rewrite <- Hr, <- Hr0.
  unfold undetermined_, undetermined. fold (keyOf u). case_decide; cbn; set_solver.
Qed.

Lemma undetermined_inv e u v : v ∈ Undetermined (out (undetermined_ e u)) → v ∈ Undetermined (out e) ∨ v = u.
Proof.
  unfold undetermined_, undetermined. case_decide; cbn; [by left|].
  rewrite elem_of_app, list_elem_of_singleton. by destruct u.
Qed.

Lemma undetermined_NICs e u : NICs (out (undetermined_ e u)) = NICs (out e).
Proof. unfold undetermined_, undetermined. by case_decide. Qed.

(** Recording a list of verdicts. *)
Lemma record_undetermined forced e fn :
  Undetermined (out (record forced e fn)) =
    Undetermined (out (match undOf forced fn with Some u => undetermined_ e u | None => e end)).
Proof. unfold record. by destruct (nicOf forced fn). Qed.

Lemma record_wf forced e fn : wf e → wf (record forced e fn).
Proof.
  intros Hw. unfold record. pose proof (λ u, undetermined_wf e u Hw) as Hu.
  destruct (undOf forced fn), (nicOf forced fn); try done; by apply Hu.
Qed.

Lemma records_wf forced e fns : wf e → wf (foldl (record forced) e fns).
Proof. revert e. induction fns as [|fn fns IH]; intros e Hw; [done|]. apply IH. by apply record_wf. Qed.

Lemma records_NICs forced e fns :
  NICs (out (foldl (record forced) e fns)) = NICs (out e) ++ omap (nicOf forced) fns.
Proof.
  revert e. induction fns as [|fn fns IH]; intros e; cbn; [by rewrite app_nil_r|].
  rewrite IH. unfold record. destruct (undOf forced fn), (nicOf forced fn); cbn;
    by rewrite ?undetermined_NICs, <- ?app_assoc.
Qed.

Lemma records_keys forced e fns k : wf e →
  k ∈ keys (out (foldl (record forced) e fns)) ↔
  k ∈ keys (out e) ∨ ∃ fn u, fn ∈ fns ∧ undOf forced fn = Some u ∧ k = keyOf u.
Proof.
  revert e. induction fns as [|fn fns IH]; intros e Hw; cbn [foldl].
  { split; [by left|intros [?|(? & ? & ?%elem_of_nil & _)]; done]. }
  rewrite IH by by apply record_wf. setoid_rewrite elem_of_cons. unfold keys at 1.
  rewrite record_undetermined. fold (keys (out (match undOf forced fn with Some u => undetermined_ e u | None => e end))).
  destruct (undOf forced fn) as [u|] eqn:Hu.
  - rewrite undetermined_keys by done. split; [|naive_solver]. intros [[?| ->]|(? & ? & ? & ?)]; eauto 7.
  - split; [|naive_solver]. intros [?|(? & ? & ? & ?)]; eauto 7.
Qed.

Lemma records_inv forced e fns v : v ∈ Undetermined (out (foldl (record forced) e fns)) →
  v ∈ Undetermined (out e) ∨ ∃ fn, fn ∈ fns ∧ undOf forced fn = Some v.
Proof.
  revert e. induction fns as [|fn fns IH]; intros e; cbn [foldl]; [by left|].
  intros [Hv|(fn' & ? & ?)]%IH; [|right; exists fn'; split; [by right|done]].
  rewrite record_undetermined in Hv. destruct (undOf forced fn) as [u|] eqn:Hu; [|by left].
  apply undetermined_inv in Hv as [?| ->]; [by left|]. right. exists fn. split; [left|done].
Qed.

End Verdict.

(** ** A forced port *)
Lemma indexOf_Some l x i : indexOf l x = Some i → l !! i = Some x.
Proof.
  revert i. induction l as [|y l IH]; intros i; cbn [indexOf]; [done|]. case_decide; [by intros [= <-]; subst|].
  intros (j & ? & ->)%fmap_Some. by apply IH.
Qed.

Lemma candidatesOf_perm fn forced : candidatesOf fn forced ≡ₚ ports fn.
Proof.
  unfold candidatesOf. destruct (indexOf _ _) as [[|i]|] eqn:Hi; [done| |done]. apply indexOf_Some in Hi.
  rewrite <- (take_drop_middle _ _ _ Hi) at 3. cbn [app]. by rewrite Permutation_middle.
Qed.

Lemma nicOf_None fs netDir forced fn : collected fs netDir forced fn = true →
  is_Some (nicOf fs netDir forced fn) ↔ ∃ i m, i ∈ ports fn ∧ readMAC fs netDir i = inr m.
Proof.
  intros Hc. unfold nicOf. rewrite Hc. split.
  - intros [nic Hn]. destruct (firstPort _ _ _ _) as [[i m]|r] eqn:Hp; [|done].
    apply firstPort_inl in Hp as [Hin Hm]. exists i, m. by rewrite <- (candidatesOf_perm fn forced).
  - intros (i & m & Hin & Hm). destruct (firstPort _ _ _ _) as [[i' m']|r] eqn:Hp.
    + destruct (classify _ _ _) as [[??]?]. eauto.
    + apply firstPort_inr in Hp as (Ha & _). destruct (Ha i) as [err Herr]; [by rewrite candidatesOf_perm|]. congruence.
Qed.

(** A collected NIC: a port of the function with its MAC, and the function's verdict. *)
Lemma nicOf_Some fs netDir forced fn nic : nicOf fs netDir forced fn = Some nic →
  collected fs netDir forced fn = true ∧ nic_Interface nic ∈ ports fn ∧
  readMAC fs netDir (nic_Interface nic) = inr (MAC nic) ∧ nic_BDF nic = bdf fn ∧
  fst (classify fs netDir (netdev0 fn)) = (IOMMUGroup nic, negb (Forced nic)).
Proof.
  unfold nicOf. destruct (collected _ _ _ _); [|done]. destruct (firstPort _ _ _ _) as [[i m]|r] eqn:Hp; [|done].
  apply firstPort_inl in Hp as [Hin Hm]. rewrite candidatesOf_perm in Hin.
  destruct (classify _ _ _) as [[group exposed] err]. intros [= <-]. cbn. by rewrite negb_involutive.
Qed.

Lemma undOf_BDF fs netDir forced fn u : undOf fs netDir forced fn = Some u → und_BDF u = bdf fn.
Proof. unfold undOf. repeat case_match; naive_solver. Qed.

(** A function neither exposed nor undetermined is protected, also when it was forced. *)
Lemma not_recorded fs netDir forced fn :
  (∀ nic, nicOf fs netDir forced fn = Some nic → Forced nic = true) → undOf fs netDir forced fn = None →
  ∃ group, classify fs netDir (netdev0 fn) = (group, false, None).
Proof.
  unfold nicOf, undOf. destruct (collected fs netDir forced fn) eqn:Hc.
  - destruct (classify fs netDir (netdev0 fn)) as [[group exposed] err]. cbn. intros Hn.
    destruct (firstPort _ _ _ _) as [[??]|[?|]], err; try done.
    specialize (Hn _ eq_refl). destruct exposed; [done|eauto].
  - apply orb_false_iff in Hc as [_ He]. destruct (classify fs netDir (netdev0 fn)) as [[group exposed] err].
    cbn in *. subst. destruct err; naive_solver.
Qed.

(** ** The enumeration *)
Section Find.
Variable fs : FS.
Definition netDir : path := [sysfsRoot; str "class"; str "net"].
Definition forcedOf (opts : list (options → options)) : bytes :=
  opt_forced (foldl (λ o opt, opt o) (mkOptions []) opts).
Definition functionsOf (entries : list DirEntry) : list pciFunction :=
  functionOf fs netDir (netdevs entries) <$> bdfs fs netDir (netdevs entries).

(** A netdev whose device link is there but cannot be read. *)
Definition unreadable (entries : list DirEntry) (n : bytes) (err : error) : Prop :=
  n ∈ netdevs entries ∧ resolveBDF fs netDir n = inl err ∧ errors_Is errNotPCI err = false.

Lemma elem_of_functionsOf entries fn : fn ∈ functionsOf entries →
  bdf fn ≠ [] ∧ ports fn ++ representors fn ≠ [] ∧
  ∀ n, n ∈ ports fn ++ representors fn ↔ n ∈ netdevs entries ∧ resolveBDF fs netDir n = inr (bdf fn).
Proof.
  intros (b & -> & Hb)%list_elem_of_fmap. split; [|split].
  - apply elem_of_bdfs in Hb as (n & _ & Hn). by apply resolveBDF_nonempty in Hn.
  - by apply functionOf_nonempty.
  - intros n. by rewrite elem_of_netdevs_functionOf.
Qed.

Lemma netdev0_in entries fn : fn ∈ functionsOf entries →
  netdev0 fn ∈ netdevs entries ∧ resolveBDF fs netDir (netdev0 fn) = inr (bdf fn).
Proof.
  intros (_ & Hne & Hin)%elem_of_functionsOf. apply Hin. unfold netdev0.
  destruct (ports fn ++ representors fn); [done|left].
Qed.

Lemma addUnreadable_wf names e : wf e →
  wf (foldl (addUnreadable fs netDir) e names) ∧ NICs (out (foldl (addUnreadable fs netDir) e names)) = NICs (out e).
Proof.
  revert e. induction names as [|n names IH]; intros e Hw; [done|]. cbn [foldl]. unfold addUnreadable at 2 4.
  destruct (resolveBDF _ _ _) as [err|b]; [|by apply IH]. destruct (errors_Is _ _); [by apply IH|].
  change (undetermined e n [] err) with (undetermined_ e (mkUndetermined n [] err)).
  destruct (IH (undetermined_ e (mkUndetermined n [] err))) as [? ->]; [by apply undetermined_wf|].
  by rewrite undetermined_NICs.
Qed.

Lemma addUnreadable_keys names e k : wf e → k ∈ keys (out (foldl (addUnreadable fs netDir) e names)) ↔
  k ∈ keys (out e) ∨ k ∈ names ∧ ∃ err, resolveBDF fs netDir k = inl err ∧ errors_Is errNotPCI err = false.
Proof.
  revert e. induction names as [|n names IH]; intros e Hw; cbn [foldl].
  { split; [by left|intros [?|[?%elem_of_nil _]]; done]. }
  rewrite IH, elem_of_cons.
  2:{ unfold addUnreadable. repeat case_match; try done. by apply (undetermined_wf _ (mkUndetermined _ _ _)). }
  unfold addUnreadable. destruct (resolveBDF fs netDir n) as [err|b] eqn:Hn.
  2:{ split; [tauto|]. intros [?|[[->|?] (? & ? & ?)]]; [by left|congruence|right; eauto]. }
  destruct (errors_Is errNotPCI err) eqn:He.
  { split; [tauto|]. intros [?|[[->|?] (? & ? & ?)]]; [by left|congruence|right; eauto]. }
  change (undetermined e n [] err) with (undetermined_ e (mkUndetermined n [] err)).
  rewrite undetermined_keys by done. change (keyOf (mkUndetermined n [] err)) with n. split.
  - intros [[?| ->]|[? ?]]; [by left|right; eauto|right; auto].
  - intros [?|[[->|?] ?]]; auto.
Qed.

Lemma addUnreadable_inv names e u : u ∈ Undetermined (out (foldl (addUnreadable fs netDir) e names)) →
  u ∈ Undetermined (out e) ∨
  und_BDF u = [] ∧ und_Interface u ∈ names ∧ resolveBDF fs netDir (und_Interface u) = inl (Reason u) ∧
    errors_Is errNotPCI (Reason u) = false.
Proof.
  revert e. induction names as [|n names IH]; intros e; cbn [foldl]; [by left|].
  intros [Hu|(? & ? & ?)]%IH; [|right; split; [done|]; split; [by right|done]].
  unfold addUnreadable in Hu. destruct (resolveBDF fs netDir n) as [err|b] eqn:Hn; [|by left].
  destruct (errors_Is errNotPCI err) eqn:He; [by left|].
  apply (undetermined_inv _ (mkUndetermined n [] err)) in Hu as [?| ->]; [by left|]. right.
  split; [done|]. split; [left|done].
Qed.

(** The result, in terms of the verdicts on the functions. *)
Lemma FindPassthroughNICs_Ok opts entries : ReadDir fs netDir = inr entries → ∃ en,
  FindPassthroughNICs fs opts = Ok en ∧
  NICs en = omap (nicOf fs netDir (forcedOf opts)) (functionsOf entries) ∧
  NoDup (keys en) ∧
  (∀ k, k ∈ keys en ↔ (∃ err, unreadable entries k err) ∨
    ∃ fn u, fn ∈ functionsOf entries ∧ undOf fs netDir (forcedOf opts) fn = Some u ∧ k = bdf fn) ∧
  (∀ u, u ∈ Undetermined en →
    (und_BDF u = [] ∧ unreadable entries (und_Interface u) (Reason u)) ∨
    ∃ fn, fn ∈ functionsOf entries ∧ undOf fs netDir (forcedOf opts) fn = Some u).
Proof.
  intros Hdir. unfold FindPassthroughNICs. fold netDir. rewrite Hdir. fold (forcedOf opts).
  set (e := mkEnumerator _ _). assert (wf e) as Hw by by split; [constructor|intros k; set_solver].
  destruct (scanned_foldl fs netDir e entries) as (-> & -> & _). fold (functionsOf entries).
  rewrite reportAll_record by by apply list.Forall_forall; intros fn (? & ? & _)%elem_of_functionsOf.
  destruct (addUnreadable_wf (netdevs entries) e Hw) as [Hwu HN].
  eexists. split; [reflexivity|]. split; [|split; [|split]].
  - by rewrite records_NICs, HN.
  - by apply records_wf.
  - intros k. rewrite records_keys, addUnreadable_keys by done. unfold unreadable. split.
    + intros [[?%elem_of_nil|(? & ? & ?)]|(fn & u & Hfn & Hu & ->)]; [done|left; naive_solver|].
      right. exists fn, u. split; [done|]. split; [done|]. unfold keyOf, cmp_Or. rewrite (undOf_BDF _ _ _ _ _ Hu).
      apply decide_False. by apply elem_of_functionsOf in Hfn as [? _].
    + intros [(err & ? & ? & ?)|(fn & u & Hfn & Hu & ->)]; [left; right; eauto|].
      right. exists fn, u. split; [done|]. split; [done|]. unfold keyOf, cmp_Or. rewrite (undOf_BDF _ _ _ _ _ Hu).
      symmetry. apply decide_False. by apply elem_of_functionsOf in Hfn as [? _].
  - intros u [Hu|?]%records_inv; [|by right]. left.
    apply addUnreadable_inv in Hu as [?%elem_of_nil|(? & ? & ? & ?)]; done.
Qed.

Lemma FindPassthroughNICs_inv opts en : FindPassthroughNICs fs opts = Ok en →
  ∃ entries, ReadDir fs netDir = inr entries.
Proof. unfold FindPassthroughNICs. fold netDir. destruct (ReadDir fs netDir); [done|eauto]. Qed.

(** The domain the kernel reports for the group of a netdev. *)
Definition domainOf (n group domain : bytes) : Prop :=
  readIOMMUGroup fs netDir n = inr group ∧ ∃ raw,
    ReadFile fs [sysfsRoot; str "kernel"; str "iommu_groups"; group; str "type"] = inr raw ∧
    ToLower (TrimSpace raw) = domain.

Lemma classify_domain n group exposed : classify fs netDir n = (group, exposed, None) →
  ∃ domain, domainOf n group domain ∧
    (if exposed then domain = str "identity" else domain ∈ [str "dma"; str "dma-fq"; str "blocked"]).
Proof.
  intros (Hg & raw & Hraw & Hp)%classify_known. eexists. split; [by repeat split; eauto|].
  apply iommuDomainProtects_spec in Hp as [Hp Hin]. symmetry in Hp.
  destruct exposed; cbn in Hp; apply (f_equal negb) in Hp; rewrite negb_involutive in Hp; cbn in Hp.
  - by apply bool_decide_eq_true in Hp.
  - apply bool_decide_eq_false in Hp. rewrite !elem_of_cons in *. tauto.
Qed.

(** C8: every NIC reported is a listed netdev that resolves to its BDF, is not a representor, and
    gives its MAC. It is marked not forced only if the kernel reports an identity domain for the
    group of its function, and marked forced only if the forced name is a netdev of its function. *)
Theorem FindPassthroughNICs_sound opts en nic :
  FindPassthroughNICs fs opts = Ok en → nic ∈ NICs en →
  ∃ entries, ReadDir fs netDir = inr entries ∧ nic_Interface nic ∈ netdevs entries ∧
    resolveBDF fs netDir (nic_Interface nic) = inr (nic_BDF nic) ∧
    isRepresentor fs netDir (nic_Interface nic) = false ∧
    readMAC fs netDir (nic_Interface nic) = inr (MAC nic) ∧
    (if Forced nic then forcedOf opts ≠ [] ∧ forcedOf opts ∈ netdevs entries ∧
       resolveBDF fs netDir (forcedOf opts) = inr (nic_BDF nic)
     else ∃ n, n ∈ netdevs entries ∧ resolveBDF fs netDir n = inr (nic_BDF nic) ∧
       domainOf n (IOMMUGroup nic) (str "identity")).
Proof.
  intros Hf Hnic. destruct (FindPassthroughNICs_inv _ _ Hf) as [entries Hdir].
  destruct (FindPassthroughNICs_Ok opts entries Hdir) as (en' & Hf' & HN & _). assert (en' = en) as -> by congruence.
  exists entries. rewrite HN in Hnic. apply list_elem_of_omap in Hnic as (fn & Hfn & Hnic).
  destruct (nicOf_Some _ _ _ _ _ Hnic) as (Hc & Hport & Hmac & -> & Hcl).
  destruct (elem_of_functionsOf _ _ Hfn) as (_ & _ & Hin). destruct (netdev0_in _ _ Hfn) as [Hn0 Hb0].
  destruct (Hin (nic_Interface nic)) as [[Hlist Hbdf] _]; [apply elem_of_app; by left|].
  assert (isRepresentor fs netDir (nic_Interface nic) = false) as Hrep.
  { apply list_elem_of_fmap in Hfn as (b & -> & _). by apply list_elem_of_filter in Hport as [[_ ?] _]. }
  do 5 (split; [done|]). unfold collected, isForced in Hc. rewrite Hcl in Hc. cbn in Hc.
  destruct (Forced nic).
  - rewrite orb_false_r in Hc. apply bool_decide_eq_true in Hc as [? ?%Hin]. done.
  - exists (netdev0 fn). split; [done|]. split; [done|].
    destruct (classify fs netDir (netdev0 fn)) as [[g x] err] eqn:He. injection Hcl as -> ->.
    assert (err = None) as -> by by eapply classify_exposed. apply classify_domain in He as (d & Hd & ->). done.
Qed.

(** C6: no netdev is dropped. One whose device link cannot be read is undetermined; one on a PCI
    function has that function reported as exposed, undetermined, or in a group the kernel reports a
    translated domain for. Being forced is never enough. *)
Theorem FindPassthroughNICs_complete opts en : FindPassthroughNICs fs opts = Ok en →
  ∃ entries, ReadDir fs netDir = inr entries ∧ ∀ n, n ∈ netdevs entries →
    match resolveBDF fs netDir n with
    | inl err => errors_Is errNotPCI err = true ∨ n ∈ keys en
    | inr b => b ∈ nic_BDF <$> base.filter (λ nic, Forced nic = false) (NICs en) ∨ b ∈ keys en ∨
      ∃ n' group domain, n' ∈ netdevs entries ∧ resolveBDF fs netDir n' = inr b ∧
        domainOf n' group domain ∧ domain ∈ [str "dma"; str "dma-fq"; str "blocked"]
    end.
Proof.
  intros Hf. destruct (FindPassthroughNICs_inv _ _ Hf) as [entries Hdir].
  destruct (FindPassthroughNICs_Ok opts entries Hdir) as (en' & Hf' & HN & _ & Hkeys & _). assert (en' = en) as -> by congruence.
  exists entries. split; [done|]. intros n Hn. destruct (resolveBDF fs netDir n) as [err|b] eqn:Hb.
  { destruct (errors_Is errNotPCI err) eqn:He; [by left|]. right. apply Hkeys. left. by exists err. }
  set (fn := functionOf fs netDir (netdevs entries) b). assert (fn ∈ functionsOf entries) as Hfn.
  { apply list_elem_of_fmap. exists b. split; [done|]. apply elem_of_bdfs. eauto. }
  destruct (undOf fs netDir (forcedOf opts) fn) as [u|] eqn:Hu.
  { right. left. apply Hkeys. right. by exists fn, u. }
  assert (∀ nic, nicOf fs netDir (forcedOf opts) fn = Some nic → Forced nic = false →
    b ∈ nic_BDF <$> base.filter (λ nic, Forced nic = false) (NICs en)) as Hexposed.
  { intros nic Hnic HF. destruct (nicOf_Some _ _ _ _ _ Hnic) as (_ & _ & _ & Hbdf & _).
    apply list_elem_of_fmap. exists nic. split; [done|]. apply list_elem_of_filter. split; [done|].
    rewrite HN. apply list_elem_of_omap. eauto. }
  assert ((∃ nic, nicOf fs netDir (forcedOf opts) fn = Some nic ∧ Forced nic = false) ∨
    ∀ nic, nicOf fs netDir (forcedOf opts) fn = Some nic → Forced nic = true) as [(nic & ? & ?)|Hn'].
  { destruct (nicOf _ _ _ _) as [nic|]; [|by right]. destruct (Forced nic) eqn:?; [right|left]; naive_solver. }
  { left. eauto. }
  right. right. destruct (not_recorded _ _ _ _ Hn' Hu) as [group Hc]. destruct (netdev0_in _ _ Hfn).
  apply classify_domain in Hc as (domain & ? & ?). by exists (netdev0 fn), group, domain.
Qed.

(** C35: the enumeration fails only if the directory cannot be listed, and otherwise gives each PCI
    function at most one NIC and each function or interface at most one undetermined entry, whose
    cause is an unreadable device link or a netdev of that function. *)
Theorem FindPassthroughNICs_total opts :
  match ReadDir fs netDir with
  | inl err => FindPassthroughNICs fs opts = Err (err_wrap "failed to list network interfaces: %w" err)
  | inr entries => ∃ en, FindPassthroughNICs fs opts = Ok en ∧
      NoDup (nic_BDF <$> NICs en) ∧ NoDup (keys en) ∧
      ∀ u, u ∈ Undetermined en →
        (und_BDF u = [] ∧ unreadable entries (und_Interface u) (Reason u)) ∨
        ∃ n, n ∈ netdevs entries ∧ resolveBDF fs netDir n = inr (und_BDF u)
  end.
Proof.
  destruct (ReadDir fs netDir) as [err|entries] eqn:Hdir.
  { unfold FindPassthroughNICs. fold netDir. by rewrite Hdir. }
  destruct (FindPassthroughNICs_Ok opts entries Hdir) as (en & Hf & HN & Hnd & _ & Hinv).
  exists en. split; [done|]. split; [|split; [done|]].
  - rewrite HN. unfold functionsOf. pose proof (bdfs_NoDup fs netDir (netdevs entries)) as Hb.
    induction Hb as [|b bs Hb _ IH]; [constructor|]. cbn [fmap list_fmap omap list_omap].
    destruct (nicOf _ _ _ _) as [nic|] eqn:Hnic; [|done]. cbn. constructor; [|done].
    apply nicOf_Some in Hnic as (_ & _ & _ & -> & _). cbn.
    intros (nic' & Heq & (fn & (b' & -> & Hb')%list_elem_of_fmap & Hnic)%list_elem_of_omap)%list_elem_of_fmap.
    apply nicOf_Some in Hnic as (_ & _ & _ & Hbdf & _). cbn in Hbdf. congruence.
  - intros u [?|(fn & Hfn & Hu)]%Hinv; [by left|]. right. rewrite (undOf_BDF _ _ _ _ _ Hu).
    exists (netdev0 fn). by apply netdev0_in.
Qed.

(** ** Forcing an interface *)
Lemma collected_unforced fn : collected fs netDir [] fn = snd (fst (classify fs netDir (netdev0 fn))).
Proof. unfold collected, isForced. by rewrite bool_decide_eq_false_2 by tauto. Qed.

Lemma collected_mono forced fn : collected fs netDir [] fn = true → collected fs netDir forced fn = true.
Proof. rewrite collected_unforced. unfold collected. intros ->. apply orb_true_r. Qed.

Lemma omap_cons_list {A B} (f : A → option B) x (l : list A) : omap f (x :: l) = option_list (f x) ++ omap f l.
Proof. cbn. by destruct (f x). Qed.

Lemma nicOf_forced forced fn :
  nic_BDF <$> base.filter (λ nic, Forced nic = false) (option_list (nicOf fs netDir forced fn)) =
  nic_BDF <$> option_list (nicOf fs netDir [] fn).
Proof.
  destruct (nicOf fs netDir [] fn) as [nic0|] eqn:H0.
  - destruct (nicOf_Some _ _ _ _ _ H0) as (Hc & Hp & Hm & Hb & _).
    assert (is_Some (nicOf fs netDir forced fn)) as [nic Hnic].
    { apply nicOf_None; [by apply collected_mono|eauto]. }
    rewrite Hnic. apply nicOf_Some in Hnic as (_ & _ & _ & Hb' & Hcl). rewrite collected_unforced, Hcl in Hc.
    cbn in Hc. apply negb_true_iff in Hc. unfold option_list; cbn [option_rect]. rewrite filter_cons_True, filter_nil by done. cbn. congruence.
  - destruct (nicOf fs netDir forced fn) as [nic|] eqn:Hnic; [|done].
    destruct (nicOf_Some _ _ _ _ _ Hnic) as (_ & Hp & Hm & _ & Hcl). unfold option_list; cbn [option_rect].
    rewrite filter_cons_False; [done|]. intros HF. rewrite HF in Hcl.
    assert (collected fs netDir [] fn = true) as Hc by by rewrite collected_unforced, Hcl.
    apply nicOf_None in Hc as [_ Hs]. rewrite H0 in Hs. destruct Hs; [eauto|done].
Qed.

Lemma nicsOf_forced forced (fns : list pciFunction) :
  nic_BDF <$> base.filter (λ nic, Forced nic = false) (omap (nicOf fs netDir forced) fns) =
  nic_BDF <$> omap (nicOf fs netDir []) fns.
Proof.
  induction fns as [|fn fns IH]; [done|].
  by rewrite !omap_cons_list, list.filter_app, !fmap_app, nicOf_forced, IH.
Qed.

Lemma undOf_forced forced fn : is_Some (undOf fs netDir [] fn) → is_Some (undOf fs netDir forced fn).
Proof.
  pose proof (collected_mono forced fn) as Hmono. pose proof (nicOf_None fs netDir [] fn) as H0.
  pose proof (nicOf_None fs netDir forced fn) as H1. unfold undOf, nicOf in *.
  destruct (snd (classify _ _ _)); [eauto|]. destruct (collected fs netDir [] fn); [|by intros [??]].
  rewrite Hmono in * by done. specialize (H0 eq_refl). specialize (H1 eq_refl).
  destruct (firstPort _ _ (candidatesOf fn []) _) as [[??]|[?|]] eqn:Hp; [by intros [??]|..]; intros _;
    (destruct (firstPort _ _ (candidatesOf fn forced) _) as [[i m]|[?|]] eqn:Hq; [|eauto..]);
    apply firstPort_inl in Hq as [Hi Hm]; rewrite candidatesOf_perm in Hi;
    destruct H0 as [_ H0]; destruct H0 as [??]; eauto; done.
Qed.

(** C30: forcing an interface widens what is collected and never what is trusted: the NICs not
    marked forced are on the same functions as without the option, none of which is marked forced,
    and everything undetermined without it still is. *)
Theorem WithForcedInterface_widens name en0 : FindPassthroughNICs fs [] = Ok en0 →
  ∃ en, FindPassthroughNICs fs [WithForcedInterface name] = Ok en ∧
    nic_BDF <$> base.filter (λ nic, Forced nic = false) (NICs en) = nic_BDF <$> NICs en0 ∧
    (∀ nic, nic ∈ NICs en0 → Forced nic = false) ∧ (∀ k, k ∈ keys en0 → k ∈ keys en).
Proof.
  intros Hf. destruct (FindPassthroughNICs_inv _ _ Hf) as [entries Hdir].
  destruct (FindPassthroughNICs_Ok [] entries Hdir) as (en' & Hf' & HN0 & _ & Hk0 & _). assert (en' = en0) as -> by congruence.
  destruct (FindPassthroughNICs_Ok [WithForcedInterface name] entries Hdir) as (en & Hen & HN & _ & Hk & _).
  change (forcedOf []) with (@nil byte) in *. change (forcedOf [_]) with (TrimSpace name) in *.
  exists en. split; [done|]. split; [|split].
  - rewrite HN0, HN. apply nicsOf_forced.
  - intros nic Hnic. rewrite HN0 in Hnic. apply list_elem_of_omap in Hnic as (fn & _ & Hnic).
    apply nicOf_Some in Hnic as (Hc & _ & _ & _ & Hcl). rewrite collected_unforced, Hcl in Hc. by apply negb_true_iff.
  - intros k [?|(fn & u & Hfn & Hu & ->)]%Hk0; apply Hk; [by left|]. right.
    destruct (undOf_forced (TrimSpace name) fn) as [u' Hu']; eauto.
Qed.

End Find.

(** ** A host *)
Module Demo.

(** [lo] has no device; [eth0] bypasses translation and [eth1] does not; the device link of [eth2]
    cannot be read; [bonding_masters] is an attribute. *)
Definition net (l : list string) : path := netDir ++ (str <$> l).
Definition links : list (path * result bytes) := [
  (net ["eth0"; "device"], inr (str "../../../0000:43:00.0"));
  (net ["eth0"; "device"; "iommu_group"], inr (str "../../../../kernel/iommu_groups/12"));
  (net ["eth1"; "device"], inr (str "../../../0000:44:00.0"));
  (net ["eth1"; "device"; "iommu_group"], inr (str "../../../../kernel/iommu_groups/13"));
  (net ["eth2"; "device"], inl (ESentinel "EIO")) ]%string.
Definition files : list (path * result bytes) := [
  ([sysfsRoot; str "kernel"; str "iommu_groups"; str "12"; str "type"], inr (str "identity "));
  ([sysfsRoot; str "kernel"; str "iommu_groups"; str "13"; str "type"], inr (str "DMA-FQ "));
  (net ["eth0"; "address"], inr (str "02:00:5E:10:00:01"));
  (net ["eth1"; "perm_address"], inr (str "0200.5e10.0002")) ]%string.
Definition host : FS := mkFS
  (λ p, if decide (p = netDir) then inr [mkEntry (str "bonding_masters") true; mkEntry (str "eth0") false;
      mkEntry (str "eth1") false; mkEntry (str "eth2") false; mkEntry (str "lo") false]
    else inl (ESentinel os_ErrNotExist))
  (find links) (find []) (find files).

Definition nic0 : PassthroughNIC :=
  mkNIC (str "eth0") (str "0000:43:00.0") (str "12") (str "02:00:5e:10:00:01") false.
Definition nic1 : PassthroughNIC :=
  mkNIC (str "eth1") (str "0000:44:00.0") (str "13") (str "02:00:5e:10:00:02") true.
Definition und2 : UndeterminedNIC :=
  mkUndetermined (str "eth2") [] (err_wrap "unreadable device link: %w" (ESentinel "EIO")).

Example plain : FindPassthroughNICs host [] = Ok (mkEnumeration [nic0] [und2]).
Proof. vm_compute. reflexivity. Qed.

Example forced : FindPassthroughNICs host [WithForcedInterface (str " eth1 ")] =
  Ok (mkEnumeration [nic0; nic1] [und2]).
Proof. vm_compute. reflexivity. Qed.

Lemma readMAC_safe_witness : readMAC host netDir (str "eth0") = inr (str "02:00:5e:10:00:01") ∧
  ∃ mac, ParseMAC (str "02:00:5e:10:00:01") = Some mac ∧ length mac = 6.
Proof.
  split; [vm_compute; reflexivity|].
  destruct (readMAC_safe host netDir (str "eth0") (str "02:00:5e:10:00:01")) as (mac & file & raw & _ & Hp & Hl & _);
    [vm_compute; reflexivity|]. exists mac. split; assumption.
Defined.

Lemma FindPassthroughNICs_sound_witness : nic1 ∈ [nic0; nic1] ∧
  resolveBDF host netDir (str "eth1") = inr (str "0000:44:00.0").
Proof.
  assert (nic1 ∈ [nic0; nic1]) as Hin by (apply elem_of_cons; right; left). split; [exact Hin|].
  destruct (FindPassthroughNICs_sound host [WithForcedInterface (str " eth1 ")] _ nic1
    ltac:(vm_compute; reflexivity) Hin) as (entries & _ & _ & Hb & _).
  exact Hb.
Defined.

Lemma FindPassthroughNICs_complete_witness :
  ∃ entries, ReadDir host netDir = inr entries ∧ length entries = 5 ∧ ∀ n, n ∈ netdevs entries →
    match resolveBDF host netDir n with
    | inl err => errors_Is errNotPCI err = true ∨ n ∈ [str "eth2"]
    | inr b => b ∈ [str "0000:43:00.0"] ∨ b ∈ [str "eth2"] ∨
      ∃ n' group domain, n' ∈ netdevs entries ∧ resolveBDF host netDir n' = inr b ∧
        domainOf host n' group domain ∧ domain ∈ [str "dma"; str "dma-fq"; str "blocked"]
    end.
Proof.
  destruct (FindPassthroughNICs_complete host [WithForcedInterface (str "eth1")] (mkEnumeration [nic0; nic1] [und2])
    ltac:(vm_compute; reflexivity)) as (entries & Hdir & Hall).
  exists entries. split; [exact Hdir|]. split; [|exact Hall].
  vm_compute in Hdir. injection Hdir as <-. reflexivity.
Defined.

Lemma WithForcedInterface_widens_witness : ∃ en,
  FindPassthroughNICs host [WithForcedInterface (str "eth1")] = Ok en ∧ (∀ k, k ∈ [str "eth2"] → k ∈ keys en).
Proof.
  destruct (WithForcedInterface_widens host (str "eth1") (mkEnumeration [nic0] [und2])
    ltac:(vm_compute; reflexivity)) as (en & Hen & _ & _ & Hk).
  exists en. split; [exact Hen|exact Hk].
Defined.

End Demo.

End Iommu.
