(* ===== verification/Tpm2.v ===== *)
(** * go-tpm's tpm2 package as the code sees it

    The constants are third-party: a class of parameters, with the only facts
    the code relies on (distinctness) as its laws, and the values of the TPM 2.0
    specification as an instance for the witnesses. The structures are the ones
    the code builds or reads, with the fields it sets. *)
From S2P Require Import Prelude Bytes.

Module Tpm2.

(** [TPMAlgID] values. *)
Class TPMAlgs := {
  TPMAlgRSA : Z;
  TPMAlgECC : Z;
  TPMAlgKeyedHash : Z;
  TPMAlgAES : Z;
  TPMAlgCFB : Z;
  TPMAlgNull : Z;
  TPMAlgSHA256 : Z;
  TPMAlgSHA384 : Z;
  TPMAlgSHA512 : Z;
  TPMAlgRSASSA : Z;
  TPMAlgECDSA : Z;
}.

Definition algs `{TPMAlgs} : list Z :=
  [TPMAlgRSA; TPMAlgECC; TPMAlgKeyedHash; TPMAlgAES; TPMAlgCFB; TPMAlgNull;
   TPMAlgSHA256; TPMAlgSHA384; TPMAlgSHA512; TPMAlgRSASSA; TPMAlgECDSA].

(** The identifiers are pairwise distinct, and none is 0 (TPM_ALG_ERROR). *)
Class TPMAlgsLaws `{TPMAlgs} := {
  algs_NoDup : NoDup algs;
  algs_nonzero : 0%Z ∉ algs;
}.

Lemma algs_distinct `{TPMAlgsLaws} i j a : algs !! i = Some a → algs !! j = Some a → i = j.
Proof. apply NoDup_lookup, algs_NoDup. Qed.

Lemma hash_algs_distinct `{TPMAlgsLaws} :
  TPMAlgSHA256 ≠ TPMAlgSHA384 ∧ TPMAlgSHA256 ≠ TPMAlgSHA512 ∧ TPMAlgSHA384 ≠ TPMAlgSHA512.
Proof.
  repeat split; intros He;
    [assert (6 = 7); [|done] | assert (6 = 8); [|done] | assert (7 = 8); [|done]];
    eapply algs_distinct; cbn; by rewrite ?He.
Qed.

(** [TPMSPCRSelection]: a bank and a bitmap; a [TPMLPCRSelection] is a list. *)
Record TPMSPCRSelection := mkPCRSelection {
  sel_Hash : Z;
  sel_PCRSelect : bytes;
}.
Abbreviation TPMLPCRSelection := (list TPMSPCRSelection).

#[export] Instance TPMSPCRSelection_eq_dec : EqDecision TPMSPCRSelection.
Proof. solve_decision. Defined.

(** ** Other constants *)
Class TPMConsts := {
  TPMRHOwner : Z; TPMRHEndorsement : Z; TPMRHLockout : Z;
  TPMCapHandles : Z; TPMCapPCRs : Z; TPMCapTPMProperties : Z;
  TPMPTManufacturer : Z; TPMPTVendorString1 : Z; TPMPTVendorString2 : Z;
  TPMPTVendorString3 : Z; TPMPTVendorString4 : Z; TPMPTFirmwareVersion1 : Z;
  TPMPTPermanent : Z; TPMPTNVBufferMax : Z;
  TPMHTNVIndex : Z;
  TPMSTNoSessions : Z; TPMSTHashCheck : Z; TPMCCReadClock : Z;
  TPMECCNistP256 : Z; TPMECCNistP384 : Z;
  RCSuccess : Z;
}.

(** ** Public areas *)

(** [TPMAObject]: the attributes the code sets or reads; the others stay unset. *)
Record TPMAObject := mkAttrs {
  FixedTPM : bool;
  FixedParent : bool;
  SensitiveDataOrigin : bool;
  UserWithAuth : bool;
  AdminWithPolicy : bool;
  Restricted : bool;
  Decrypt : bool;
  SignEncrypt : bool;
}.

(** A scheme: its identifier and, if given, the hash of its details
    ([NewTPMUAsymScheme]); identifier 0 is the zero value. *)
Record TPMTScheme := mkScheme { Scheme : Z; SchemeHash : option Z }.
Definition no_scheme : TPMTScheme := mkScheme 0 None.

(** [TPMTSymDefObject]: algorithm, key bits, mode. *)
Record TPMTSymDefObject := mkSymDef { Algorithm : Z; SymKeyBits : Z; SymMode : Z }.

Record TPMSRSAParms := mkRSAParms {
  RSASymmetric : option TPMTSymDefObject;
  RSAScheme : TPMTScheme;
  KeyBits : Z;
}.
Record TPMSECCParms := mkECCParms {
  Symmetric : option TPMTSymDefObject;
  ECCScheme : TPMTScheme;
  CurveID : Z;
  KDF : Z;
}.
Record TPMSECCPoint := mkECCPoint { point_X : bytes; point_Y : bytes }.

(** The unions, by the constructor call [NewTPMU..(alg, contents)] that made them. *)
Inductive TPMUPublicParms :=
  | NoParms
  | NewRSAParms (alg : Z) (parms : TPMSRSAParms)
  | NewECCParms (alg : Z) (parms : TPMSECCParms).
Inductive TPMUPublicID :=
  | NoID
  | NewRSAID (alg : Z) (n : bytes)
  | NewECCID (alg : Z) (p : TPMSECCPoint).

Record TPMTPublic := mkTPMTPublic {
  Type_ : Z;
  NameAlg : Z;
  ObjectAttributes : TPMAObject;
  AuthPolicy : bytes;
  Parameters : TPMUPublicParms;
  Unique : TPMUPublicID;
}.

(** A [TPM2B] structure: its bytes, and what [Contents()] decodes them to. *)
Record TPM2B (A : Type) := mk2B { Bytes : bytes; Contents : outcome A }.
Arguments mk2B {A}.
Arguments Bytes {A}.
Arguments Contents {A}.

(** ** Handles and authorizations *)

(** The policy callbacks of the code, defunctionalized. *)
Inductive callback :=
  | pcrPolicyCallback (pcrs : list Z)
  | ekPolicy (password : bytes).

Inductive session :=
  | PasswordAuth (password : bytes)
  | StartedSession (handle : Z)
  | Policy (alg nonceSize : Z) (cb : callback).

Inductive handle :=
  | Handle (h : Z)
  | NamedHandle (h : Z) (name : bytes)
  | AuthHandle (h : Z) (name : bytes) (auth : session).

Definition HandleValue (h : handle) : Z :=
  match h with Handle h | NamedHandle h _ | AuthHandle h _ _ => h end.

(** ** Responses *)
Record TPMSTaggedProperty := mkProperty { Property : Z; Value : Z }.

(** The capability union, by what each accessor returns. *)
Record CapabilityData := mkCapabilityData {
  Handles : outcome (list Z);
  AssignedPCR : outcome TPMLPCRSelection;
  TPMProperties : outcome (list TPMSTaggedProperty);
}.

Record ObjectResponse := mkObject { ObjectHandle : Z; Name : bytes }.

Record TPMTTKCreation := mkTicket { ticket_Tag : Z; ticket_Hierarchy : Z; ticket_Digest : bytes }.
Record CreateResponse := mkCreate {
  OutPrivate : bytes;
  OutPublic : TPM2B TPMTPublic;
  CreationData : bytes;
  CreationHash : bytes;
  CreationTicket : TPMTTKCreation;
}.

Record PCRReadResponse := mkPCRRead { PCRSelectionOut : TPMLPCRSelection; PCRDigests : list bytes }.

(** A signature union: the two members the code reads or builds. *)
Inductive TPMUSignature :=
  | NewRSASSA (hash : Z) (sig : bytes)
  | NewECDSA (hash : Z) (signatureR signatureS : bytes).
Record TPMTSignature := mkSignature { SigAlg : Z; Signature : TPMUSignature }.

(** What MakeCredential returns, in the order of its response. *)
Record MakeCredentialResponse := mkMakeCredential { CredentialBlob : bytes; Secret : bytes }.

(** An attestation: the bytes signed and the signature. *)
Record AttestResponse := mkAttest { Attested : bytes; AttestSignature : TPMTSignature }.

Record TPMSNVPublic := mkNVPublic {
  NVIndex : Z;
  NVNameAlg : Z;
  AuthWrite : bool;
  AuthRead : bool;
  Written : bool;
  NVAuthPolicy : bytes;
  DataSize : Z;
}.

(** The sensitive part of a Create: authorization value, or data to seal. *)
Inductive sensitive :=
  | UserAuth (auth : bytes)
  | SensitiveData (data : bytes).

(** ** Commands, indexed by the type of their response *)
Inductive command : Type → Type :=
  | OpenDevice (path : bytes) : command unit
  | CloseDevice : command unit
  | Sleep (seconds : Z) : command unit
  | RunCommand (tag cmd : Z) (args : list bool) : command (bytes * Z)
  | GetCapability (capability property count : Z) : command CapabilityData
  | HierarchyChangeAuth (authHandle : handle) (newAuth : bytes) : command unit
  | CreatePrimary (primary : handle) (inPublic : TPMTPublic) (userAuth : option bytes) : command ObjectResponse
  | FlushContext (h : Z) : command unit
  | EvictControl (auth object : handle) (persistent : Z) : command unit
  | StartPolicySession (alg nonceSize : Z) : command Z
  | CloseSession (h : Z) : command unit
  | PolicyPCR (session : Z) (pcrDigest : bytes) (pcrs : TPMLPCRSelection) : command unit
  | PolicyGetDigest (session : Z) : command bytes
  | PolicySecret (auth : handle) (session : Z) (nonceTPM : bytes) : command unit
  | PCRRead (selectionIn : TPMLPCRSelection) : command PCRReadResponse
  | PCRExtend (h : Z) (digests : list (Z * bytes)) : command unit
  | PCRReset (h : Z) : command unit
  | Create (parent : handle) (inPublic : TPMTPublic) (inSensitive : sensitive) : command CreateResponse
  | Load (parent : handle) (inPublic : TPM2B TPMTPublic) (inPrivate : bytes) : command ObjectResponse
  | Import (parent : handle) (objectPublic duplicate inSymSeed : bytes) : command bytes
  | Unseal (item : handle) : command bytes
  | Sign (key : handle) (digest : bytes) (inScheme : TPMTScheme) (validation : Z) : command TPMTSignature
  | Quote (sign : handle) (qualifyingData : bytes) (pcrs : TPMLPCRSelection) (inScheme : TPMTScheme) : command AttestResponse
  | CertifyCreation (sign object : handle) (creationHash : bytes) (ticket : TPMTTKCreation) (inScheme : TPMTScheme) : command AttestResponse
  | Certify (object sign : handle) (inScheme : TPMTScheme) : command AttestResponse
  | MakeCredential (h : Z) (credential objectName : bytes) : command MakeCredentialResponse
  | ActivateCredential (activate key : handle) (credentialBlob secret : bytes) : command bytes
  | ReadPublic (h : Z) : command (TPM2B TPMTPublic)
  | Startup (startupType : Z) : command unit
  | Shutdown (shutdownType : Z) : command unit
  | Clear (auth : handle) : command unit
  | DictionaryAttackLockReset (lock : handle) : command unit
  | GetRandom (bytesRequested : Z) : command bytes
  | NVReadPublic (nvIndex : Z) : command (TPM2B TPMSNVPublic)
  | NVRead (auth nvIndex : handle) (size offset : Z) : command bytes
  | NVWrite (auth nvIndex : handle) (data : bytes) (offset : Z) : command unit
  | NVDefineSpace (auth : Z) (auth_value : bytes) (publicInfo : TPMSNVPublic) : command unit.

(** ** The device: executes a command in its state (third-party) *)
Class Device (D : Type) := { exec : ∀ {R}, command R → SM D R }.

(** The state of the model: the device, and every command executed with its result. *)
Inductive event :=
  | Ev (R : Type) (c : command R) (r : outcome R).
Arguments Ev {R}.
Record tpmState (D : Type) := mkState { device : D; trace : list event }.
Arguments mkState {D}.
Arguments device {D}.
Arguments trace {D}.

Section Execute.
Context {D : Type} `{!Device D}.

(** [cmd.Execute(tpmTransport)] *)
Definition Execute {R} (c : command R) : SM (tpmState D) R := λ s,
  let '(r, d) := exec c (device s) in (r, mkState d (trace s ++ [Ev c r])).

Lemma Execute_unfold {R} (c : command R) s :
  Execute c s = ((exec c (device s)).1,
                 mkState (exec c (device s)).2 (trace s ++ [Ev c (exec c (device s)).1])).
Proof. unfold Execute. by destruct (exec c (device s)). Qed.

Lemma Execute_fst {R} (c : command R) s : (Execute c s).1 = (exec c (device s)).1.
Proof. by rewrite Execute_unfold. Qed.
Lemma Execute_device {R} (c : command R) s : device (Execute c s).2 = (exec c (device s)).2.
Proof. by rewrite Execute_unfold. Qed.

Lemma Execute_step {R} (c : command R) s r d :
  exec c (device s) = (r, d) → Execute c s = (r, mkState d (trace s ++ [Ev c r])).
Proof. intros He. unfold Execute. by rewrite He. Qed.

(** [defer cleanup()] after the body [m]: it runs on every path, its result dropped. *)
Definition deferring {S A} (m : SM S A) (cleanup : SM S unit) : SM S A :=
  λ s, let '(r, s) := m s in let '(_, s) := cleanup s in (r, s).

Lemma deferring_step {S A} (m : SM S A) cleanup s r s1 :
  m s = (r, s1) → deferring m cleanup s = (r, (cleanup s1).2).
Proof. intros Hm. unfold deferring. rewrite Hm. by destruct (cleanup s1). Qed.

(** The outcome of a call as a value: [x, err := f()] with the error tested later. *)
Definition attempt {S A} (m : SM S A) : SM S (outcome A) :=
  λ s, let '(r, s) := m s in
       match r with Panic p => (Panic p, s) | _ => (Ok r, s) end.
End Execute.

(** Run the first call of the goal's computation, whose result the hypothesis gives. *)
Ltac step_ok H :=
  (erewrite SM_bind_step by
     (repeat (apply map_errS_Ok); first [exact H | apply Execute_step; exact H]));
  cbn [device trace].
(** The same for a pure call. *)
Ltac step_lift H := erewrite SM_lift_step by (rewrite H; reflexivity); cbv beta iota.

Module TCGAlgs.
#[export] Instance tcg_algs : TPMAlgs := {
  TPMAlgRSA := 0x0001%Z;
  TPMAlgECC := 0x0023%Z;
  TPMAlgKeyedHash := 0x0008%Z;
  TPMAlgAES := 0x0006%Z;
  TPMAlgCFB := 0x0043%Z;
  TPMAlgNull := 0x0010%Z;
  TPMAlgSHA256 := 0x000B%Z;
  TPMAlgSHA384 := 0x000C%Z;
  TPMAlgSHA512 := 0x000D%Z;
  TPMAlgRSASSA := 0x0014%Z;
  TPMAlgECDSA := 0x0018%Z;
}.

#[export] Instance tcg_algs_laws : TPMAlgsLaws.
Proof. split; apply (bool_decide_unpack _); vm_compute; exact I. Defined.

#[export] Instance tcg_consts : TPMConsts := {
  TPMRHOwner := 0x40000001%Z; TPMRHEndorsement := 0x4000000B%Z; TPMRHLockout := 0x4000000A%Z;
  TPMCapHandles := 1%Z; TPMCapPCRs := 5%Z; TPMCapTPMProperties := 6%Z;
  TPMPTManufacturer := 0x105%Z; TPMPTVendorString1 := 0x106%Z; TPMPTVendorString2 := 0x107%Z;
  TPMPTVendorString3 := 0x108%Z; TPMPTVendorString4 := 0x109%Z; TPMPTFirmwareVersion1 := 0x10B%Z;
  TPMPTPermanent := 0x200%Z; TPMPTNVBufferMax := 0x12C%Z;
  TPMHTNVIndex := 1%Z;
  TPMSTNoSessions := 0x8001%Z; TPMSTHashCheck := 0x8024%Z; TPMCCReadClock := 0x181%Z;
  TPMECCNistP256 := 3%Z; TPMECCNistP384 := 4%Z;
  RCSuccess := 0%Z;
}.
End TCGAlgs.

End Tpm2.
