(* ===== verification/Trace.v ===== *)
(** * Reasoning about the commands a call sends

    [emits m P] says of a call that it only appends to the trace, and that its
    outcome and the events it appended satisfy [P]. [pending] follows what a call
    acquired along a trace (transient objects, made by CreatePrimary and Load and
    given up by a FlushContext that succeeds; sessions, by a successful
    CloseSession; the device itself): what is left at the end was leaked.
    [leftover n] says of what is left that giving it up was tried [n] times. *)
From S2P Require Import Prelude Bytes Tpm2.
Import Tpm2.

Module Trace.

Inductive resource :=
  | RObject (h : Z)
  | RSession (h : Z)
  | RDevice.
#[export] Instance resource_eq_dec : EqDecision resource.
Proof. solve_decision. Defined.

Definition opens {R} (c : command R) : outcome R → list resource :=
  match c in command R return outcome R → list resource with
  | CreatePrimary _ _ _ | Load _ _ _ =>
    λ r, match r with Ok o => [RObject (ObjectHandle o)] | _ => [] end
  | StartPolicySession _ _ => λ r, match r with Ok h => [RSession h] | _ => [] end
  | OpenDevice _ => λ r, match r with Ok _ => [RDevice] | _ => [] end
  | _ => λ _, []
  end.

(** What a command asks to give up. *)
Definition givesUp {R} (c : command R) : option resource :=
  match c with
  | FlushContext h => Some (RObject h)
  | CloseSession h => Some (RSession h)
  | CloseDevice => Some RDevice
  | _ => None
  end.

(** What it gives up, by its outcome: an object or a session only if the TPM says
    so; the file descriptor of the device is gone whatever [close] returns. *)
Definition closes {R} (c : command R) (r : outcome R) : list resource :=
  match givesUp c, r with
  | Some RDevice, _ => [RDevice]
  | Some x, Ok _ => [x]
  | _, _ => []
  end.

(** What is held after [evs], [open] before. *)
Fixpoint pending (open : list resource) (evs : list event) : list resource :=
  match evs with
  | [] => open
  | Ev c r :: evs => pending (list_difference open (closes c r) ++ opens c r) evs
  end.

(** A command that neither acquires nor gives up anything. *)
Definition neutralCommand {R} (c : command R) : Prop := givesUp c = None ∧ ∀ r, opens c r = [].
Definition neutral (e : event) : Prop := match e with Ev c r => neutralCommand c end.

Lemma pending_app open evs1 evs2 : pending open (evs1 ++ evs2) = pending (pending open evs1) evs2.
Proof. revert open. induction evs1 as [|[R c r] evs1 IH]; intros open; [done|]. apply IH. Qed.

Lemma list_difference_nil_r {A} `{EqDecision A} (l : list A) : list_difference l [] = l.
Proof. induction l as [|x l IH]; [done|]. cbn. case_decide as Hx; [by apply elem_of_nil in Hx|]. by f_equal. Qed.

Lemma pending_neutral open evs : Forall neutral evs → pending open evs = open.
Proof.
  intros Hf. revert open. induction Hf as [|[R c r] evs [Hc Ho] Hf IH]; intros open; [done|].
  cbn [pending]. unfold closes. by rewrite IH, Hc, Ho, list_difference_nil_r, app_nil_r.
Qed.

(** ** What may be left *)

(** The TPM refused to give up [x]. *)
Definition refused (x : resource) (e : event) : bool :=
  match e with Ev c (Err _) => bool_decide (givesUp c = Some x) | _ => false end.
Definition refusals (x : resource) (evs : list event) : nat := length (filter (refused x) evs).

(** The process died giving up [x], or waiting to try again. *)
Definition crashed (x : resource) (e : event) : bool :=
  match e with
  | Ev c (Panic _) => bool_decide (givesUp c = Some x) || match c with Sleep _ => true | _ => false end
  | _ => false
  end.

(** Giving up [x] was refused [n] times, at least, or killed the process. *)
Definition gaveUp (n : nat) (x : resource) (evs : list event) : Prop :=
  n ≤ refusals x evs ∨ Exists (crashed x) evs.

(** Of what is held after [evs], [open] before, each was tried [n] times. *)
Definition leftover (n : nat) (open : list resource) (evs : list event) : Prop :=
  ∀ x, x ∈ pending open evs → gaveUp n x evs.

Lemma refusals_app x evs1 evs2 : refusals x (evs1 ++ evs2) = refusals x evs1 + refusals x evs2.
Proof. unfold refusals. by rewrite list.filter_app, length_app. Qed.

Lemma gaveUp_app_l n x evs1 evs2 : gaveUp n x evs1 → gaveUp n x (evs1 ++ evs2).
Proof. unfold gaveUp. rewrite refusals_app, Exists_app. intros []; [left; lia|auto]. Qed.
Lemma gaveUp_app_r n x evs1 evs2 : gaveUp n x evs2 → gaveUp n x (evs1 ++ evs2).
Proof. unfold gaveUp. rewrite refusals_app, Exists_app. intros []; [left; lia|auto]. Qed.

(** What is held at the end was held before or is left by the events themselves. *)
Lemma elem_of_pending x open evs : x ∈ pending open evs → x ∈ open ∨ x ∈ pending [] evs.
Proof.
  assert (∀ o1 o2, x ∈ pending (o1 ++ o2) evs → x ∈ o1 ∨ x ∈ pending o2 evs) as H.
  { induction evs as [|[R c r] evs IH]; intros o1 o2; cbn [pending]; [by rewrite elem_of_app|].
    intros Hx. assert (list_difference (o1 ++ o2) (closes c r) =
      list_difference o1 (closes c r) ++ list_difference o2 (closes c r)) as E.
    { clear. induction o1 as [|y o1 IH]; [done|]. cbn. case_decide; [done|]. cbn. by f_equal. }
    rewrite E, <-(assoc_L (++)) in Hx. destruct (IH _ _ Hx) as [?%list_elem_of_difference|]; tauto. }
  intros Hx. apply H. by rewrite app_nil_r.
Qed.

Lemma leftover_app n open evs1 evs2 : leftover n open evs1 → leftover n [] evs2 → leftover n open (evs1 ++ evs2).
Proof.
  intros H1 H2 x. rewrite pending_app. intros [?|?]%elem_of_pending; [apply gaveUp_app_l|apply gaveUp_app_r]; auto.
Qed.

Lemma leftover_neutral_l n open evs1 evs2 : Forall neutral evs1 → leftover n open evs2 → leftover n open (evs1 ++ evs2).
Proof. intros Hf H x. rewrite pending_app, (pending_neutral _ evs1) by done. intros ?. apply gaveUp_app_r. auto. Qed.

Section Emits.
Context {D : Type} `{!Device D}.
Implicit Types A B : Type.

Definition emits {A} (m : SM (tpmState D) A) (P : outcome A → list event → Prop) : Prop :=
  ∀ s, ∃ evs, trace (m s).2 = trace s ++ evs ∧ P (m s).1 evs.

Lemma emits_weaken {A} (m : SM (tpmState D) A) (P Q : outcome A → list event → Prop) :
  emits m P → (∀ r evs, P r evs → Q r evs) → emits m Q.
Proof. intros Hm HPQ s. destruct (Hm s) as (evs & ? & ?). eauto. Qed.

Lemma emits_and {A} (m : SM (tpmState D) A) (P : outcome A → list event → Prop) (Q : outcome A → Prop) :
  emits m P → (∀ s, Q (m s).1) → emits m (λ r evs, P r evs ∧ Q r).
Proof. intros Hm HQ s. destruct (Hm s) as (evs & ? & ?). eauto. Qed.

Lemma emits_ret {A} (a : A) P : P (Ok a) [] → emits (mret a) P.
Proof. intros ? s. exists []. cbn. by rewrite app_nil_r. Qed.

Lemma emits_lift {A} (m : outcome A) (P : outcome A → list event → Prop) : P m [] → emits (lift m) P.
Proof. intros ? s. exists []. cbn. by rewrite app_nil_r. Qed.

Lemma emits_Execute {R} (c : command R) (P : outcome R → list event → Prop) :
  (∀ r, P r [Ev c r]) → emits (Execute c) P.
Proof. intros HP s. rewrite Execute_unfold. eexists. split; [done|]. apply HP. Qed.

Lemma emits_map_errS {A} f (m : SM (tpmState D) A) (P : outcome A → list event → Prop) :
  emits m (λ r, P (map_err f r)) → emits (map_errS f m) P.
Proof.
  intros Hm s. destruct (Hm s) as (evs & Ht & HP). exists evs.
  unfold map_errS. by destruct (m s).
Qed.

Lemma emits_bind {A B} (m : SM (tpmState D) A) (f : A → SM (tpmState D) B)
    (P : outcome A → list event → Prop) (Q : outcome B → list event → Prop) :
  emits m P →
  (∀ a evs, P (Ok a) evs → emits (f a) (λ r evs', Q r (evs ++ evs'))) →
  (∀ e evs, P (Err e) evs → Q (Err e) evs) →
  (∀ p evs, P (Panic p) evs → Q (Panic p) evs) →
  emits (m ≫= f) Q.
Proof.
  intros Hm Hf He Hp s. destruct (Hm s) as (evs & Ht & HP).
  unfold mbind, SM_bind. destruct (m s) as [[a|e|p] s1]; cbn in *.
  - destruct (Hf a evs HP s1) as (evs' & Ht' & HQ). exists (evs ++ evs').
    by rewrite Ht', Ht, (assoc_L (++)).
  - eauto.
  - eauto.
Qed.

Lemma emits_attempt {A} (m : SM (tpmState D) A) (P : outcome (outcome A) → list event → Prop) :
  emits m (λ r evs, match r with Panic p => P (Panic p) evs | _ => P (Ok r) evs end) →
  emits (attempt m) P.
Proof.
  intros Hm s. destruct (Hm s) as (evs & Ht & HP). exists evs.
  unfold attempt. destruct (m s) as [[]]; done.
Qed.

Lemma emits_deferring {A} (m : SM (tpmState D) A) cleanup
    (P : outcome A → list event → Prop) (C : list event → Prop) :
  emits m P → emits cleanup (λ _, C) →
  emits (deferring m cleanup) (λ r evs, ∃ e1 e2, evs = e1 ++ e2 ∧ P r e1 ∧ C e2).
Proof.
  intros Hm Hc s. destruct (Hm s) as (e1 & Ht & HP). unfold deferring.
  destruct (m s) as [r s1]. destruct (Hc s1) as (e2 & Ht' & HC). destruct (cleanup s1) as [? s2].
  cbn in *. exists (e1 ++ e2). rewrite Ht', Ht, (assoc_L (++)). eauto 10.
Qed.

(** Calls all of whose commands satisfy [Q]. *)
Definition always (Q : event → Prop) {A} (m : SM (tpmState D) A) : Prop := emits m (λ _, Forall Q).

Lemma always_ret Q {A} (a : A) : always Q (mret a).
Proof. by apply emits_ret. Qed.
Lemma always_lift Q {A} (m : outcome A) : always Q (lift m).
Proof. by apply emits_lift. Qed.
Lemma always_Execute Q {R} (c : command R) : (∀ r, Q (Ev c r)) → always Q (Execute c).
Proof. intros Hc. apply emits_Execute. intros r. constructor; [apply Hc|constructor]. Qed.
Lemma always_map_errS Q {A} f (m : SM (tpmState D) A) : always Q m → always Q (map_errS f m).
Proof. intros Hm. apply emits_map_errS. exact Hm. Qed.
Lemma always_attempt Q {A} (m : SM (tpmState D) A) : always Q m → always Q (attempt m).
Proof. intros Hm. apply emits_attempt. eapply emits_weaken; [exact Hm|]. by intros []. Qed.
Lemma always_bind Q {A B} (m : SM (tpmState D) A) (f : A → SM (tpmState D) B) :
  always Q m → (∀ a, always Q (f a)) → always Q (m ≫= f).
Proof.
  intros Hm Hf. eapply emits_bind; [exact Hm| |done..].
  intros a evs Hevs. eapply emits_weaken; [apply Hf|]. cbn. intros. by apply Forall_app.
Qed.
Lemma always_if Q {A} P `{!Decision P} (m1 m2 : SM (tpmState D) A) :
  always Q m1 → always Q m2 → always Q (if decide P then m1 else m2).
Proof. by case_decide. Qed.
Lemma always_deferring Q {A} (m : SM (tpmState D) A) cleanup :
  always Q m → always Q cleanup → always Q (deferring m cleanup).
Proof.
  intros Hm Hc. eapply emits_weaken; [apply (emits_deferring _ _ _ (Forall Q) Hm Hc)|].
  intros r evs (e1 & e2 & -> & ? & ?). by apply Forall_app.
Qed.

Lemma quiet_pending {A} (m : SM (tpmState D) A) open : always neutral m → emits m (λ _ evs, pending open evs = open).
Proof. intros Hm. eapply emits_weaken; [exact Hm|]. cbn. intros. by apply pending_neutral. Qed.

Lemma pending_bind {A B} (m : SM (tpmState D) A) (f : A → SM (tpmState D) B) open mid :
  emits m (λ _ evs, pending open evs = mid) → (∀ a, emits (f a) (λ _ evs, pending mid evs = mid)) →
  emits (m ≫= f) (λ _ evs, pending open evs = mid).
Proof.
  intros Hm Hf. eapply emits_bind; [exact Hm| |done..].
  intros a evs Hevs. eapply emits_weaken; [apply Hf|]. cbn. intros r evs' He.
  by rewrite pending_app, Hevs.
Qed.

(** Calls that leave nothing held but what they tried [n] times to give up. *)
Definition released (n : nat) {A} (m : SM (tpmState D) A) : Prop := emits m (λ _ evs, leftover n [] evs).

Lemma quiet_released n {A} (m : SM (tpmState D) A) : always neutral m → released n m.
Proof.
  intros Hm. eapply emits_weaken; [apply (quiet_pending _ []), Hm|]. cbn. intros r evs He x.
  rewrite He. by intros ?%elem_of_nil.
Qed.

Lemma leftover_bind {A B} n open (m : SM (tpmState D) A) (f : A → SM (tpmState D) B) :
  emits m (λ _ evs, leftover n open evs) → (∀ a, released n (f a)) →
  emits (m ≫= f) (λ _ evs, leftover n open evs).
Proof.
  intros Hm Hf. eapply emits_bind; [exact Hm| |done..].
  intros a evs Hevs. eapply emits_weaken; [apply Hf|]. cbn. intros r evs'. by apply leftover_app.
Qed.

Lemma released_bind {A B} n (m : SM (tpmState D) A) (f : A → SM (tpmState D) B) :
  released n m → (∀ a, released n (f a)) → released n (m ≫= f).
Proof. apply leftover_bind. Qed.

(** A call that acquires something, followed by one that gives it up. *)
Lemma released_acquire {A B} n (m : SM (tpmState D) A) (f : A → SM (tpmState D) B) (h : A → resource) :
  emits m (λ r evs, pending [] evs = match r with Ok a => [h a] | _ => [] end) →
  (∀ a, emits (f a) (λ _ evs, leftover n [h a] evs)) → released n (m ≫= f).
Proof.
  intros Hm Hf. eapply emits_bind; [exact Hm| |intros x evs He y; rewrite He; by intros ?%elem_of_nil..].
  intros a evs Hevs. eapply emits_weaken; [apply Hf|]. cbn. intros r evs' He x.
  rewrite pending_app, Hevs. intros ?. apply gaveUp_app_r. auto.
Qed.

Lemma emits_CreatePrimary f a t u :
  emits (map_errS f (Execute (CreatePrimary a t u)))
    (λ r evs, pending [] evs = match r with Ok o => [RObject (ObjectHandle o)] | _ => [] end).
Proof. apply emits_map_errS, emits_Execute. by intros []. Qed.

Lemma emits_Load f a t u :
  emits (map_errS f (Execute (Load a t u)))
    (λ r evs, pending [] evs = match r with Ok o => [RObject (ObjectHandle o)] | _ => [] end).
Proof. apply emits_map_errS, emits_Execute. by intros []. Qed.

(** A neutral body with a clean-up that gives up [h]. *)
Lemma deferring_releases {A} n (m : SM (tpmState D) A) cleanup open :
  always neutral m → emits cleanup (λ _ evs, leftover n open evs) →
  emits (deferring m cleanup) (λ _ evs, leftover n open evs).
Proof.
  intros Hm Hc. eapply emits_weaken; [apply (emits_deferring _ _ _ _ Hm Hc)|].
  intros r evs (e1 & e2 & -> & Hn & He). by apply leftover_neutral_l.
Qed.

Lemma emits_attempt_any {A} (m : SM (tpmState D) A) P :
  emits m (λ _, P) → emits (attempt m) (λ _, P).
Proof. intros Hm. apply emits_attempt. eapply emits_weaken; [exact Hm|]. by intros []. Qed.

(** One command that gives up [x], an object or a session, and may be refused. *)
Definition tried (x : resource) (r : outcome unit) (evs : list event) : Prop :=
  match r with
  | Ok _ => ∀ open, pending open evs = list_difference open [x]
  | Err _ => (∀ open, pending open evs = open) ∧ refusals x evs = 1
  | Panic _ => (∀ open, pending open evs = open) ∧ Exists (crashed x) evs
  end.

Lemma emits_givesUp (c : command unit) x :
  givesUp c = Some x → x ≠ RDevice → emits (Execute c) (tried x).
Proof.
  intros Hx Hd. assert (∀ R (c : command R) r, givesUp c = Some x → opens c r = []) as Ho by (by intros ? []).
  apply emits_Execute. intros r.
  assert (∀ open, pending open [Ev c r] = list_difference open (closes c r)) as Hp
    by (intros; cbn; by rewrite (Ho _ c r Hx), app_nil_r).
  unfold closes in Hp. rewrite Hx in Hp. destruct r as [u|e|p]; unfold tried; [by destruct x|split..].
  - intros open. rewrite Hp. destruct x; [apply list_difference_nil_r..|done].
  - unfold refusals. cbn. by rewrite bool_decide_true.
  - intros open. rewrite Hp. destruct x; [apply list_difference_nil_r..|done].
  - left. cbn. by rewrite bool_decide_true.
Qed.

(** What is left of [x] and of nothing else. *)
Definition settles (n : nat) (x : resource) (evs : list event) : Prop :=
  pending [x] evs = [] ∨ pending [x] evs = [x] ∧ gaveUp n x evs.

Lemma settles_leftover n x evs : settles n x evs → leftover n [x] evs.
Proof. intros [He|[He Hg]] y; rewrite He; [by intros ?%elem_of_nil|by intros ->%list_elem_of_singleton]. Qed.

Lemma tried_settles x r evs : tried x r evs → settles 1 x evs.
Proof.
  destruct r as [u|e|p]; cbn.
  - intros He. left. rewrite He. cbn. case_decide; [done|set_solver].
  - intros [He Hn]. right. split; [done|left; lia].
  - intros [He Hc]. right. by split; [|right].
Qed.

(** Tried once, its error dropped. *)
Lemma giveUp_once (c : command unit) x : givesUp c = Some x → x ≠ RDevice →
  emits (_ ← attempt (Execute c); mret ()) (λ _ evs, leftover 1 [x] evs).
Proof.
  intros Hx Hd. apply leftover_bind; [|intros _; by apply quiet_released, always_ret].
  apply (emits_attempt_any _ (λ evs, leftover 1 [x] evs)).
  eapply emits_weaken; [by apply (emits_givesUp c x)|]. intros r evs Ht. by eapply settles_leftover, tried_settles.
Qed.

(** Calls that keep a property of the device. *)
Definition keeps {A} (I : D → Prop) (m : SM (tpmState D) A) : Prop :=
  ∀ s, I (device s) → I (device (m s).2).

Lemma keeps_ret {A} I (a : A) : keeps I (mret a).
Proof. by intros s. Qed.
Lemma keeps_lift {A} I (m : outcome A) : keeps I (lift m).
Proof. by intros s. Qed.
Lemma keeps_Execute {R} (I : D → Prop) (c : command R) :
  (∀ d, I d → I (exec c d).2) → keeps I (Execute c).
Proof. intros Hc s. rewrite Execute_device. apply Hc. Qed.
Lemma keeps_map_errS {A} I f (m : SM (tpmState D) A) : keeps I m → keeps I (map_errS f m).
Proof. intros Hm s. rewrite map_errS_snd. apply Hm. Qed.
Lemma keeps_attempt {A} I (m : SM (tpmState D) A) : keeps I m → keeps I (attempt m).
Proof. intros Hm s Hi. specialize (Hm s Hi). unfold attempt. by destruct (m s) as [[]]. Qed.
Lemma keeps_bind {A B} I (m : SM (tpmState D) A) (f : A → SM (tpmState D) B) :
  keeps I m → (∀ a, keeps I (f a)) → keeps I (m ≫= f).
Proof.
  intros Hm Hf s Hi. specialize (Hm s Hi). unfold mbind, SM_bind.
  destruct (m s) as [[a|e|p] s1]; [by apply Hf|done..].
Qed.
Lemma keeps_deferring {A} I (m : SM (tpmState D) A) cleanup :
  keeps I m → keeps I cleanup → keeps I (deferring m cleanup).
Proof.
  intros Hm Hc s Hi. specialize (Hm s Hi). unfold deferring. destruct (m s) as [r s1].
  specialize (Hc s1 Hm). by destruct (cleanup s1).
Qed.

End Emits.

(** Calls that neither acquire nor give up anything. *)
Abbreviation quiet := (always neutral).

Lemma neutral_command {R} (c : command R) :
  givesUp c = None → (∀ r, opens c r = []) → neutralCommand c.
Proof. done. Qed.

(** A command that only asks. *)
Definition isQuery {R} (c : command R) : Prop :=
  match c with GetCapability _ _ _ | NVReadPublic _ | NVRead _ _ _ _ => True | _ => False end.

Lemma query_neutral {R} (c : command R) r : isQuery c → neutral (Ev c r).
Proof. by destruct c. Qed.

#[export] Hint Opaque lift mret mbind map_errS Execute attempt deferring : iks.
#[export] Hint Resolve always_ret always_lift always_Execute always_map_errS always_attempt
  always_bind always_if always_deferring keeps_ret keeps_lift keeps_map_errS keeps_attempt
  keeps_bind keeps_deferring : iks.
#[export] Hint Extern 0 (isQuery _) => exact I : iks.
#[export] Hint Extern 0 (neutral (Ev _ _)) => (split; [reflexivity|intros ?; reflexivity]) : iks.
#[export] Hint Extern 5 (always _ (match ?x with _ => _ end)) => destruct x : iks.

#[export] Hint Extern 5 (keeps _ (match ?x with _ => _ end)) => destruct x : iks.

End Trace.
