(* ===== verification/PolicyDigest.v ===== *)
(** * pkg/tpm/policy_digest.go: recomputing a key's PCR policy without its TPM

    [pcrAlg] and [pcrBankAlg] infer the PCR bank from the digest widths,
    [computePolicyDigestFromPCRs] replays TPM2_PolicyPCR in a calculator, and
    [VerifyPolicyDigest] compares with the public area's policy. The calculator,
    the hash and the unmarshaller are go-tpm's: parameters. *)
From S2P Require Import Prelude Bytes Tpm2.
Import Tpm2.

Module PolicyDigest.

(** [tpm.PCR] and [tpm.PolicyPCRs] (tpm.go). *)
Record PCR := mkPCR { Digest : bytes; Index : Z }.
Abbreviation PolicyPCRs := (list Z).

(** [crypto.Hash.Size()] *)
Definition SHA256_Size : nat := 32.
Definition SHA384_Size : nat := 48.
Definition SHA512_Size : nat := 64.

Section PolicyDigest.
Context `{TPMAlgs}.

Definition pcrAlg (digestLen : nat) : outcome Z :=
  if decide (digestLen = SHA256_Size) then Ok TPMAlgSHA256
  else if decide (digestLen = SHA384_Size) then Ok TPMAlgSHA384
  else if decide (digestLen = SHA512_Size) then Ok TPMAlgSHA512
  else Err (err_fmt "%d byte digest matches no known PCR bank" [AInt (Z.of_nat digestLen)]).

(** The loop over [selectedPCRs[1:]]. *)
Fixpoint pcrBankLoop (firstPCR bankAlg : Z) (rest : list Z) (digests : gmap Z bytes) : outcome Z :=
  match rest with
  | [] => Ok bankAlg
  | idx :: rest =>
    match digests !! idx with
    | None => Err (err_fmt "PCR index %d not found in state" [AInt idx])
    | Some digest =>
      alg ← map_err (λ e, EFmt "PCR index %d: %w" [AInt idx] [e]) (pcrAlg (length digest));
      if decide (alg ≠ bankAlg) then
        Err (err_fmt "PCR index %d is from bank 0x%04x, but PCR index %d is from bank 0x%04x"
               [AInt idx; AInt (u16 alg); AInt firstPCR; AInt (u16 bankAlg)])
      else pcrBankLoop firstPCR bankAlg rest digests
    end
  end.

Definition pcrBankAlg (selectedPCRs : list Z) (digests : gmap Z bytes) : outcome Z :=
  match selectedPCRs with
  | [] => Err (err_msg "policy selects no PCRs")
  | firstPCR :: rest =>
    match digests !! firstPCR with
    | None => Err (err_fmt "PCR index %d not found in state" [AInt firstPCR])
    | Some firstDigest =>
      bankAlg ← map_err (λ e, EFmt "PCR index %d: %w" [AInt firstPCR] [e])
                        (pcrAlg (length firstDigest));
      pcrBankLoop firstPCR bankAlg rest digests
    end
  end.

(** [for _, pcr := range pcrsState { m[pcr.Index] = pcr.Digest }]: the last
    entry of an index wins. *)
Definition pcrDigestByIndex (pcrsState : list PCR) : gmap Z bytes :=
  foldl (λ m p, <[Index p := Digest p]> m) ∅ pcrsState.

(** [for _, idx := range pcrs { hash.Write(digest) }]: what was written. *)
Fixpoint hashWrites (pcrs : list Z) (digests : gmap Z bytes) (written : bytes) : outcome bytes :=
  match pcrs with
  | [] => Ok written
  | idx :: pcrs =>
    match digests !! idx with
    | None => Err (err_fmt "PCR index %d not found in state" [AInt idx])
    | Some digest => hashWrites pcrs digests (written ++ digest)
    end
  end.

(** go-tpm: the policy calculator with [PolicyPCR.Update] and [Hash().Digest],
    [TPMIAlgHash.Hash()] (followed by [New], [Write]s and [Sum]: the digest of
    everything written), the PC Client bitmap, and [Unmarshal[TPMTPublic]]. *)
Context {calc : Type}.
Variables (NewPolicyCalculator : Z → outcome calc)
  (PolicyPCR_Update : calc → TPMLPCRSelection → bytes → outcome calc)
  (calc_Digest : calc → bytes)
  (alg_Hash : Z → outcome (bytes → bytes))
  (PCClientCompatible_PCRs : list Z → bytes)
  (Unmarshal_TPMTPublic : bytes → outcome TPMTPublic).

Definition computePolicyDigestFromPCRs (expectedPCRPolicy : PolicyPCRs) (pcrsState : list PCR)
    (sessionAlg : Z) : outcome bytes :=
  policyCalc ← map_err
    (λ e, EFmt "failed to create policy calculator for session alg 0x%04x: %w"
            [AInt (u16 sessionAlg)] [e]) (NewPolicyCalculator sessionAlg);
  let digests := pcrDigestByIndex pcrsState in
  bankAlg ← map_err (err_wrap "failed to determine PCR bank from attested state: %w")
    (pcrBankAlg expectedPCRPolicy digests);
  let pcrSelection := mkPCRSelection bankAlg (PCClientCompatible_PCRs expectedPCRPolicy) in
  let pcrSelectionList := [pcrSelection] in
  sessionHash ← map_err
    (λ e, EFmt "unsupported policy session hash algorithm 0x%04x: %w" [AInt (u16 sessionAlg)] [e])
    (alg_Hash sessionAlg);
  written ← hashWrites expectedPCRPolicy digests [];
  let pcrDigest := sessionHash written in
  policyCalc ← map_err (err_wrap "failed to update policy calculator: %w")
    (PolicyPCR_Update policyCalc pcrSelectionList pcrDigest);
  Ok (calc_Digest policyCalc).

Definition VerifyPolicyDigest (public : bytes) (expectedPCRPolicy : PolicyPCRs)
    (pcrsState : list PCR) : outcome unit :=
  pub ← map_err (err_wrap "failed to unmarshal public key: %w") (Unmarshal_TPMTPublic public);
  expectedPolicyDigest ← map_err (err_wrap "failed to compute auth policy: %w")
    (computePolicyDigestFromPCRs expectedPCRPolicy pcrsState (NameAlg pub));
  if decide (AuthPolicy pub ≠ expectedPolicyDigest) then
    Err (err_fmt "auth policy mismatch: expected %x, got %x"
           [AStr expectedPolicyDigest; AStr (AuthPolicy pub)])
  else Ok ().

(** ** The bank *)

Lemma pcrAlg_Ok n alg :
  pcrAlg n = Ok alg ↔
  (n = SHA256_Size ∧ alg = TPMAlgSHA256) ∨ (n = SHA384_Size ∧ alg = TPMAlgSHA384) ∨
  (n = SHA512_Size ∧ alg = TPMAlgSHA512).
Proof.
  unfold pcrAlg, SHA256_Size, SHA384_Size, SHA512_Size. repeat case_decide; subst; naive_solver.
Qed.

(** The bank names the width. *)
Lemma pcrAlg_inj `{!TPMAlgsLaws} n m alg : pcrAlg n = Ok alg → pcrAlg m = Ok alg → n = m.
Proof.
  pose proof hash_algs_distinct as (? & ? & ?). rewrite !pcrAlg_Ok.
  intros [[-> ->]|[[-> ->]|[-> ->]]] [[-> He]|[[-> He]|[-> He]]]; congruence.
Qed.

(** The digest of every selected index is present and comes from [alg]'s bank. *)
Definition inBank (alg : Z) (digests : gmap Z bytes) (idx : Z) : Prop :=
  ∃ d, digests !! idx = Some d ∧ pcrAlg (length d) = Ok alg.

Lemma pcrBankLoop_Ok firstPCR bankAlg rest digests alg :
  pcrBankLoop firstPCR bankAlg rest digests = Ok alg ↔
  alg = bankAlg ∧ Forall (inBank bankAlg digests) rest.
Proof.
  induction rest as [|idx rest IH]; cbn [pcrBankLoop].
  { split; [intros [= ->]; done|by intros [-> _]]. }
  rewrite Forall_cons_iff. unfold inBank at 1. destruct (digests !! idx) as [d|]; [|naive_solver].
  rewrite bind_Ok. setoid_rewrite map_err_Ok. split.
  - intros (a & Ha & Hl). case_decide as Hd; [done|]. rewrite Hd in Ha.
    apply IH in Hl as [-> ?]. naive_solver.
  - intros (-> & (? & [= <-] & Hp) & Hf). exists bankAlg. split; [done|].
    rewrite decide_False by naive_solver. by apply IH.
Qed.

Lemma pcrBankLoop_ext firstPCR bankAlg rest d1 d2 :
  Forall (λ idx, d1 !! idx = d2 !! idx) rest →
  pcrBankLoop firstPCR bankAlg rest d1 = pcrBankLoop firstPCR bankAlg rest d2.
Proof.
  induction 1 as [|idx rest Hi _ IH]; cbn [pcrBankLoop]; [done|]. rewrite Hi.
  destruct (d2 !! idx) as [d|]; [|done]. destruct (pcrAlg (length d)); [|done..].
  cbn. by rewrite IH.
Qed.

(** [pcrBankAlg] returns a bank exactly when the policy selects at least
    one PCR and every selected PCR is present in the attested state with a
    digest of that bank's width; every other input is an error. *)
Lemma pcrBankAlg_Ok selectedPCRs digests alg :
  pcrBankAlg selectedPCRs digests = Ok alg ↔
  selectedPCRs ≠ [] ∧ Forall (inBank alg digests) selectedPCRs.
Proof.
  destruct selectedPCRs as [|first rest]; cbn [pcrBankAlg]; [naive_solver|].
  rewrite Forall_cons_iff. unfold inBank at 1.
  destruct (digests !! first) as [d|]; [|naive_solver].
  rewrite bind_Ok. setoid_rewrite map_err_Ok. setoid_rewrite pcrBankLoop_Ok.
  split; [naive_solver|]. intros (_ & (? & [= <-] & ?) & ?). eauto.
Qed.

(** ** The attested state *)

(** The last entry of an index is the one that counts. *)
Lemma pcrDigestByIndex_last pcrsState idx :
  pcrDigestByIndex pcrsState !! idx =
  Digest <$> list.last (base.filter (λ p, Index p = idx) pcrsState).
Proof.
  unfold pcrDigestByIndex. induction pcrsState as [|p l IH] using rev_ind; [done|].
  rewrite foldl_app, list.filter_app. cbn [foldl]. rewrite lookup_insert.
  case_decide as Hi.
  - rewrite filter_cons_True, filter_nil, list.last_snoc by done. done.
  - rewrite filter_cons_False, filter_nil, app_nil_r by done. apply IH.
Qed.

(** The digests of a list of indexes, in its order. *)
Definition digestsOf (digests : gmap Z bytes) (pcrs : list Z) : option bytes :=
  mjoin <$> mapM (λ idx, digests !! idx) pcrs.

Lemma hashWrites_Ok pcrs digests w r :
  hashWrites pcrs digests w = Ok r ↔ ∃ l, digestsOf digests pcrs = Some l ∧ r = w ++ l.
Proof.
  unfold digestsOf. revert w. induction pcrs as [|idx pcrs IH]; intros w; cbn [hashWrites mapM].
  { simpl. rewrite <-(app_nil_r w) at 1. naive_solver. }
  destruct (digests !! idx) as [d|]; [|naive_solver].
  rewrite IH. cbn. destruct (mapM _ pcrs) as [ds|]; cbn; [|by split; intros (? & ? & ?)].
  split; intros (? & [= <-] & ->); eexists; (split; [done|]); by rewrite (assoc_L (++)).
Qed.

Lemma inBank_digestsOf alg digests pcrs :
  Forall (inBank alg digests) pcrs → ∃ l, digestsOf digests pcrs = Some l.
Proof.
  intros Hf. unfold digestsOf. destruct (mapM _ pcrs) eqn:Hm; [eauto|].
  apply mapM_None in Hm. apply Exists_exists in Hm as (idx & Hin & Hn).
  rewrite Forall_forall in Hf. destruct (Hf _ Hin) as (? & ? & ?). congruence.
Qed.

(** Two states with the same concatenation and the same bank agree on every
    selected index. *)
Lemma digestsOf_inj alg d1 d2 pcrs l `{!TPMAlgsLaws} :
  Forall (inBank alg d1) pcrs → Forall (inBank alg d2) pcrs →
  digestsOf d1 pcrs = Some l → digestsOf d2 pcrs = Some l →
  Forall (λ idx, d1 !! idx = d2 !! idx) pcrs.
Proof.
  unfold digestsOf. intros H1. revert l.
  induction H1 as [|idx pcrs (x & Hx & Hpx) H1 IH]; intros l H2 He1 He2; [done|].
  apply Forall_cons_iff in H2 as [(y & Hy & Hpy) H2]. cbn [mapM] in He1, He2.
  rewrite Hx in He1. rewrite Hy in He2. cbn in He1, He2.
  destruct (mapM _ pcrs) as [xs|] eqn:Hxs in He1; [|done].
  destruct (mapM _ pcrs) as [ys|] eqn:Hys in He2; [|done].
  cbn in He1, He2. injection He1 as He1. injection He2 as He2. rewrite <-He1 in He2.
  apply app_inj_1 in He2 as [-> He]; [|by apply (pcrAlg_inj _ _ alg)].
  constructor; [congruence|]. apply (IH (mjoin xs)); rewrite ?Hxs, ?Hys; cbn; by f_equal.
Qed.

(** ** What acceptance means *)

(** The policy the calculator reaches for a key of that name algorithm, over [pol] and [st]. *)
Definition accepts (nameAlg : Z) (authPolicy : bytes) (pol : PolicyPCRs) (st : list PCR) (c : calc) (bank : Z)
    (h : bytes → bytes) (l : bytes) (c' : calc) : Prop :=
  NewPolicyCalculator nameAlg = Ok c ∧ pol ≠ [] ∧
  Forall (inBank bank (pcrDigestByIndex st)) pol ∧
  alg_Hash nameAlg = Ok h ∧ digestsOf (pcrDigestByIndex st) pol = Some l ∧
  PolicyPCR_Update c [mkPCRSelection bank (PCClientCompatible_PCRs pol)] (h l) = Ok c' ∧
  authPolicy = calc_Digest c'.

Lemma computePolicyDigest_Ok pol st alg d :
  computePolicyDigestFromPCRs pol st alg = Ok d ↔
  ∃ c bank h l c', accepts alg d pol st c bank h l c'.
Proof.
  unfold computePolicyDigestFromPCRs, accepts.
  repeat (setoid_rewrite bind_Ok). setoid_rewrite map_err_Ok.
  setoid_rewrite pcrBankAlg_Ok. setoid_rewrite hashWrites_Ok. split.
  - intros (c & Hc & bank & [? ?] & h & Hh & w & (l & ? & ->) & c' & ? & [= <-]).
    by exists c, bank, h, l, c'.
  - intros (c & bank & h & l & c' & ? & ? & ? & ? & ? & ? & ->).
    exists c. split; [done|]. exists bank. split; [done|]. exists h. split; [done|].
    exists l. split; [by exists l|]. by exists c'.
Qed.

Lemma VerifyPolicyDigest_Ok public pol st :
  VerifyPolicyDigest public pol st = Ok () ↔
  ∃ pub c bank h l c', Unmarshal_TPMTPublic public = Ok pub ∧
    accepts (NameAlg pub) (AuthPolicy pub) pol st c bank h l c'.
Proof.
  unfold VerifyPolicyDigest. rewrite bind_Ok. setoid_rewrite map_err_Ok. split.
  - intros (pub & Hu & Hc). apply bind_Ok in Hc as (d & Hd & Heq).
    apply map_err_Ok, computePolicyDigest_Ok in Hd as (c & bank & h & l & c' & Ha).
    case_decide as He; [done|]. exists pub, c, bank, h, l, c'.
    split; [done|]. by subst.
  - intros (pub & c & bank & h & l & c' & Hu & Ha). exists pub. split; [done|].
    apply bind_Ok. exists (AuthPolicy pub). split; [|by rewrite decide_False by naive_solver].
    apply map_err_Ok, computePolicyDigest_Ok. by exists c, bank, h, l, c'.
Qed.

(** C11: [VerifyPolicyDigest] accepts exactly when the public area parses, the
    policy selects PCRs that are all present with digests of one known bank, and
    the public area's policy is the one PolicyPCR computes, under the object's
    own name algorithm, from that bank's selection and the hash of the selected
    digests in the order of the policy. *)
Theorem VerifyPolicyDigest_iff public pol st :
  VerifyPolicyDigest public pol st = Ok () ↔
  ∃ pub c bank h l c', Unmarshal_TPMTPublic public = Ok pub ∧
    accepts (NameAlg pub) (AuthPolicy pub) pol st c bank h l c'.
Proof. apply VerifyPolicyDigest_Ok. Qed.

(** A collision of the session hash, or of the policy calculator. *)
Definition hashCollision (alg : Z) : Prop :=
  ∃ h a b, alg_Hash alg = Ok h ∧ a ≠ b ∧ h a = h b.
Definition policyCollision : Prop :=
  ∃ c s1 s2 x1 x2 c1 c2, (s1, x1) ≠ (s2, x2) ∧ PolicyPCR_Update c s1 x1 = Ok c1 ∧
    PolicyPCR_Update c s2 x2 = Ok c2 ∧ calc_Digest c1 = calc_Digest c2.

(** Two acceptances by one key name the same selection and the same digests. *)
Lemma accepts_agree alg pol pol1 pol2 st1 st2 c1 c2 bank1 bank2 h1 h2 l1 l2 c1' c2' :
  accepts alg pol pol1 st1 c1 bank1 h1 l1 c1' → accepts alg pol pol2 st2 c2 bank2 h2 l2 c2' →
  (bank1 = bank2 ∧ PCClientCompatible_PCRs pol1 = PCClientCompatible_PCRs pol2 ∧ l1 = l2) ∨
  hashCollision alg ∨ policyCollision.
Proof.
  intros (Hc1 & _ & _ & Hh1 & _ & Hu1 & Ha1) (Hc2 & _ & _ & Hh2 & _ & Hu2 & Ha2).
  assert (c1 = c2) as -> by congruence. assert (h1 = h2) as -> by congruence.
  destruct (decide ((mkPCRSelection bank1 (PCClientCompatible_PCRs pol1), h2 l1) =
                    (mkPCRSelection bank2 (PCClientCompatible_PCRs pol2), h2 l2))) as [He|Hne].
  - injection He as -> Hp Hl. destruct (decide (l1 = l2)); [by left|].
    right. left. by exists h2, l1, l2.
  - right. right. do 7 eexists. split; [|split; [exact Hu1|split; [exact Hu2|congruence]]].
    intros [= ? ? ?]. apply Hne. congruence.
Qed.

(** C4: a key binds its PCR values: when the same public area verifies against
    two attested states under the same policy, the two states agree on every
    selected PCR, or they exhibit a collision of the session hash or of the
    policy computation. *)
Theorem VerifyPolicyDigest_binding `{!TPMAlgsLaws} public pol st1 st2 :
  VerifyPolicyDigest public pol st1 = Ok () → VerifyPolicyDigest public pol st2 = Ok () →
  Forall (λ idx, pcrDigestByIndex st1 !! idx = pcrDigestByIndex st2 !! idx) pol ∨
  (∃ alg, hashCollision alg) ∨ policyCollision.
Proof.
  intros (pub & c1 & b1 & h1 & l1 & c1' & Hu & H1)%VerifyPolicyDigest_Ok
         (pub2 & c2 & b2 & h2 & l2 & c2' & Hu2 & H2)%VerifyPolicyDigest_Ok.
  assert (pub2 = pub) as -> by congruence.
  destruct (accepts_agree _ _ _ _ _ _ _ _ _ _ _ _ _ _ _ _ H1 H2) as [(-> & _ & ->)|[?|?]];
    [left|right; left; by exists (NameAlg pub)|right; by right].
  destruct H1 as (_ & _ & Hf1 & _ & Hd1 & _), H2 as (_ & _ & Hf2 & _ & Hd2 & _).
  by apply (digestsOf_inj b2 _ _ _ l2).
Qed.

(** The order of the policy's list matters although the TPM's selection is
    an unordered bitmap: if two lists with the same bitmap verify one public
    area against one state, the concatenations of the digests in the two orders
    are equal, or there is a collision. *)
Theorem VerifyPolicyDigest_order public pol1 pol2 st :
  VerifyPolicyDigest public pol1 st = Ok () → VerifyPolicyDigest public pol2 st = Ok () →
  digestsOf (pcrDigestByIndex st) pol1 = digestsOf (pcrDigestByIndex st) pol2 ∨
  (∃ alg, hashCollision alg) ∨ policyCollision.
Proof.
  intros (pub & c1 & b1 & h1 & l1 & c1' & Hu & H1)%VerifyPolicyDigest_Ok
         (pub2 & c2 & b2 & h2 & l2 & c2' & Hu2 & H2)%VerifyPolicyDigest_Ok.
  assert (pub2 = pub) as -> by congruence.
  destruct (accepts_agree _ _ _ _ _ _ _ _ _ _ _ _ _ _ _ _ H1 H2) as [(-> & _ & ->)|[?|?]];
    [left|right; left; by exists (NameAlg pub)|right; by right].
  destruct H1 as (_ & _ & _ & _ & -> & _), H2 as (_ & _ & _ & _ & -> & _). done.
Qed.

(** Only the selected PCRs count: two attested states that agree on the
    policy's indexes get the same answer, error included. *)
Theorem VerifyPolicyDigest_selected public pol st1 st2 :
  Forall (λ idx, pcrDigestByIndex st1 !! idx = pcrDigestByIndex st2 !! idx) pol →
  VerifyPolicyDigest public pol st1 = VerifyPolicyDigest public pol st2.
Proof.
  intros Hf. unfold VerifyPolicyDigest, computePolicyDigestFromPCRs. cbv zeta.
  assert (pcrBankAlg pol (pcrDigestByIndex st1) = pcrBankAlg pol (pcrDigestByIndex st2)) as ->.
  { destruct Hf as [|first rest Hfirst Hf]; [done|]. cbn [pcrBankAlg]. rewrite Hfirst.
    destruct (pcrDigestByIndex st2 !! first) as [d|]; [|done]. destruct (pcrAlg (length d)); [|done..].
    by apply pcrBankLoop_ext. }
  assert (∀ w, hashWrites pol (pcrDigestByIndex st1) w = hashWrites pol (pcrDigestByIndex st2) w) as Hw.
  { induction Hf as [|idx rest Hi Hf IH]; intros w; cbn [hashWrites]; [done|].
    rewrite Hi. destruct (pcrDigestByIndex st2 !! idx); [apply IH|done]. }
  by rewrite Hw.
Qed.

End PolicyDigest.

(** ** Witnesses: a calculator that records what it is given *)
Module Demo.
Import Tpm2.TCGAlgs.

Definition NewPolicyCalculator (alg : Z) : outcome bytes := Ok (be_bytes 2 alg).
Definition PolicyPCR_Update (c : bytes) (sel : TPMLPCRSelection) (x : bytes) : outcome bytes :=
  Ok (c ++ mjoin ((λ s, be_bytes 2 (sel_Hash s) ++ sel_PCRSelect s) <$> sel) ++ x).
Definition alg_Hash (alg : Z) : outcome (bytes → bytes) := Ok id.
Definition PCRs (pcrs : list Z) : bytes := le_bytes 3 (foldr Z.lor 0%Z ((λ i, 2 ^ i)%Z <$> pcrs)).
Definition Unmarshal_TPMTPublic (b : bytes) : outcome TPMTPublic := Ok (mkTPMTPublic TPMAlgKeyedHash TPMAlgSHA256 (mkAttrs true true false false false false false false) b NoParms NoID).

Definition verify : bytes → PolicyPCRs → list PCR → outcome unit :=
  VerifyPolicyDigest NewPolicyCalculator PolicyPCR_Update id alg_Hash PCRs Unmarshal_TPMTPublic.

Definition ones : bytes := replicate 32 Byte.x01.
Definition twos : bytes := replicate 32 Byte.x02.
Definition state1 : list PCR := [mkPCR twos 0; mkPCR ones 0; mkPCR ones 7; mkPCR twos 3].
Definition state2 : list PCR := [mkPCR ones 7; mkPCR ones 0; mkPCR [] 5].
Definition key (digests : bytes) : bytes :=
  be_bytes 2 TPMAlgSHA256 ++ be_bytes 2 TPMAlgSHA256 ++ PCRs [0; 7]%Z ++ digests.

(** The same digests in the other order: the same bitmap, another policy. *)
Example order_rejected :
  verify (key (ones ++ twos)) [0; 7]%Z [mkPCR ones 0; mkPCR twos 7] = Ok () ∧
  is_Ok (verify (key (ones ++ twos)) [7; 0]%Z [mkPCR ones 0; mkPCR twos 7]) = false.
Proof. split; vm_compute; reflexivity. Qed.

Lemma VerifyPolicyDigest_binding_witness :
  verify (key (ones ++ ones)) [0; 7]%Z state1 = Ok () ∧
  (Forall (λ idx, pcrDigestByIndex state1 !! idx = pcrDigestByIndex state2 !! idx) [0; 7]%Z ∨
   (∃ alg, hashCollision alg_Hash alg) ∨ policyCollision PolicyPCR_Update id).
Proof.
  split; [vm_compute; reflexivity|].
  apply (VerifyPolicyDigest_binding NewPolicyCalculator PolicyPCR_Update id alg_Hash PCRs
           Unmarshal_TPMTPublic (key (ones ++ ones))); vm_compute; reflexivity.
Defined.

Lemma VerifyPolicyDigest_order_witness :
  digestsOf (pcrDigestByIndex state1) [0; 7]%Z = digestsOf (pcrDigestByIndex state1) [7; 0]%Z ∨
  (∃ alg, hashCollision alg_Hash alg) ∨ policyCollision PolicyPCR_Update id.
Proof.
  apply (VerifyPolicyDigest_order NewPolicyCalculator PolicyPCR_Update id alg_Hash PCRs
           Unmarshal_TPMTPublic (key (ones ++ ones))); vm_compute; reflexivity.
Defined.

Lemma VerifyPolicyDigest_selected_witness :
  verify (key (ones ++ ones)) [0; 7]%Z state1 = verify (key (ones ++ ones)) [0; 7]%Z state2.
Proof.
  apply (VerifyPolicyDigest_selected NewPolicyCalculator PolicyPCR_Update id alg_Hash PCRs
           Unmarshal_TPMTPublic).
  repeat constructor; vm_compute; reflexivity.
Defined.
End Demo.

End PolicyDigest.
