(* ===== verification/TpmProps.v ===== *)
(** * pkg/tpm/tpm.go: properties, identity and maintenance commands

    Everything here runs one [GetCapability] per property, or a single
    maintenance command. go-tpm's [tpmutil.Pack]/[Unpack] and its [TPMRC.Is] are
    parameters. *)
From S2P Require Import Prelude Bytes Tpm2 TpmErrors.
Import Tpm2 TpmErrors.

Module Props.

Definition amazonTPMVendor : bytes := str "Amazon".

Definition authHandle (h : Z) (password : bytes) : handle :=
  if decide (password = []) then Handle h else AuthHandle h [] (PasswordAuth password).

(** [TPMPermanentInfo] and [TPMClockInfo] *)
Record TPMPermanentInfo := mkPermanentInfo {
  OwnerAuthSet : bool;
  EndorsementAuthSet : bool;
  LockoutAuthSet : bool;
  DisableClear : bool;
  InLockout : bool;
  TpmGeneratedEPS : bool;
}.
Record TPMClockInfo := mkClockInfo {
  Time : Z;
  Clock : Z;
  ResetCount : Z;
  RestartCount : Z;
}.

(** The trailing NULs of [GetPropertyString]. *)
Fixpoint trimNULs (fuel : nat) (b : bytes) : bytes :=
  match fuel with
  | O => b
  | S fuel =>
    match list.last b with
    | Some Byte.x00 => trimNULs fuel (take (length b - 1) b)
    | _ => b
    end
  end.

(** The model names of [GetModel]. *)
Definition stmModel (fwVer : Z) : bytes :=
  match Z.shiftr fwVer 16 with
  | 0x01%Z => str "ST33TPHF2XSPI"
  | 0x02%Z => str "ST33TPHF2XI2C"
  | 0x09%Z => str "ST33KTPM2X"
  | 0x49%Z => str "ST33TPHF2E"
  | 0x4A%Z => str "ST33TPHF20"
  | _ => str "ST33??????"
  end.

Definition vendorName (vendor : bytes) : bytes :=
  if decide (vendor = str "AMZN") then str "Amazon"
  else if decide (vendor = str "GOOG") then str "Google"
  else if decide (vendor = str "IFX") then str "Infineon"
  else if decide (vendor = str "NTC") then str "Nuvoton"
  else if decide (vendor = str "STM") then str "STMicroelectronics"
  else vendor.

Definition ErrLockoutAuthLocked : string := "tpm.ErrLockoutAuthLocked".
Definition ErrLockoutAuthFailed : string := "tpm.ErrLockoutAuthFailed".

Section Props.
Context {D : Type} `{!Device D} `{!TPMConsts} `{!TPMRCs}.

(** tpmutil: [Pack(uint32)], [Unpack(b, &u64, &u64, &u32, &u32)]; [TPMRC.Is]. *)
Variables (Pack_uint32 : Z → outcome bytes)
  (Unpack_clock : bytes → outcome (Z * Z * Z * Z))
  (TPMRC_Is : Z → Z → bool).

(** [errors.Is(err, rc)] for a response code. *)
Fixpoint errors_Is_RC (target : Z) (e : error) : bool :=
  match e with
  | ERC rc => (rc =? target)%Z || TPMRC_Is rc target
  | EFmt _ _ es | EJoin es => existsb (errors_Is_RC target) es
  | ETpm _ e => errors_Is_RC target e
  | ESentinel _ | EErrno _ | EExt _ => false
  end.

Definition ChangeHierarchyPassword (h : Z) (oldPassword newPassword : bytes) : SM (tpmState D) unit :=
  Execute (HierarchyChangeAuth (authHandle h oldPassword) newPassword).

Definition DoSelfTest : SM (tpmState D) unit :=
  '(_, code) ← Execute (RunCommand TPMSTNoSessions 0x00000143 [true]);
  if decide (code ≠ RCSuccess) then lift (Err (err_fmt "self test failure: %04X" [AInt code]))
  else mret ().

Definition getProperty (prop : Z) : SM (tpmState D) bytes :=
  resp ← map_errS (λ e, EFmt "could not get property %v: %w" [AInt prop] [e])
    (Execute (GetCapability TPMCapTPMProperties prop 1));
  props ← lift (map_err
    (λ e, EFmt "could not read property from capability response data %v: %w" [AInt prop] [e])
    (TPMProperties resp));
  match props with
  | [p] => lift (map_err (err_wrap "failed to pack prop value: %w") (Pack_uint32 (Value p)))
  | _ => lift (Err (err_fmt "expected 1 property, got %d" [AInt (zlen props)]))
  end.

Definition GetPropertyString (prop : Z) : SM (tpmState D) bytes :=
  b ← getProperty prop;
  mret (trimNULs (length b) b).

(** [binary.BigEndian.Uint32(b)]: panics on fewer than four bytes, reads four. *)
Definition BigEndian_Uint32 (b : bytes) : outcome Z :=
  if decide (length b < 4) then Panic IndexOutOfRange else Ok (be_Z (take 4 b)).

Definition GetPropertyUInt32 (prop : Z) : SM (tpmState D) Z :=
  b ← getProperty prop;
  lift (BigEndian_Uint32 b).

(** The loop of [GetModel]: the concatenated values, and the failed properties. *)
Fixpoint modelLoop (properties : list Z) (model : bytes) (errMsgs : list fmt_arg)
    : SM (tpmState D) (bytes * list fmt_arg) :=
  match properties with
  | [] => mret (model, errMsgs)
  | property :: properties =>
    r ← attempt (GetPropertyString property);
    match r with
    | Ok val => modelLoop properties (model ++ val) errMsgs
    | _ => modelLoop properties model (errMsgs ++ [AInt property])
    end
  end.

Definition GetModel : SM (tpmState D) (bytes * bytes) :=
  vendor ← map_errS (err_wrap "could not get vendor: %w") (GetPropertyString TPMPTManufacturer);
  let vendor := TrimSpace vendor in
  let properties :=
    if decide (vendor = str "NTC") then [TPMPTVendorString1; TPMPTVendorString2]
    else [TPMPTVendorString1; TPMPTVendorString2; TPMPTVendorString3; TPMPTVendorString4] in
  '(model, errMsgs) ← modelLoop properties [] [];
  if decide (errMsgs ≠ []) then lift (Err (err_fmt "could not get model: %s" errMsgs)) else
  let model :=
    if decide (vendor = str "NTC" ∧ model = str "rlsNPCT") then str "NPCT65x" else model in
  model ←
    (if decide (vendor = str "STM") then
       if hasPrefix model (str "ST") then mret model
       else
         fwVer ← map_errS (err_wrap "could not get STM firmware version: %w")
           (GetPropertyUInt32 TPMPTFirmwareVersion1);
         mret (stmModel fwVer)
     else mret model);
  mret (vendorName vendor, model).

Definition GetTPMPermanentInfo : SM (tpmState D) TPMPermanentInfo :=
  permProps ← GetPropertyUInt32 TPMPTPermanent;
  let bit n := negb (Z.land permProps (Z.shiftl 1 n) =? 0)%Z in
  mret (mkPermanentInfo (bit 0%Z) (bit 1%Z) (bit 2%Z) (bit 8%Z) (bit 9%Z) (bit 10%Z)).

Definition GetTPMClockInfo : SM (tpmState D) TPMClockInfo :=
  '(respBytes, code) ← Execute (RunCommand TPMSTNoSessions TPMCCReadClock []);
  if decide (code ≠ RCSuccess) then lift (Err (err_fmt "readClock Command failed: %04X" [AInt code]))
  else
    '(t, c, reset, restart) ← lift (map_err
      (err_wrap "failed to unpack readClock Command response: %w") (Unpack_clock respBytes));
    mret (mkClockInfo t c reset restart).

Definition Startup (startupType : Z) : SM (tpmState D) unit := Execute (Tpm2.Startup startupType).
Definition Shutdown (shutdownType : Z) : SM (tpmState D) unit := Execute (Tpm2.Shutdown shutdownType).

Definition Clear (password : bytes) : SM (tpmState D) unit :=
  map_errS (err_wrap "failed to execute Clear command: %w")
    (Execute (Tpm2.Clear (AuthHandle TPMRHLockout [] (PasswordAuth password)))).

Definition DictionaryAttackLockReset (password : bytes) : SM (tpmState D) unit :=
  map_errS (λ err,
    if errors_Is_RC (warnRC RCLockout) err then
      EFmt "%w: %w" [] [ESentinel ErrLockoutAuthLocked; err]
    else if errors_Is_RC (fmt1RC RCAuthFail) err || errors_Is_RC (fmt1RC RCBadAuth) err then
      EFmt "%w: %w" [] [ESentinel ErrLockoutAuthFailed; err]
    else err_wrap "failed to execute DictionaryAttackLockReset command: %w" err)
    (Execute (Tpm2.DictionaryAttackLockReset (AuthHandle TPMRHLockout [] (PasswordAuth password)))).

Definition GetRandomBytes (size : Z) : SM (tpmState D) bytes :=
  map_errS (err_wrap "failed to execute GetRandom command: %w") (Execute (GetRandom size)).

(** ** The errors of the lockout reset *)

(** A failed reset of the dictionary-attack lockout is reported as "locked
    out" exactly when the TPM says LOCKOUT, as "authorization failed" exactly
    when it says AUTH_FAIL or BAD_AUTH and not LOCKOUT, never as both, and the
    TPM's error stays in the chain. *)
Theorem DictionaryAttackLockReset_errors password s e :
  (exec (Tpm2.DictionaryAttackLockReset (AuthHandle TPMRHLockout [] (PasswordAuth password)))
     (device s)).1 = Err e →
  errors_Is ErrLockoutAuthLocked e = false → errors_Is ErrLockoutAuthFailed e = false →
  ∃ e', (DictionaryAttackLockReset password s).1 = Err e' ∧
    errors_Is ErrLockoutAuthLocked e' = errors_Is_RC (warnRC RCLockout) e ∧
    errors_Is ErrLockoutAuthFailed e' = negb (errors_Is_RC (warnRC RCLockout) e) &&
      (errors_Is_RC (fmt1RC RCAuthFail) e || errors_Is_RC (fmt1RC RCBadAuth) e) ∧
    ∀ rc, errors_Is_RC rc e = true → errors_Is_RC rc e' = true.
Proof.
  intros He Hl Hf. unfold DictionaryAttackLockReset. eexists. split.
  { unfold map_errS. rewrite Execute_unfold, He. reflexivity. }
  destruct (errors_Is_RC (warnRC RCLockout) e), (errors_Is_RC (fmt1RC RCAuthFail) e),
    (errors_Is_RC (fmt1RC RCBadAuth) e); cbn; rewrite ?Hl, ?Hf; repeat split; intros rc ->; done.
Qed.

End Props.

(** ** The model *)
Section Model.
Context {D : Type} `{!Device D} `{!TPMConsts}.
Variable (Pack_uint32 : Z → outcome bytes).
Hypothesis Pack_uint32_be : ∀ v, Pack_uint32 v = Ok (be_bytes 4 v).

(** A TPM that reports the property values [val], one per command. *)
Definition PropsDevice (Inv : D → Prop) (val : Z → Z) : Prop :=
  ∀ d p, Inv d → ∃ cap q d', exec (GetCapability TPMCapTPMProperties p 1) d = (Ok cap, d') ∧
    TPMProperties cap = Ok [mkProperty q (val p)] ∧ (0 ≤ val p < 2 ^ 32)%Z ∧ Inv d'.

(** A property as text. *)
Definition propString (val : Z → Z) (p : Z) : bytes := trimNULs 4 (be_bytes 4 (val p)).

(** The model: the vendor strings, except for two vendors' old parts. *)
Definition modelOf (val : Z → Z) (vendor : bytes) : bytes :=
  let strings :=
    if decide (vendor = str "NTC")
    then propString val TPMPTVendorString1 ++ propString val TPMPTVendorString2
    else propString val TPMPTVendorString1 ++ propString val TPMPTVendorString2 ++
         propString val TPMPTVendorString3 ++ propString val TPMPTVendorString4 in
  if decide (vendor = str "NTC") then
    if decide (strings = str "rlsNPCT") then str "NPCT65x" else strings
  else if decide (vendor = str "STM") then
    if hasPrefix strings (str "ST") then strings else stmModel (val TPMPTFirmwareVersion1)
  else strings.

Lemma getProperty_Ok Inv val p s : PropsDevice Inv val → Inv (device s) →
  ∃ s', getProperty Pack_uint32 p s = (Ok (be_bytes 4 (val p)), s') ∧ Inv (device s') ∧
    (0 ≤ val p < 2 ^ 32)%Z.
Proof.
  intros Hdev Hinv. destruct (Hdev _ p Hinv) as (cap & q & d' & He & Hp & Hv & Hi).
  eexists (mkState d' _). split; [|by split]. unfold getProperty. step_ok He. step_lift Hp.
  cbn [Value]. rewrite Pack_uint32_be. reflexivity.
Qed.

Lemma GetPropertyString_Ok Inv val p s : PropsDevice Inv val → Inv (device s) →
  ∃ s', GetPropertyString Pack_uint32 p s = (Ok (propString val p), s') ∧ Inv (device s').
Proof.
  intros Hdev Hinv. destruct (getProperty_Ok _ _ p _ Hdev Hinv) as (s' & He & Hi & _).
  exists s'. split; [|done]. unfold GetPropertyString. erewrite SM_bind_step by exact He.
  unfold propString. by rewrite length_be_bytes.
Qed.

Lemma GetPropertyUInt32_Ok Inv val p s : PropsDevice Inv val → Inv (device s) →
  ∃ s', GetPropertyUInt32 Pack_uint32 p s = (Ok (val p), s') ∧ Inv (device s').
Proof.
  intros Hdev Hinv. destruct (getProperty_Ok _ _ p _ Hdev Hinv) as (s' & He & Hi & Hv).
  exists s'. split; [|done]. unfold GetPropertyUInt32. erewrite SM_bind_step by exact He.
  unfold BigEndian_Uint32, lift. rewrite decide_False by (rewrite length_be_bytes; lia).
  rewrite <-(length_be_bytes 4 (val p)) at 1. rewrite take_ge by done.
  rewrite be_Z_be_bytes, Z.mod_small; [done|]. exact Hv.
Qed.

Lemma modelLoop_Ok Inv val ps model errs s : PropsDevice Inv val → Inv (device s) →
  ∃ s', modelLoop Pack_uint32 ps model errs s = (Ok (model ++ mjoin (propString val <$> ps), errs), s') ∧
    Inv (device s').
Proof.
  intros Hdev. revert model s. induction ps as [|p ps IH]; intros model s Hinv; cbn [modelLoop].
  { exists s. cbn. by rewrite app_nil_r. }
  destruct (GetPropertyString_Ok _ _ p _ Hdev Hinv) as (s1 & He & Hi).
  destruct (IH (model ++ propString val p) s1 Hi) as (s' & Hl & Hi').
  exists s'. split; [|done]. erewrite SM_bind_step by (unfold attempt; rewrite He; reflexivity).
  cbv beta iota. rewrite Hl. cbn. by rewrite <-(assoc_L (++)).
Qed.

(** On a TPM that reports its properties, [GetModel] succeeds with the
    vendor's name and the model: its vendor strings concatenated (two for Nuvoton,
    four otherwise), the old Nuvoton part by its known name, and an STM part
    without an ASCII name by its firmware's major version. *)
Theorem GetModel_spec Inv val s : PropsDevice Inv val → Inv (device s) →
  let vendor := TrimSpace (propString val TPMPTManufacturer) in
  (GetModel Pack_uint32 s).1 = Ok (vendorName vendor, modelOf val vendor).
Proof.
  intros Hdev Hinv vendor. unfold GetModel, modelOf.
  destruct (GetPropertyString_Ok _ _ TPMPTManufacturer _ Hdev Hinv) as (s1 & He1 & Hi1).
  step_ok He1. fold vendor. cbv zeta. clearbody vendor.
  set (ps := if decide (vendor = str "NTC") then _ else _).
  destruct (modelLoop_Ok _ _ ps [] [] _ Hdev Hi1) as (s2 & He2 & Hi2).
  step_ok He2. rewrite decide_False by (intros []; done). subst ps. cbn [app].
  destruct (decide (vendor = str "NTC")) as [->|Hn]; cbn [fmap list_fmap mjoin list_join]; rewrite app_nil_r.
  - rewrite decide_False by done. case_decide; case_decide; naive_solver.
  - rewrite (decide_False (P := vendor = str "NTC" ∧ _)) by tauto. case_decide as Hs; [|done].
    destruct (hasPrefix _ _); [done|].
    destruct (GetPropertyUInt32_Ok _ _ TPMPTFirmwareVersion1 _ Hdev Hi2) as (s3 & He3 & _).
    rewrite SM_bind_assoc. step_ok He3. done.
Qed.
End Model.

End Props.
