(* ===== verification/TpmNV.v ===== *)
(** * pkg/tpm/tpm.go: NV storage

    The operations on NV indexes. [ReadFromNVStorage] reads in blocks of the
    size the TPM reports; its loop takes fuel. [NVIndexDevice] is what a TPM
    with a defined index promises, and the block-wise read returns exactly the
    index's content against it. *)
From S2P Require Import Prelude Bytes Tpm2.
Import Tpm2.

Module NV.

Inductive NVIndexStatus := NVIndexUnknown | NVIndexValid | NVIndexUndefined | NVIndexNotWritten.

Section NV.
Context {D : Type} `{!Device D} `{!TPMAlgs} `{!TPMConsts}.

(** [readFunc] of [ReadFromNVStorage]: the index authorizes itself by password. *)
Definition readFunc (h : Z) (password : bytes) (size offset : Z) : SM (tpmState D) bytes :=
  map_errS (err_wrap "failed to execute NVRead command: %w")
    (Execute (NVRead (AuthHandle h [Byte.x00] (PasswordAuth password)) (NamedHandle h []) size offset)).

(** [for len(buffer) < int(dataSize)] *)
Fixpoint readLoop (fuel : nat) (h : Z) (password : bytes) (maxBlockSize dataSize : Z) (buffer : bytes)
    : SM (tpmState D) bytes :=
  if decide (zlen buffer < dataSize)%Z then
    match fuel with
    | O => lift (Panic OutOfFuel)
    | S fuel =>
      let readSize := Z.min (u16 maxBlockSize) (u16 (dataSize - u16 (zlen buffer))) in
      data ← map_errS (λ e, EFmt "failed to read data from NV index %v, offset %v: %w"
                              [AInt h; AInt (zlen buffer)] [e])
        (readFunc h password readSize (u16 (zlen buffer)));
      readLoop fuel h password maxBlockSize dataSize (buffer ++ data)
    end
  else mret buffer.

Definition ReadFromNVStorage (fuel : nat) (h : Z) (password : bytes) : SM (tpmState D) bytes :=
  getCapResp ← map_errS (λ e,
      EFmt "could not execute GetCapabilty(TPMCapTPMProperties) command, property %v: %w"
        [AInt TPMPTNVBufferMax] [e])
    (Execute (GetCapability TPMCapTPMProperties TPMPTNVBufferMax 1));
  props ← lift (map_err (err_wrap "could not read TPM properties: %w") (TPMProperties getCapResp));
  match props with
  | [] => lift (Panic IndexOutOfRange)
  | p :: _ =>
    let maxBlockSize := Value p in
    pub ← map_errS (err_wrap "failed to execute NVPublicRead command: %w") (Execute (NVReadPublic h));
    public ← lift (map_err (err_wrap "failed to read NV public area: %w") (Contents pub));
    readLoop fuel h password maxBlockSize (DataSize public) []
  end.

Definition WriteToNVStorage (h : Z) (data password : bytes) : SM (tpmState D) unit :=
  Execute (NVWrite (AuthHandle h [Byte.x00] (PasswordAuth password)) (NamedHandle h []) data 0).

Definition MaxHandleCount : Z := 0x01000000.

Definition GetHandles (handleType : Z) : SM (tpmState D) (list Z) :=
  resp ← map_errS (err_wrap "failed to execute GetCapabilities command reading NV handles: %w")
    (Execute (GetCapability TPMCapHandles (u32 (Z.shiftl handleType 24)) MaxHandleCount));
  lift (map_err (err_wrap "failed to read Handles from command response: %w") (Handles resp)).

Definition NVHandleExists (h : Z) : SM (tpmState D) bool :=
  handles ← GetHandles TPMHTNVIndex;
  mret (bool_decide (h ∈ handles)).

Definition CheckNVHandle (h : Z) (dataSize : Z) : SM (tpmState D) NVIndexStatus :=
  resp ← map_errS (err_wrap "failed to execute NVPublicRead command: %w") (Execute (NVReadPublic h));
  nvPublic ← lift (map_err (err_wrap "failed to read NV public area: %w") (Contents resp));
  if decide (0 ≤ dataSize ∧ DataSize nvPublic ≠ u16 dataSize)%Z then
    lift (Err (err_fmt "invalid NV index size. Expected %v found %v"
                 [AInt dataSize; AInt (DataSize nvPublic)]))
  else if negb (Written nvPublic) then mret NVIndexNotWritten
  else mret NVIndexValid.

Definition NVStorageStatus (h : Z) (dataSize : Z) : SM (tpmState D) NVIndexStatus :=
  exists_ ← NVHandleExists h;
  if negb exists_ then mret NVIndexUndefined else CheckNVHandle h dataSize.

Definition DefineNVStorage (h : Z) (password : bytes) (size : Z) : SM (tpmState D) unit :=
  Execute (NVDefineSpace TPMRHOwner password
    (mkNVPublic h TPMAlgSHA256 true true false [] size)).

Definition InitNVStorage (h : Z) (password : bytes) (size : Z) : SM (tpmState D) unit :=
  exists_ ← NVHandleExists h;
  if negb exists_ then DefineNVStorage h password size else mret ().

(** ** What a TPM promises about an index *)

(** In every state of [Inv], index [h] holds [content], is readable with
    [password], and the TPM reports [max] as its NV buffer size. As TPM2_NV_Read
    has it, nothing is promised of a read of more than [max] bytes (the TPM
    answers TPM_RC_VALUE) or past the end of the index (TPM_RC_NV_RANGE); any other
    read returns some of the bytes asked for, at least one if one was asked for. *)
Record NVIndexDevice (Inv : D → Prop) (h : Z) (password : bytes) (max : Z) (content : bytes) := {
  nv_max_nonneg : (0 ≤ max)%Z;
  nv_max d : Inv d → ∃ cap pr rest d',
    exec (GetCapability TPMCapTPMProperties TPMPTNVBufferMax 1) d = (Ok cap, d') ∧
    TPMProperties cap = Ok (pr :: rest) ∧ Value pr = max ∧ Inv d';
  nv_public d : Inv d → ∃ pub p d',
    exec (NVReadPublic h) d = (Ok pub, d') ∧ Contents pub = Ok p ∧ DataSize p = zlen content ∧ Inv d';
  nv_read d size offset : Inv d → (0 ≤ size < 2 ^ 16)%Z → (size ≤ max)%Z →
    (0 ≤ offset)%Z → (offset + size ≤ zlen content)%Z →
    ∃ n d', exec (NVRead (AuthHandle h [Byte.x00] (PasswordAuth password)) (NamedHandle h []) size offset) d
      = (Ok (take n (drop (Z.to_nat offset) content)), d') ∧
      n ≤ Z.to_nat size ∧ ((0 < size)%Z → 0 < n) ∧ Inv d';
}.

Lemma u16_le z : (0 ≤ z)%Z → (u16 z ≤ z)%Z.
Proof. intros. unfold u16, wrap. apply Z.mod_le; lia. Qed.

Lemma readLoop_correct Inv h password max content fuel buffer s :
  NVIndexDevice Inv h password max content → (0 < u16 max)%Z → (zlen content < 2 ^ 16)%Z →
  Inv (device s) → buffer `prefix_of` content → length content - length buffer ≤ fuel →
  ∃ s', readLoop fuel h password max (zlen content) buffer s = (Ok content, s') ∧ Inv (device s').
Proof.
  intros Hdev Hmax Hlen. revert buffer s.
  induction fuel as [|fuel IH]; intros buffer s Hinv [k ->] Hf; cbn [readLoop];
    rewrite length_app in Hf; case_decide as Hlt; rewrite length_app, Nat2Z.inj_add in Hlt;
    try (destruct k; [exists s; by rewrite app_nil_r|]; cbn [length] in Hlt; lia).
  - lia.
  - rewrite length_app, Nat2Z.inj_add in Hlen.
    rewrite (wrap_small _ (zlen buffer)) by lia.
    set (size := Z.min _ _).
    assert (0 < size < 2 ^ 16 ∧ size ≤ u16 max ∧ size ≤ zlen k)%Z as (Hsize & Hblock & Hrest).
    { subst size. rewrite length_app, Nat2Z.inj_add, (wrap_small 16 (_ - _)) by lia. lia. }
    destruct (nv_read _ _ _ _ _ Hdev (device s) size (zlen buffer)) as (n & d' & He & Hn & Hpos & Hinv');
      [done|lia|by etrans; [|apply u16_le, (nv_max_nonneg _ _ _ _ _ Hdev)]|lia|rewrite length_app; lia|].
    unfold readFunc. step_ok He. apply IH; cbn [device].
    + done.
    + rewrite Nat2Z.id, drop_app_length. exists (drop n k).
      by rewrite <-(assoc_L (++)), take_drop.
    + rewrite Nat2Z.id, drop_app_length, !length_app, length_take.
      specialize (Hpos (proj1 Hsize)). lia.
Qed.

Lemma readLoop_stuck Inv h password max content fuel s :
  NVIndexDevice Inv h password max content → u16 max = 0%Z → content ≠ [] →
  Inv (device s) → (readLoop fuel h password max (zlen content) [] s).1 = Panic OutOfFuel.
Proof.
  intros Hdev Hmax Hne. revert s.
  induction fuel as [|fuel IH]; intros s Hinv; cbn [readLoop];
    rewrite decide_True by (destruct content; [done|cbn; lia]); [done|].
  rewrite Hmax, Z.min_l by (apply wrap_range; lia).
  change (u16 (zlen (@nil byte))) with 0%Z.
  destruct (nv_read _ _ _ _ _ Hdev (device s) 0 0) as (n & d' & He & Hn & _ & Hinv');
    [done|lia|apply (nv_max_nonneg _ _ _ _ _ Hdev)|lia|lia|].
  unfold readFunc. step_ok He. assert (n = 0) as -> by lia. by apply IH.
Qed.

(** The calls before the loop. *)
Lemma ReadFromNVStorage_loop Inv h password max content fuel s :
  NVIndexDevice Inv h password max content → Inv (device s) →
  ∃ s', Inv (device s') ∧
    ReadFromNVStorage fuel h password s = readLoop fuel h password max (zlen content) [] s'.
Proof.
  intros Hdev Hinv. destruct (nv_max _ _ _ _ _ Hdev _ Hinv) as (cap & pr & rest & d1 & He1 & Hp & Hv & Hi1).
  unfold ReadFromNVStorage. step_ok He1. step_lift Hp. cbv zeta. rewrite Hv.
  destruct (nv_public _ _ _ _ _ Hdev _ Hi1) as (pub & p & d2 & He2 & Hc & Hs & Hi2).
  eexists. split; [|step_ok He2; step_lift Hc; by rewrite Hs]. done.
Qed.

Lemma ReadFromNVStorage_Ok Inv h password max content fuel s :
  NVIndexDevice Inv h password max content → Inv (device s) →
  (0 < u16 max)%Z → (zlen content < 2 ^ 16)%Z → length content ≤ fuel →
  ∃ s', ReadFromNVStorage fuel h password s = (Ok content, s') ∧ Inv (device s').
Proof.
  intros Hdev Hinv Hmax Hlen Hf.
  destruct (ReadFromNVStorage_loop _ _ _ _ _ fuel _ Hdev Hinv) as (s' & Hi & ->).
  apply (readLoop_correct Inv); [done..|apply prefix_nil|cbn; lia].
Qed.

(** C14: reading an NV index terminates and returns exactly its content, from a TPM
    that need only answer reads of at most the block size it reports that stay
    inside the index, and may answer any of them with fewer bytes: whatever that
    block size is, as long as its low 16 bits are not all zero; one iteration per
    byte is enough. *)
Theorem ReadFromNVStorage_correct Inv h password max content fuel s :
  NVIndexDevice Inv h password max content → Inv (device s) →
  (0 < u16 max)%Z → (zlen content < 2 ^ 16)%Z → length content ≤ fuel →
  (ReadFromNVStorage fuel h password s).1 = Ok content.
Proof. intros. edestruct ReadFromNVStorage_Ok as (s' & -> & _); eauto. Qed.

(** C39: a TPM that reports a block size whose low 16 bits are zero (0 or 65536,
    say) makes the read of any non-empty index loop forever: no amount of fuel
    gives a result. *)
Theorem ReadFromNVStorage_diverges Inv h password max content fuel s :
  NVIndexDevice Inv h password max content → Inv (device s) →
  u16 max = 0%Z → content ≠ [] →
  (ReadFromNVStorage fuel h password s).1 = Panic OutOfFuel.
Proof.
  intros Hdev Hinv Hmax Hne.
  destruct (ReadFromNVStorage_loop _ _ _ _ _ fuel _ Hdev Hinv) as (s' & Hi & ->).
  by apply (readLoop_stuck Inv).
Qed.

Lemma NVHandleExists_Ok h s b s' :
  NVHandleExists h s = (Ok b, s') →
  ∃ cap hs, exec (GetCapability TPMCapHandles (u32 (Z.shiftl TPMHTNVIndex 24)) MaxHandleCount)
      (device s) = (Ok cap, device s') ∧ Handles cap = Ok hs ∧ b = bool_decide (h ∈ hs) ∧
      length (trace s') = length (trace s) + 1.
Proof.
  unfold NVHandleExists, GetHandles.
  intros (hs & s1 & (cap & s2 & He%map_errS_Ok_inv & Hh)%SM_bind_Ok & Hb)%SM_bind_Ok.
  injection Hh as Hh%map_err_Ok <-. injection Hb as <- <-. rewrite Execute_unfold in He.
  injection He as He <-. exists cap, hs. cbn [device trace]. rewrite length_app. cbn.
  split_and!; [|done..]. by destruct (exec _ _); simplify_eq/=.
Qed.

Lemma CheckNVHandle_Ok h n s st :
  (CheckNVHandle h n s).1 = Ok st ↔
  ∃ pub p, (exec (NVReadPublic h) (device s)).1 = Ok pub ∧ Contents pub = Ok p ∧
    ((0 ≤ n)%Z → DataSize p = (n mod 2 ^ 16)%Z) ∧
    st = (if Written p then NVIndexValid else NVIndexNotWritten).
Proof.
  unfold CheckNVHandle. rewrite SM_bind_fst_Ok. setoid_rewrite map_errS_fst_Ok.
  rewrite Execute_fst. setoid_rewrite SM_bind_fst_Ok. setoid_rewrite map_err_Ok.
  split.
  - intros (pub & He & p & Hc & Hst). exists pub, p. do 2 (split; [done|]).
    case_decide; [done|]. fold (u16 n). destruct (Written p); cbn in Hst; simplify_eq;
      (split; [intros; destruct (decide (DataSize p = u16 n)); tauto|done]).
  - intros (pub & p & He & Hc & Hn & ->). exists pub. split; [done|]. exists p. split; [done|].
    rewrite decide_False by (intros [? []]; auto). by destruct (Written p).
Qed.

(** The status of an index: undefined exactly when it is not among the NV
    handles; otherwise its written bit, provided the expected size is negative or
    agrees with the index's size modulo 2^16. *)
Theorem NVStorageStatus_spec h n s st :
  (NVStorageStatus h n s).1 = Ok st ↔
  ∃ cap hs d', exec (GetCapability TPMCapHandles (u32 (Z.shiftl TPMHTNVIndex 24)) MaxHandleCount)
      (device s) = (Ok cap, d') ∧ Handles cap = Ok hs ∧
    (((h ∉ hs) ∧ st = NVIndexUndefined) ∨
     (h ∈ hs ∧ ∃ pub p, (exec (NVReadPublic h) d').1 = Ok pub ∧ Contents pub = Ok p ∧
        ((0 ≤ n)%Z → DataSize p = (n mod 2 ^ 16)%Z) ∧
        st = (if Written p then NVIndexValid else NVIndexNotWritten))).
Proof.
  unfold NVStorageStatus. rewrite SM_bind_fst_Ok. split.
  - intros (b & Hb & Hst). destruct (NVHandleExists h s) as [r s1] eqn:Hex. cbn in Hb, Hst. subst r.
    apply NVHandleExists_Ok in Hex as (cap & hs & He & Hh & -> & Hd). exists cap, hs, (device s1).
    do 2 (split; [done|]). case_bool_decide; cbn in Hst; [right|left; naive_solver].
    split; [done|]. by apply CheckNVHandle_Ok.
  - intros (cap & hs & d' & He & Hh & Hcase). exists (bool_decide (h ∈ hs)).
    assert (∃ s1, NVHandleExists h s = (Ok (bool_decide (h ∈ hs)), s1) ∧ device s1 = d') as (s1 & -> & <-).
    { eexists (mkState d' _). split; [|done]. unfold NVHandleExists, GetHandles.
      rewrite SM_bind_assoc. step_ok He. by step_lift Hh. }
    split; [done|]. case_bool_decide; cbn.
    + destruct Hcase as [[]|[_ ?]]; [done|]. by apply CheckNVHandle_Ok.
    + naive_solver.
Qed.

End NV.

End NV.
