(* ===== verification/NVStore.v ===== *)
(** * The NV storage as a store of indexes

    The abstract specification of the NV operations of pkg/tpm/tpm.go: a map from
    handles to indexes, and what each operation may answer and do to it
    ([nvStep]); and the refinement: any sequence of calls on a TPM whose NV
    commands act on such a store behaves as the specification says. *)
From stdpp Require Import sorting.
From S2P Require Import Prelude Bytes Tpm2 Trace TpmNV.
Import Tpm2 Trace NV.

Module NVStore.

(** ** The specification *)

(** An NV index: its authorization value, what its attributes allow with it, the
    written bit, and its bytes. *)
Record entry := mkEntry {
  auth : bytes;
  authRead : bool;
  authWrite : bool;
  written : bool;
  content : bytes;
}.
Abbreviation store := (gmap Z entry).

Inductive op :=
  | OpStatus (h dataSize : Z)
  | OpInit (h : Z) (password : bytes) (size : Z)
  | OpWrite (h : Z) (data password : bytes)
  | OpRead (h : Z) (password : bytes).

Inductive reply :=
  | Done
  | Status (st : NVIndexStatus)
  | Data (b : bytes)
  | Failed.

(** A new index, as DefineNVStorage asks for it; its bytes are not specified. *)
Definition fresh (password : bytes) (size : Z) (e : entry) : Prop :=
  auth e = password ∧ authRead e = true ∧ authWrite e = true ∧ written e = false ∧ zlen (content e) = size.

(** A write from offset 0 replaces the first bytes. *)
Definition overwrite (data : bytes) (e : entry) : entry :=
  mkEntry (auth e) (authRead e) (authWrite e) true (data ++ drop (length data) (content e)).

Definition readable (password : bytes) (e : entry) : Prop :=
  auth e = password ∧ authRead e = true ∧ written e = true.
(** [max] is the largest block the TPM takes. *)
Definition writable (max : Z) (data password : bytes) (e : entry) : Prop :=
  auth e = password ∧ authWrite e = true ∧ (zlen data ≤ max)%Z ∧ (length data ≤ length (content e)).
#[export] Instance readable_dec password e : Decision (readable password e).
Proof. apply _. Defined.
#[export] Instance writable_dec max data password e : Decision (writable max data password e).
Proof. apply _. Defined.

(** The handles of the indexes, in the order TPM2_GetCapability lists them. *)
Definition handles (σ : store) : list Z := merge_sort Z.le (elements (dom σ)).

Lemma elem_of_handles σ h : h ∈ handles σ ↔ is_Some (σ !! h).
Proof. unfold handles. by rewrite merge_sort_Permutation, elem_of_elements, elem_of_dom. Qed.
Lemma length_handles σ : length (handles σ) = size σ.
Proof. unfold handles. by rewrite merge_sort_Permutation, <-size_dom. Qed.

(** What an operation may answer on a store, and the store after it. The TPM may
    refuse to define an index, for want of space. *)
Inductive nvStep (max : Z) (σ : store) : op → reply → store → Prop :=
  | status_undefined h n : σ !! h = None → nvStep max σ (OpStatus h n) (Status NVIndexUndefined) σ
  | status_size h n e : σ !! h = Some e → (0 ≤ n)%Z → zlen (content e) ≠ (n mod 2 ^ 16)%Z →
      nvStep max σ (OpStatus h n) Failed σ
  | status_known h n e : σ !! h = Some e → ((0 ≤ n)%Z → zlen (content e) = (n mod 2 ^ 16)%Z) →
      nvStep max σ (OpStatus h n) (Status (if written e then NVIndexValid else NVIndexNotWritten)) σ
  | init_present h password size e : σ !! h = Some e → nvStep max σ (OpInit h password size) Done σ
  | init_new h password size e : σ !! h = None → fresh password size e →
      nvStep max σ (OpInit h password size) Done (<[h := e]> σ)
  | init_refused h password size : σ !! h = None → nvStep max σ (OpInit h password size) Failed σ
  | write_done h data password e : σ !! h = Some e → writable max data password e →
      nvStep max σ (OpWrite h data password) Done (<[h := overwrite data e]> σ)
  | write_undefined h data password : σ !! h = None → nvStep max σ (OpWrite h data password) Failed σ
  | write_refused h data password e : σ !! h = Some e → ¬ writable max data password e →
      nvStep max σ (OpWrite h data password) Failed σ
  | read_done h password e : σ !! h = Some e → readable password e →
      nvStep max σ (OpRead h password) (Data (content e)) σ
  (** nothing is asked of the TPM for an index without bytes *)
  | read_empty h password e : σ !! h = Some e → content e = [] → nvStep max σ (OpRead h password) (Data []) σ
  | read_undefined h password : σ !! h = None → nvStep max σ (OpRead h password) Failed σ
  | read_refused h password e : σ !! h = Some e → ¬ readable password e → content e ≠ [] →
      nvStep max σ (OpRead h password) Failed σ.

Inductive nvSteps (max : Z) : store → list op → list reply → store → Prop :=
  | steps_nil σ : nvSteps max σ [] [] σ
  | steps_cons σ σ' σ'' o r os rs : nvStep max σ o r σ' → nvSteps max σ' os rs σ'' →
      nvSteps max σ (o :: os) (r :: rs) σ''.

(** ** The code *)
Section Code.
Context {D : Type} `{!Device D} `{!TPMAlgs} `{!TPMConsts}.

(** A call and its answer, the error itself left out. *)
Definition answer {A} (m : SM (tpmState D) A) (f : A → reply) : SM (tpmState D) reply := λ s,
  match m s with
  | (Ok a, s) => (Ok (f a), s)
  | (Err _, s) => (Ok Failed, s)
  | (Panic p, s) => (Panic p, s)
  end.

Definition run (fuel : nat) (o : op) : SM (tpmState D) reply :=
  match o with
  | OpStatus h n => answer (NVStorageStatus h n) Status
  | OpInit h password size => answer (InitNVStorage h password size) (λ _, Done)
  | OpWrite h data password => answer (WriteToNVStorage h data password) (λ _, Done)
  | OpRead h password => answer (ReadFromNVStorage fuel h password) Data
  end.

Fixpoint runs (fuel : nat) (os : list op) : SM (tpmState D) (list reply) :=
  match os with
  | [] => mret []
  | o :: os => r ← run fuel o; rs ← runs fuel os; mret (r :: rs)
  end.

(** ** The TPM's side *)

(** The device's NV commands act on the store [view d]: the public areas,
    definitions, reads and writes authorized by the index's own password. One
    response lists no more than the first [maxHandles] handles; the code does not
    ask for the others. Of a read, TPM2_NV_Read promises nothing when more than
    [max] bytes are asked for or when it ends past the index. *)
Class NVDevice (view : D → store) (max : Z) (maxHandles : nat) := {
  dev_max_nonneg : (0 ≤ max)%Z;
  dev_max d : ∃ cap pr rest d', exec (GetCapability TPMCapTPMProperties TPMPTNVBufferMax 1) d = (Ok cap, d') ∧
    TPMProperties cap = Ok (pr :: rest) ∧ Value pr = max ∧ view d' = view d;
  dev_handles d : ∃ cap hs d',
    exec (GetCapability TPMCapHandles (u32 (Z.shiftl TPMHTNVIndex 24)) MaxHandleCount) d = (Ok cap, d') ∧
    Handles cap = Ok hs ∧ hs = take maxHandles (handles (view d)) ∧ view d' = view d;
  dev_public d h : ∃ r d', exec (NVReadPublic h) d = (r, d') ∧ view d' = view d ∧
    match view d !! h with
    | Some e => ∃ pub p, r = Ok pub ∧ Contents pub = Ok p ∧ DataSize p = zlen (content e) ∧ Written p = written e
    | None => ∃ err, r = Err err
    end;
  dev_define d h password size : view d !! h = None → (0 ≤ size < 2 ^ 16)%Z → ∃ r d',
    exec (NVDefineSpace TPMRHOwner password (mkNVPublic h TPMAlgSHA256 true true false [] size)) d = (r, d') ∧
    ((∃ err, r = Err err ∧ view d' = view d) ∨
     (∃ e, r = Ok () ∧ fresh password size e ∧ view d' = <[h := e]> (view d)));
  dev_write d h password data : ∃ r d',
    exec (NVWrite (AuthHandle h [Byte.x00] (PasswordAuth password)) (NamedHandle h []) data 0) d = (r, d') ∧
    match view d !! h with
    | Some e => if decide (writable max data password e) then r = Ok () ∧ view d' = <[h := overwrite data e]> (view d)
                else (∃ err, r = Err err) ∧ view d' = view d
    | None => (∃ err, r = Err err) ∧ view d' = view d
    end;
  dev_read d h password size offset e : view d !! h = Some e → (0 ≤ size < 2 ^ 16)%Z → (size ≤ max)%Z →
    (0 ≤ offset)%Z → (offset + size ≤ zlen (content e))%Z →
    ∃ r d',
    exec (NVRead (AuthHandle h [Byte.x00] (PasswordAuth password)) (NamedHandle h []) size offset) d = (r, d') ∧
    view d' = view d ∧
    if decide (readable password e)
    then ∃ n, r = Ok (take n (drop (Z.to_nat offset) (content e))) ∧ n ≤ Z.to_nat size ∧ ((0 < size)%Z → 0 < n)
    else ∃ err, r = Err err;
}.

(** The size of an index is a 16-bit number. *)
Definition small (σ : store) : Prop := map_Forall (λ _ e, zlen (content e) < 2 ^ 16)%Z σ.
Definition fits (o : op) : Prop := match o with OpInit _ _ size => (0 ≤ size < 2 ^ 16)%Z | _ => True end.

(** How many indexes a sequence of calls may add. *)
Definition isInit (o : op) : bool := match o with OpInit _ _ _ => true | _ => false end.
Definition inits (os : list op) : nat := length (filter isInit os).

Context (view : D → store) (max : Z) (maxHandles : nat) `{!NVDevice view max maxHandles}.
Context (Hmax : (0 < u16 max)%Z).

(** A call that answers as the specification allows. *)
Definition allowed (o : op) (m : SM (tpmState D) reply) : Prop := ∀ s, fits o → small (view (device s)) → size (view (device s)) ≤ maxHandles →
  ∃ r s', m s = (Ok r, s') ∧ nvStep max (view (device s)) o r (view (device s')).

Lemma NVHandleExists_listed h s : ∃ s', view (device s') = view (device s) ∧
  NVHandleExists h s = (Ok (bool_decide (h ∈ take maxHandles (handles (view (device s))))), s').
Proof.
  destruct (dev_handles (device s)) as (cap & hs & d' & He & Hh & -> & Hv).
  eexists (mkState d' _). split; [exact Hv|]. unfold NVHandleExists, GetHandles.
  rewrite SM_bind_assoc. step_ok He. by step_lift Hh.
Qed.

Lemma NVHandleExists_view h s : size (view (device s)) ≤ maxHandles → ∃ s', view (device s') = view (device s) ∧
  NVHandleExists h s = (Ok (bool_decide (is_Some (view (device s) !! h))), s').
Proof.
  intros Hn. destruct (NVHandleExists_listed h s) as (s' & Hv & ->). exists s'. split; [done|].
  rewrite take_ge by (by rewrite length_handles). do 2 f_equal. apply bool_decide_ext, elem_of_handles.
Qed.

(** An index beyond the first response is reported undefined. *)
Lemma NVStorageStatus_beyond h n s : h ∉ take maxHandles (handles (view (device s))) →
  (NVStorageStatus h n s).1 = Ok NVIndexUndefined.
Proof.
  intros Hh. destruct (NVHandleExists_listed h s) as (s' & _ & He). unfold NVStorageStatus.
  erewrite SM_bind_step by exact He. by rewrite bool_decide_false.
Qed.

Lemma status_allowed h n : allowed (OpStatus h n) (answer (NVStorageStatus h n) Status).
Proof.
  intros s Hfit Hs Hn. destruct (NVHandleExists_view h s Hn) as (s1 & Hv1 & He). unfold answer, NVStorageStatus.
  erewrite SM_bind_step by exact He. destruct (view (device s) !! h) as [e|] eqn:Hh.
  2:{ rewrite bool_decide_false by (by intros []). cbn. do 2 eexists. split; [done|]. rewrite Hv1. by constructor. }
  rewrite bool_decide_true by eauto. cbn [negb].
  destruct (dev_public (device s1) h) as (r & d2 & He2 & Hv2 & Hp). rewrite Hv1, Hh in Hp.
  destruct Hp as (pub & p & -> & Hc & Hsz & Hw). unfold CheckNVHandle. step_ok He2. step_lift Hc.
  rewrite Hsz, Hw. fold (u16 n).
  case_decide as Hne; [|destruct (written e) eqn:Hwr]; cbn; do 2 eexists; (split; [done|]); cbn; rewrite Hv2, Hv1.
  - destruct Hne. by eapply status_size.
  - pose proof (status_known max _ _ n _ Hh) as Hk. rewrite Hwr in Hk. apply Hk.
    intros ?. destruct (decide (zlen (content e) = u16 n)); tauto.
  - pose proof (status_known max _ _ n _ Hh) as Hk. rewrite Hwr in Hk. apply Hk.
    intros ?. destruct (decide (zlen (content e) = u16 n)); tauto.
Qed.

Lemma init_allowed h password size : allowed (OpInit h password size) (answer (InitNVStorage h password size) (λ _, Done)).
Proof.
  intros s Hfit Hs Hn. destruct (NVHandleExists_view h s Hn) as (s1 & Hv1 & He). unfold answer, InitNVStorage.
  erewrite SM_bind_step by exact He. destruct (view (device s) !! h) as [e|] eqn:Hh.
  { rewrite bool_decide_true by eauto. do 2 eexists. split; [reflexivity|]. rewrite Hv1. by eapply init_present. }
  rewrite bool_decide_false by (by intros []). cbn [negb]. unfold DefineNVStorage.
  destruct (dev_define (device s1) h password size) as (r & d2 & He2 & Hr); [by rewrite Hv1|exact Hfit|].
  rewrite (Execute_step _ _ _ _ He2).
  destruct Hr as [(err & -> & Hv2)|(e & -> & Hf & Hv2)]; do 2 eexists; (split; [reflexivity|]); cbn; rewrite Hv2, Hv1.
  - by apply init_refused.
  - by apply init_new.
Qed.

Lemma write_allowed h data password : allowed (OpWrite h data password) (answer (WriteToNVStorage h data password) (λ _, Done)).
Proof.
  intros s _ Hs _. unfold answer, WriteToNVStorage.
  destruct (dev_write (device s) h password data) as (r & d & He & Hr). rewrite (Execute_step _ _ _ _ He).
  destruct (view (device s) !! h) as [e|] eqn:Hh; [case_decide as Hw|].
  - destruct Hr as [-> Hv]. do 2 eexists. split; [reflexivity|]. cbn. rewrite Hv. by apply write_done.
  - destruct Hr as [[err ->] Hv]. do 2 eexists. split; [reflexivity|]. cbn. rewrite Hv. by eapply write_refused.
  - destruct Hr as [[err ->] Hv]. do 2 eexists. split; [reflexivity|]. cbn. rewrite Hv. by apply write_undefined.
Qed.

(** The calls of a read before its loop. *)
Lemma read_loop fuel h password s : ∃ s1, view (device s1) = view (device s) ∧
  match view (device s) !! h with
  | Some e => ReadFromNVStorage fuel h password s = readLoop fuel h password max (zlen (content e)) [] s1
  | None => ∃ err, ReadFromNVStorage fuel h password s = (Err err, s1)
  end.
Proof.
  destruct (dev_max (device s)) as (cap & pr & rest & d1 & He1 & Hp & Hv & Hd1).
  destruct (dev_public d1 h) as (r & d2 & He2 & Hd2 & Hr). rewrite Hd1 in Hd2, Hr.
  eexists (mkState d2 _). split; [exact Hd2|]. unfold ReadFromNVStorage.
  step_ok He1. step_lift Hp. cbv zeta. rewrite Hv.
  destruct (view (device s) !! h) as [e|].
  - destruct Hr as (pub & p & -> & Hc & Hsz & _). step_ok He2. step_lift Hc. by rewrite Hsz.
  - destruct Hr as [err ->]. eexists. apply SM_bind_step_Err, map_errS_Err, Execute_step. exact He2.
Qed.

(** A readable index meets the contract of [ReadFromNVStorage_Ok]. *)
Lemma readable_index σ h password e : σ !! h = Some e → readable password e →
  NVIndexDevice (λ d, view d = σ) h password max (content e).
Proof.
  intros Hh Hr. split.
  - exact dev_max_nonneg.
  - intros d <-. destruct (dev_max d) as (cap & pr & rest & d' & ? & ? & ? & ?). eauto 10.
  - intros d <-. destruct (dev_public d h) as (r & d' & He & Hv & Hp). rewrite Hh in Hp.
    destruct Hp as (pub & p & -> & ? & ? & _). eauto 10.
  - intros d size offset <- Hs Hm Ho He'.
    destruct (dev_read d h password size offset e Hh Hs Hm Ho He') as (r & d' & He & Hv & Hp).
    rewrite decide_True in Hp by done. destruct Hp as (n & -> & ? & ?). eauto 10.
Qed.

Lemma read_allowed fuel h password : (2 ^ 16 ≤ Z.of_nat fuel)%Z → allowed (OpRead h password) (answer (ReadFromNVStorage fuel h password) Data).
Proof.
  intros Hf s _ Hs _. destruct (read_loop fuel h password s) as (s1 & Hv1 & Hr). unfold answer.
  destruct (view (device s) !! h) as [e|] eqn:Hh.
  2:{ destruct Hr as [err ->]. do 2 eexists. split; [reflexivity|]. rewrite Hv1. by apply read_undefined. }
  pose proof (map_Forall_lookup_1 _ _ _ _ Hs Hh) as Hlen. cbn in Hlen.
  destruct (decide (content e = [])) as [Hnil|Hne].
  { rewrite Hr, Hnil. destruct fuel as [|fuel]; [lia|]. cbn. do 2 eexists. split; [reflexivity|].
    rewrite Hv1. by eapply read_empty. }
  destruct (decide (readable password e)) as [Hrd|Hrd].
  - destruct (ReadFromNVStorage_Ok _ _ _ _ _ fuel s (readable_index _ _ _ _ Hh Hrd) eq_refl Hmax Hlen) as (s' & -> & Hv); [lia|].
    do 2 eexists. split; [reflexivity|]. rewrite Hv. by apply read_done.
  - rewrite Hr. destruct fuel as [|fuel]; [lia|]. cbn [readLoop].
    rewrite decide_True by (destruct (content e); [done|cbn; lia]). set (size := Z.min _ _).
    assert (0 ≤ size < 2 ^ 16 ∧ size ≤ u16 max ∧ size ≤ zlen (content e))%Z as (Hsize & Hblock & Hrest).
    { subst size. change (u16 (zlen (@nil byte))) with 0%Z. rewrite Z.sub_0_r, (wrap_small 16 (zlen _)) by lia. lia. }
    destruct (dev_read (device s1) h password size 0 e) as (r & d' & He & Hv & Hp);
      [by rewrite Hv1|done|by etrans; [|apply u16_le, dev_max_nonneg]|lia|lia|].
    rewrite decide_False in Hp by done. destruct Hp as [err ->].
    erewrite SM_bind_step_Err by (apply map_errS_Err, map_errS_Err, Execute_step; exact He).
    do 2 eexists. split; [reflexivity|]. cbn. rewrite Hv, Hv1. by eapply read_refused.
Qed.

Lemma run_allowed fuel o : (2 ^ 16 ≤ Z.of_nat fuel)%Z → allowed o (run fuel o).
Proof.
  intros Hf. destruct o; [apply status_allowed|apply init_allowed|apply write_allowed|by apply read_allowed].
Qed.

Lemma step_small σ o r σ' : nvStep max σ o r σ' → fits o → small σ → small σ'.
Proof.
  intros Hst Hfit Hs. destruct Hst as [| | | |h pw size e Hh Hf| |h data pw e Hh Hw| | | | | |]; try done;
    (apply map_Forall_insert_2; [|done]).
  - destruct Hf as (_ & _ & _ & _ & ->). apply Hfit.
  - pose proof (map_Forall_lookup_1 _ _ _ _ Hs Hh) as Hlen. cbn in Hlen.
    destruct Hw as (_ & _ & _ & Hle). cbn. rewrite length_app, length_drop. lia.
Qed.

Lemma step_size σ o r σ' : nvStep max σ o r σ' → size σ' ≤ size σ + (if isInit o then 1 else 0).
Proof.
  intros Hst. destruct Hst as [| | | |h pw n e Hh _| |h data pw e Hh _| | | | | |]; cbn; try lia.
  - rewrite map_size_insert_None by done. lia.
  - rewrite map_size_insert_Some by done. lia.
Qed.

Lemma inits_cons o os : inits (o :: os) = (if isInit o then 1 else 0) + inits os.
Proof. unfold inits. rewrite filter_cons. by destruct (isInit o). Qed.

(** C12: the NV operations implement the store of indexes: any sequence of status
    checks, initializations, writes and reads ends, without a panic, and answers
    and leaves the TPM's indexes as the specification allows, one step a call; as
    long as the indexes there are and may come to be fit the one response in which
    the code lists their handles. *)
Theorem NV_refines fuel os s : (2 ^ 16 ≤ Z.of_nat fuel)%Z → Forall fits os → small (view (device s)) →
  size (view (device s)) + inits os ≤ maxHandles →
  ∃ rs s', runs fuel os s = (Ok rs, s') ∧ nvSteps max (view (device s)) os rs (view (device s')).
Proof.
  intros Hf Hos. revert s. induction Hos as [|o os Ho Hos IH]; intros s Hs Hn; cbn [runs].
  { do 2 eexists. split; [reflexivity|constructor]. }
  rewrite inits_cons in Hn. destruct (run_allowed fuel o Hf s Ho Hs) as (r & s1 & Hr & Hst); [lia|].
  destruct (IH s1) as (rs & s2 & Hrs & Hsts); [by eapply step_small|pose proof (step_size _ _ _ _ Hst); lia|].
  exists (r :: rs), s2. split; [|by econstructor]. erewrite SM_bind_step by exact Hr.
  by erewrite SM_bind_step by exact Hrs.
Qed.

End Code.

(** ** The life of an index, by the specification *)

(** A write and a read with the index's password: the read gives what was written,
    and after it what the index held before. *)
Lemma write_read max σ h data password r σ1 r' σ2 e :
  σ !! h = Some e → authRead e = true → writable max data password e →
  nvStep max σ (OpWrite h data password) r σ1 → nvStep max σ1 (OpRead h password) r' σ2 →
  r = Done ∧ r' = Data (data ++ drop (length data) (content e)) ∧ σ2 = <[h := overwrite data e]> σ.
Proof.
  intros Hh Hrd Hw Hstep Hstep'. inversion Hstep; simplify_eq; try (exfalso; tauto).
  assert (readable password (overwrite data e)) as Hread by (destruct Hw as (? & _); by split_and!).
  inversion Hstep'; simplify_map_eq.
  - done.
  - split; [done|]. split; [|done]. congruence.
Qed.

Lemma init_Done max σ h password size σ' : σ !! h = None → nvStep max σ (OpInit h password size) Done σ' →
  ∃ e, fresh password size e ∧ σ' = <[h := e]> σ.
Proof. intros Hh. inversion 1; simplify_eq; eauto. Qed.

(** An index that is initialized, written and checked is valid. *)
Lemma init_write_status max σ h password size data r1 σ1 r2 σ2 r3 σ3 :
  σ !! h = None → (zlen data ≤ max)%Z → (zlen data ≤ size < 2 ^ 16)%Z →
  nvStep max σ (OpInit h password size) r1 σ1 → r1 = Done →
  nvStep max σ1 (OpWrite h data password) r2 σ2 → nvStep max σ2 (OpStatus h size) r3 σ3 →
  r2 = Done ∧ r3 = Status NVIndexValid.
Proof.
  intros Hh Hmax Hsize Hinit -> Hwrite Hstatus.
  destruct (init_Done _ _ _ _ _ _ Hh Hinit) as (e & (Ha & Hr & Hw & Hwr & Hlen) & ->).
  assert (writable max data password e) as Hwritable by (split_and!; try done; lia).
  assert (zlen (content (overwrite data e)) = size) as Hlen'.
  { cbn. rewrite length_app, length_drop. lia. }
  inversion Hwrite; simplify_map_eq; [|tauto]. split; [done|].
  inversion Hstatus; simplify_map_eq; [|done]. rewrite Z.mod_small in * by lia. lia.
Qed.

(** ** A TPM that is its store *)
Module Demo.
Import TCGAlgs.

Definition nvExec {R} (c : command R) : SM store R :=
  match c in command R return SM store R with
  | GetCapability _ _ _ => λ σ,
      (Ok (mkCapabilityData (Ok (take 254 (handles σ))) (Ok []) (Ok [mkProperty TPMPTNVBufferMax 16])), σ)
  | NVReadPublic h => λ σ,
      (match σ !! h with
       | Some e => Ok (mk2B [] (Ok (mkNVPublic h TPMAlgSHA256 (authWrite e) (authRead e) (written e) [] (zlen (content e)))))
       | None => Err (ERC 0x18B)
       end, σ)
  | NVDefineSpace _ pw pub => λ σ,
      (Ok (), <[NVIndex pub := mkEntry pw (AuthRead pub) (AuthWrite pub) (Written pub)
                                 (replicate (Z.to_nat (DataSize pub)) Byte.xff)]> σ)
  | NVWrite (AuthHandle _ _ (PasswordAuth pw)) h data _ => λ σ,
      match σ !! HandleValue h with
      | Some e => if decide (writable 16 data pw e) then (Ok (), <[HandleValue h := overwrite data e]> σ)
                  else (Err (ERC 0x148), σ)
      | None => (Err (ERC 0x18B), σ)
      end
  | NVRead (AuthHandle _ _ (PasswordAuth pw)) h size offset => λ σ,
      (match σ !! HandleValue h with
       | Some e => if decide (readable pw e) then
                     if decide (16 < size)%Z then Err (ERC 0x1C4)
                     else if decide (zlen (content e) < offset + size)%Z then Err (ERC 0x146)
                     else Ok (take (Z.to_nat size) (drop (Z.to_nat offset) (content e)))
                   else Err (ERC 0x14A)
       | None => Err (ERC 0x18B)
       end, σ)
  | _ => λ σ, (Err (EExt "not simulated"), σ)
  end.
#[local] Instance nv_tpm : Device store := {| exec := @nvExec |}.

#[local] Instance nv_lawful : NVDevice (λ σ : store, σ) 16 254.
Proof.
  split.
  - done.
  - intros d. do 4 eexists. split; [reflexivity|]. split; [reflexivity|]. done.
  - intros d. do 3 eexists. split; [reflexivity|]. split; [reflexivity|]. done.
  - intros d h. do 2 eexists. split; [reflexivity|]. split; [done|]. destruct (d !! h); eauto 10.
  - intros d h pw size _ Hsize. do 2 eexists. split; [reflexivity|]. right. eexists. split; [done|]. split; [|done].
    split_and!; try done. cbn. rewrite length_replicate. lia.
  - intros d h pw data. cbn -[writable_dec]. destruct (d !! h) as [e|]; [case_decide|]; do 2 eexists; (split; [reflexivity|]); eauto.
  - intros d h pw size offset e He Hs Hm Ho Hend. do 2 eexists. split; [reflexivity|]. split; [done|].
    cbn [HandleValue]. rewrite He. rewrite !(decide_False (P := (_ < _)%Z)) by lia. case_decide; [|eauto]. exists (Z.to_nat size). split; [done|]. lia.
Defined.

Definition password : bytes := str "secret".
Definition index : Z := 0x01800001.

(** A status check, an initialization, a write, a read, and reads that are refused. *)
Definition calls : list op :=
  [OpStatus index 20; OpInit index password 20; OpRead index password; OpWrite index (str "hello") password;
   OpStatus index 20; OpRead index password; OpRead index []].

Lemma NV_refines_witness : ∃ σ',
  nvSteps 16 ∅ calls
    [Status NVIndexUndefined; Done; Failed; Done; Status NVIndexValid;
     Data (str "hello" ++ replicate 15 Byte.xff); Failed] σ'.
Proof.
  destruct (NV_refines (λ σ : store, σ) 16 254 eq_refl (Z.to_nat 65536) calls (mkState ∅ []))
    as (rs & s' & Hr & Hst).
  - vm_compute. discriminate.
  - repeat (constructor; [first [exact I | cbn; lia]|]). constructor.
  - apply map_Forall_empty.
  - vm_compute. lia.
  - exists (device s'). assert (rs = [Status NVIndexUndefined; Done; Failed; Done; Status NVIndexValid;
     Data (str "hello" ++ replicate 15 Byte.xff); Failed]) as <-; [|exact Hst].
    assert ((runs (Z.to_nat 65536) calls (mkState ∅ [])).1 = Ok rs) as Hrs by (by rewrite Hr).
    vm_compute in Hrs. by injection Hrs as <-.
Defined.

End Demo.

End NVStore.
