(* ===== verification/TpmPCR.v ===== *)
(** * pkg/tpm/tpm.go: PCR banks, reads and policies

    [getPCRHashAlg] chooses the bank that [SelectPCRs], [ReadPCRs] and [Quote]
    all name; [ReadPCRs] repeats the command until every PCR asked for has been
    returned (its loop takes fuel). The bitmap builder is go-tpm's. *)
From stdpp Require Import sorting.
From S2P Require Import Prelude Bytes Tpm2 PolicyDigest.
Import Tpm2 PolicyDigest.

Module PCRs.

(** [len(a.PCRSelect) != 3 || a.PCRSelect[0] != 255 || ...], negated. *)
Definition fullBank (a : TPMSPCRSelection) : bool :=
  bool_decide (sel_PCRSelect a = [Byte.xff; Byte.xff; Byte.xff]).

(** The loop of [getPCRHashAlg] over the assigned banks. *)
Fixpoint pickAlg `{TPMAlgs} (sels : TPMLPCRSelection) (alg : Z) : Z :=
  match sels with
  | [] => alg
  | a :: sels =>
    if negb (fullBank a) then pickAlg sels alg
    else if decide (sel_Hash a = TPMAlgSHA256) then TPMAlgSHA256
    else if decide (sel_Hash a = TPMAlgSHA384) then pickAlg sels TPMAlgSHA384
    else if decide (sel_Hash a = TPMAlgSHA512 ∧ alg ≠ TPMAlgSHA384) then pickAlg sels TPMAlgSHA512
    else pickAlg sels alg
  end.

(** [for i := range 8]: the PCRs of byte [j] of the bitmap, with their digests. *)
Fixpoint bitLoop (ixs : list Z) (j bits : Z) (digests : list bytes) (digestIndex : nat)
    (values : list PCR) : outcome (nat * list PCR) :=
  match ixs with
  | [] => Ok (digestIndex, values)
  | i :: ixs =>
    if (Z.land bits (Z.shiftl 1 i) =? 0)%Z then bitLoop ixs j bits digests digestIndex values
    else match digests !! digestIndex with
         | None => Panic IndexOutOfRange
         | Some digest =>
           bitLoop ixs j bits digests (digestIndex + 1) (values ++ [mkPCR digest (j * 8 + i)])
         end
  end.

(** [for j, bits := range PCRSelect], clearing the mask of what was read. *)
Fixpoint byteLoop (select : bytes) (j : Z) (digests : list bytes) (digestIndex : nat)
    (pcrMask : Z) (values : list PCR) : outcome (Z * list PCR) :=
  match select with
  | [] => Ok (pcrMask, values)
  | b :: select =>
    let bits := Z_of_byte b in
    let pcrMask := Z.ldiff pcrMask (u32 (Z.shiftl bits (j * 8))) in
    '(digestIndex, values) ← bitLoop (seqZ 0 8) j bits digests digestIndex values;
    byteLoop select (j + 1) digests digestIndex pcrMask values
  end.

(** [pcrMask & (1 << pcr)] on 32 bits: the shift of 32 or more is 0. *)
Definition pcrBit (pcr : Z) : Z := u32 (Z.shiftl 1 pcr).

Section PCRs.
Context {D : Type} `{!Device D} `{!TPMAlgs} `{!TPMConsts}.

(** [tpm2.PCClientCompatible.PCRs] *)
Variable (PCClientCompatible_PCRs : list Z → bytes).

Definition getPCRHashAlg : SM (tpmState D) Z :=
  getCapResp ← map_errS (err_wrap "could not execute GetCapabilty(TPMCapPCRs) command, property: %w")
    (Execute (GetCapability TPMCapPCRs 0 1));
  algs ← lift (map_err (err_wrap "could not read TPM PCR algorithms: %w") (AssignedPCR getCapResp));
  let alg := pickAlg algs 0 in
  if decide (alg = 0)%Z then lift (Err (err_msg "could not find suitable TPM PCR algorithm"))
  else mret alg.

Definition SelectPCRs (pcrs : list Z) : SM (tpmState D) TPMLPCRSelection :=
  alg ← map_errS (err_wrap "could not read TPM PCR algorithms: %w") getPCRHashAlg;
  mret [mkPCRSelection alg (PCClientCompatible_PCRs pcrs)].

(** The [for] loop of [ReadPCRs]: the PCRs still missing, their mask, the values. *)
Fixpoint readPCRsLoop (fuel : nat) (alg : Z) (pcrs : list Z) (pcrMask : Z) (values : list PCR)
    : SM (tpmState D) (list Z * Z * list PCR) :=
  match fuel with
  | O => lift (Panic OutOfFuel)
  | S fuel =>
    resp ← map_errS (err_wrap "failed to execute PCRRead command: %w")
      (Execute (PCRRead [mkPCRSelection alg (PCClientCompatible_PCRs pcrs)]));
    match PCRSelectionOut resp with
    | [] => mret (pcrs, pcrMask, values)
    | sel :: _ =>
      if decide (sel_PCRSelect sel = []) then mret (pcrs, pcrMask, values) else
      '(pcrMask, values) ← lift (byteLoop (sel_PCRSelect sel) 0 (PCRDigests resp) 0 pcrMask values);
      if decide (pcrMask = 0)%Z then mret (pcrs, pcrMask, values) else
      let remPCRs := base.filter (λ pcr, Z.land pcrMask (pcrBit pcr) ≠ 0%Z) pcrs in
      readPCRsLoop fuel alg remPCRs pcrMask values
    end
  end.

(** The values come back also with the error that some PCRs are missing: the
    result pairs them; every other error comes without values. *)
Definition ReadPCRs (fuel : nat) (pcrs : list Z) : SM (tpmState D) (list PCR * option error) :=
  let pcrMask := foldl (λ m pcr, Z.lor m (pcrBit pcr)) 0%Z pcrs in
  alg ← getPCRHashAlg;
  '(pcrs, pcrMask, values) ← readPCRsLoop fuel alg pcrs pcrMask [];
  if decide (pcrMask ≠ 0)%Z
  then mret (values, Some (err_fmt "some PCRs are not present: %v" (AInt <$> pcrs)))
  else mret (values, None).

Definition ExtendPCR (pcr : Z) (hash : bytes) : SM (tpmState D) unit :=
  map_errS (err_wrap "failed to execute PCRExtend command: %w")
    (Execute (PCRExtend (u32 pcr) [(TPMAlgSHA256, hash)])).

Definition ResetPCR (pcr : Z) : SM (tpmState D) unit :=
  map_errS (λ e, EFmt "failed to execute PCRReset for PCR %v command: %w" [AInt pcr] [e])
    (Execute (PCRReset (u32 pcr))).

(** A session and, with [CloseSession], its closer. *)
Definition NewSession : SM (tpmState D) Z :=
  Execute (StartPolicySession TPMAlgSHA256 (Z.of_nat SHA256_Size)).

Definition PCRPolicy (sessionHandle : Z) (pcrSelection : TPMLPCRSelection) : SM (tpmState D) bytes :=
  _ ← map_errS (err_wrap "Error Executing PolicyPCR: %w")
    (Execute (PolicyPCR sessionHandle [] pcrSelection));
  map_errS (err_wrap "Error Executing PolicyGetDigest: %w") (Execute (PolicyGetDigest sessionHandle)).

(** The closure [pcrPolicyCallback] returns, run by go-tpm on the session it started. *)
Definition run_pcrPolicyCallback (pcrs : list Z) (h : Z) : SM (tpmState D) unit :=
  pcrSelection ← map_errS (err_wrap "failed to select PCRs: %w") (SelectPCRs pcrs);
  Execute (PolicyPCR h [] pcrSelection).

End PCRs.

(** ** The bank *)

Definition hasBank (h : Z) (sels : TPMLPCRSelection) : bool :=
  existsb (λ a, fullBank a && bool_decide (sel_Hash a = h)) sels.

(** The bank: SHA-256 if the TPM has all 24 PCRs in it, else SHA-384, else
    SHA-512, whatever the order the TPM lists them in, and none otherwise. *)
Theorem pickAlg_preference `{TPMAlgsLaws} sels :
  pickAlg sels 0 =
    if hasBank TPMAlgSHA256 sels then TPMAlgSHA256
    else if hasBank TPMAlgSHA384 sels then TPMAlgSHA384
    else if hasBank TPMAlgSHA512 sels then TPMAlgSHA512 else 0%Z.
Proof.
  pose proof hash_algs_distinct as (? & ? & ?).
  assert (0%Z ≠ TPMAlgSHA384) by (intros He; apply algs_nonzero; rewrite He; unfold algs; set_solver).
  assert (∀ alg, pickAlg sels alg =
    if hasBank TPMAlgSHA256 sels then TPMAlgSHA256
    else if hasBank TPMAlgSHA384 sels || bool_decide (alg = TPMAlgSHA384) then TPMAlgSHA384
    else if hasBank TPMAlgSHA512 sels then TPMAlgSHA512 else alg) as ->.
  { unfold hasBank. induction sels as [|a sels IH]; intros alg; cbn [pickAlg existsb].
    - case_bool_decide; cbn; congruence.
    - rewrite !IH. destruct (fullBank a); cbn [negb andb orb]; [|done].
      generalize (sel_Hash a). intros z.
      set (b1 := existsb _ _); set (b2 := existsb _ _); set (b3 := existsb _ _). clearbody b1 b2 b3.
      unfold bool_decide.
      destruct (decide (z = TPMAlgSHA256)), (decide (z = TPMAlgSHA384)), (decide (z = TPMAlgSHA512)),
        (decide (alg = TPMAlgSHA384)); repeat case_decide; try (exfalso; subst; tauto);
        destruct b1, b2, b3; cbn; first [reflexivity | congruence]. }
  rewrite (bool_decide_eq_false_2 _) by done. by rewrite orb_false_r.
Qed.

(** ** Bitmaps *)

(** The PCRs a bitmap selects, ascending. *)
Definition bitsOfByte (j bits : Z) (ixs : list Z) : list Z :=
  (λ i, j * 8 + i)%Z <$> base.filter (λ i, Z.testbit bits i = true) ixs.
Fixpoint bitsFrom (j : Z) (select : bytes) : list Z :=
  match select with
  | [] => []
  | b :: select => bitsOfByte j (Z_of_byte b) (seqZ 0 8) ++ bitsFrom (j + 1) select
  end.
Definition bitsOf (select : bytes) : list Z := bitsFrom 0 select.

Lemma land_bit_test bits i : (0 ≤ i)%Z →
  (Z.land bits (Z.shiftl 1 i) =? 0)%Z = negb (Z.testbit bits i).
Proof.
  intros. rewrite Z.shiftl_1_l, land_pow2 by done. destruct (Z.testbit bits i); [|done].
  apply Z.eqb_neq. pose proof (Z.pow_pos_nonneg 2 i). lia.
Qed.

Lemma bitLoop_Ok j bits ixs digests di ds rest values :
  Forall (λ i, 0 ≤ i)%Z ixs → drop di digests = ds ++ rest →
  length ds = length (bitsOfByte j bits ixs) →
  bitLoop ixs j bits digests di values =
    Ok (di + length ds, values ++ zip_with mkPCR ds (bitsOfByte j bits ixs)).
Proof.
  intros Hi. revert di ds values. induction Hi as [|i ixs Hi0 Hi IH]; intros di ds values Hd Hl.
  - destruct ds; [|done]. cbn. by rewrite Nat.add_0_r, app_nil_r.
  - cbn [bitLoop]. rewrite land_bit_test by done. unfold bitsOfByte in *.
    destruct (Z.testbit bits i) eqn:Hb; cbn [negb].
    + rewrite filter_cons_True in * by done. rewrite fmap_cons in *.
      destruct ds as [|d ds]; [done|]. cbn [length app] in *. injection Hl as Hl.
      assert (digests !! di = Some d) as Hdi by (rewrite <-(Nat.add_0_r di), <-lookup_drop, Hd; done).
      rewrite Hdi. rewrite (IH _ ds); [|rewrite <-drop_drop, Hd; done|done].
      rewrite <-(assoc_L (++)). f_equal. f_equal. lia.
    + rewrite filter_cons_False in * by (by rewrite Hb). by apply IH.
Qed.

(** The bits one byte of the bitmap clears. *)
Lemma testbit_shifted_byte b j i : (0 ≤ j)%Z → (0 ≤ i < 32)%Z →
  Z.testbit (u32 (Z.shiftl (Z_of_byte b) (j * 8))) i =
  bool_decide (i ∈ bitsOfByte j (Z_of_byte b) (seqZ 0 8)).
Proof.
  intros Hj Hi. unfold wrap. rewrite Z.mod_pow2_bits_low by lia. rewrite Z.shiftl_spec by lia.
  apply eq_bool_prop_intro. rewrite bool_decide_spec. unfold bitsOfByte. rewrite list_elem_of_fmap.
  setoid_rewrite list_elem_of_filter. setoid_rewrite elem_of_seqZ. split.
  - intros Ht%Is_true_true. exists (i - j * 8)%Z. split; [lia|]. split; [done|].
    destruct (decide (i - j * 8 < 0)%Z); [by rewrite Z.testbit_neg_r in Ht|].
    split; [lia|]. destruct (decide (i - j * 8 < 8)%Z); [lia|].
    pose proof (Z_of_byte_range b). exfalso.
    rewrite (proj1 (Z.bounded_iff_bits_nonneg 8 (Z_of_byte b) ltac:(lia) ltac:(lia))) in Ht; [done|lia..].
  - intros (k & -> & Ht & ?). apply Is_true_true. by replace (j * 8 + k - j * 8)%Z with k by lia.
Qed.

Lemma ldiff_byte mask j b i : (0 ≤ j)%Z → (0 ≤ i)%Z → (32 ≤ i → Z.testbit mask i = false)%Z →
  Z.testbit (Z.ldiff mask (u32 (Z.shiftl (Z_of_byte b) (j * 8)))) i =
  Z.testbit mask i && negb (bool_decide (i ∈ bitsOfByte j (Z_of_byte b) (seqZ 0 8))).
Proof.
  intros. rewrite Z.ldiff_spec by lia. destruct (decide (32 ≤ i)%Z).
  - by replace (Z.testbit mask i) with false by (symmetry; auto).
  - by rewrite testbit_shifted_byte by lia.
Qed.

(** The mask after the loop has the bits of what was not returned. *)
Lemma byteLoop_Ok select j digests di ds rest mask values :
  (0 ≤ j)%Z → (∀ i, 32 ≤ i → Z.testbit mask i = false)%Z →
  drop di digests = ds ++ rest → length ds = length (bitsFrom j select) →
  ∃ mask', byteLoop select j digests di mask values =
      Ok (mask', values ++ zip_with mkPCR ds (bitsFrom j select)) ∧
    ∀ i, (0 ≤ i)%Z →
      Z.testbit mask' i = Z.testbit mask i && negb (bool_decide (i ∈ bitsFrom j select)).
Proof.
  revert j di ds mask values.
  induction select as [|b select IH]; intros j di ds mask values Hj Hm Hd Hl.
  { destruct ds; [|done]. exists mask. cbn. rewrite app_nil_r. split; [done|].
    intros. by rewrite andb_true_r. }
  cbn [bitsFrom] in *. rewrite length_app in Hl. set (R := bitsOfByte _ _ _) in *.
  rewrite <-(take_drop (length R) ds) in Hd |- *. set (d1 := take _ ds) in *. set (d2 := drop _ ds) in *.
  assert (length d1 = length R) by (subst d1; rewrite length_take; lia).
  assert (length d2 = length (bitsFrom (j + 1) select)) by (subst d2; rewrite length_drop; lia).
  rewrite <-(assoc_L (++)) in Hd.
  cbn [byteLoop]. rewrite (bitLoop_Ok _ _ _ _ _ d1 (d2 ++ rest)); [| |done|done].
  2: { apply Forall_forall. intros x Hx%list_elem_of_In%elem_of_seqZ. lia. }
  unfold mbind, outcome_bind. cbv beta iota zeta.
  set (m1 := Z.ldiff _ _).
  assert (∀ i, (0 ≤ i)%Z → Z.testbit m1 i = Z.testbit mask i && negb (bool_decide (i ∈ R))) as Hm1
    by (intros; apply ldiff_byte; auto).
  destruct (IH (j + 1)%Z (di + length d1) d2 m1 (values ++ zip_with mkPCR d1 R))
    as (mask' & Heq & Hmask'); [lia| |rewrite <-drop_drop, Hd; apply drop_app_length|done|].
  { intros i Hi. rewrite Hm1, Hm by lia. done. }
  exists mask'. split.
  - rewrite zip_with_app by done. etransitivity; [exact Heq|].
    by rewrite (assoc_L (++)).
  - intros i Hi. rewrite Hmask', Hm1 by done. rewrite <-andb_assoc, <-negb_orb. do 2 f_equal.
    apply eq_bool_prop_intro. rewrite orb_True, !bool_decide_spec, elem_of_app. done.
Qed.

Lemma elem_of_bitsOfByte j bits i :
  i ∈ bitsOfByte j bits (seqZ 0 8) → (j * 8 ≤ i < (j + 1) * 8)%Z.
Proof.
  unfold bitsOfByte. rewrite list_elem_of_fmap. setoid_rewrite list_elem_of_filter.
  setoid_rewrite elem_of_seqZ. intros (k & -> & _ & ?). lia.
Qed.
Lemma elem_of_bitsFrom j select i : i ∈ bitsFrom j select → (j * 8 ≤ i)%Z.
Proof.
  revert j. induction select as [|b select IH]; intros j; cbn [bitsFrom]; [by intros ?%elem_of_nil|].
  rewrite elem_of_app. intros [?%elem_of_bitsOfByte|?%IH]; lia.
Qed.
Lemma bitsFrom_NoDup j select : NoDup (bitsFrom j select).
Proof.
  revert j. induction select as [|b select IH]; intros j; cbn [bitsFrom]; [by constructor|].
  apply list.NoDup_app. split_and!; [|intros i ?%elem_of_bitsOfByte ?%elem_of_bitsFrom; lia|done].
  unfold bitsOfByte. apply NoDup_fmap_2_strong; [intros; lia|]. apply list.NoDup_filter, NoDup_seqZ.
Qed.

(** ** The mask of the PCRs asked for *)
(** Ascending lists with the same elements are equal. *)
Lemma sorted_unique (l k : list Z) :
  StronglySorted Z.lt l → StronglySorted Z.lt k → (∀ i, i ∈ l ↔ i ∈ k) → l = k.
Proof.
  intros Hl. revert k. induction Hl as [|x l Hl IH Hx]; intros k Hk Heq.
  - destruct k as [|y k]; [done|]. exfalso. apply (not_elem_of_nil y), Heq. set_solver.
  - destruct Hk as [|y k Hk Hy]; [exfalso; apply (not_elem_of_nil x), Heq; set_solver|].
    rewrite Forall_forall in Hx, Hy.
    assert (∀ z, z ∈ l → x < z)%Z as Hx' by (intros; by apply Hx, list_elem_of_In).
    assert (∀ z, z ∈ k → y < z)%Z as Hy' by (intros; by apply Hy, list_elem_of_In).
    assert (x = y) as ->.
    { pose proof (proj1 (Heq x) ltac:(set_solver)) as H1.
      pose proof (proj2 (Heq y) ltac:(set_solver)) as H2.
      apply elem_of_cons in H1 as [->|H1]; [done|]. apply elem_of_cons in H2 as [->|H2]; [done|].
      specialize (Hx' _ H2). specialize (Hy' _ H1). lia. }
    f_equal. apply IH; [done|]. intros i. specialize (Heq i). rewrite !elem_of_cons in Heq.
    split; intros Hi.
    + destruct (proj1 Heq (or_intror Hi)) as [->|?]; [specialize (Hx' _ Hi); lia|done].
    + destruct (proj2 Heq (or_intror Hi)) as [->|?]; [specialize (Hy' _ Hi); lia|done].
Qed.

Lemma bitsFrom_sorted j select : StronglySorted Z.lt (bitsFrom j select).
Proof.
  revert j. induction select as [|b select IH]; intros j; cbn [bitsFrom]; [constructor|].
  assert (∀ (l k : list Z) x, Forall (λ i, i < x)%Z l → Forall (λ i, x ≤ i)%Z k →
    StronglySorted Z.lt l → StronglySorted Z.lt k → StronglySorted Z.lt (l ++ k)) as Happ.
  { intros l k x Hlt Hge Hl Hk. induction Hl as [|y l Hl IHl Hy]; [done|].
    apply Forall_cons_iff in Hlt as [? ?]. cbn. constructor; [auto|].
    apply Forall_app. split; [done|]. eapply Forall_impl; [|exact Hge]. cbn. lia. }
  apply (Happ _ _ ((j + 1) * 8)%Z).
  - apply Forall_forall. intros i Hi%list_elem_of_In%elem_of_bitsOfByte. lia.
  - apply Forall_forall. intros i Hi%list_elem_of_In%elem_of_bitsFrom. lia.
  - unfold bitsOfByte. generalize (Z_of_byte b). intros bits.
    assert (StronglySorted Z.lt (seqZ 0 8)) as Hs by (repeat constructor).
    induction Hs as [|x l Hl IHl Hx]; [constructor|].
    destruct (decide (Z.testbit bits x = true)).
    + rewrite filter_cons_True by done. cbn. constructor; [done|].
      apply Forall_forall. intros i (k & -> & [_ Hk]%list_elem_of_filter)%list_elem_of_In%list_elem_of_fmap.
      rewrite Forall_forall in Hx. apply list_elem_of_In, Hx in Hk. lia.
    + by rewrite filter_cons_False by done.
  - apply IH.
Qed.

Lemma testbit_pcrBit p i : (0 ≤ p < 32)%Z → (0 ≤ i)%Z → Z.testbit (pcrBit p) i = bool_decide (i = p).
Proof.
  intros Hp Hi. unfold pcrBit. rewrite Z.shiftl_1_l.
  rewrite wrap_small by (split; [lia|apply Z.pow_lt_mono_r; lia]).
  rewrite Z.pow2_bits_eqb by lia. by rewrite Z.eqb_sym; destruct (Z.eqb_spec i p); case_bool_decide.
Qed.

Lemma testbit_mask pcrs m i : Forall (λ p, 0 ≤ p < 32)%Z pcrs → (0 ≤ i)%Z →
  Z.testbit (foldl (λ m pcr, Z.lor m (pcrBit pcr)) m pcrs) i = Z.testbit m i || bool_decide (i ∈ pcrs).
Proof.
  intros Hf Hi. revert m. induction Hf as [|p pcrs Hp Hf IH]; intros m; cbn [foldl].
  - by rewrite orb_false_r.
  - rewrite IH, Z.lor_spec, testbit_pcrBit, <-orb_assoc by done. f_equal.
    apply eq_bool_prop_intro. rewrite orb_True, !bool_decide_spec, elem_of_cons. done.
Qed.

Lemma land_pcrBit m p : (0 ≤ p < 32)%Z → Z.land m (pcrBit p) ≠ 0%Z ↔ Z.testbit m p = true.
Proof.
  intros. unfold pcrBit. rewrite Z.shiftl_1_l.
  rewrite wrap_small by (split; [lia|apply Z.pow_lt_mono_r; lia]). rewrite land_pow2 by lia.
  pose proof (Z.pow_pos_nonneg 2 p). destruct (Z.testbit m p); split; [done|lia|done|done].
Qed.

Lemma zero_no_bits m : (∀ i, 0 ≤ i → Z.testbit m i = false)%Z ↔ m = 0%Z.
Proof.
  split; [|intros ->; intros; apply Z.bits_0].
  intros H'. apply Z.bits_inj'. intros i Hi. by rewrite H', Z.bits_0.
Qed.

(** What is left to read after a response that returned [R]. *)
Lemma remPCRs_spec pcrs mask mask' R :
  Forall (λ p, 0 ≤ p < 24)%Z pcrs →
  (∀ i, 0 ≤ i → Z.testbit mask i = bool_decide (i ∈ pcrs))%Z →
  (∀ i, (0 ≤ i)%Z → Z.testbit mask' i = Z.testbit mask i && negb (bool_decide (i ∈ R))) →
  let rem := base.filter (λ pcr, Z.land mask' (pcrBit pcr) ≠ 0%Z) pcrs in
  (∀ i, i ∈ rem ↔ i ∈ pcrs ∧ i ∉ R) ∧
  (∀ i, (0 ≤ i)%Z → Z.testbit mask' i = bool_decide (i ∈ rem)) ∧
  (mask' = 0%Z ↔ rem = []) ∧
  (R ≠ [] → R ⊆ pcrs → length rem < length pcrs).
Proof.
  intros Hr Hm Hm' rem.
  assert (∀ i, i ∈ rem ↔ i ∈ pcrs ∧ i ∉ R) as Hrem.
  { intros i. subst rem. rewrite list_elem_of_filter. split.
    - intros [Hl Hin]. pose proof (Hr) as Hr'. rewrite Forall_forall in Hr'.
      specialize (Hr' _ (proj1 (list_elem_of_In _ _) Hin)).
      apply land_pcrBit in Hl; [|lia]. rewrite Hm' in Hl by lia.
      split; [done|]. intros Hs. by rewrite bool_decide_eq_true_2, andb_false_r in Hl.
    - intros [Hin Hs]. pose proof (Hr) as Hr'. rewrite Forall_forall in Hr'.
      specialize (Hr' _ (proj1 (list_elem_of_In _ _) Hin)). split; [|done].
      apply land_pcrBit; [lia|]. by rewrite Hm', Hm, bool_decide_eq_true_2, bool_decide_eq_false_2 by first [lia|done]. }
  assert (∀ i, (0 ≤ i)%Z → Z.testbit mask' i = bool_decide (i ∈ rem)) as Hmrem.
  { intros i Hi'. rewrite Hm', Hm by done. apply eq_bool_prop_intro.
    rewrite andb_True, negb_True, !bool_decide_spec, Hrem. done. }
  split; [done|]. split; [done|]. split.
  { rewrite <-zero_no_bits. split.
    - intros H'. clearbody rem. destruct rem as [|i l]; [done|]. exfalso.
      assert (i ∈ pcrs) as Hin by (apply Hrem; set_solver).
      rewrite Forall_forall in Hr. apply list_elem_of_In, Hr in Hin.
      specialize (Hmrem i ltac:(lia)). rewrite H', bool_decide_eq_true_2 in Hmrem by set_solver. done.
    - intros Hnil i Hi'. by rewrite Hmrem, Hnil by done. }
  intros Hb Hsub. destruct R as [|x l] eqn:Hx; [done|].
  apply (length_filter_lt _ _ x); [apply Hsub; left|].
  intros Hp. assert (x ∈ rem) as Hin by (subst rem; apply list_elem_of_filter; split; [done|apply Hsub; left]).
  apply Hrem in Hin as [_ Hin]. apply Hin. left.
Qed.

Definition pcrsOf (val : Z → bytes) (R : list Z) : list PCR := (λ i, mkPCR (val i) i) <$> R.

Lemma zip_with_pcrsOf val R : zip_with mkPCR (val <$> R) R = pcrsOf val R.
Proof. induction R as [|i R IH]; [done|]. cbn. by f_equal. Qed.

Lemma pcrDigestByIndex_pcrsOf val R i :
  pcrDigestByIndex (pcrsOf val R) !! i = if decide (i ∈ R) then Some (val i) else None.
Proof.
  unfold pcrDigestByIndex, pcrsOf.
  induction R as [|x R IH] using rev_ind; [by rewrite decide_False by set_solver|].
  rewrite fmap_app, foldl_app. cbn [fmap list_fmap foldl Digest Index].
  destruct (decide (x = i)) as [->|Hne].
  - rewrite lookup_insert_eq, decide_True by set_solver. done.
  - rewrite lookup_insert_ne, IH by done. repeat case_decide; set_solver.
Qed.

Section Correctness.
Context {D : Type} `{!Device D} `{!TPMAlgs} `{!TPMConsts}.
Variable (PCClientCompatible_PCRs : list Z → bytes).
#[local] Abbreviation getPCRHashAlg := (getPCRHashAlg (D := D)).
#[local] Abbreviation readPCRsLoop := (readPCRsLoop (D := D) PCClientCompatible_PCRs).
#[local] Abbreviation ReadPCRs := (ReadPCRs (D := D) PCClientCompatible_PCRs).

(** ** What a TPM promises about its PCRs *)

(** In every state of [Inv] the TPM's preferred bank is [alg], in which PCR [i]
    has the digest [val i], and a read of PCRs that exist returns at least one
    of them, with the digests in ascending order of the PCRs returned. *)
Record PCRDevice (Inv : D → Prop) (alg : Z) (val : Z → bytes) := {
  pcr_alg d : Inv d → ∃ cap sels d', exec (GetCapability TPMCapPCRs 0 1) d = (Ok cap, d') ∧
    AssignedPCR cap = Ok sels ∧ pickAlg sels 0 = alg ∧ Inv d';
  pcr_alg_nonzero : alg ≠ 0%Z;
  pcr_read d pcrs : Inv d → pcrs ≠ [] → Forall (λ p, 0 ≤ p < 24)%Z pcrs → ∃ a select rest d',
    exec (PCRRead [mkPCRSelection alg (PCClientCompatible_PCRs pcrs)]) d =
      (Ok (mkPCRRead (mkPCRSelection a select :: rest) (val <$> bitsOf select)), d') ∧
    bitsOf select ≠ [] ∧ bitsOf select ⊆ pcrs ∧ Inv d';
}.

Lemma getPCRHashAlg_Ok Inv alg val s :
  PCRDevice Inv alg val → Inv (device s) →
  ∃ s', getPCRHashAlg s = (Ok alg, s') ∧ Inv (device s').
Proof.
  intros Hdev Hinv. destruct (pcr_alg _ _ _ Hdev _ Hinv) as (cap & sels & d' & He & Ha & Hp & Hi).
  eexists (mkState d' _). split; [|exact Hi].
  unfold getPCRHashAlg. step_ok He. step_lift Ha. cbv zeta. rewrite Hp, decide_False; [done|].
  apply (pcr_alg_nonzero _ _ _ Hdev).
Qed.

Lemma readPCRsLoop_Ok Inv alg val fuel pcrs mask values s :
  PCRDevice Inv alg val → Inv (device s) → pcrs ≠ [] → Forall (λ p, 0 ≤ p < 24)%Z pcrs →
  (∀ i, 0 ≤ i → Z.testbit mask i = bool_decide (i ∈ pcrs))%Z → length pcrs ≤ fuel →
  ∃ R pcrs' s', readPCRsLoop fuel alg pcrs mask values s = (Ok (pcrs', 0%Z, values ++ pcrsOf val R), s') ∧
    Inv (device s') ∧ NoDup R ∧ ∀ i, i ∈ R ↔ i ∈ pcrs.
Proof.
  intros Hdev. revert pcrs mask values s.
  induction fuel as [|fuel IH]; intros pcrs mask values s Hinv Hne Hr Hm Hf.
  { destruct pcrs; [done|cbn in Hf; lia]. }
  destruct (pcr_read _ _ _ Hdev _ pcrs Hinv Hne Hr) as (a & select & rest & d' & He & Hb & Hsub & Hi).
  cbn [readPCRsLoop]. step_ok He. cbn [PCRSelectionOut PCRDigests sel_PCRSelect].
  rewrite decide_False by (intros ->; done).
  destruct (byteLoop_Ok select 0 (val <$> bitsOf select) 0 (val <$> bitsOf select) [] mask values)
    as (mask' & Hbl & Hm'); [lia| |by rewrite app_nil_r|by rewrite length_fmap|].
  { intros i Hi'. rewrite Hm by lia. apply bool_decide_eq_false_2. intros Hin.
    rewrite Forall_forall in Hr. apply list_elem_of_In, Hr in Hin. lia. }
  step_lift Hbl. fold (bitsOf select) in Hm' |- *. rewrite zip_with_pcrsOf. cbv zeta.
  destruct (remPCRs_spec pcrs mask mask' (bitsOf select) Hr Hm Hm') as (Hrem & Hmrem & Hzero & Hlen).
  specialize (Hlen Hb Hsub). set (rem := base.filter _ pcrs) in *. clearbody rem.
  case_decide as Hz.
  - eexists (bitsOf select), pcrs, (mkState d' _). rewrite Hz.
    split; [reflexivity|]. split; [done|]. split; [apply bitsFrom_NoDup|]. intros i. split; [apply Hsub|].
    intros Hin. apply dec_stable. intros Hs. assert (i ∈ rem) as Hir by by apply Hrem.
    apply Hzero in Hz. rewrite Hz in Hir. by apply elem_of_nil in Hir.
  - destruct (IH rem mask' (values ++ pcrsOf val (bitsOf select)) (mkState d' (trace s ++
        [Ev (PCRRead [mkPCRSelection alg (PCClientCompatible_PCRs pcrs)])
          (Ok (mkPCRRead (mkPCRSelection a select :: rest) (val <$> bitsOf select)))])))
      as (R & pcrs' & s' & Heq & Hi' & Hnd & HR); [done|by rewrite <-Hzero|..|done|lia|].
    { apply Forall_forall. intros x Hx%list_elem_of_In%Hrem. rewrite Forall_forall in Hr.
      apply Hr, list_elem_of_In, Hx. }
    exists (bitsOf select ++ R), pcrs', s'. split; [|split; [done|split]].
    + rewrite Heq. unfold pcrsOf. by rewrite fmap_app, (assoc_L (++)).
    + apply list.NoDup_app. split_and!; [apply bitsFrom_NoDup|set_solver|done].
    + intros i. rewrite elem_of_app, HR, Hrem. split; [set_solver|].
      destruct (decide (i ∈ bitsOf select)); tauto.
Qed.

Lemma ReadPCRs_Ok Inv alg val fuel pcrs s :
  PCRDevice Inv alg val → Inv (device s) →
  pcrs ≠ [] → Forall (λ p, 0 ≤ p < 24)%Z pcrs → length pcrs ≤ fuel →
  ∃ R s', ReadPCRs fuel pcrs s = (Ok (pcrsOf val R, None), s') ∧ Inv (device s') ∧
    NoDup R ∧ ∀ i, i ∈ R ↔ i ∈ pcrs.
Proof.
  intros Hdev Hinv Hne Hr Hf. destruct (getPCRHashAlg_Ok _ _ _ _ Hdev Hinv) as (s1 & Ha & Hi1).
  destruct (readPCRsLoop_Ok Inv alg val fuel pcrs (foldl (λ m pcr, Z.lor m (pcrBit pcr)) 0%Z pcrs) [] s1)
    as (R & pcrs' & s' & Hl & Hi & Hnd & HR); [done..| |done|].
  { intros i Hi. rewrite testbit_mask, Z.bits_0; [done| |done].
    eapply Forall_impl; [|exact Hr]. cbn. lia. }
  exists R, s'. split_and!; [|done..]. unfold ReadPCRs. cbv zeta. step_ok Ha. step_ok Hl. done.
Qed.

(** C7: reading PCRs terminates and is complete: every PCR asked for is returned
    exactly once with its digest, and nothing else, however few of them the TPM
    returns per command; one command per PCR asked for is enough. *)
Theorem ReadPCRs_complete Inv alg val fuel pcrs s :
  PCRDevice Inv alg val → Inv (device s) →
  pcrs ≠ [] → Forall (λ p, 0 ≤ p < 24)%Z pcrs → length pcrs ≤ fuel →
  ∃ R s', ReadPCRs fuel pcrs s = (Ok (pcrsOf val R, None), s') ∧ Inv (device s') ∧
    NoDup R ∧ ∀ i, i ∈ R ↔ i ∈ pcrs.
Proof. apply ReadPCRs_Ok. Qed.

(** A TPM that lacks the PCRs of [lacks] and answers a read of them by the
    selection with every bit cleared. *)
Record PCRsMissing (Inv : D → Prop) (alg : Z) (lacks : Z → Prop) := {
  missing_alg d : Inv d → ∃ cap sels d', exec (GetCapability TPMCapPCRs 0 1) d = (Ok cap, d') ∧
    AssignedPCR cap = Ok sels ∧ pickAlg sels 0 = alg ∧ alg ≠ 0%Z ∧ Inv d';
  missing_read d pcrs : Inv d → Forall lacks pcrs → ∃ a select rest ds d',
    exec (PCRRead [mkPCRSelection alg (PCClientCompatible_PCRs pcrs)]) d =
      (Ok (mkPCRRead (mkPCRSelection a select :: rest) ds), d') ∧
    select ≠ [] ∧ bitsOf select = [] ∧ Inv d';
}.

Lemma readPCRsLoop_stuck Inv alg lacks fuel pcrs mask values s :
  PCRsMissing Inv alg lacks → Inv (device s) → Forall lacks pcrs →
  mask ≠ 0%Z → (∀ i, 32 ≤ i → Z.testbit mask i = false)%Z →
  (readPCRsLoop fuel alg pcrs mask values s).1 = Panic OutOfFuel.
Proof.
  intros Hdev. revert pcrs mask values s.
  induction fuel as [|fuel IH]; intros pcrs mask values s Hinv Hl Hm Hhi; [done|].
  destruct (missing_read _ _ _ Hdev _ pcrs Hinv Hl) as (a & select & rest & ds & d' & He & Hs & Hb & Hi).
  cbn [readPCRsLoop]. step_ok He. cbn [PCRSelectionOut PCRDigests sel_PCRSelect].
  rewrite decide_False by done.
  destruct (byteLoop_Ok select 0 ds 0 [] ds mask values) as (mask' & Hbl & Hm');
    [lia|done|done|by fold (bitsOf select); rewrite Hb|].
  step_lift Hbl. fold (bitsOf select) in Hm' |- *. rewrite Hb in *. cbn [zip_with]. rewrite app_nil_r.
  assert (∀ i, (0 ≤ i)%Z → Z.testbit mask' i = Z.testbit mask i) as Hsame
    by (intros i Hi'; by rewrite Hm', andb_true_r).
  rewrite decide_False.
  - apply IH; [done| |intros ->|intros i Hi'; rewrite Hsame by lia; auto].
    + apply Forall_forall. intros x [_ Hx]%list_elem_of_In%list_elem_of_filter.
      rewrite Forall_forall in Hl. by apply Hl, list_elem_of_In.
    + apply Hm, zero_no_bits. intros i Hi'. by rewrite <-Hsame, Z.bits_0.
  - intros ->. apply Hm, zero_no_bits. intros i Hi'. by rewrite <-Hsame, Z.bits_0.
Qed.

(** C40: asked for PCRs that the TPM lacks, and answered by a selection with its
    bits cleared instead of an empty one, the read never returns: no amount of
    fuel gives a result. *)
Theorem ReadPCRs_diverges Inv alg lacks fuel pcrs p s :
  PCRsMissing Inv alg lacks → Inv (device s) →
  Forall lacks pcrs → Forall (λ p, 0 ≤ p < 32)%Z pcrs → p ∈ pcrs →
  (ReadPCRs fuel pcrs s).1 = Panic OutOfFuel.
Proof.
  intros Hdev Hinv Hl Hr Hp.
  destruct (missing_alg _ _ _ Hdev _ Hinv) as (cap & sels & d' & He & Ha & Hpick & Hnz & Hi).
  unfold ReadPCRs, getPCRHashAlg. cbv zeta. rewrite SM_bind_assoc. step_ok He.
  rewrite SM_bind_assoc. step_lift Ha. rewrite Hpick, decide_False, SM_bind_ret by done.
  set (mask := foldl _ _ _). unfold mbind, SM_bind.
  destruct (readPCRsLoop fuel alg pcrs mask [] _) as [r s'] eqn:Heq.
  assert (r = Panic OutOfFuel) as ->; [|done].
  change r with (r, s').1. rewrite <-Heq. apply (readPCRsLoop_stuck Inv alg lacks); [done..| |].
  - intros Hz. assert (Z.testbit mask p = false) as Ht by (rewrite Hz; apply Z.bits_0).
    assert (0 ≤ p < 32)%Z by (rewrite Forall_forall in Hr; by apply Hr, list_elem_of_In).
    subst mask. rewrite testbit_mask, bool_decide_eq_true_2, orb_true_r in Ht by first [done|lia]. done.
  - intros i Hi'. subst mask. rewrite testbit_mask, Z.bits_0 by first [done|lia].
    apply bool_decide_eq_false_2. intros Hin.
    rewrite Forall_forall in Hr. apply list_elem_of_In, Hr in Hin. lia.
Qed.

End Correctness.

End PCRs.
