(* ===== verification/Signature.v ===== *)
(** * pkg/tpm/signature.go: signatures between TPM and DER form

    An ECDSA signature leaves the TPM as two fixed-width byte strings and the
    library as the DER of SEQUENCE { INTEGER r, INTEGER s }; [big.Int] and
    [encoding/asn1] are the standard library's. The accessors of go-tpm's
    signature union are parameters. *)
From S2P Require Import Prelude Bytes Asn1 Tpm2.
Import Tpm2.

Module Sig.

(** ** math/big *)

(** [new(big.Int).SetBytes(b)] is [be_Z b]; [x.Bytes()] is the minimal
    big-endian form of the absolute value. *)
Definition big_Bytes (x : Z) : bytes :=
  let x := Z.abs x in
  if decide (x = 0)%Z then [] else be_bytes (Z.to_nat (Z.log2 x / 8 + 1)) x.

(** ** encoding/asn1 on [struct { R, S *big.Int }] *)

(** The content octets of a non-negative INTEGER. *)
Definition intContent (x : Z) : bytes :=
  match big_Bytes x with
  | [] => [Byte.x00]
  | b :: l => if decide (128 ≤ Z_of_byte b)%Z then Byte.x00 :: b :: l else b :: l
  end.

Definition Marshal_RS (r s : Z) : bytes :=
  Asn1.tlv Asn1.ClassUniversal Asn1.TagSequence true
    (Asn1.tlv Asn1.ClassUniversal Asn1.TagInteger false (intContent r) ++
     Asn1.tlv Asn1.ClassUniversal Asn1.TagInteger false (intContent s)).

(** One field of known tag: its content and what follows it. *)
Definition parseField (tag : Z) (isCompound : bool) (l : bytes) : outcome (bytes * bytes) :=
  if decide (l = []) then Err (err_msg "asn1: syntax error: sequence truncated") else
  '(class, tag', isCompound', len, r) ← Asn1.parseTagAndLength l;
  if decide (class ≠ Asn1.ClassUniversal ∨ tag' ≠ tag ∨ isCompound' ≠ isCompound)
  then Err (err_msg "asn1: structure error: tags don't match")
  else if decide (zlen r < len)%Z then Err (err_msg "asn1: syntax error: data truncated")
  else Ok (take (Z.to_nat len) r, drop (Z.to_nat len) r).

(** [checkInteger] and [parseBigInt]: two's complement, minimal. *)
Definition parseBigInt (l : bytes) : outcome Z :=
  match l with
  | [] => Err (err_msg "asn1: structure error: empty integer")
  | [b] => Ok (if decide (128 ≤ Z_of_byte b)%Z then Z_of_byte b - 256 else Z_of_byte b)%Z
  | b :: b' :: _ =>
    if decide ((b = Byte.x00 ∧ Z_of_byte b' < 128) ∨ (b = Byte.xff ∧ 128 ≤ Z_of_byte b'))%Z
    then Err (err_msg "asn1: structure error: integer not minimally-encoded")
    else Ok (if decide (128 ≤ Z_of_byte b)%Z then be_Z l - 256 ^ zlen l else be_Z l)%Z
  end.

(** The outer SEQUENCE may have further elements, and bytes after it are returned. *)
Definition Unmarshal_RS (l : bytes) : outcome (Z * Z * bytes) :=
  '(inner, rest) ← parseField Asn1.TagSequence true l;
  '(rb, inner) ← parseField Asn1.TagInteger false inner;
  r ← parseBigInt rb;
  '(sb, _) ← parseField Asn1.TagInteger false inner;
  s ← parseBigInt sb;
  Ok (r, s, rest).

Section Convert.
Context `{TPMAlgs}.

(** The union accessors [RSASSA()] and [ECDSA()]. *)
Variables (RSASSA : TPMUSignature → outcome bytes)
  (ECDSA : TPMUSignature → outcome (bytes * bytes)).

Definition validateSignAlg (alg : Z) : outcome unit :=
  if decide (alg = TPMAlgRSASSA ∨ alg = TPMAlgECDSA) then Ok ()
  else Err (err_fmt "unsupported signing algorithm: %v" [AInt alg]).

Definition GetSignature (signature : TPMTSignature) : outcome bytes :=
  if decide (SigAlg signature = TPMAlgRSASSA) then
    map_err (err_wrap "failed to get RSASSA signature: %w") (RSASSA (Tpm2.Signature signature))
  else if decide (SigAlg signature = TPMAlgECDSA) then
    '(signatureR, signatureS) ←
      map_err (err_wrap "failed to get ECDSA signature: %w") (ECDSA (Tpm2.Signature signature));
    Ok (Marshal_RS (be_Z signatureR) (be_Z signatureS))
  else Err (err_fmt "unsupported signing algorithm: %v" [AInt (SigAlg signature)]).

Definition GetTPMSignature (signature : bytes) (alg : Z) : outcome TPMTSignature :=
  if decide (alg = TPMAlgRSASSA) then
    Ok (mkSignature TPMAlgRSASSA (NewRSASSA TPMAlgSHA256 signature))
  else if decide (alg = TPMAlgECDSA) then
    '(r, s, _) ← map_err (err_wrap "failed to unmarshal ECDSA signature: %w") (Unmarshal_RS signature);
    Ok (mkSignature TPMAlgECDSA (NewECDSA TPMAlgSHA256 (big_Bytes r) (big_Bytes s)))
  else Err (err_fmt "unsupported signing algorithm: %v" [AInt alg]).

End Convert.

(** ** The minimal big-endian form *)

(** Drop the leading zero octets. *)
Fixpoint stripZeros (b : bytes) : bytes :=
  match b with
  | Byte.x00 :: b => stripZeros b
  | _ => b
  end.

Lemma be_Z_stripZeros b : be_Z (stripZeros b) = be_Z b.
Proof.
  induction b as [|x b IH]; [done|].
  destruct x; try done. cbn [stripZeros]. rewrite IH, be_Z_cons. done.
Qed.

Lemma stripZeros_head b : stripZeros b = [] ∨ ∃ x l, stripZeros b = x :: l ∧ (0 < Z_of_byte x)%Z.
Proof.
  induction b as [|x b IH]; [by left|].
  destruct (decide (x = Byte.x00)) as [->|Hx]; [done|]. right. exists x, b.
  split; [by destruct x|]. pose proof (Z_of_byte_range x).
  assert (Z_of_byte x ≠ Z_of_byte Byte.x00) by (by intros ?%(inj _)).
  change (Z_of_byte Byte.x00) with 0%Z in *. lia.
Qed.

Lemma length_stripZeros b : length (stripZeros b) ≤ length b.
Proof. induction b as [|x b IH]; [done|]. destruct x; cbn in *; lia. Qed.

Lemma big_Bytes_minimal x l : (0 < Z_of_byte x)%Z → big_Bytes (be_Z (x :: l)) = x :: l.
Proof.
  intros Hx. pose proof (Z_of_byte_range x). pose proof (be_Z_range l).
  set (n := zlen l) in *. assert (be_Z (x :: l) = Z_of_byte x * 256 ^ n + be_Z l)%Z as Hz by apply be_Z_cons.
  assert (0 < 256 ^ n)%Z by (apply Z.pow_pos_nonneg; lia).
  unfold big_Bytes. rewrite Z.abs_eq, decide_False by nia.
  assert (Z.log2 (be_Z (x :: l)) / 8 = n)%Z as Hlog.
  { change 256%Z with (2 ^ 8)%Z in *. rewrite <-Z.pow_mul_r in * by lia.
    assert (8 * n ≤ Z.log2 (be_Z (x :: l)))%Z by (apply Z.log2_le_pow2; nia).
    assert (Z.log2 (be_Z (x :: l)) < 8 * n + 8)%Z.
    { apply Z.log2_lt_pow2; [nia|]. rewrite Z.pow_add_r by lia. nia. }
    symmetry. apply (Z.div_unique _ _ _ (Z.log2 (be_Z (x :: l)) - 8 * n)); lia. }
  rewrite Hlog. replace (Z.to_nat (n + 1)) with (length (x :: l)) by (cbn; lia).
  apply be_bytes_be_Z.
Qed.

Lemma big_Bytes_be_Z b : big_Bytes (be_Z b) = stripZeros b.
Proof.
  rewrite <-be_Z_stripZeros. destruct (stripZeros_head b) as [->|(x & l & -> & Hx)]; [done|].
  by apply big_Bytes_minimal.
Qed.

(** ** INTEGER and the pair *)
Lemma length_intContent b : length (intContent (be_Z b)) ≤ length b + 1.
Proof.
  unfold intContent. rewrite big_Bytes_be_Z. pose proof (length_stripZeros b).
  destruct (stripZeros b); [cbn; lia|]. case_decide; cbn in *; lia.
Qed.

Lemma parseBigInt_intContent b : parseBigInt (intContent (be_Z b)) = Ok (be_Z b).
Proof.
  unfold intContent. rewrite big_Bytes_be_Z, <-(be_Z_stripZeros b).
  destruct (stripZeros_head b) as [->|(x & l & -> & Hx)]; [done|].
  pose proof (Z_of_byte_range x). case_decide as H128.
  - cbn [parseBigInt]. change (Z_of_byte Byte.x00) with 0%Z. rewrite decide_False by (intros [[??]|[? ?]]; [lia|done]).
    rewrite decide_False by lia. f_equal. rewrite (be_Z_cons Byte.x00). done.
  - destruct l as [|y l]; cbn [parseBigInt].
    + rewrite decide_False by lia. f_equal. rewrite be_Z_cons. unfold be_Z. cbn. lia.
    + rewrite decide_False, decide_False; [done|lia|].
      intros [[-> ?]|[-> ?]]; [change (Z_of_byte Byte.x00) with 0%Z in *; lia|].
      change (Z_of_byte Byte.xff) with 255%Z in *. lia.
Qed.

Lemma parseField_tlv tag c body r :
  (0 ≤ tag < 31)%Z → (zlen body < 2 ^ 31)%Z →
  parseField tag c (Asn1.tlv Asn1.ClassUniversal tag c body ++ r) = Ok (body, r).
Proof.
  intros Ht Hb. unfold parseField. rewrite Asn1.tlv_eq.
  pose proof (Asn1.length_appendTagAndLength Asn1.ClassUniversal tag c (zlen body)).
  rewrite decide_False by (intros Hn; apply (f_equal length) in Hn; rewrite !length_app in Hn; cbn in Hn; lia).
  rewrite <-app_assoc, Asn1.parse_appendLength by (unfold Asn1.ClassUniversal; lia).
  cbn [mbind outcome_bind]. unfold mbind, outcome_bind. rewrite decide_False by tauto.
  rewrite length_app, decide_False by lia. by rewrite Nat2Z.id, take_app_length, drop_app_length.
Qed.

Lemma length_tlv_int body : (zlen body < 2 ^ 20)%Z →
  length (Asn1.tlv Asn1.ClassUniversal Asn1.TagInteger false body) ≤ length body + 12.
Proof.
  intros Hl. rewrite Asn1.tlv_eq, length_app. unfold Asn1.appendTagAndLength, Asn1.appendLength.
  rewrite decide_False by (unfold Asn1.TagInteger; lia).
  destruct (Asn1.lengthLength_bounds 7 (zlen body)) as (Hk & _).
  { split; [lia|]. change (256 ^ Z.of_nat 8)%Z with (2 ^ 64)%Z. lia. }
  case_decide; cbn [length app]; rewrite ?length_be_bytes; lia.
Qed.

Lemma Unmarshal_Marshal_RS a b rest : (zlen a < 2 ^ 16)%Z → (zlen b < 2 ^ 16)%Z →
  Unmarshal_RS (Marshal_RS (be_Z a) (be_Z b) ++ rest) = Ok (be_Z a, be_Z b, rest).
Proof.
  intros Ha Hb. pose proof (length_intContent a). pose proof (length_intContent b).
  pose proof (length_tlv_int (intContent (be_Z a)) ltac:(lia)).
  pose proof (length_tlv_int (intContent (be_Z b)) ltac:(lia)).
  unfold Unmarshal_RS, Marshal_RS.
  rewrite parseField_tlv; [|unfold Asn1.TagSequence; lia|rewrite length_app; lia].
  cbn [mbind outcome_bind]. unfold mbind, outcome_bind.
  rewrite parseField_tlv, parseBigInt_intContent by (unfold Asn1.TagInteger; lia).
  rewrite <-(app_nil_r (Asn1.tlv _ _ _ (intContent (be_Z b)))).
  rewrite parseField_tlv, parseBigInt_intContent by (unfold Asn1.TagInteger; lia). done.
Qed.

(** ** The two conversions *)
Section Roundtrip.
Context `{TPMAlgsLaws}.
Variables (RSASSA : TPMUSignature → outcome bytes) (ECDSA : TPMUSignature → outcome (bytes * bytes)).
Hypothesis RSASSA_NewRSASSA : ∀ h sig, RSASSA (NewRSASSA h sig) = Ok sig.
Hypothesis ECDSA_NewECDSA : ∀ h r s, ECDSA (NewECDSA h r s) = Ok (r, s).

(** C33: a signature of the TPM survives the conversion to library form and
    back: an RSASSA signature exactly, an ECDSA signature up to the leading zero
    octets of its two numbers, which are what [big.Int] drops; the hash identifier,
    which the library form does not carry, always comes back as SHA-256. *)
Theorem GetTPMSignature_GetSignature hash sig r s :
  (zlen r < 2 ^ 16)%Z → (zlen s < 2 ^ 16)%Z →
  (∃ b, GetSignature RSASSA ECDSA (mkSignature TPMAlgRSASSA (NewRSASSA hash sig)) = Ok b ∧
     GetTPMSignature b TPMAlgRSASSA = Ok (mkSignature TPMAlgRSASSA (NewRSASSA TPMAlgSHA256 sig))) ∧
  (∃ b, GetSignature RSASSA ECDSA (mkSignature TPMAlgECDSA (NewECDSA hash r s)) = Ok b ∧
     GetTPMSignature b TPMAlgECDSA =
       Ok (mkSignature TPMAlgECDSA (NewECDSA TPMAlgSHA256 (stripZeros r) (stripZeros s)))).
Proof.
  intros Hr Hs. unfold GetSignature, GetTPMSignature. cbn [SigAlg Tpm2.Signature]. split.
  - exists sig. rewrite !decide_True, RSASSA_NewRSASSA by done. done.
  - assert (TPMAlgECDSA ≠ TPMAlgRSASSA) as Hne.
    { intros He. assert (10 = 9); [|done]. eapply algs_distinct; cbn; by rewrite ?He. }
    exists (Marshal_RS (be_Z r) (be_Z s)). rewrite !decide_False, !decide_True, ECDSA_NewECDSA by done.
    split; [done|].
    pose proof (Unmarshal_Marshal_RS r s [] Hr Hs) as Hu. rewrite app_nil_r in Hu. rewrite Hu.
    unfold mbind, outcome_bind, map_err. rewrite (decide_False (P := TPMAlgECDSA = TPMAlgRSASSA)), (decide_True (P := TPMAlgECDSA = TPMAlgECDSA)) by done. by rewrite !big_Bytes_be_Z.
Qed.
End Roundtrip.

(** ** Witness *)
Section Witness.
Import TCGAlgs.
Definition demo_RSASSA (u : TPMUSignature) : outcome bytes :=
  match u with NewRSASSA _ sig => Ok sig | _ => Err (EExt "tpm2: wrong union member") end.
Definition demo_ECDSA (u : TPMUSignature) : outcome (bytes * bytes) :=
  match u with NewECDSA _ r s => Ok (r, s) | _ => Err (EExt "tpm2: wrong union member") end.

Lemma GetTPMSignature_GetSignature_witness :
  let r := [Byte.x00; Byte.x80; Byte.x01] in let s := [Byte.x00; Byte.x00] in
  (∃ b, GetSignature demo_RSASSA demo_ECDSA (mkSignature TPMAlgECDSA (NewECDSA TPMAlgSHA256 r s)) = Ok b ∧
     GetTPMSignature b TPMAlgECDSA =
       Ok (mkSignature TPMAlgECDSA (NewECDSA TPMAlgSHA256 [Byte.x80; Byte.x01] []))).
Proof.
  apply (GetTPMSignature_GetSignature demo_RSASSA demo_ECDSA (λ _ _, eq_refl) (λ _ _ _, eq_refl)
           TPMAlgSHA256 [] [Byte.x00; Byte.x80; Byte.x01] [Byte.x00; Byte.x00]); vm_compute; reflexivity.
Defined.
End Witness.

End Sig.
