(* ===== verification/Templates.v ===== *)
(** * pkg/tpm/constants.go: handles and key templates

    The templates over go-tpm's identifiers, which are a class of parameters. *)
From S2P Require Import Prelude Bytes Tpm2.
Import Tpm2.

Module Templates.

Definition SRKRSAHandle : Z := 0x81000001.
Definition SRKECCHandle : Z := 0x81000002.
Definition EKRSAHandle : Z := 0x81010001.
Definition EKECCHandle : Z := 0x81010002.
Definition EKRSACERTNVIndex : Z := 0x1c00002.
Definition EKRSACERT2048NVIndex : Z := 0x1c00012.
Definition EKECCCERTNVIndex : Z := 0x1c0000a.
Definition EKECCCERT384NVIndex : Z := 0x01c00016.

(** go-tpm's own templates. *)
Class TPMTemplates := {
  ECCEKTemplate : TPMTPublic;
  RSAEKTemplate : TPMTPublic;
  ECCSRKTemplate : TPMTPublic;
}.

Section Templates.
Context `{!TPMAlgs} `{!TPMConsts}.

Definition GetRSASigningKeyTemplate : TPMTPublic := {|
  Type_ := TPMAlgRSA;
  NameAlg := TPMAlgSHA256;
  ObjectAttributes := {|
    FixedTPM := true; FixedParent := true; SensitiveDataOrigin := true; UserWithAuth := true;
    AdminWithPolicy := false; Restricted := false; Decrypt := false; SignEncrypt := true |};
  AuthPolicy := [];
  Parameters := NewRSAParms TPMAlgRSA {|
    RSASymmetric := None;
    RSAScheme := mkScheme TPMAlgRSASSA (Some TPMAlgSHA256);
    KeyBits := 2048 |};
  Unique := NoID;
|}.

Definition GetECCSigningKeyTemplate : TPMTPublic := {|
  Type_ := TPMAlgECC;
  NameAlg := TPMAlgSHA256;
  ObjectAttributes := {|
    FixedTPM := true; FixedParent := true; SensitiveDataOrigin := true; UserWithAuth := true;
    AdminWithPolicy := false; Restricted := false; Decrypt := false; SignEncrypt := true |};
  AuthPolicy := [];
  Parameters := NewECCParms TPMAlgECC {|
    Symmetric := None;
    ECCScheme := mkScheme TPMAlgECDSA (Some TPMAlgSHA256);
    CurveID := TPMECCNistP256;
    KDF := 0 |};
  Unique := NoID;
|}.

Definition GetRSASigningKeyTemplateWithPolicy (authPolicy : bytes) : TPMTPublic := {|
  Type_ := TPMAlgRSA;
  NameAlg := TPMAlgSHA256;
  ObjectAttributes := {|
    FixedTPM := true; FixedParent := true; SensitiveDataOrigin := true; UserWithAuth := false;
    AdminWithPolicy := false; Restricted := false; Decrypt := false; SignEncrypt := true |};
  AuthPolicy := authPolicy;
  Parameters := NewRSAParms TPMAlgRSA {|
    RSASymmetric := None;
    RSAScheme := mkScheme TPMAlgRSASSA (Some TPMAlgSHA256);
    KeyBits := 2048 |};
  Unique := NoID;
|}.

Definition GetECCSigningKeyTemplateWithPolicy (authPolicy : bytes) : TPMTPublic := {|
  Type_ := TPMAlgECC;
  NameAlg := TPMAlgSHA256;
  ObjectAttributes := {|
    FixedTPM := true; FixedParent := true; SensitiveDataOrigin := true; UserWithAuth := false;
    AdminWithPolicy := false; Restricted := false; Decrypt := false; SignEncrypt := true |};
  AuthPolicy := authPolicy;
  Parameters := NewECCParms TPMAlgECC {|
    Symmetric := None;
    ECCScheme := mkScheme TPMAlgECDSA (Some TPMAlgSHA256);
    CurveID := TPMECCNistP256;
    KDF := 0 |};
  Unique := NoID;
|}.

Definition GetECCAttestationKeyTemplate : TPMTPublic := {|
  Type_ := TPMAlgECC;
  NameAlg := TPMAlgSHA256;
  ObjectAttributes := {|
    FixedTPM := true; FixedParent := true; SensitiveDataOrigin := true; UserWithAuth := true;
    AdminWithPolicy := false; Restricted := true; Decrypt := false; SignEncrypt := true |};
  AuthPolicy := [];
  Parameters := NewECCParms TPMAlgECC {|
    Symmetric := None;
    ECCScheme := mkScheme TPMAlgECDSA (Some TPMAlgSHA256);
    CurveID := TPMECCNistP256;
    KDF := 0 |};
  Unique := NoID;
|}.

Definition GetRSAAttestationKeyTemplate : TPMTPublic := {|
  Type_ := TPMAlgRSA;
  NameAlg := TPMAlgSHA256;
  ObjectAttributes := {|
    FixedTPM := true; FixedParent := true; SensitiveDataOrigin := true; UserWithAuth := true;
    AdminWithPolicy := false; Restricted := true; Decrypt := false; SignEncrypt := true |};
  AuthPolicy := [];
  Parameters := NewRSAParms TPMAlgRSA {|
    RSASymmetric := None;
    RSAScheme := mkScheme TPMAlgRSASSA (Some TPMAlgSHA256);
    KeyBits := 2048 |};
  Unique := NoID;
|}.

(** [PolicyBSHA384] of [GetECCEKP384Template]. *)
Definition PolicyBSHA384 : bytes := byte_of_Z <$> [
  0xB2; 0x6E; 0x7D; 0x28; 0xD1; 0x1A; 0x50; 0xBC;
  0x53; 0xD8; 0x82; 0xBC; 0xF5; 0xFD; 0x3A; 0x1A;
  0x07; 0x41; 0x48; 0xBB; 0x35; 0xD3; 0xB4; 0xE4;
  0xCB; 0x1C; 0x0A; 0xD9; 0xBD; 0xE4; 0x19; 0xCA;
  0xCB; 0x47; 0xBA; 0x09; 0x69; 0x96; 0x46; 0x15;
  0x0F; 0x9F; 0xC0; 0x00; 0xF3; 0xF8; 0x0E; 0x12]%Z.

Definition GetECCEKP384Template : TPMTPublic := {|
  Type_ := TPMAlgECC;
  NameAlg := TPMAlgSHA384;
  ObjectAttributes := {|
    FixedTPM := true; FixedParent := true; SensitiveDataOrigin := true; UserWithAuth := true;
    AdminWithPolicy := true; Restricted := true; Decrypt := true; SignEncrypt := false |};
  AuthPolicy := PolicyBSHA384;
  Parameters := NewECCParms TPMAlgECC {|
    Symmetric := Some (mkSymDef TPMAlgAES 256 TPMAlgCFB);
    ECCScheme := mkScheme TPMAlgNull None;
    CurveID := TPMECCNistP384;
    KDF := TPMAlgNull |};
  Unique := NewECCID TPMAlgECC (mkECCPoint [] []);
|}.

(** tpm.go *)
Definition getECCEKTemplate `{!TPMTemplates} (curve : Z) : outcome TPMTPublic :=
  if decide (curve = TPMECCNistP256) then Ok ECCEKTemplate
  else if decide (curve = TPMECCNistP384) then Ok GetECCEKP384Template
  else Err (err_fmt "unsupported ECC curve: %v" [AInt curve]).

End Templates.

End Templates.
