(* ===== verification/TpmKeys.v ===== *)
(** * pkg/tpm/tpm.go: keys and sealed objects

    Creating and persisting the primary keys, loading, signing, sealing. What
    go-tpm's decoders and the standard library's key types do is a parameter;
    the order of the commands, the clean-up and the error paths are the code's. *)
From S2P Require Import Prelude Bytes Tpm2 Trace TpmErrors PolicyDigest Wrap Cert TpmProps TpmNV TpmPCR Signature Templates.
Import Tpm2 Trace PolicyDigest Templates.

Module Keys.

(** [type TPM struct]: the device is in the state, the handle of the SRK here. *)
Record TPM := mkTPM { srkHandle : Z }.

(** [ECCEKProfile] *)
Record ECCEKProfile (X : Type) := mkProfile { Curve : Z; Certificate : option (Cert.Certificate X) }.
Arguments mkProfile {X}.
Arguments Curve {X}.
Arguments Certificate {X}.

(** [crypto.PublicKey]: an RSA key of go-tpm's making, or an ECDSA key. *)
Inductive PublicKey (RSA Curve_ : Type) :=
  | RSAPublicKey (k : RSA)
  | ECDSAPublicKey (curve : Curve_) (X Y : Z).
Arguments RSAPublicKey {RSA Curve_}.
Arguments ECDSAPublicKey {RSA Curve_}.

Section Keys.
Context {D : Type} `{!Device D} `{!TPMAlgs} `{!TPMConsts} `{!TPMTemplates}.

(** ** Public and private areas *)

(** [tpm2.Unmarshal[tpm2.TPM2BPublic]], [tpm2.ObjectName]. *)
Variables (Unmarshal_TPM2BPublic : bytes → outcome (TPM2B TPMTPublic))
  (ObjectName : TPMTPublic → outcome bytes).

(** The writes into a [bytes.Buffer] do not fail. *)
Definition ToPublic (public : bytes) : outcome (TPM2B TPMTPublic) :=
  let marshaledPublic := be_bytes 2 (u16 (zlen public)) in
  let marshaledPublic := marshaledPublic ++ public in
  Unmarshal_TPM2BPublic marshaledPublic.

Definition ToPrivate (private : bytes) : bytes := private.

(** Accessors of the public-area unions, curves, RSA keys. *)
Context {RSA Curve_ : Type}.
Variables (RSADetail : TPMUPublicParms → outcome TPMSRSAParms)
  (ECCDetail : TPMUPublicParms → outcome TPMSECCParms)
  (Unique_RSA : TPMUPublicID → outcome bytes)
  (Unique_ECC : TPMUPublicID → outcome TPMSECCPoint)
  (RSAPub : TPMSRSAParms → bytes → outcome RSA)
  (CurveID_Curve : Z → outcome Curve_)
  (MarshalPKIXPublicKey : PublicKey RSA Curve_ → outcome bytes).

Definition ParsePublicKey (contents : TPMTPublic) : outcome (PublicKey RSA Curve_) :=
  if decide (Type_ contents = TPMAlgRSA) then
    details ← map_err (err_wrap "failed to read RSA details: %w") (RSADetail (Parameters contents));
    unique ← map_err (err_wrap "failed to read RSA unique: %w") (Unique_RSA (Unique contents));
    k ← map_err (err_wrap "failed to create RSA public key: %w") (RSAPub details unique);
    Ok (RSAPublicKey k)
  else if decide (Type_ contents = TPMAlgECC) then
    details ← map_err (err_wrap "failed to read ECC details: %w") (ECCDetail (Parameters contents));
    curve ← map_err (err_wrap "failed to get curve: %w") (CurveID_Curve (CurveID details));
    unique ← map_err (err_wrap "failed to read ECC unique: %w") (Unique_ECC (Unique contents));
    Ok (ECDSAPublicKey curve (be_Z (point_X unique)) (be_Z (point_Y unique)))
  else Err (err_fmt "unsupported key type %v" [AInt (Type_ contents)]).

Definition ReadPublic (h : Z) : SM (tpmState D) bytes :=
  resp ← map_errS (λ e, EFmt "failed to read public area of handle %v: %w" [AInt h] [e])
    (Execute (Tpm2.ReadPublic h));
  mret (Bytes resp).

Definition ReadPublicKey (h : Z) : SM (tpmState D) (PublicKey RSA Curve_) :=
  resp ← map_errS (λ e, EFmt "failed to read public part of handle %v: %w" [AInt h] [e])
    (Execute (Tpm2.ReadPublic h));
  pc ← lift (map_err (err_wrap "failed to read public content: %w") (Contents resp));
  lift (ParsePublicKey pc).

Definition ReadHandle (h : Z) : SM (tpmState D) bytes :=
  key ← ReadPublicKey h;
  lift (MarshalPKIXPublicKey key).

(** attest.go *)
Definition getObjectPublic (h : Z) : SM (tpmState D) TPMTPublic :=
  resp ← map_errS (err_wrap "failed to read public part of key: %w") (Execute (Tpm2.ReadPublic h));
  lift (Contents resp).

Definition getObjectName (h : Z) : SM (tpmState D) bytes :=
  publicStruct ← map_errS (err_wrap "failed to parse public part of key: %w") (getObjectPublic h);
  lift (map_err (err_wrap "failed to get object name: %w") (ObjectName publicStruct)).

(** ** The endorsement key *)
Context {X : Type}.
Variables (attest_ParseEKCertificate x509_ParseCertificate : bytes → outcome (Cert.Certificate X))
  (Pack_uint32 : Z → outcome bytes).

(** cert.go *)
Definition GetEKCert (fuel : nat) (certIndex : Z) (password : bytes)
    : SM (tpmState D) (Cert.Certificate X) :=
  certBytes ← map_errS (err_wrap "failed to read EK certificate from NV storage: %w")
    (NV.ReadFromNVStorage fuel certIndex password);
  lift (Cert.ParseEKCertificate attest_ParseEKCertificate x509_ParseCertificate certBytes).

(** The loop over the candidates: the first certificate that can be read. *)
Fixpoint findCert (fuel : nat) (candidates : list (Z * Z))
    : SM (tpmState D) (option (ECCEKProfile X)) :=
  match candidates with
  | [] => mret None
  | (index, curve) :: candidates =>
    r ← attempt (GetEKCert fuel index []);
    match r with
    | Ok certificate => mret (Some (mkProfile curve (Some certificate)))
    | _ => findCert fuel candidates
    end
  end.

Definition ResolveECCEKProfile (fuel : nat) : SM (tpmState D) (ECCEKProfile X) :=
  found ← findCert fuel [(EKECCCERTNVIndex, TPMECCNistP256); (EKECCCERT384NVIndex, TPMECCNistP384)];
  match found with
  | Some profile => mret profile
  | None =>
    '(vendor, _) ← map_errS (err_wrap "failed to get TPM model: %w") (Props.GetModel Pack_uint32);
    let curve := if decide (vendor = Props.amazonTPMVendor) then TPMECCNistP384 else TPMECCNistP256 in
    mret (mkProfile curve None)
  end.

(** [EvictControl] with the deferred, unchecked flush of the transient handle. *)
Definition persist (resp : ObjectResponse) (passwordBytes : bytes) (persistent : Z)
    : SM (tpmState D) unit :=
  deferring
    (map_errS (err_wrap "failed to evict control: %w")
      (Execute (EvictControl (AuthHandle TPMRHOwner [] (PasswordAuth passwordBytes))
                  (NamedHandle (ObjectHandle resp) (Name resp)) persistent)))
    (_ ← attempt (Execute (FlushContext (ObjectHandle resp))); mret ()).

Definition CreateECCEK (fuel : nat) (password : bytes) : SM (tpmState D) unit :=
  profile ← ResolveECCEKProfile fuel;
  ekTemplate ← lift (getECCEKTemplate (Curve profile));
  resp ← map_errS (err_wrap "failed to create primary: %w")
    (Execute (CreatePrimary (AuthHandle TPMRHEndorsement [] (PasswordAuth password))
                ekTemplate (Some password)));
  persist resp password EKRSAHandle.

Definition CreateRSAEK (password : bytes) : SM (tpmState D) unit :=
  resp ← map_errS (err_wrap "failed to create primary: %w")
    (Execute (CreatePrimary (AuthHandle TPMRHEndorsement [] (PasswordAuth password))
                RSAEKTemplate (Some password)));
  persist resp password EKRSAHandle.

Definition LoadECCEK (password : bytes) (alg : Z) : SM (tpmState D) Z :=
  ekTemplate ← lift (getECCEKTemplate alg);
  resp ← map_errS (err_wrap "failed to create primary: %w")
    (Execute (CreatePrimary (AuthHandle TPMRHEndorsement [] (PasswordAuth password))
                ekTemplate (Some password)));
  mret (ObjectHandle resp).

Definition CreateECCOwnerPK (password : bytes) : SM (tpmState D) unit :=
  resp ← map_errS (err_wrap "failed to create primary: %w")
    (Execute (CreatePrimary (AuthHandle TPMRHOwner [] (PasswordAuth password)) ECCSRKTemplate None));
  persist resp password SRKECCHandle.

(** ** Sealing *)
Definition sealTemplate (policy : option bytes) : TPMTPublic := {|
  Type_ := TPMAlgKeyedHash;
  NameAlg := TPMAlgSHA256;
  ObjectAttributes := {|
    FixedTPM := true; FixedParent := true; SensitiveDataOrigin := false;
    UserWithAuth := match policy with Some _ => false | None => true end;
    AdminWithPolicy := false; Restricted := false; Decrypt := false; SignEncrypt := false |};
  AuthPolicy := match policy with Some p => p | None => [] end;
  Parameters := NoParms;
  Unique := NoID;
|}.

Definition Seal (tpm : TPM) (sensitiveData : bytes) (policy : option bytes)
    : SM (tpmState D) (bytes * bytes) :=
  resp ← map_errS (err_wrap "failed to create key: %w")
    (Execute (Create (NamedHandle (srkHandle tpm) []) (sealTemplate policy) (SensitiveData sensitiveData)));
  mret (OutPrivate resp, Bytes (OutPublic resp)).

(** [for range 3]: flush, and sleep a second after a failure. *)
Fixpoint flushRetry (n : nat) (h : Z) : SM (tpmState D) unit :=
  match n with
  | O => mret ()
  | S n =>
    r ← attempt (Execute (FlushContext h));
    match r with
    | Ok _ => mret ()
    | _ => _ ← attempt (Execute (Sleep 1)); flushRetry n h
    end
  end.

Definition Unseal (tpm : TPM) (private public : bytes) (sess : option session)
    : SM (tpmState D) bytes :=
  inPublic ← lift (map_err (err_wrap "failed to read public key: %w") (ToPublic public));
  let inPrivate := ToPrivate private in
  resp ← map_errS (err_wrap "failed to load TPM object: %w")
    (Execute (Load (NamedHandle (srkHandle tpm) []) inPublic inPrivate));
  deferring
    (let item :=
       match sess with
       | Some sess => AuthHandle (ObjectHandle resp) (Name resp) sess
       | None => NamedHandle (ObjectHandle resp) (Name resp)
       end in
     map_errS (err_wrap "failed to unseal: %w") (Execute (Tpm2.Unseal item)))
    (flushRetry 3 (ObjectHandle resp)).

(** ** Keys *)
Definition CreateKey (owner : Z) (password : bytes) (keyTemplate : TPMTPublic)
    : SM (tpmState D) (bytes * bytes * bytes * bytes * TPMTTKCreation) :=
  resp ← map_errS (err_wrap "failed to create key: %w")
    (Execute (Create (NamedHandle owner []) keyTemplate (UserAuth password)));
  mret (Bytes (OutPublic resp), OutPrivate resp, CreationData resp, CreationHash resp,
        CreationTicket resp).

Definition LoadKey (owner : Z) (public private : bytes) : SM (tpmState D) Z :=
  inPublic ← lift (map_err (err_wrap "failed to read public key: %w") (ToPublic public));
  let inPrivate := ToPrivate private in
  resp ← map_errS (err_wrap "failed to load key: %w")
    (Execute (Load (NamedHandle owner []) inPublic inPrivate));
  mret (ObjectHandle resp).

Definition UnloadKey (h : Z) : SM (tpmState D) unit := Execute (FlushContext h).

(** ** Signing *)
Variables (RSASSA : TPMUSignature → outcome bytes)
  (ECDSA : TPMUSignature → outcome (bytes * bytes)).

(** The scheme every signing command uses: the caller's, over SHA-256. *)
Definition sigScheme (alg : Z) : TPMTScheme := mkScheme alg (Some TPMAlgSHA256).

Definition Sign (h alg : Z) (digest : bytes) : SM (tpmState D) bytes :=
  resp ← map_errS (err_wrap "failed to sign: %w")
    (Execute (Tpm2.Sign (NamedHandle h []) digest (sigScheme alg) TPMSTHashCheck));
  lift (map_err (err_wrap "failed to get signature: %w") (Sig.GetSignature RSASSA ECDSA resp)).

Definition SignWithPolicy (h alg : Z) (digest : bytes) (pcrs : list Z) : SM (tpmState D) bytes :=
  keyName ← map_errS (err_wrap "failed to get key object name: %w") (getObjectName h);
  resp ← map_errS (err_wrap "failed to sign with policy: %w")
    (Execute (Tpm2.Sign
      (AuthHandle h keyName (Policy TPMAlgSHA256 16 (pcrPolicyCallback pcrs)))
      digest (sigScheme alg) TPMSTHashCheck));
  lift (map_err (err_wrap "failed to get signature: %w") (Sig.GetSignature RSASSA ECDSA resp)).

(** [Close] *)
Definition Close : SM (tpmState D) unit := _ ← attempt (Execute CloseDevice); mret ().

(** ** What becomes of the transient objects *)

Section Queries.
Variable Q : event → Prop.
Hypothesis Q_query : ∀ R (c : command R) r, isQuery c → Q (Ev c r).
#[local] Hint Resolve Q_query : iks.

Lemma always_ReadFromNVStorage fuel h password : always Q (NV.ReadFromNVStorage fuel h password).
Proof.
  assert (∀ max size buffer, always Q (NV.readLoop fuel h password max size buffer)) as Hl.
  { induction fuel as [|fuel IH]; intros; cbn [NV.readLoop]; unfold NV.readFunc; eauto 20 with iks. }
  unfold NV.ReadFromNVStorage. eauto 20 with iks.
Qed.

Lemma always_GetModel : always Q (Props.GetModel Pack_uint32).
Proof.
  assert (∀ p, always Q (Props.getProperty Pack_uint32 p)) as Hp
    by (intros; unfold Props.getProperty; eauto 20 with iks).
  assert (∀ p, always Q (Props.GetPropertyString Pack_uint32 p)) as Hs
    by (intros; unfold Props.GetPropertyString; eauto 20 with iks).
  assert (∀ ps m e, always Q (Props.modelLoop Pack_uint32 ps m e)) as Hm
    by (induction ps as [|p ps IH]; intros; cbn [Props.modelLoop]; eauto 20 with iks).
  unfold Props.GetModel, Props.GetPropertyUInt32. eauto 20 with iks.
Qed.

(** Choosing the endorsement key's curve only asks. *)
Lemma always_ResolveECCEKProfile fuel : always Q (ResolveECCEKProfile fuel).
Proof.
  assert (∀ l, always Q (findCert fuel l)) as Hf.
  { induction l as [|[index curve] l IH]; cbn [findCert]; unfold GetEKCert;
      eauto 20 using always_ReadFromNVStorage with iks. }
  unfold ResolveECCEKProfile. eauto 20 using always_GetModel with iks.
Qed.
End Queries.

Lemma quiet_ResolveECCEKProfile fuel : quiet (ResolveECCEKProfile fuel).
Proof. apply always_ResolveECCEKProfile. intros. by apply query_neutral. Qed.

Lemma persist_releases resp password h :
  emits (persist resp password h) (λ _ evs, leftover 1 [RObject (ObjectHandle resp)] evs).
Proof. apply deferring_releases; [eauto with iks|]. by apply giveUp_once. Qed.

(** A refused flush goes unnoticed: the call succeeds and the object stays. *)
Lemma persist_unflushed resp password h s d1 err d2 :
  let evict := EvictControl (AuthHandle TPMRHOwner [] (PasswordAuth password))
                 (NamedHandle (ObjectHandle resp) (Name resp)) h in
  exec evict (device s) = (Ok (), d1) → exec (FlushContext (ObjectHandle resp)) d1 = (Err err, d2) →
  ∃ evs, persist resp password h s = (Ok (), mkState d2 (trace s ++ evs)) ∧
    pending [RObject (ObjectHandle resp)] evs = [RObject (ObjectHandle resp)].
Proof.
  intros evict He Hf. exists [Ev evict (Ok ()); Ev (FlushContext (ObjectHandle resp)) (Err err)]. split; [|done].
  unfold persist. erewrite deferring_step by (apply map_errS_Ok, Execute_step; exact He).
  unfold mbind, SM_bind, attempt. rewrite (Execute_step _ (mkState d1 _) _ _ Hf). cbn. by rewrite <-(assoc_L (++)).
Qed.

(** The sleep between two attempts. *)
Lemma sleep_quiet : emits (attempt (Execute (Sleep 1)))
  (λ r evs, Forall neutral evs ∧ match r with Panic _ => ∀ x, Exists (crashed x) evs | Err _ => False | _ => True end).
Proof.
  apply emits_attempt, emits_Execute. intros []; (split; [by repeat constructor|]); try done.
  intros x. left. cbn. by rewrite orb_true_r.
Qed.

(** A refusal before further attempts. *)
Lemma settles_again n x evs evs' : pending [x] evs = [x] → refusals x evs = 1 →
  settles n x evs' → settles (S n) x (evs ++ evs').
Proof.
  intros He Hr [He'|[He' Hg]]; [left|right]; rewrite pending_app, He, He'; [done|]. split; [done|].
  destruct Hg as [Hn|Hc]; [left; rewrite refusals_app; lia|right; apply Exists_app; by right].
Qed.

Lemma settles_neutral_l n x evs evs' : Forall neutral evs → settles n x evs' → settles n x (evs ++ evs').
Proof.
  unfold settles. intros Hf. rewrite pending_app, (pending_neutral _ evs) by done.
  intros [|[]]; [by left|right]. split; [done|by apply gaveUp_app_r].
Qed.

Lemma flushRetry_settles n h : emits (flushRetry n h) (λ _ evs, settles n (RObject h) evs).
Proof.
  set (x := RObject h). induction n as [|n IH]; cbn [flushRetry].
  { apply emits_ret. right. by split; [|left; lia]. }
  eapply (emits_bind _ _ (λ r evs, match r with Ok r => (∀ p, r ≠ Panic p) ∧ tried x r evs
                                           | Err _ => False | Panic p => tried x (Panic p) evs end)).
  - apply emits_attempt. eapply emits_weaken; [by apply (emits_givesUp _ x)|]. by intros [] evs Hevs.
  - intros [u|e|p] evs [Hp Ht]; [|destruct Ht as [He Hn]|by destruct (Hp p)].
    + apply emits_ret. left. rewrite app_nil_r, Ht. cbn. case_decide; [done|set_solver].
    + eapply emits_bind; [apply sleep_quiet| |by intros ? ? []|].
      * intros r evs2 [Hf _]. eapply emits_weaken; [apply IH|]. cbn. intros r' evs3 Hs.
        by apply settles_again; [done..|]; apply settles_neutral_l.
      * intros p evs2 [Hf Hc]. apply settles_again; [done..|]. right. split; [by apply pending_neutral|right; apply Hc].
  - done.
  - intros p evs [He Hc]. right. by split; [|right].
Qed.

Lemma flushRetry_releases n h : emits (flushRetry n h) (λ _ evs, leftover n [RObject h] evs).
Proof. eapply emits_weaken; [apply flushRetry_settles|]. intros r evs. apply settles_leftover. Qed.

(** C15: no transient object that CreatePrimary or Load returned is left behind,
    whichever command fails, unless the TPM refuses to flush it: a primary key's
    after one attempt, an unsealed object's only after three. *)
Theorem transient_released fuel tpm password private public sess :
  released 1 (CreateECCEK fuel password) ∧ released 1 (CreateRSAEK password) ∧
  released 1 (CreateECCOwnerPK password) ∧ released 3 (Unseal tpm private public sess).
Proof.
  assert (∀ a t u persistent pw, released 1 (resp ← map_errS (err_wrap "failed to create primary: %w")
    (Execute (CreatePrimary a t u)); persist resp pw persistent)) as Hprimary.
  { intros. eapply (released_acquire _ _ _ (λ o, RObject (ObjectHandle o))); [apply emits_CreatePrimary|].
    intros. apply persist_releases. }
  split_and!; [|apply Hprimary..|].
  - apply released_bind; [apply quiet_released, quiet_ResolveECCEKProfile|]. intros profile.
    apply released_bind; [apply quiet_released; eauto with iks|]. intros t. apply Hprimary.
  - apply released_bind; [apply quiet_released; eauto with iks|]. intros t.
    eapply (released_acquire _ _ _ (λ o, RObject (ObjectHandle o))); [apply emits_Load|]. intros resp.
    apply deferring_releases; [|apply flushRetry_releases]. destruct sess; eauto with iks.
Qed.

(** ** The TPM is a lawful sealer *)

Definition TPM_Sealer (tpm : TPM) : Wrap.Sealer (tpmState D) session := {|
  Wrap.Seal := Seal tpm;
  Wrap.Unseal := Unseal tpm;
|}.

(** The commands of [Seal] and [Unseal]. *)
Definition sealCommand {R} (c : command R) : bool :=
  match c with
  | Create _ _ _ | Load _ _ _ | Tpm2.Unseal _ | FlushContext _ | Sleep _ => true
  | _ => false
  end.

(** What a TPM promises about objects sealed under its storage key: [holds] an
    object it created for some data and policy, whatever these commands do; and
    loads it, and unseals it for an authorization that satisfies the policy. *)
Record SealDevice (tpm : TPM) := {
  holds : D → bytes → bytes → bytes → option bytes → Prop;
  sat : D → option session → option bytes → Prop;
  seal_create d data p resp d' :
    exec (Create (NamedHandle (srkHandle tpm) []) (sealTemplate p) (SensitiveData data)) d = (Ok resp, d') →
    holds d' (OutPrivate resp) (Bytes (OutPublic resp)) data p;
  holds_stable {R} (c : command R) priv pub data p d :
    sealCommand c = true → holds d priv pub data p → holds (exec c d).2 priv pub data p;
  sat_stable {R} (c : command R) sess p d :
    sealCommand c = true → sat d sess p → sat (exec c d).2 sess p;
  seal_unseal d priv pub data p sess : holds d priv pub data p → sat d sess p →
    ∃ inPublic o d1, ToPublic pub = Ok inPublic ∧
      exec (Load (NamedHandle (srkHandle tpm) []) inPublic priv) d = (Ok o, d1) ∧
      (exec (Tpm2.Unseal match sess with
                         | Some sess => AuthHandle (ObjectHandle o) (Name o) sess
                         | None => NamedHandle (ObjectHandle o) (Name o)
                         end) d1).1 = Ok data;
}.

Section KeepsSeal.
Variable I : D → Prop.
Hypothesis I_stable : ∀ R (c : command R) d, sealCommand c = true → I d → I (exec c d).2.

Lemma keeps_sealCommand {R} (c : command R) : sealCommand c = true → keeps I (Execute c).
Proof. intros. apply keeps_Execute. auto. Qed.
#[local] Hint Resolve keeps_sealCommand : iks.
#[local] Hint Extern 0 (sealCommand _ = true) => reflexivity : iks.

Lemma keeps_flushRetry n h : keeps I (flushRetry n h).
Proof.
  induction n as [|n IH]; cbn [flushRetry]; [apply keeps_ret|].
  apply keeps_bind; [auto with iks|]. intros []; [apply keeps_ret|..];
    (apply keeps_bind; [auto with iks|intros; apply IH]).
Qed.
Lemma keeps_Seal tpm data p : keeps I (Seal tpm data p).
Proof. apply keeps_bind; auto with iks. Qed.
Lemma keeps_Unseal tpm priv pub sess : keeps I (Unseal tpm priv pub sess).
Proof.
  apply keeps_bind; [auto with iks|]. intros inPublic. apply keeps_bind; [auto with iks|]. intros resp.
  apply keeps_deferring; [auto with iks|apply keeps_flushRetry].
Qed.
End KeepsSeal.

Lemma Unseal_Ok tpm (dev : SealDevice tpm) priv pub data p sess s :
  holds _ dev (device s) priv pub data p → sat _ dev (device s) sess p →
  (Unseal tpm priv pub sess s).1 = Ok data.
Proof.
  intros Hh Hs. destruct (seal_unseal _ dev _ _ _ _ _ _ Hh Hs) as (inPublic & o & d1 & Hp & Hl & Hu).
  unfold Unseal, ToPrivate. step_lift Hp. cbv zeta. step_ok Hl. unfold deferring.
  set (m := map_errS _ _). destruct (m _) as [r s2] eqn:Hm.
  assert (r = Ok data) as ->.
  { change r with (r, s2).1. rewrite <-Hm. subst m. apply map_errS_fst_Ok. by rewrite Execute_fst. }
  by destruct (flushRetry 3 _ s2).
Qed.

Definition TPM_SealerLaws (tpm : TPM) (dev : SealDevice tpm) :
  @Wrap.SealerLaws (tpmState D) session (TPM_Sealer tpm).
Proof.
  unshelve refine {| Wrap.sealed s := holds _ dev (device s); Wrap.satisfies s := sat _ dev (device s) |}.
  - intros s d p s' priv pub (resp & s1 & Hc%map_errS_Ok_inv & Hr)%SM_bind_Ok.
    injection Hr as <- <- <-. rewrite Execute_unfold in Hc. injection Hc as Hc <-.
    apply (seal_create _ dev (device s)). cbn [device]. by destruct (exec _ _); simplify_eq/=.
  - intros s d p r s' priv pub d' p' Hh Hs. change s' with (r, s').2. rewrite <-Hs.
    apply (keeps_Seal (λ d, holds _ dev d priv pub d' p')); [intros; by apply holds_stable|done].
  - intros s priv' pub' sess r s' priv pub d p Hh Hs. change s' with (r, s').2. rewrite <-Hs.
    apply (keeps_Unseal (λ d0, holds _ dev d0 priv pub d p)); [intros; by apply holds_stable|done].
  - intros s priv' pub' sess' r s' sess p Hh Hs. change s' with (r, s').2. rewrite <-Hs.
    apply (keeps_Unseal (λ d0, sat _ dev d0 sess p)); [intros; by apply sat_stable|done].
  - intros s sess priv pub d p Hh Hs. by apply (Unseal_Ok tpm dev _ _ _ p).
Defined.

(** C1: data sealed by the TPM segment by segment is unsealed to itself: what
    [Wrap] returns for non-empty data, [Unwrap] gives back, for every
    authorization that satisfies the policy throughout. *)
Theorem TPM_Wrap_Unwrap tpm (dev : SealDevice tpm) data p sess s w s1 :
  let sealer := TPM_Sealer tpm in
  data ≠ [] → Wrap.Wrap data p s = (Ok w, s1) → sat _ dev (device s1) sess p →
  ∃ s2, Wrap.Unwrap (exact w) sess s1 = (Ok data, s2).
Proof. intros sealer. apply (Wrap.Wrap_Unwrap (H0 := TPM_SealerLaws tpm dev)). Qed.

End Keys.

End Keys.
