(* ===== verification/Attest.v ===== *)
(** * pkg/tpm/attest.go: quotes, certifications and credentials

    Each operation is the commands it sends, in order, with its guards and the
    wrapping of its errors. *)
From S2P Require Import Prelude Bytes Tpm2 Trace PolicyDigest TpmPCR Signature Templates TpmKeys.
Import Tpm2 Trace Templates Keys.

Module Attest.

Section Attest.
Context {D : Type} `{!Device D} `{!TPMAlgs} `{!TPMConsts}.

(** go-tpm: the bitmap, the signature accessors, [ObjectName], [BytesAs2B]. *)
Variables (PCClientCompatible_PCRs : list Z → bytes)
  (RSASSA : TPMUSignature → outcome bytes)
  (ECDSA : TPMUSignature → outcome (bytes * bytes))
  (ObjectName : TPMTPublic → outcome bytes)
  (BytesAs2B : bytes → TPM2B TPMTPublic).

Definition signed (resp : AttestResponse) : SM (tpmState D) (bytes * bytes) :=
  signature ← lift (map_err (err_wrap "failed to get signature: %w")
                      (Sig.GetSignature RSASSA ECDSA (AttestSignature resp)));
  mret (Attested resp, signature).

Definition Quote (signingHandle : Z) (pcrs : list Z) (alg : Z) (data : bytes)
    : SM (tpmState D) (bytes * bytes) :=
  _ ← lift (map_err (err_wrap "unsupported signing algorithm: %w") (Sig.validateSignAlg alg));
  pcrAlg ← map_errS (err_wrap "could not read TPM PCR algorithms: %w") PCRs.getPCRHashAlg;
  resp ← map_errS (err_wrap "failed to execute Quote command: %w")
    (Execute (Tpm2.Quote (NamedHandle signingHandle []) data
      [mkPCRSelection pcrAlg (PCClientCompatible_PCRs pcrs)] (sigScheme alg)));
  signed resp.

Definition CertifyCreation (h signerHandle alg : Z) (creationHash : bytes)
    (creationTicket : TPMTTKCreation) : SM (tpmState D) (bytes * bytes) :=
  _ ← lift (map_err (err_wrap "unsupported signing algorithm: %w") (Sig.validateSignAlg alg));
  resp ← map_errS (λ e, EFmt "failed to certify creation of handle %v with signerHandle %v: %w"
                          [AInt h; AInt signerHandle] [e])
    (Execute (Tpm2.CertifyCreation (NamedHandle signerHandle []) (NamedHandle h [])
      creationHash creationTicket (sigScheme alg)));
  signed resp.

Definition Certify (h signerHandle alg : Z) : SM (tpmState D) (bytes * bytes) :=
  _ ← lift (map_err (err_wrap "unsupported signing algorithm: %w") (Sig.validateSignAlg alg));
  resp ← map_errS (λ e, EFmt "failed to certify handle %v with signerHandle %v: %w"
                          [AInt h; AInt signerHandle] [e])
    (Execute (Tpm2.Certify (NamedHandle h []) (NamedHandle signerHandle []) (sigScheme alg)));
  signed resp.

Definition MakeCredential (h : Z) (objectName credential : bytes) : SM (tpmState D) (bytes * bytes) :=
  resp ← map_errS (err_wrap "failed to execute MakeCredential command: %w")
    (Execute (Tpm2.MakeCredential h credential objectName));
  mret (Secret resp, CredentialBlob resp).

Definition ActivateCredential (activateHandle keyHandle : Z)
    (password encryptedSecret encryptedCredential : bytes) : SM (tpmState D) bytes :=
  keyName ← map_errS (err_wrap "failed to get object name: %w") (getObjectName ObjectName keyHandle);
  activateName ← map_errS (err_wrap "failed to get object name: %w")
    (getObjectName ObjectName activateHandle);
  map_errS (err_wrap "failed to execute ActivateCredentials command: %w")
    (Execute (Tpm2.ActivateCredential (NamedHandle activateHandle activateName)
      (AuthHandle keyHandle keyName (Policy TPMAlgSHA256 16 (ekPolicy password)))
      encryptedCredential encryptedSecret)).

(** The closure [ekPolicy] returns, run by go-tpm on the session it started. *)
Definition run_ekPolicy (password : bytes) (h : Z) (nonceTPM : bytes) : SM (tpmState D) unit :=
  map_errS (err_wrap "failed to execute PolicySecret command: %w")
    (Execute (PolicySecret (AuthHandle TPMRHEndorsement [] (PasswordAuth password)) h nonceTPM)).

(** The low-range EK is authorized by a policy, the high-range one by password. *)
Definition ekAuth (ekPublicStruct : TPMTPublic) (passwordBytes : bytes) : session :=
  if UserWithAuth (ObjectAttributes ekPublicStruct) then PasswordAuth passwordBytes
  else Policy TPMAlgSHA256 16 (ekPolicy passwordBytes).

Definition SolveChallenge (activateHandle : Z) (activateName : bytes) (creationHash : bytes)
    (creationTicket : TPMTTKCreation) (ekHandle : Z)
    (password hmacPublic hmacDuplicate hmacInSymSeed : bytes) : SM (tpmState D) AttestResponse :=
  ekPublicStruct ← map_errS (err_wrap "failed to get EK object public struct: %w")
    (getObjectPublic ekHandle);
  ekName ← lift (map_err (err_wrap "failed to get EK object name: %w") (ObjectName ekPublicStruct));
  let authSession := ekAuth ekPublicStruct password in
  imported ← map_errS (err_wrap "failed to import wrapped HMAC key for challenge: %w")
    (Execute (Import (AuthHandle ekHandle ekName authSession) hmacPublic hmacDuplicate hmacInSymSeed));
  loaded ← map_errS (err_wrap "failed to load wrapped HMAC key for challenge: %w")
    (Execute (Load (AuthHandle ekHandle ekName authSession) (BytesAs2B hmacPublic) imported));
  deferring
    (map_errS (err_wrap "failed to certify AK with wrapped HMAC key: %w")
      (Execute (Tpm2.CertifyCreation (NamedHandle (ObjectHandle loaded) [])
        (NamedHandle activateHandle activateName) creationHash creationTicket no_scheme)))
    (_ ← attempt (UnloadKey (ObjectHandle loaded)); mret ()).

Lemma SolveChallenge_released activateHandle activateName creationHash ticket ekHandle password pub dup seed :
  released 1 (SolveChallenge activateHandle activateName creationHash ticket ekHandle password pub dup seed).
Proof.
  apply released_bind; [apply quiet_released; unfold getObjectPublic; eauto 10 with iks|]. intros ekPublic.
  apply released_bind; [apply quiet_released; eauto with iks|]. intros ekName.
  apply released_bind; [apply quiet_released; eauto with iks|]. intros imported.
  apply (released_acquire _ _ _ (λ o, RObject (ObjectHandle o))); [apply emits_Load|]. intros loaded.
  apply deferring_releases; [eauto with iks|]. by apply giveUp_once.
Qed.

End Attest.

End Attest.
