(* ===== verification/TpmOpen.v ===== *)
(** * pkg/tpm/open_other.go, open_windows.go: opening the device

    The sanity check runs in a goroutine that a ten-second timer races:
    [schedule] is the outcome of that race, and, when the timer wins, whether
    the abandoned command still reaches the device after it was closed. *)
From S2P Require Import Prelude Bytes Tpm2 Trace TpmErrors TpmProps Templates TpmKeys.
Import Tpm2 Trace Templates Keys.

Module Open.

Inductive schedule := Answered | TimedOut (late : bool).

Section Open.
Context {D : Type} `{!Device D} `{!TPMAlgs} `{!TPMConsts}.
Variable (Pack_uint32 : Z → outcome bytes).

(** The goroutine: [getProperty(tpm, TPMPTManufacturer)], its error sent on the channel. *)
Definition sanityCheck : SM (tpmState D) (option error) :=
  r ← attempt (Props.getProperty Pack_uint32 TPMPTManufacturer);
  mret match r with Err e => Some e | _ => None end.

(** [select]: the error of the check, or that of the timer. *)
Definition selectCheck (sched : schedule) : SM (tpmState D) (option error) :=
  match sched with
  | Answered => sanityCheck
  | TimedOut late =>
    _ ← (if late then mret None else sanityCheck);
    mret (Some (err_msg "timed out getting manufacturer"))
  end.

(** What is left of the goroutine when the function returns. *)
Definition lateCheck (sched : schedule) : SM (tpmState D) unit :=
  match sched with
  | TimedOut true => _ ← sanityCheck; mret ()
  | _ => mret ()
  end.

Definition checkOpened (sched : schedule) (h : Z) : SM (tpmState D) TPM :=
  err ← selectCheck sched;
  match err with
  | Some err =>
    _ ← Close;
    _ ← lateCheck sched;
    lift (Err (err_wrap "could not talk to tpm: %w" err))
  | None => mret (mkTPM h)
  end.

Definition OpenTPMWithSRKHandle (sched : schedule) (tpmPath : bytes) (h : Z) : SM (tpmState D) TPM :=
  _ ← map_errS (λ err,
    if errors_Is os_ErrNotExist err then err
    else EFmt "could not open tpm: %s, err: %w" [AStr tpmPath] [err]) (Execute (OpenDevice tpmPath));
  checkOpened sched h.

Definition OpenTPM (sched : schedule) (tpmPath : bytes) : SM (tpmState D) TPM :=
  OpenTPMWithSRKHandle sched tpmPath SRKECCHandle.

Definition OpenTPMFromRWC : outcome TPM := Ok (mkTPM SRKECCHandle).

(** open_windows.go: the path is ignored. *)
Definition OpenTPMWithSRKHandle_windows (sched : schedule) (_ : bytes) (h : Z) : SM (tpmState D) TPM :=
  _ ← map_errS (λ err,
    if errors_Is os_ErrNotExist err then err
    else EFmt "could not open err: %w" [] [err]) (Execute (OpenDevice []));
  checkOpened sched h.

Definition OpenTPM_windows (sched : schedule) (_ : bytes) : SM (tpmState D) TPM :=
  OpenTPMWithSRKHandle_windows sched [] SRKECCHandle.

(** ** The device is open exactly when a TPM is returned *)
Lemma Close_drops : emits Close (λ _ evs, ∀ open, pending open evs = list_difference open [RDevice]).
Proof.
  eapply (emits_bind _ _ (λ _ evs, ∀ open, pending open evs = list_difference open [RDevice])); [|intros r evs He|done..].
  - apply (emits_attempt_any _ (λ evs, ∀ open, pending open evs = list_difference open [RDevice])), emits_Execute.
    intros r open. cbn. apply app_nil_r.
  - apply emits_ret. intros open. by rewrite app_nil_r.
Qed.

Lemma Close_releases : emits Close (λ _ evs, pending [RDevice] evs = []).
Proof. eapply emits_weaken; [apply Close_drops|]. intros r evs ->. cbn. case_decide; [done|set_solver]. Qed.

Lemma quiet_sanityCheck : quiet sanityCheck.
Proof. unfold sanityCheck, Props.getProperty. eauto 10 with iks. Qed.

Lemma quiet_selectCheck sched : quiet (selectCheck sched).
Proof. destruct sched as [|[]]; cbn [selectCheck]; eauto using quiet_sanityCheck with iks. Qed.

Lemma quiet_lateCheck sched : quiet (lateCheck sched).
Proof. destruct sched as [|[]]; cbn [lateCheck]; eauto using quiet_sanityCheck with iks. Qed.

(** The device is held after a success, and only then. *)
Definition heldIfOk {A} (r : outcome A) (held : list resource) : Prop :=
  match r with Ok _ => held = [RDevice] | Err _ => held = [] | Panic _ => True end.

Lemma sanityCheck_no_Err s e : (sanityCheck s).1 ≠ Err e.
Proof.
  unfold sanityCheck, mbind, SM_bind, attempt. by destruct (Props.getProperty _ _ s) as [[]].
Qed.

Lemma selectCheck_no_Err sched s e : (selectCheck sched s).1 ≠ Err e.
Proof.
  destruct sched as [|[]]; cbn [selectCheck]; [apply sanityCheck_no_Err|done|].
  pose proof (sanityCheck_no_Err s) as Hs. unfold mbind, SM_bind.
  destruct (sanityCheck s) as [[]]; cbn in *; naive_solver.
Qed.

Lemma refused_held sched e :
  emits (_ ← Close; _ ← lateCheck sched; lift (A := TPM) (Err e))
    (λ r evs, heldIfOk r (pending [RDevice] evs)).
Proof.
  eapply emits_weaken.
  - apply (emits_and _ (λ _ evs, pending [RDevice] evs = []) (λ r, ∀ tpm, r ≠ Ok tpm)).
    + apply pending_bind; [apply Close_releases|]. intros _.
      apply pending_bind; [|intros _; by apply emits_lift].
      apply quiet_pending, quiet_lateCheck.
    + intros s tpm (? & _ & (? & _ & [=])%SM_bind_fst_Ok)%SM_bind_fst_Ok.
  - intros [] evs [He Hn]; [by destruct (Hn a)|done..].
Qed.

Lemma checkOpened_held sched h :
  emits (checkOpened sched h) (λ r evs, heldIfOk r (pending [RDevice] evs)).
Proof.
  unfold checkOpened. eapply emits_bind.
  - apply (emits_and _ _ (λ r, ∀ e, r ≠ Err e) (quiet_selectCheck sched)).
    intros s e. apply selectCheck_no_Err.
  - intros err evs [Hevs _]. cbn beta in Hevs.
    assert (∀ evs', pending [RDevice] (evs ++ evs') = pending [RDevice] evs') as Hp
      by (intros; by rewrite pending_app, (pending_neutral _ evs)).
    destruct err as [err|].
    + eapply emits_weaken; [apply refused_held|]. intros r evs' ?. by rewrite Hp.
    + apply emits_ret. by rewrite Hp.
  - intros e evs [_ Hn]. by destruct (Hn e).
  - done.
Qed.

Lemma open_held sched h p f :
  emits (_ ← map_errS f (Execute (OpenDevice p)); checkOpened sched h)
    (λ r evs, heldIfOk r (pending [] evs)).
Proof.
  eapply (emits_bind _ _ (λ r evs, heldIfOk r (pending [] evs))); [|intros u evs Hevs|done..].
  - apply emits_map_errS, emits_Execute. by intros [].
  - cbn in Hevs. eapply emits_weaken; [apply checkOpened_held|].
    cbn. intros r evs'. by rewrite pending_app, Hevs.
Qed.

(** C16: opening the device leaves it open exactly when it returns a TPM: on every
    error path, the timeout of the sanity check included (whether or not its
    command is still in flight), the device is closed again. *)
Theorem OpenTPM_held sched path h :
  emits (OpenTPMWithSRKHandle sched path h) (λ r evs, heldIfOk r (pending [] evs)) ∧
  emits (OpenTPMWithSRKHandle_windows sched path h) (λ r evs, heldIfOk r (pending [] evs)).
Proof. split; apply open_held. Qed.

End Open.

End Open.
