(* ===== verification/Signer.v ===== *)
(** * pkg/tpm/sign.go: crypto.Signer over a TPM key, and key generation

    A [Signer] is mutable: its methods return it as they leave it. *)
From S2P Require Import Prelude Bytes Tpm2 Trace PolicyDigest Wrap TpmProps TpmNV TpmPCR Signature Templates TpmKeys TpmOpen.
Import Tpm2 Trace PolicyDigest Templates Keys Open.

Module Signer.

(** [crypto.SHA256], the [crypto.Hash] value. *)
Definition crypto_SHA256 : Z := 5.

Record Signer (K : Type) := mkSigner {
  publicKey : option K;
  TpmPath : bytes;
  PublicBlob : bytes;
  PrivateBlob : bytes;
  PCRS : list Z;
  signerHandle : Z;
  KeyAlg : Z;
}.
Arguments mkSigner {K}.
Arguments publicKey {K}.
Arguments TpmPath {K}.
Arguments PublicBlob {K}.
Arguments PrivateBlob {K}.
Arguments PCRS {K}.
Arguments signerHandle {K}.
Arguments KeyAlg {K}.

Definition set_handle {K} (h : Z) (s : Signer K) : Signer K :=
  mkSigner (publicKey s) (TpmPath s) (PublicBlob s) (PrivateBlob s) (PCRS s) h (KeyAlg s).
Definition set_publicKey {K} (k : option K) (s : Signer K) : Signer K :=
  mkSigner k (TpmPath s) (PublicBlob s) (PrivateBlob s) (PCRS s) (signerHandle s) (KeyAlg s).

Section Signer.
Context {D : Type} `{!Device D} `{!TPMAlgs} `{!TPMConsts}.
Variables (Unmarshal_TPM2BPublic : bytes → outcome (TPM2B TPMTPublic))
  (ObjectName : TPMTPublic → outcome bytes)
  (PCClientCompatible_PCRs : list Z → bytes)
  (RSASSA : TPMUSignature → outcome bytes)
  (ECDSA : TPMUSignature → outcome (bytes * bytes))
  (Pack_uint32 : Z → outcome bytes).

(** ** Loading *)
Definition Load {K} (s : Signer K) (tpm : TPM) : SM (tpmState D) (Z * Signer K) :=
  if decide (signerHandle s ≠ 0)%Z then mret (signerHandle s, s) else
  h ← map_errS (err_wrap "failed to load key: %w")
    (LoadKey Unmarshal_TPM2BPublic (srkHandle tpm) (PublicBlob s) (PrivateBlob s));
  mret (h, set_handle h s).

Definition Unload {K} (s : Signer K) : SM (tpmState D) unit :=
  if decide (signerHandle s = 0)%Z then mret () else UnloadKey (signerHandle s).

(** ** The public key, cached *)

(** [ReadPublicKey] is [tpm.ReadPublicKey], with the decoders it is given. *)
Definition Public {K} (ReadPublicKey : Z → SM (tpmState D) K) (sched : schedule) (s : Signer K) : SM (tpmState D) (option K * Signer K) :=
  match publicKey s with
  | Some k => mret (Some k, s)
  | None =>
    opened ← attempt (OpenTPM Pack_uint32 sched (TpmPath s));
    match opened with
    | Ok tpm =>
      deferring
        (loaded ← attempt (Load s tpm);
         match loaded with
         | Ok (h, s) =>
           deferring
             (key ← attempt (ReadPublicKey h);
              let key := match key with Ok k => Some k | _ => None end in
              mret (key, set_publicKey key s))
             (_ ← attempt (Unload s); mret ())
         | _ => mret (None, s)
         end)
        Close
    | _ => mret (None, s)
    end
  end.

(** ** Signing *)

(** [defer func() { cerr := cleanup(); if err == nil { err = cerr } }()] *)
Definition deferring_err {A} (m : SM (tpmState D) A) (cleanup : SM (tpmState D) unit)
    : SM (tpmState D) A := λ s,
  let '(r, s) := m s in
  let '(c, s) := cleanup s in
  (match c, r with Panic p, _ => Panic p | Err e, Ok _ => Err e | _, _ => r end, s).

Definition signWith {K} (s : Signer K) (digest : bytes) (h : Z) : SM (tpmState D) bytes :=
  signAlg ← lift
    (if decide (KeyAlg s = TPMAlgRSA) then Ok TPMAlgRSASSA
     else if decide (KeyAlg s = TPMAlgECC) then Ok TPMAlgECDSA
     else Err (err_fmt "unsupported algorithm: %v" [AInt (KeyAlg s)]));
  map_errS (err_wrap "failed to perform tpm sign: %w")
    (if decide (0 < length (PCRS s))
     then SignWithPolicy ObjectName RSASSA ECDSA h signAlg digest (PCRS s)
     else Sign RSASSA ECDSA h signAlg digest).

(** [opts.HashFunc()], or no opts. *)
Definition Sign {K} (sched : schedule) (s : Signer K) (digest : bytes) (opts : option Z)
    : SM (tpmState D) bytes :=
  _ ← lift match opts with
           | Some hashFunc =>
             if decide (hashFunc ≠ crypto_SHA256)
             then Err (err_fmt "unsupported hash function: %v" [AInt hashFunc]) else Ok ()
           | None => Ok ()
           end;
  if decide (length digest ≠ 32) then
    lift (Err (err_fmt "digest must be 32 bytes, got %d" [AInt (zlen digest)]))
  else
    tpm ← OpenTPM Pack_uint32 sched (TpmPath s);
    deferring
      (h ← map_errS (err_wrap "failed to load key: %w")
         (LoadKey Unmarshal_TPM2BPublic (srkHandle tpm) (PublicBlob s) (PrivateBlob s));
       deferring_err (signWith s digest h) (UnloadKey h))
      Close.

(** ** Key generation *)
Definition GenerateSigningKey (tpm : TPM) (alg : Z) : SM (tpmState D) (bytes * bytes) :=
  keyTemplate ← lift
    (if decide (alg = TPMAlgRSA) then Ok GetRSASigningKeyTemplate
     else if decide (alg = TPMAlgECC) then Ok GetECCSigningKeyTemplate
     else Err (err_fmt "unsupported algorithm: %v" [AInt alg]));
  '(public, private, _, _, _) ← map_errS (err_wrap "failed to create key: %w")
    (CreateKey (srkHandle tpm) [] keyTemplate);
  mret (public, private).

Definition GenerateSigningKeyWithPolicy (tpm : TPM) (alg : Z) (pcrs : list Z)
    : SM (tpmState D) (bytes * bytes) :=
  pcrSelection ← map_errS (err_wrap "failed to select PCRs: %w")
    (PCRs.SelectPCRs PCClientCompatible_PCRs pcrs);
  session ← map_errS (err_wrap "failed to create policy session: %w") PCRs.NewSession;
  deferring
    (authPolicy ← map_errS (err_wrap "failed to create PCR policy: %w")
       (PCRs.PCRPolicy session pcrSelection);
     keyTemplate ← lift
       (if decide (alg = TPMAlgRSA) then Ok (GetRSASigningKeyTemplateWithPolicy authPolicy)
        else if decide (alg = TPMAlgECC) then Ok (GetECCSigningKeyTemplateWithPolicy authPolicy)
        else Err (err_fmt "unsupported algorithm: %v" [AInt alg]));
     '(public, private, _, _, _) ← map_errS (err_wrap "failed to create key: %w")
       (CreateKey (srkHandle tpm) [] keyTemplate);
     mret (public, private))
    (_ ← attempt (Execute (CloseSession session)); mret ()).

(** ** What is left behind *)

(** A success leaves nothing held. An error never leaves the device open, and
    leaves a key or a session only if the TPM refused to give it up. A panic is
    the end of the process. *)
Definition settled {A} (m : SM (tpmState D) A) : Prop :=
  emits m (λ r evs,
    match r with
    | Ok _ => pending [] evs = []
    | Err _ => (RDevice ∉ pending [] evs) ∧ leftover 1 [] evs
    | Panic _ => True
    end).

Lemma settled_nothing {A} (m : SM (tpmState D) A) : emits m (λ _ evs, pending [] evs = []) → settled m.
Proof.
  intros Hm. eapply emits_weaken; [exact Hm|]. intros r evs He.
  assert ((RDevice ∉ pending [] evs) ∧ leftover 1 [] evs) by (unfold leftover; rewrite He; set_solver).
  by destruct r.
Qed.

Lemma settled_bind_quiet {A B} (m : SM (tpmState D) A) (f : A → SM (tpmState D) B) :
  quiet m → (∀ a, settled (f a)) → settled (m ≫= f).
Proof.
  intros Hm Hf. eapply emits_bind; [exact Hm| | |done].
  - intros a evs Hevs. eapply emits_weaken; [apply Hf|]. cbn beta.
    intros [] evs'; rewrite ?pending_app, ?(pending_neutral _ evs Hevs); [done| |done].
    intros [? ?]. split; [done|by apply leftover_neutral_l].
  - intros e evs He. unfold leftover. rewrite (pending_neutral _ evs He). set_solver.
Qed.

(** The same with the device open before and after: at most the one key [h]
    that the TPM refused to flush is held besides it. *)
Definition settledOpen {A} (r : outcome A) (evs : list event) : Prop :=
  match r with
  | Ok _ => pending [RDevice] evs = [RDevice]
  | Err _ => pending [RDevice] evs = [RDevice] ∨
      ∃ h, pending [RDevice] evs = [RDevice; RObject h] ∧ gaveUp 1 (RObject h) evs
  | Panic _ => True
  end.

(** Such a body, run between opening and closing the device. *)
Lemma closing_settled {A} sched p h f (body : TPM → SM (tpmState D) A) :
  (∀ tpm, emits (body tpm) settledOpen) →
  settled (tpm ← (_ ← map_errS f (Execute (OpenDevice p)); checkOpened Pack_uint32 sched h);
           deferring (body tpm) Close).
Proof.
  intros Hb. eapply emits_bind; [apply open_held| | |done].
  2:{ cbn. intros e evs He. unfold leftover. rewrite He. split; [apply not_elem_of_nil|by intros x ?%elem_of_nil]. }
  intros tpm evs Hevs. cbn in Hevs.
  eapply emits_weaken; [apply (emits_deferring _ _ _ _ (Hb tpm) Close_drops)|].
  cbn beta. intros r evs' (e1 & e2 & -> & E1 & E2). unfold leftover. rewrite !pending_app, Hevs, E2.
  destruct r as [a|e|]; cbn in E1; [by rewrite E1|destruct E1 as [E1|(k & E1 & Hk)]; rewrite E1|done].
  - change (list_difference [RDevice] [RDevice]) with (@nil resource).
    split; [apply not_elem_of_nil|by intros x ?%elem_of_nil].
  - change (list_difference [RDevice; RObject k] [RDevice]) with [RObject k].
    split; [by intros ?%list_elem_of_singleton|].
    intros x ->%list_elem_of_singleton. by apply gaveUp_app_r, gaveUp_app_l.
Qed.

Lemma emits_deferring_err {A} (m : SM (tpmState D) A) cleanup
    (P : outcome A → list event → Prop) (C : outcome unit → list event → Prop) :
  emits m P → emits cleanup C →
  emits (deferring_err m cleanup) (λ r evs, ∃ r1 c e1 e2, evs = e1 ++ e2 ∧ P r1 e1 ∧ C c e2 ∧
    r = match c, r1 with Panic p, _ => Panic p | Err e, Ok _ => Err e | _, _ => r1 end).
Proof.
  intros Hm Hc s. destruct (Hm s) as (e1 & Ht & HP). unfold deferring_err.
  destruct (m s) as [r s1]. destruct (Hc s1) as (e2 & Ht' & HC). destruct (cleanup s1) as [c s2].
  cbn [fst snd] in *. exists (e1 ++ e2). rewrite Ht', Ht, (assoc_L (++)). split; [done|]. by exists r, c, e1, e2.
Qed.

Lemma LoadKey_restores owner public private :
  emits (LoadKey Unmarshal_TPM2BPublic owner public private)
    (λ r evs, pending [RDevice] evs = match r with Ok h => [RDevice; RObject h] | _ => [RDevice] end).
Proof.
  unfold LoadKey. eapply (emits_bind _ _ (λ _ evs, evs = [])); [by apply emits_lift| |by intros ?? ->..].
  intros t ? ->. cbv zeta. eapply (emits_bind _ _
    (λ r evs, pending [RDevice] evs = match r with Ok o => [RDevice; RObject (ObjectHandle o)] | _ => [RDevice] end)).
  - apply emits_map_errS, emits_Execute. by intros [].
  - intros o evs Hevs. apply emits_ret. by rewrite app_nil_r.
  - done.
  - done.
Qed.

Lemma quiet_signWith {K} (s : Signer K) digest h : quiet (signWith s digest h).
Proof. unfold signWith, SignWithPolicy, Keys.Sign, getObjectName, getObjectPublic. eauto 20 with iks. Qed.

(** The key is loaded: signing and unloading it, whose error is not lost. *)
Lemma signed_settled {K} (s : Signer K) digest h evs :
  pending [RDevice] evs = [RDevice; RObject h] →
  emits (deferring_err (signWith s digest h) (UnloadKey h)) (λ r evs', settledOpen r (evs ++ evs')).
Proof.
  intros Hevs. assert (emits (UnloadKey h) (tried (RObject h))) as Hu by by apply emits_givesUp.
  eapply emits_weaken; [apply (emits_deferring_err _ _ (λ _, Forall neutral) _ (quiet_signWith s digest h) Hu)|].
  intros r evs' (r1 & c & e1 & e2 & -> & E1 & E2 & ->). unfold settledOpen.
  rewrite !pending_app, Hevs, (pending_neutral _ e1) by done.
  destruct c as [u|e|p]; cbn in E2; [rewrite E2|destruct E2 as [E2 Hn]; rewrite E2|done].
  - assert (list_difference [RDevice; RObject h] [RObject h] = [RDevice]) as ->.
    { cbn. case_decide as Hh; [by apply list_elem_of_singleton in Hh|]. case_decide as Hk; [done|].
      by destruct Hk; apply list_elem_of_singleton. }
    destruct r1; auto.
  - destruct r1; [right|right|done]; exists h; (split; [done|]); apply gaveUp_app_r, gaveUp_app_r; left; lia.
Qed.

Lemma Sign_settled {K} sched (s : Signer K) digest opts : settled (Sign sched s digest opts).
Proof.
  apply settled_bind_quiet; [auto with iks|]. intros _.
  case_decide; [by apply settled_nothing, quiet_pending, always_lift|].
  apply closing_settled. intros tpm. eapply emits_bind.
  - apply emits_map_errS. eapply emits_weaken; [apply LoadKey_restores|]. cbn. intros r evs Hevs.
    instantiate (1 := λ r evs, pending [RDevice] evs = match r with Ok h => [RDevice; RObject h] | _ => [RDevice] end).
    by destruct r.
  - intros h evs Hevs. by apply signed_settled.
  - intros e evs He. by left.
  - done.
Qed.

Lemma GenerateSigningKeyWithPolicy_released tpm alg pcrs :
  released 1 (GenerateSigningKeyWithPolicy tpm alg pcrs).
Proof.
  apply released_bind; [apply quiet_released; unfold PCRs.SelectPCRs, PCRs.getPCRHashAlg; eauto 10 with iks|].
  intros sel. apply (released_acquire _ _ _ RSession).
  - apply emits_map_errS, emits_Execute. by intros [].
  - intros h. apply deferring_releases; [|by apply giveUp_once].
    unfold PCRs.PCRPolicy, CreateKey. eauto 20 with iks.
Qed.

(** C17: a signature is returned only when neither the key nor the device is held
    any more, the error of the unloading being Sign's own; a failed Sign has closed
    the device, and leaves a key only if the TPM refused to flush it. Generating a
    key with a policy leaves its session only if the TPM refused to close it. *)
Theorem sign_settled {K} sched (s : Signer K) digest opts tpm alg pcrs :
  settled (Sign sched s digest opts) ∧ released 1 (GenerateSigningKeyWithPolicy tpm alg pcrs).
Proof. split; [apply Sign_settled|apply GenerateSigningKeyWithPolicy_released]. Qed.

End Signer.

(** ** The cached handle *)

(** [Unload] flushes the key but keeps its handle: a signer that was loaded
    and unloaded answers the next [Load] with the flushed handle, without sending
    the TPM a command. *)
Theorem Load_after_Unload {D} `{!Device D} Unmarshal_TPM2BPublic {K} (s : Signer K) tpm
    (st : tpmState D) h s1 st1 :
  let Load := Load (D := D) (K := K) Unmarshal_TPM2BPublic in
  signerHandle s = 0%Z → Load s tpm st = (Ok (h, s1), st1) → h ≠ 0%Z →
  ∃ r, trace (Unload s1 st1).2 = trace st1 ++ [Ev (FlushContext h) r] ∧
    ∀ st2, Load s1 tpm st2 = (Ok (h, s1), st2).
Proof.
  intros L Hz Hl Hh. unfold L, Load in *. rewrite decide_False in Hl by tauto.
  apply SM_bind_Ok in Hl as (h' & st' & Hk & Hr). injection Hr as -> <- <-.
  unfold Unload. cbn [signerHandle set_handle]. rewrite decide_False by done.
  eexists. split; [unfold UnloadKey; by rewrite Execute_unfold|].
  intros st2. by rewrite decide_True by done.
Qed.

End Signer.
