(* ===== verification/Creatable.v ===== *)
(** * The templates a TPM is asked to create objects from

    What pkg/tpm/constants.go and [Seal] describe is well formed by the rules of
    TPM2_Create and TPM2_CreatePrimary (TPM 2.0 Library, Part 1, 25.5 and 27.2;
    Part 3, 12.1 and 24.1): [roleOf] types a template by its use, or rejects it.
    The operations of tpm.go and sign.go send no other template. *)
From S2P Require Import Prelude Bytes Tpm2 Trace Cert PolicyDigest TpmPCR Templates TpmKeys Signer.
Import Tpm2 Trace Templates Keys Signer.

Module Creatable.

(** ** The rules *)
Inductive role := Storage | Signing | Attestation | SealedData.
#[export] Instance role_eq_dec : EqDecision role.
Proof. solve_decision. Defined.

Section Rules.
Context `{!TPMAlgs} `{!TPMConsts}.

(** The width of a digest, and so of a policy, by the name algorithm. *)
Definition policyWidth (nameAlg : Z) : option nat :=
  if decide (nameAlg = TPMAlgSHA256) then Some 32
  else if decide (nameAlg = TPMAlgSHA384) then Some 48
  else if decide (nameAlg = TPMAlgSHA512) then Some 64 else None.

(** The zero value of a scheme or of a KDF is marshalled as TPM_ALG_NULL. *)
Definition isNull (alg : Z) : Prop := alg = 0%Z ∨ alg = TPMAlgNull.
#[export] Instance isNull_dec alg : Decision (isNull alg).
Proof. apply _. Defined.

(** A block cipher that protects the children of a storage key. *)
Definition isCipher (sym : option TPMTSymDefObject) : Prop :=
  match sym with
  | Some s => Algorithm s = TPMAlgAES ∧ SymMode s = TPMAlgCFB ∧ (SymKeyBits s = 128 ∨ SymKeyBits s = 192 ∨ SymKeyBits s = 256)%Z
  | None => False
  end.
#[export] Instance isCipher_dec sym : Decision (isCipher sym).
Proof. destruct sym; apply _. Defined.

(** A storage key has a cipher and no scheme, a signing key a scheme with a hash
    and no cipher. *)
Definition keyParms (r : role) (sigAlg : Z) (sym : option TPMTSymDefObject) (scheme : TPMTScheme) : Prop :=
  match r with
  | Storage => isCipher sym ∧ isNull (Scheme scheme)
  | Signing | Attestation => match sym with None => True | Some _ => False end ∧ Scheme scheme = sigAlg ∧
      match SchemeHash scheme with Some h => policyWidth h ≠ None | None => False end
  | SealedData => False
  end.
#[export] Instance keyParms_dec r sigAlg sym scheme : Decision (keyParms r sigAlg sym scheme).
Proof. destruct r, sym; cbn; destruct (SchemeHash scheme); apply _. Defined.

Definition parmsOk (r : role) (t : TPMTPublic) : Prop :=
  match Parameters t with
  | NewRSAParms alg p =>
    alg = TPMAlgRSA ∧ Type_ t = TPMAlgRSA ∧ SensitiveDataOrigin (ObjectAttributes t) = true ∧
    keyParms r TPMAlgRSASSA (RSASymmetric p) (RSAScheme p) ∧ (KeyBits p = 2048 ∨ KeyBits p = 3072 ∨ KeyBits p = 4096)%Z
  | NewECCParms alg p =>
    alg = TPMAlgECC ∧ Type_ t = TPMAlgECC ∧ SensitiveDataOrigin (ObjectAttributes t) = true ∧
    keyParms r TPMAlgECDSA (Symmetric p) (ECCScheme p) ∧ (CurveID p = TPMECCNistP256 ∨ CurveID p = TPMECCNistP384) ∧ isNull (KDF p)
  | NoParms =>
    (** the data is the caller's, not the TPM's *)
    r = SealedData ∧ Type_ t = TPMAlgKeyedHash ∧ SensitiveDataOrigin (ObjectAttributes t) = false
  end.
#[export] Instance parmsOk_dec r t : Decision (parmsOk r t).
Proof. unfold parmsOk. destruct (Parameters t); apply _. Defined.

(** A restricted object either stores or signs; an unrestricted one that does
    both, or decrypts, has no role here. *)
Definition useOf (a : TPMAObject) : option role :=
  match Restricted a, Decrypt a, SignEncrypt a with
  | true, true, false => Some Storage
  | true, false, true => Some Attestation
  | false, false, true => Some Signing
  | false, false, false => Some SealedData
  | _, _, _ => None
  end.

(** A policy is absent or a digest of the name algorithm; something authorizes
    the use; a fixed object is fixed to its parent too. *)
Definition authOk (t : TPMTPublic) : Prop :=
  (AuthPolicy t = [] ∨ Some (length (AuthPolicy t)) = policyWidth (NameAlg t)) ∧ policyWidth (NameAlg t) ≠ None ∧
  (UserWithAuth (ObjectAttributes t) = true ∨ AuthPolicy t ≠ []) ∧
  FixedTPM (ObjectAttributes t) = FixedParent (ObjectAttributes t).

Definition roleOf (t : TPMTPublic) : option role :=
  match useOf (ObjectAttributes t) with
  | Some r => if decide (parmsOk r t ∧ authOk t) then Some r else None
  | None => None
  end.

Lemma roleOf_intro r t :
  useOf (ObjectAttributes t) = Some r → parmsOk r t → authOk t → roleOf t = Some r.
Proof. intros Hu Hp Ha. unfold roleOf. rewrite Hu. by rewrite decide_True. Qed.

(** A key that signs is an RSA or an ECC key. *)
Lemma signing_type t : roleOf t = Some Signing ∨ roleOf t = Some Attestation → Type_ t = TPMAlgRSA ∨ Type_ t = TPMAlgECC.
Proof.
  unfold roleOf. destruct (useOf _) as [r|]; [|naive_solver]. case_decide as Hp; [|naive_solver].
  destruct Hp as [Hp _]. unfold parmsOk in Hp.
  destruct (Parameters t); intros [[= ->]|[= ->]]; naive_solver.
Qed.

Lemma policyWidth_256 : policyWidth TPMAlgSHA256 = Some 32.
Proof. unfold policyWidth. by rewrite decide_True. Qed.
Lemma policyWidth_384 `{!TPMAlgsLaws} : policyWidth TPMAlgSHA384 = Some 48.
Proof.
  pose proof hash_algs_distinct as (? & _). unfold policyWidth.
  rewrite decide_False by congruence. by rewrite decide_True.
Qed.

(** ** The templates of constants.go *)
Ltac decide_rule := repeat split; cbn; rewrite ?policyWidth_256; unfold isNull; auto; done.
Ltac template_role :=
  apply roleOf_intro; [reflexivity| |];
  [decide_rule|decide_rule].

Lemma signing_templates :
  roleOf GetRSASigningKeyTemplate = Some Signing ∧ roleOf GetECCSigningKeyTemplate = Some Signing.
Proof. split; template_role. Qed.

Lemma attestation_templates :
  roleOf GetECCAttestationKeyTemplate = Some Attestation ∧ roleOf GetRSAAttestationKeyTemplate = Some Attestation.
Proof. split; template_role. Qed.

Lemma policy_templates dg : length dg = 32 →
  roleOf (GetRSASigningKeyTemplateWithPolicy dg) = Some Signing ∧
  roleOf (GetECCSigningKeyTemplateWithPolicy dg) = Some Signing.
Proof.
  intros Hl. assert (dg ≠ []) by by destruct dg.
  split; (apply roleOf_intro; [reflexivity| |];
    [decide_rule|repeat split; cbn; rewrite ?policyWidth_256, ?Hl; auto; done]).
Qed.

Lemma ek384_template `{!TPMAlgsLaws} : roleOf GetECCEKP384Template = Some Storage.
Proof.
  apply roleOf_intro; [reflexivity| |].
  - decide_rule.
  - repeat split; cbn; rewrite ?policyWidth_384; auto; done.
Qed.

(** A policy the caller seals under: absent, or a SHA-256 digest. *)
Definition sealPolicy (policy : option bytes) : Prop :=
  match policy with Some p => length p = 32 | None => True end.

Lemma seal_template policy : sealPolicy policy → roleOf (sealTemplate policy) = Some SealedData.
Proof.
  intros Hl. apply roleOf_intro; [reflexivity|by repeat split|].
  destruct policy as [p|]; cbn in Hl; repeat split; cbn; rewrite ?policyWidth_256, ?Hl; auto; try done.
  right. by destruct p.
Qed.

End Rules.

(** ** What the operations send *)
Section Creates.
Context {D : Type} `{!Device D} `{!TPMAlgs} `{!TPMConsts} `{!TPMAlgsLaws} `{!TPMTemplates}.

(** The template a command asks an object of. *)
Definition templateOf {R} (c : command R) : option TPMTPublic :=
  match c with CreatePrimary _ t _ | Create _ t _ => Some t | _ => None end.

Definition creates (r : role) (e : event) : Prop :=
  match e with Ev c _ => match templateOf c with Some t => roleOf t = Some r | None => True end end.

(** The digest of a policy session, all of which the code starts with SHA-256. *)
Definition policyDigest32 (e : event) : Prop :=
  match e with
  | Ev c r =>
    match c in command R return outcome R → Prop with
    | PolicyGetDigest _ => λ r, match r with Ok dg => length dg = 32 | _ => True end
    | _ => λ _, True
    end r
  end.

(** Every object the call creates has the role, as long as the TPM's SHA-256
    policy digests have 32 bytes. *)
Definition makes (r : role) {A} (m : SM (tpmState D) A) : Prop :=
  emits m (λ _ evs, Forall policyDigest32 evs → Forall (creates r) evs).

Lemma always_makes r {A} (m : SM (tpmState D) A) : always (creates r) m → makes r m.
Proof. intros Hm. eapply emits_weaken; [exact Hm|]. by intros. Qed.

Lemma makes_bind r {A B} (m : SM (tpmState D) A) (f : A → SM (tpmState D) B) :
  makes r m → (∀ a, makes r (f a)) → makes r (m ≫= f).
Proof.
  intros Hm Hf. eapply emits_bind; [exact Hm| |done..].
  intros a evs Hevs. eapply emits_weaken; [apply Hf|]. cbn. intros _ evs' Hevs' [??]%Forall_app.
  apply Forall_app. auto.
Qed.

Lemma makes_deferring r {A} (m : SM (tpmState D) A) cleanup :
  makes r m → makes r cleanup → makes r (deferring m cleanup).
Proof.
  intros Hm Hc. eapply emits_weaken; [apply (emits_deferring _ _ _ (λ evs, Forall policyDigest32 evs → Forall (creates r) evs) Hm Hc)|].
  intros _ evs (e1 & e2 & -> & He1 & He2) [??]%Forall_app. apply Forall_app. auto.
Qed.

Lemma query_creates r {R} (c : command R) (o : outcome R) : isQuery c → creates r (Ev c o).
Proof. by destruct c. Qed.

#[local] Hint Extern 0 (creates _ (Ev _ _)) => first [exact I | assumption] : iks.

Lemma creating r {R} (c : command R) t f : templateOf c = Some t → roleOf t = Some r →
  always (creates r) (map_errS f (Execute c)).
Proof. intros Ht Hr. apply always_map_errS, always_Execute. intros o. unfold creates. by rewrite Ht. Qed.

Lemma persist_creates r resp password h : always (creates r) (persist resp password h).
Proof. apply always_deferring; eauto 10 with iks. Qed.

(** The policy a session reads back has the width of its digest. *)
Lemma PCRPolicy_creates r h sel : emits (PCRs.PCRPolicy h sel)
  (λ o evs, Forall (creates r) evs ∧ ∀ dg, o = Ok dg → Forall policyDigest32 evs → length dg = 32).
Proof.
  unfold PCRs.PCRPolicy. eapply emits_bind.
  - apply (always_map_errS (creates r)), always_Execute. by intros.
  - cbn. intros _ evs Hevs. apply emits_map_errS, emits_Execute. intros o. split.
    + apply Forall_app. split; [done|]. by repeat constructor.
    + destruct o as [dg| |]; [|done..]. intros ? [= <-] [_ Hp]%Forall_app. by apply Forall_inv in Hp.
  - done.
  - done.
Qed.

(** A signing template, if the condition holds, and the creation of its key. *)
Lemma signing_if (C : Prop) tpm alg t1 t2 : (C → roleOf t1 = Some Signing ∧ roleOf t2 = Some Signing) →
  emits (keyTemplate ← lift
      (if decide (alg = TPMAlgRSA) then Ok t1 else if decide (alg = TPMAlgECC) then Ok t2
       else Err (err_fmt "unsupported algorithm: %v" [AInt alg]));
     '(public, private, _, _, _) ← map_errS (err_wrap "failed to create key: %w")
       (CreateKey (srkHandle tpm) [] keyTemplate);
     mret (public, private)) (λ _ evs, C → Forall (creates Signing) evs).
Proof.
  intros Ht. eapply (emits_bind _ _ (λ o evs, evs = [] ∧ ∀ t, o = Ok t → t = t1 ∨ t = t2)).
  - apply emits_lift. split; [done|]. intros t Ho. repeat case_decide; simplify_eq; auto.
  - cbn. intros t _ [-> Hor]. unfold CreateKey.
    eapply (emits_bind _ _ (λ _ evs, C → Forall (creates Signing) evs)).
    + apply emits_map_errS. eapply (emits_bind _ _ (λ _ evs, C → Forall (creates Signing) evs)).
      * apply emits_map_errS, emits_Execute. intros o HC. constructor; [|done].
        cbn. destruct (Ht HC), (Hor t eq_refl); congruence.
      * cbn. intros resp evs Hevs. apply emits_ret. by rewrite app_nil_r.
      * done.
      * done.
    + cbn. intros [[[[? ?] ?] ?] ?] evs Hevs. apply emits_ret. by rewrite app_nil_r.
    + done.
    + done.
  - by intros e _ [-> _] _.
  - by intros e _ [-> _] _.
Qed.

Lemma GenerateSigningKeyWithPolicy_makes PCClientCompatible_PCRs tpm alg pcrs :
  makes Signing (GenerateSigningKeyWithPolicy PCClientCompatible_PCRs tpm alg pcrs).
Proof.
  apply makes_bind; [apply always_makes; unfold PCRs.SelectPCRs, PCRs.getPCRHashAlg; eauto 20 with iks|]. intros sel.
  apply makes_bind; [apply always_makes; unfold PCRs.NewSession; eauto 10 with iks|]. intros h.
  apply makes_deferring; [|apply always_makes; eauto 10 with iks].
  eapply emits_bind.
  - apply emits_map_errS. eapply emits_weaken; [apply (PCRPolicy_creates Signing)|].
    intros o evs [Hevs Hdg]. instantiate (1 := λ o evs, Forall (creates Signing) evs ∧
      ∀ dg, o = Ok dg → Forall policyDigest32 evs → length dg = 32).
    split; [done|]. intros dg Ho. apply Hdg. by destruct o.
  - cbn. intros dg evs [Hevs Hdg].
    eapply (emits_weaken _ (λ _ evs', length dg = 32 → Forall (creates Signing) evs')).
    + apply (signing_if (length dg = 32) tpm). by intros ?%policy_templates.
    + cbn. intros o evs' Hevs' [Hp _]%Forall_app. apply Forall_app. auto.
  - by intros e evs [? _] _.
  - by intros e evs [? _] _.
Qed.

(** ** go-tpm's own templates *)
Class TPMTemplatesLaws := {
  ECCEK_role : roleOf ECCEKTemplate = Some Storage;
  RSAEK_role : roleOf RSAEKTemplate = Some Storage;
  ECCSRK_role : roleOf ECCSRKTemplate = Some Storage;
}.
Context `{!TPMTemplatesLaws}.

Lemma getECCEKTemplate_role curve t : getECCEKTemplate curve = Ok t → roleOf t = Some Storage.
Proof.
  unfold getECCEKTemplate. repeat case_decide; intros [= <-]; [apply ECCEK_role|apply ek384_template].
Qed.

(** A primary key from a template that [getECCEKTemplate] gave. *)
Lemma ek_creates {A} curve f a u (k : ObjectResponse → SM (tpmState D) A) :
  (∀ resp, always (creates Storage) (k resp)) →
  always (creates Storage) (ekTemplate ← lift (getECCEKTemplate curve);
    resp ← map_errS f (Execute (CreatePrimary a ekTemplate u)); k resp).
Proof.
  intros Hk. eapply (emits_bind _ _ (λ o evs, evs = [] ∧ o = getECCEKTemplate curve)).
  - by apply emits_lift.
  - cbn. intros t _ [-> Ht]. apply always_bind; [|exact Hk].
    eapply creating; [done|]. by apply (getECCEKTemplate_role curve).
  - by intros e _ [-> _].
  - by intros e _ [-> _].
Qed.

Context {X : Type}.
Variables (attest_ParseEKCertificate x509_ParseCertificate : bytes → outcome (Cert.Certificate X))
  (Pack_uint32 : Z → outcome bytes) (PCClientCompatible_PCRs : list Z → bytes).

(** C10: every object is created from a well-formed template of the role its
    operation means: the endorsement and storage keys are restricted decryption
    keys with a cipher and no scheme, sealed data carries no key use, signing keys
    are unrestricted with a scheme of their own type and, bound to PCRs, a policy
    of the width of their name algorithm; and the templates handed to callers are
    restricted signing keys. *)
Theorem templates_well_formed fuel curve tpm password data policy alg pcrs : sealPolicy policy →
  makes Storage (CreateECCEK attest_ParseEKCertificate x509_ParseCertificate Pack_uint32 fuel password) ∧
  makes Storage (CreateRSAEK password) ∧ makes Storage (LoadECCEK password curve) ∧
  makes Storage (CreateECCOwnerPK password) ∧
  makes SealedData (Keys.Seal tpm data policy) ∧
  makes Signing (GenerateSigningKey tpm alg) ∧
  makes Signing (GenerateSigningKeyWithPolicy PCClientCompatible_PCRs tpm alg pcrs) ∧
  roleOf GetECCAttestationKeyTemplate = Some Attestation ∧
  roleOf GetRSAAttestationKeyTemplate = Some Attestation.
Proof.
  intros Hpol. split_and!; [| | | | | | |apply attestation_templates..].
  - apply always_makes, always_bind; [apply always_ResolveECCEKProfile; intros; by apply query_creates|].
    intros profile. apply ek_creates. intros. apply persist_creates.
  - apply always_makes, always_bind; [eapply creating; [done|apply RSAEK_role]|]. intros. apply persist_creates.
  - apply always_makes, ek_creates. intros. apply always_ret.
  - apply always_makes, always_bind; [eapply creating; [done|apply ECCSRK_role]|]. intros. apply persist_creates.
  - apply always_makes, always_bind; [eapply creating; [done|by apply seal_template]|]. intros. apply always_ret.
  - eapply emits_weaken; [apply (signing_if True); intros _; apply signing_templates|]. cbn. auto.
  - apply GenerateSigningKeyWithPolicy_makes.
Qed.

End Creates.

(** ** The templates of the TCG's profiles (L-1, L-2 and H-1) *)
Module Demo.
Import TCGAlgs.

Definition storageAttrs (userWithAuth adminWithPolicy : bool) : TPMAObject :=
  mkAttrs true true true userWithAuth adminWithPolicy true true false.
Definition aes128 : option TPMTSymDefObject := Some (mkSymDef TPMAlgAES 128 TPMAlgCFB).
Definition PolicyA : bytes := byte_of_Z <$> [
  0x83; 0x71; 0x97; 0x67; 0x44; 0x84; 0xB3; 0xF8; 0x1A; 0x90; 0xCC; 0x8D; 0x46; 0xA5; 0xD7; 0x24;
  0xFD; 0x52; 0xD7; 0x6E; 0x06; 0x52; 0x0B; 0x64; 0xF2; 0xA1; 0xDA; 0x1B; 0x33; 0x14; 0x69; 0xAA]%Z.
Definition p256 : TPMUPublicParms :=
  NewECCParms TPMAlgECC (mkECCParms aes128 (mkScheme TPMAlgNull None) TPMECCNistP256 TPMAlgNull).

#[local] Instance tcg_templates : TPMTemplates := {|
  ECCEKTemplate := mkTPMTPublic TPMAlgECC TPMAlgSHA256 (storageAttrs false true) PolicyA p256 NoID;
  RSAEKTemplate := mkTPMTPublic TPMAlgRSA TPMAlgSHA256 (storageAttrs false true) PolicyA
    (NewRSAParms TPMAlgRSA (mkRSAParms aes128 (mkScheme TPMAlgNull None) 2048)) NoID;
  ECCSRKTemplate := mkTPMTPublic TPMAlgECC TPMAlgSHA256 (storageAttrs true false) [] p256 NoID |}.

#[local] Instance tcg_templates_laws : TPMTemplatesLaws.
Proof. split; vm_compute; reflexivity. Defined.

(** A TPM that refuses every command. *)
#[local] Instance refusing : Device unit := {| exec := λ R (c : command R) d, (Err (ERC 0x101), d) |}.

Lemma templates_well_formed_witness :
  makes (D := unit) SealedData (Keys.Seal (mkTPM SRKECCHandle) [Byte.x01] (Some PolicyA)) ∧
  roleOf GetRSAAttestationKeyTemplate = Some Attestation.
Proof.
  destruct (templates_well_formed (D := unit) (X := unit) (λ _, Err (EExt "x509")) (λ _, Err (EExt "x509"))
    (λ v, Ok (be_bytes 4 v)) (λ _, []) 3 TPMECCNistP384 (mkTPM SRKECCHandle) [] [Byte.x01] (Some PolicyA) TPMAlgECC [0; 7]%Z
    eq_refl) as (_ & _ & _ & _ & Hs & _ & _ & _ & Hr).
  split; [exact Hs|exact Hr].
Defined.
End Demo.

End Creatable.
