(* ===== verification/OffHost.v ===== *)
(** * pkg/tpm/offhost_wrap.go: wrapping for a TPM elsewhere

    The import blob is built and imported by go-tpm-tools: parameters. The
    iteration order of a Go map is unspecified: it is an argument, any
    permutation of the keys. *)
From S2P Require Import Prelude Bytes Blob Templates.

Module OffHost.

(** [pb.ImportBlob], less its PCRs. *)
Record ImportBlob := mkImportBlob { Duplicate : bytes; PublicArea : bytes; EncryptedSeed : bytes }.

Section OffHost.
Context {PubKey SRK S : Type}.
Variables (CreateImportBlob : PubKey → bytes → gmap Z bytes → outcome ImportBlob)
  (LoadCachedKey : Z → SM S SRK)
  (Import : SRK → ImportBlob → gmap Z bytes → SM S bytes).

(** [order] is the order in which [range pcrs] visits the keys. *)
Definition OffHostWrap (pub : PubKey) (data : bytes) (pcrs : gmap Z bytes) (order : list Z)
    : outcome bytes :=
  importBlob ← map_err (err_wrap "failed to create import blob: %w") (CreateImportBlob pub data pcrs);
  let pcrIndexes := order in
  let b := Blob.mkBlob (PublicArea importBlob) (Duplicate importBlob) pcrIndexes
             (EncryptedSeed importBlob) Blob.ImportTypeTPM Byte.x00 in
  Ok (Blob.Pack b).

Definition UnwrapImportable (duplicate publicArea seed : bytes) (pcrs : list Z) : SM S bytes :=
  srk ← map_errS (err_wrap "failed to load SRK: %w") (LoadCachedKey Templates.SRKECCHandle);
  let pcrMap := foldl (λ m pcr, <[u32 pcr := []]> m) ∅ pcrs in
  Import srk (mkImportBlob duplicate publicArea seed) pcrMap.

(** ** The round trip through the serialized blob *)

(** go-tpm-tools: what was wrapped for the key behind [LoadCachedKey] is
    imported by it, in a state whose PCRs match; only the indexes are read. *)
Record ImportLaw (pub : PubKey) (s : S) := {
  matches : gmap Z bytes → Prop;
  import_created data pcrs ib (nils : gmap Z bytes) : CreateImportBlob pub data pcrs = Ok ib →
    matches pcrs → dom nils = dom pcrs →
    ∃ srk s', LoadCachedKey Templates.SRKECCHandle s = (Ok srk, s') ∧ (Import srk ib nils s').1 = Ok data;
}.

Lemma dom_pcrMap pcrs (m : gmap Z bytes) :
  dom (foldl (λ m pcr, <[u32 pcr := []]> m) m pcrs) = list_to_set (u32 <$> pcrs) ∪ dom m.
Proof.
  revert m. induction pcrs as [|p pcrs IH]; intros m; [set_solver|].
  cbn [foldl fmap list_fmap list_to_set]. rewrite IH, dom_insert_L. set_solver.
Qed.

(** C29: data wrapped off the host is unwrapped on it: the blob parses as an
    import blob of the TPM whose parts, given to [UnwrapImportable], yield the
    data, whatever the order in which the PCR map was walked. The parts must fit
    their 16-bit lengths and the PCRs, fewer than 256, their byte. *)
Theorem OffHost_roundtrip pub data pcrs order s ib w (law : ImportLaw pub s) :
  CreateImportBlob pub data pcrs = Ok ib →
  (zlen (PublicArea ib) < 2 ^ 16)%Z → (zlen (Duplicate ib) < 2 ^ 16)%Z →
  (zlen (EncryptedSeed ib) < 2 ^ 16)%Z →
  order ≡ₚ (map_to_list pcrs).*1 → (∀ p, p ∈ dom pcrs → 0 ≤ p < 256)%Z →
  size pcrs < 256 → matches _ _ law pcrs → OffHostWrap pub data pcrs order = Ok w →
  ∃ b, Blob.Unpack (exact w) Blob.ImportTypeTPM = Ok b ∧
    (UnwrapImportable (Blob.Private b) (Blob.Public b) (Blob.EncryptedSeeds b) (Blob.PCRs b) s).1 = Ok data.
Proof.
  intros Hc Hpub Hdup Hseed Hord Hp Hn Hm Hw. unfold OffHostWrap in Hw. rewrite Hc in Hw.
  cbn in Hw. injection Hw as <-. set (b := Blob.mkBlob _ _ _ _ _ _).
  assert (∀ p, p ∈ order ↔ p ∈ dom pcrs) as Hdom.
  { intros p. rewrite Hord, elem_of_dom. unfold is_Some. rewrite list_elem_of_fmap. split.
    - intros ([k v] & -> & Hk%elem_of_map_to_list). by exists v.
    - intros [v Hv]. exists (p, v). split; [done|]. by apply elem_of_map_to_list. }
  assert (Forall (λ p, 0 ≤ p < 256)%Z order) as Hrange.
  { apply Forall_forall. intros p Hin%list_elem_of_In. by apply Hp, Hdom. }
  assert (length order = size pcrs) as Hlen.
  { rewrite Hord, length_fmap. by rewrite length_map_to_list. }
  exists b. split.
  - change Blob.ImportTypeTPM with (Blob.Btype b). apply (Blob.Unpack_complete _ _ []).
    + unfold Blob.wf. cbn. split_and!; [done..|lia|done].
    + by rewrite sl_all_exact, app_nil_r.
    + unfold sl_len. cbn [sl_data exact]. rewrite Blob.length_Pack.
      unfold Blob.headLen, Blob.expectedCap. lia.
  - set (nils := foldl (λ m pcr, <[u32 pcr := []]> m) ∅ order : gmap Z bytes).
    destruct (import_created _ _ law data pcrs ib nils Hc Hm) as (srk & s' & Hl & Hi).
    { subst nils. rewrite dom_pcrMap, dom_empty_L, (right_id_L ∅ (∪)).
      rewrite (Forall_fmap_ext_1 u32 id order), list_fmap_id.
      - apply set_eq. intros p. rewrite elem_of_list_to_set. apply Hdom.
      - eapply Forall_impl; [|exact Hrange]. cbn. intros p ?. apply wrap_small. lia. }
    unfold UnwrapImportable. erewrite SM_bind_step by (apply map_errS_Ok; exact Hl).
    cbv zeta. cbn [Blob.PCRs Blob.Private Blob.Public Blob.EncryptedSeeds b]. by destruct ib.
Qed.

End OffHost.

(** ** Witness *)
Definition demoCreate (_ : unit) (data : bytes) (_ : gmap Z bytes) : outcome ImportBlob :=
  Ok (mkImportBlob data [Byte.x01] [Byte.x02]).
Definition demoLoad (_ : Z) : SM unit unit := λ s, (Ok (), s).
Definition demoImport (_ : unit) (ib : ImportBlob) (_ : gmap Z bytes) : SM unit bytes :=
  λ s, (Ok (Duplicate ib), s).
Definition demoLaw : ImportLaw demoCreate demoLoad demoImport () ().
Proof.
  unshelve refine {| matches := λ _, True |}.
  intros data pcrs ib nils [= <-] _ _. by exists (), ().
Defined.

Lemma OffHost_roundtrip_witness :
  let w := match OffHostWrap demoCreate () (str "secret") {[ 7%Z := []; 3%Z := [] ]} [7; 3]%Z with
           | Ok w => w | _ => [] end in
  ∃ b, Blob.Unpack (exact w) Blob.ImportTypeTPM = Ok b ∧
    (UnwrapImportable demoLoad demoImport (Blob.Private b) (Blob.Public b) (Blob.EncryptedSeeds b)
       (Blob.PCRs b) ()).1 = Ok (str "secret").
Proof.
  apply (OffHost_roundtrip demoCreate demoLoad demoImport () (str "secret")
           {[ 7%Z := []; 3%Z := [] ]} [7; 3]%Z () (mkImportBlob (str "secret") [Byte.x01] [Byte.x02]) _ demoLaw).
  - reflexivity.
  - reflexivity.
  - reflexivity.
  - reflexivity.
  - apply (bool_decide_unpack _). vm_compute. exact I.
  - intros p Hp. assert (p = 7 ∨ p = 3)%Z as [-> | ->] by set_solver; split; done.
  - apply (bool_decide_unpack _). vm_compute. exact I.
  - exact I.
  - reflexivity.
Defined.

End OffHost.
