(* ===== verification/PolicyKeys.v ===== *)
(** * Policy-bound keys, end to end

    What sign.go, tpm.go and policy_digest.go achieve together: a key that
    [GenerateSigningKeyWithPolicy] creates on a TPM verifies, off the TPM, against
    the state [ReadPCRs] attests. *)
From stdpp Require Import sorting.
From S2P Require Import Prelude Bytes Tpm2 Trace PolicyDigest TpmPCR Templates TpmKeys Signer Creatable.
Import Tpm2 PolicyDigest Templates Keys Signer Creatable.

Module PolicyKeys.

Section PolicyKeys.
Context {D : Type} `{!Device D} `{!TPMAlgs} `{!TPMConsts} `{!TPMAlgsLaws}.
Context {calc : Type}.
Variables (NewPolicyCalculator : Z → outcome calc)
  (PolicyPCR_Update : calc → TPMLPCRSelection → bytes → outcome calc)
  (calc_Digest : calc → bytes)
  (alg_Hash : Z → outcome (bytes → bytes))
  (PCClientCompatible_PCRs : list Z → bytes)
  (Unmarshal_TPMTPublic : bytes → outcome TPMTPublic).

(** The digest of a SHA-256 policy session after PolicyPCR over [pcrs] (Part 3,
    23.7): the calculator's update by the hash of the digests, ascending. *)
Definition policyDigest (alg : Z) (val : Z → bytes) (pcrs : list Z) (dg : bytes) : Prop :=
  ∃ c hash c', NewPolicyCalculator TPMAlgSHA256 = Ok c ∧ alg_Hash TPMAlgSHA256 = Ok hash ∧
    PolicyPCR_Update c [mkPCRSelection alg (PCClientCompatible_PCRs pcrs)]
      (hash (mjoin (val <$> pcrs))) = Ok c' ∧ dg = calc_Digest c'.

(** The public area of an object made from a template: the template, but for the
    key itself. *)
Definition madeFrom (pub t : TPMTPublic) : Prop :=
  Type_ pub = Type_ t ∧ NameAlg pub = NameAlg t ∧ ObjectAttributes pub = ObjectAttributes t ∧
  AuthPolicy pub = AuthPolicy t ∧ Parameters pub = Parameters t.

(** What a TPM promises about policy sessions and the signing keys it creates:
    [wraps] a public and a private blob of its own, for a public area. *)
Record PolicyDevice (Inv : D → Prop) (fresh : D → Z → Prop) (wraps : bytes → bytes → TPMTPublic → Prop)
    (tpm : TPM) (alg : Z) (val : Z → bytes) := {
  pol_pcrs : PCRs.PCRDevice PCClientCompatible_PCRs Inv alg val;
  pol_session d nonceSize : Inv d → (16 ≤ nonceSize ≤ 32)%Z → ∃ h d',
    exec (StartPolicySession TPMAlgSHA256 nonceSize) d = (Ok h, d') ∧ fresh d' h ∧ Inv d';
  pol_fresh d h : fresh d h → fresh (exec (GetCapability TPMCapPCRs 0 1) d).2 h;
  pol_policy d h pcrs : Inv d → fresh d h → pcrs ≠ [] → StronglySorted Z.lt pcrs →
    Forall (λ p, 0 ≤ p < 24)%Z pcrs → ∃ d1 dg d2,
    exec (PolicyPCR h [] [mkPCRSelection alg (PCClientCompatible_PCRs pcrs)]) d = (Ok (), d1) ∧
    exec (PolicyGetDigest h) d1 = (Ok dg, d2) ∧ policyDigest alg val pcrs dg ∧ Inv d2;
  pol_width pcrs dg : policyDigest alg val pcrs dg → length dg = 32;
  pol_create d t : Inv d → roleOf t = Some Signing → ∃ resp pub d',
    exec (Create (NamedHandle (srkHandle tpm) []) t (UserAuth [])) d = (Ok resp, d') ∧ Inv d' ∧
    wraps (Bytes (OutPublic resp)) (OutPrivate resp) pub ∧ madeFrom pub t;
  pol_public b p pub : wraps b p pub → Unmarshal_TPMTPublic b = Ok pub;
  pol_close d h : Inv d → Inv (exec (CloseSession h) d).2;
}.

(** Those rules only look at the template. *)
Lemma roleOf_madeFrom pub t : madeFrom pub t → roleOf pub = roleOf t.
Proof.
  intros (? & ? & ? & ? & ?). destruct pub, t. cbn in *. subst. reflexivity.
Qed.

Lemma policyDigest_inj alg val pcrs dg dg' :
  policyDigest alg val pcrs dg → policyDigest alg val pcrs dg' → dg = dg'.
Proof.
  intros (c & hash & c' & Hc & Hh & Hu & ->) (c2 & hash2 & c2' & Hc2 & Hh2 & Hu2 & ->).
  assert (c2 = c) as -> by congruence. assert (hash2 = hash) as -> by congruence. congruence.
Qed.

Lemma fst_snd_eq {A B} (p : A * B) a : p.1 = a → p = (a, p.2).
Proof. by destruct p; intros <-. Qed.

Section Device.
Context (Inv : D → Prop) (fresh : D → Z → Prop) (wraps : bytes → bytes → TPMTPublic → Prop)
  (tpm : TPM) (alg : Z) (val : Z → bytes).
Context (Hdev : PolicyDevice Inv fresh wraps tpm alg val).

(** A key made from a signing template. *)
Lemma CreateKey_Ok t s : Inv (device s) → roleOf t = Some Signing → ∃ resp pub s',
  CreateKey (srkHandle tpm) [] t s =
    (Ok (Bytes (OutPublic resp), OutPrivate resp, CreationData resp, CreationHash resp, CreationTicket resp), s') ∧
  Inv (device s') ∧ wraps (Bytes (OutPublic resp)) (OutPrivate resp) pub ∧ madeFrom pub t.
Proof.
  intros Hinv Ht. destruct (pol_create _ _ _ _ _ _ Hdev _ t Hinv Ht) as (resp & pub & d' & He & Hi & Hw & Hm).
  eexists resp, pub, (mkState d' _). split; [|done]. unfold CreateKey. step_ok He. reflexivity.
Qed.

Lemma GenerateSigningKey_Ok keyAlg s : Inv (device s) → keyAlg = TPMAlgRSA ∨ keyAlg = TPMAlgECC →
  ∃ public private s' pub, GenerateSigningKey tpm keyAlg s = (Ok (public, private), s') ∧ Inv (device s') ∧
    wraps public private pub ∧ roleOf pub = Some Signing ∧ Type_ pub = keyAlg ∧
    UserWithAuth (ObjectAttributes pub) = true.
Proof.
  intros Hinv Hka. set (t := if decide (keyAlg = TPMAlgRSA) then GetRSASigningKeyTemplate else GetECCSigningKeyTemplate).
  assert (roleOf t = Some Signing ∧ Type_ t = keyAlg ∧ UserWithAuth (ObjectAttributes t) = true) as (Hr & Hty & Hu).
  { unfold t. destruct signing_templates. case_decide; [by subst|]. destruct Hka as [->| ->]; done. }
  destruct (CreateKey_Ok t s Hinv Hr) as (resp & pub & s' & Hc & Hi & Hw & Hm).
  pose proof (roleOf_madeFrom _ _ Hm). destruct Hm as (Hm1 & _ & Hm3 & _).
  eexists _, _, _, pub. split; [|split; [|split; [exact Hw|split; [congruence|split; [congruence|by rewrite Hm3]]]]].
  - unfold GenerateSigningKey.
    rewrite (SM_lift_step _ _ _ t) by (unfold t; destruct Hka as [-> | ->]; repeat case_decide; done).
    erewrite SM_bind_step by (apply map_errS_Ok; exact Hc). reflexivity.
  - exact Hi.
Qed.

Lemma GenerateSigningKeyWithPolicy_Ok keyAlg pcrs s :
  Inv (device s) → keyAlg = TPMAlgRSA ∨ keyAlg = TPMAlgECC →
  pcrs ≠ [] → StronglySorted Z.lt pcrs → Forall (λ p, 0 ≤ p < 24)%Z pcrs →
  ∃ public private s' pub,
    GenerateSigningKeyWithPolicy PCClientCompatible_PCRs tpm keyAlg pcrs s = (Ok (public, private), s') ∧
    Inv (device s') ∧ wraps public private pub ∧ roleOf pub = Some Signing ∧ Type_ pub = keyAlg ∧
    NameAlg pub = TPMAlgSHA256 ∧ policyDigest alg val pcrs (AuthPolicy pub).
Proof.
  intros Hinv Hka Hne Hsort Hr.
  destruct (PCRs.getPCRHashAlg_Ok _ _ _ _ _ (pol_pcrs _ _ _ _ _ _ Hdev) Hinv) as (s1 & Ha & Hi1).
  destruct (pol_session _ _ _ _ _ _ Hdev _ (Z.of_nat SHA256_Size) Hi1) as (h & d2 & He2 & Hfr & Hi2); [by cbn|].
  destruct (pol_policy _ _ _ _ _ _ Hdev _ _ _ Hi2 Hfr Hne Hsort Hr) as (d3 & dg & d4 & He3 & He4 & Hdg & Hi4).
  set (t := if decide (keyAlg = TPMAlgRSA) then GetRSASigningKeyTemplateWithPolicy dg
            else GetECCSigningKeyTemplateWithPolicy dg).
  assert (NameAlg t = TPMAlgSHA256 ∧ AuthPolicy t = dg ∧ Type_ t = keyAlg ∧ roleOf t = Some Signing) as (Htn & Hta & Hty & Htr).
  { destruct (policy_templates dg (pol_width _ _ _ _ _ _ Hdev _ _ Hdg)). unfold t.
    case_decide; [by subst|]. destruct Hka as [->| ->]; done. }
  destruct (pol_create _ _ _ _ _ _ Hdev d4 t Hi4 Htr) as (resp & pub & d5 & He5 & Hi5 & Hw & Hm).
  pose proof (roleOf_madeFrom _ _ Hm). destruct Hm as (Hm1 & Hm2 & _ & Hm4 & _).
  eexists (Bytes (OutPublic resp)), (OutPrivate resp), _, pub.
  split; [|split; [|split; [done|split; [congruence|split; [congruence|split; [congruence|by rewrite Hm4, Hta]]]]]].
  - unfold GenerateSigningKeyWithPolicy, PCRs.SelectPCRs.
    erewrite SM_bind_step.
    2: { apply map_errS_Ok. erewrite SM_bind_step by (apply map_errS_Ok; exact Ha). reflexivity. }
    unfold PCRs.NewSession. step_ok He2.
    apply deferring_step. unfold PCRs.PCRPolicy.
    erewrite SM_bind_step by (apply map_errS_Ok; step_ok He3; apply map_errS_Ok, Execute_step; exact He4).
    rewrite (SM_lift_step _ _ _ t) by (unfold t; destruct Hka as [-> | ->]; repeat case_decide; done).
    unfold CreateKey.
    erewrite SM_bind_step by (apply map_errS_Ok; step_ok He5; reflexivity). reflexivity.
  - pose proof (pol_close _ _ _ _ _ _ Hdev d5 h Hi5) as Hc.
    unfold mbind, SM_bind, attempt. rewrite Execute_unfold. cbn [device].
    destruct (exec (CloseSession h) d5) as [[] d6]; exact Hc.
Qed.

End Device.

(** C2: a key generated under a PCR policy verifies: the public area the TPM
    returns for it is accepted by [VerifyPolicyDigest] against the PCRs the TPM
    then attests through [ReadPCRs], provided the policy lists its PCRs in
    ascending order and the digests have the width of the TPM's bank. *)
Theorem generated_key_verifies Inv fresh wraps tpm alg val keyAlg pcrs fuel s :
  PolicyDevice Inv fresh wraps tpm alg val → Inv (device s) →
  keyAlg = TPMAlgRSA ∨ keyAlg = TPMAlgECC →
  pcrs ≠ [] → StronglySorted Z.lt pcrs → Forall (λ p, 0 ≤ p < 24)%Z pcrs →
  Forall (λ p, pcrAlg (length (val p)) = Ok alg) pcrs → length pcrs ≤ fuel →
  ∃ public private state s1 s2,
    GenerateSigningKeyWithPolicy PCClientCompatible_PCRs tpm keyAlg pcrs s = (Ok (public, private), s1) ∧
    PCRs.ReadPCRs PCClientCompatible_PCRs fuel pcrs s1 = (Ok (state, None), s2) ∧
    VerifyPolicyDigest NewPolicyCalculator PolicyPCR_Update calc_Digest alg_Hash
      PCClientCompatible_PCRs Unmarshal_TPMTPublic public pcrs state = Ok ().
Proof.
  intros Hdev Hinv Hka Hne Hsort Hr Hw Hf.
  destruct (GenerateSigningKeyWithPolicy_Ok _ _ _ _ _ _ Hdev _ _ _ Hinv Hka Hne Hsort Hr)
    as (public & private & s1 & pub & Hg & Hi1 & Hwr & _ & _ & Hna & Hdg).
  pose proof (pol_public _ _ _ _ _ _ Hdev _ _ _ Hwr) as Hu.
  destruct (PCRs.ReadPCRs_Ok _ _ _ _ fuel pcrs _ (pol_pcrs _ _ _ _ _ _ Hdev) Hi1 Hne Hr Hf)
    as (R & s2 & Hread & _ & _ & HR).
  exists public, private, (PCRs.pcrsOf val R), s1, s2. split; [done|]. split; [done|].
  destruct Hdg as (c & hash & c' & Hc & Hh & Hupd & Hdg).
  apply VerifyPolicyDigest_Ok. exists pub, c, alg, hash, (mjoin (val <$> pcrs)), c'.
  split; [done|]. rewrite Hna. unfold accepts.
  assert (∀ i, i ∈ pcrs → pcrDigestByIndex (PCRs.pcrsOf val R) !! i = Some (val i)) as Hlook.
  { intros i Hi. rewrite PCRs.pcrDigestByIndex_pcrsOf, decide_True; [done|by apply HR]. }
  split; [done|]. split; [done|]. split; [|split; [done|split; [|by split]]].
  - apply Forall_forall. intros i Hi. rewrite Forall_forall in Hw. exists (val i).
    split; [apply Hlook, list_elem_of_In, Hi|by apply Hw].
  - unfold digestsOf. rewrite (proj2 (mapM_Some _ _ (val <$> pcrs))); [done|].
    apply Forall2_fmap_r, Forall_Forall2_diag, Forall_forall. intros i Hi.
    by apply Hlook, list_elem_of_In.
Qed.

End PolicyKeys.

End PolicyKeys.
