(* ===== verification/SignSpec.v ===== *)
(** * crypto.Signer, end to end

    What sign.go promises its callers: a [Signer] over a key that
    [GenerateSigningKey] or [GenerateSigningKeyWithPolicy] made answers [Public]
    with the key of its public area, and [Sign] with a signature of the digest, in
    the form the standard library verifies, under that key. The policy session that
    go-tpm runs for a key bound to PCRs is the code's own callback. *)
From stdpp Require Import sorting.
From S2P Require Import Prelude Bytes Tpm2 Trace PolicyDigest TpmProps TpmPCR Signature Templates TpmKeys TpmOpen Signer Creatable PolicyKeys.
Import Tpm2 Trace PolicyDigest Templates Keys Open Signer Creatable PolicyKeys.

Module SignSpec.

Section SignSpec.
Context {D : Type} `{!Device D} `{!TPMAlgs} `{!TPMConsts} `{!TPMAlgsLaws}.
Context {calc RSA Curve_ : Type}.
Variables (NewPolicyCalculator : Z → outcome calc)
  (PolicyPCR_Update : calc → TPMLPCRSelection → bytes → outcome calc)
  (calc_Digest : calc → bytes)
  (alg_Hash : Z → outcome (bytes → bytes))
  (PCClientCompatible_PCRs : list Z → bytes)
  (Unmarshal_TPMTPublic : bytes → outcome TPMTPublic)
  (Unmarshal_TPM2BPublic : bytes → outcome (TPM2B TPMTPublic))
  (ObjectName : TPMTPublic → outcome bytes)
  (RSASSA : TPMUSignature → outcome bytes)
  (ECDSA : TPMUSignature → outcome (bytes * bytes))
  (RSADetail : TPMUPublicParms → outcome TPMSRSAParms)
  (ECCDetail : TPMUPublicParms → outcome TPMSECCParms)
  (Unique_RSA : TPMUPublicID → outcome bytes)
  (Unique_ECC : TPMUPublicID → outcome TPMSECCPoint)
  (RSAPub : TPMSRSAParms → bytes → outcome RSA)
  (CurveID_Curve : Z → outcome Curve_).
(** [rsa.VerifyPKCS1v15] with SHA-256, and [ecdsa.Verify]. *)
Variables (VerifyPKCS1v15 : RSA → bytes → bytes → Prop)
  (Verify : Curve_ → Z → Z → bytes → Z → Z → Prop).

(** ** Signatures *)

(** What [crypto.Signer]'s callers check: PKCS #1 v1.5, or the whole of [sig] as
    the DER form of [r] and [s] ([ecdsa.VerifyASN1]). *)
Definition verifies (key : PublicKey RSA Curve_) (digest sig : bytes) : Prop :=
  match key with
  | RSAPublicKey k => VerifyPKCS1v15 k digest sig
  | ECDSAPublicKey curve X Y =>
    ∃ r s, Sig.Unmarshal_RS sig = Ok (r, s, []) ∧ Verify curve X Y digest r s
  end.

(** The TPM's form: the big-endian numbers of an ECDSA signature are TPM2B fields. *)
Definition signatureOf (key : PublicKey RSA Curve_) (digest : bytes) (sig : TPMTSignature) : Prop :=
  match key with
  | RSAPublicKey k => SigAlg sig = TPMAlgRSASSA ∧ ∃ b, RSASSA (Signature sig) = Ok b ∧ VerifyPKCS1v15 k digest b
  | ECDSAPublicKey curve X Y => SigAlg sig = TPMAlgECDSA ∧ ∃ r s, ECDSA (Signature sig) = Ok (r, s) ∧
      (zlen r < 2 ^ 16)%Z ∧ (zlen s < 2 ^ 16)%Z ∧ Verify curve X Y digest (be_Z r) (be_Z s)
  end.

Lemma GetSignature_verifies key digest sig : signatureOf key digest sig →
  ∃ b, Sig.GetSignature RSASSA ECDSA sig = Ok b ∧ verifies key digest b.
Proof.
  unfold Sig.GetSignature. destruct key as [k|curve X Y]; cbn.
  - intros (-> & b & Hb & Hv). exists b. by rewrite decide_True, Hb.
  - intros (-> & r & s & Hb & Hr & Hs & Hv). exists (Sig.Marshal_RS (be_Z r) (be_Z s)).
    rewrite decide_False, decide_True, Hb; [|done|].
    2: { intros He. assert (10 = 9); [|done]. eapply algs_distinct; cbn; by rewrite ?He. }
    split; [done|]. exists (be_Z r), (be_Z s). split; [|done].
    rewrite <- (app_nil_r (Sig.Marshal_RS _ _)). by apply Sig.Unmarshal_Marshal_RS.
Qed.

(** ** The device *)
Definition ParseKey : TPMTPublic → outcome (PublicKey RSA Curve_) :=
  ParsePublicKey RSADetail ECCDetail Unique_RSA Unique_ECC RSAPub CurveID_Curve.

(** The digest of the policy session that go-tpm starts for an authorization by
    [pcrPolicyCallback], which it runs on the session. *)
Definition sessionDigest (d : D) (pcrs : list Z) (dg : bytes) : Prop := ∃ h d1 s2 d3,
  exec (StartPolicySession TPMAlgSHA256 16) d = (Ok h, d1) ∧
  PCRs.run_pcrPolicyCallback PCClientCompatible_PCRs pcrs h (mkState d1 []) = (Ok (), s2) ∧
  exec (PolicyGetDigest h) (device s2) = (Ok dg, d3).

(** The scheme of a key's type. *)
Definition schemeOf (pub : TPMTPublic) : TPMTScheme :=
  sigScheme (if decide (Type_ pub = TPMAlgRSA) then TPMAlgRSASSA else TPMAlgECDSA).

Abbreviation tpm := (mkTPM SRKECCHandle).

(** What a TPM promises about its signing keys, beside [PolicyDevice]: it loads what
    it wrapped, gives the public area of what is loaded, and signs a digest with a
    signing key, by an empty password if the key allows one, or when a policy
    session reaches the key's policy. *)
Record SigningDevice (Inv : D → Prop) (wraps : bytes → bytes → TPMTPublic → Prop)
    (loaded : D → Z → TPMTPublic → Prop) := {
  sgn_open d path : Inv d → ∃ d', exec (OpenDevice path) d = (Ok (), d') ∧ Inv d';
  sgn_load d b p pub : Inv d → wraps b p pub → ∃ inPublic o d',
    ToPublic Unmarshal_TPM2BPublic b = Ok inPublic ∧
    exec (Tpm2.Load (NamedHandle SRKECCHandle []) inPublic p) d = (Ok o, d') ∧ Inv d' ∧ loaded d' (ObjectHandle o) pub;
  sgn_read d h pub : Inv d → loaded d h pub → ∃ r d',
    exec (Tpm2.ReadPublic h) d = (Ok r, d') ∧ Contents r = Ok pub ∧ Inv d' ∧ loaded d' h pub;
  sgn_key b p pub : wraps b p pub → ∃ key name, ParseKey pub = Ok key ∧ ObjectName pub = Ok name;
  sgn_sign d h pub key digest : Inv d → loaded d h pub → roleOf pub = Some Signing → ParseKey pub = Ok key →
    length digest = 32 → UserWithAuth (ObjectAttributes pub) = true → ∃ sig d',
    exec (Tpm2.Sign (NamedHandle h []) digest (schemeOf pub) TPMSTHashCheck) d = (Ok sig, d') ∧
    Inv d' ∧ loaded d' h pub ∧ signatureOf key digest sig;
  sgn_sign_policy d h pub key name digest pcrs : Inv d → loaded d h pub → roleOf pub = Some Signing →
    ParseKey pub = Ok key → ObjectName pub = Ok name → length digest = 32 → sessionDigest d pcrs (AuthPolicy pub) →
    ∃ sig d',
    exec (Tpm2.Sign (AuthHandle h name (Policy TPMAlgSHA256 16 (pcrPolicyCallback pcrs))) digest (schemeOf pub)
            TPMSTHashCheck) d = (Ok sig, d') ∧
    Inv d' ∧ loaded d' h pub ∧ signatureOf key digest sig;
  sgn_flush d h pub : Inv d → loaded d h pub → ∃ d', exec (FlushContext h) d = (Ok (), d') ∧ Inv d';
  sgn_close d : Inv d → Inv (exec CloseDevice d).2;
}.

Context (Inv : D → Prop) (fresh : D → Z → Prop) (wraps : bytes → bytes → TPMTPublic → Prop)
  (loaded : D → Z → TPMTPublic → Prop) (alg : Z) (props : Z → Z) (vals : Z → bytes).
Context (Hpol : PolicyDevice NewPolicyCalculator PolicyPCR_Update calc_Digest alg_Hash PCClientCompatible_PCRs
  Unmarshal_TPMTPublic Inv fresh wraps tpm alg vals).
Context (Hprops : Props.PropsDevice Inv props).
Context (Hsgn : SigningDevice Inv wraps loaded).
Variable Pack_uint32 : Z → outcome bytes.
Hypothesis Pack_uint32_be : ∀ v, Pack_uint32 v = Ok (be_bytes 4 v).

(** ** The steps *)
Lemma OpenTPM_Ok path s : Inv (device s) →
  ∃ s', OpenTPM Pack_uint32 Answered path s = (Ok tpm, s') ∧ Inv (device s').
Proof.
  intros Hi. destruct (sgn_open _ _ _ Hsgn _ path Hi) as (d1 & He & Hi1).
  unfold OpenTPM, OpenTPMWithSRKHandle. 
  destruct (Props.getProperty_Ok _ Pack_uint32_be _ _ TPMPTManufacturer (mkState d1 (trace s ++ [Ev (OpenDevice path) (Ok ())])) Hprops Hi1)
    as (s2 & Hg & Hi2 & _).
  exists s2. split; [|done]. step_ok He. unfold checkOpened, selectCheck, sanityCheck.
  erewrite SM_bind_step; [|erewrite SM_bind_step by (unfold attempt; rewrite Hg; reflexivity); reflexivity]. reflexivity.
Qed.

Lemma LoadKey_Ok b p pub s : Inv (device s) → wraps b p pub → ∃ h s',
  LoadKey Unmarshal_TPM2BPublic SRKECCHandle b p s = (Ok h, s') ∧ Inv (device s') ∧ loaded (device s') h pub.
Proof.
  intros Hi Hw. destruct (sgn_load _ _ _ Hsgn _ _ _ _ Hi Hw) as (inPublic & o & d' & Hp & He & Hi' & Hl).
  eexists (ObjectHandle o), (mkState d' _). split; [|done].
  unfold LoadKey, ToPrivate. step_lift Hp. step_ok He. reflexivity.
Qed.

(** The session of the callback reaches the digest that [PCRPolicy] gave the key. *)
Lemma callback_digest d pcrs dg : Inv d → pcrs ≠ [] → StronglySorted Z.lt pcrs →
  Forall (λ p, 0 ≤ p < 24)%Z pcrs →
  policyDigest NewPolicyCalculator PolicyPCR_Update calc_Digest alg_Hash PCClientCompatible_PCRs alg vals pcrs dg →
  sessionDigest d pcrs dg.
Proof.
  intros Hi Hne Hs Hr Hdg.
  destruct (pol_session _ _ _ _ _ _ _ _ _ _ _ _ Hpol d 16 Hi) as (h & d1 & He & Hf & Hi1); [lia|].
  destruct (PCRs.getPCRHashAlg_Ok _ _ _ _ (mkState d1 []) (pol_pcrs _ _ _ _ _ _ _ _ _ _ _ _ Hpol) Hi1) as (s1 & Ha & Hi2).
  assert (keeps (λ d, fresh d h) (PCRs.getPCRHashAlg (D := D))) as Hk.
  { unfold PCRs.getPCRHashAlg. apply keeps_bind; [|eauto 10 with iks].
    apply keeps_map_errS, keeps_Execute. intros d'. apply (pol_fresh _ _ _ _ _ _ _ _ _ _ _ _ Hpol d' h). }
  specialize (Hk (mkState d1 []) Hf). rewrite Ha in Hk. cbn in Hk.
  destruct (pol_policy _ _ _ _ _ _ _ _ _ _ _ _ Hpol _ h pcrs Hi2 Hk Hne Hs Hr) as (d2 & dg' & d3 & Hp & Hg & Hdg' & _).
  assert (dg' = dg) as -> by (by eapply policyDigest_inj).
  eexists h, d1, (mkState d2 _), d3. split; [done|]. split; [|exact Hg].
  unfold PCRs.run_pcrPolicyCallback, PCRs.SelectPCRs.
  erewrite SM_bind_step.
  2: { apply map_errS_Ok. erewrite SM_bind_step by (apply map_errS_Ok; exact Ha). reflexivity. }
  apply Execute_step. exact Hp.
Qed.

(** How a signer's key is authorized: by an empty password, or by a policy over its
    PCRs, in ascending order. *)
Definition authorized (pub : TPMTPublic) (pcrs : list Z) : Prop :=
  (pcrs = [] ∧ UserWithAuth (ObjectAttributes pub) = true) ∨
  (pcrs ≠ [] ∧ StronglySorted Z.lt pcrs ∧ Forall (λ p, 0 ≤ p < 24)%Z pcrs ∧
   policyDigest NewPolicyCalculator PolicyPCR_Update calc_Digest alg_Hash PCClientCompatible_PCRs alg vals pcrs (AuthPolicy pub)).

Lemma signWith_Ok (signer : Signer (PublicKey RSA Curve_)) pub key name digest h s :
  Inv (device s) → loaded (device s) h pub → roleOf pub = Some Signing → ParseKey pub = Ok key → ObjectName pub = Ok name →
  length digest = 32 → authorized pub (PCRS signer) → KeyAlg signer = Type_ pub →
  Type_ pub = TPMAlgRSA ∨ Type_ pub = TPMAlgECC → ∃ sig s',
  signWith ObjectName RSASSA ECDSA signer digest h s = (Ok sig, s') ∧ Inv (device s') ∧ loaded (device s') h pub ∧
  verifies key digest sig.
Proof.
  intros Hi Hl Hr Hkey Hname Hd Hauth Halg Hty.
  set (a := if decide (Type_ pub = TPMAlgRSA) then TPMAlgRSASSA else TPMAlgECDSA).
  assert (sigScheme a = schemeOf pub) as Ha by done.
  unfold signWith. rewrite (SM_lift_step _ _ _ a).
  2: { unfold a. rewrite Halg. destruct Hty as [-> | ->]; repeat case_decide; done. }
  destruct Hauth as [[Hp Hu]|(Hp & Hs & Hr24 & Hdg)].
  - destruct (sgn_sign _ _ _ Hsgn _ _ _ _ _ Hi Hl Hr Hkey Hd Hu) as (sig & d' & He & Hi' & Hl' & Hsig).
    destruct (GetSignature_verifies _ _ _ Hsig) as (b & Hb & Hv).
    eexists b, (mkState d' _). split; [|done]. rewrite Hp, decide_False by (cbn; lia).
    apply map_errS_Ok. unfold Keys.Sign. rewrite Ha. step_ok He. unfold lift. by rewrite Hb.
  - destruct (sgn_read _ _ _ Hsgn _ _ _ Hi Hl) as (r & d1 & He1 & Hc & Hi1 & Hl1).
    destruct (sgn_sign_policy _ _ _ Hsgn _ _ _ _ _ _ (PCRS signer) Hi1 Hl1 Hr Hkey Hname Hd) as (sig & d' & He & Hi' & Hl' & Hsig).
    { by apply callback_digest. }
    destruct (GetSignature_verifies _ _ _ Hsig) as (b & Hb & Hv).
    eexists b, (mkState d' _). split; [|done]. rewrite decide_True by (by destruct (PCRS signer); [|cbn; lia]).
    apply map_errS_Ok. unfold SignWithPolicy, getObjectName, getObjectPublic. rewrite Ha.
    erewrite SM_bind_step.
    2: { apply map_errS_Ok. erewrite SM_bind_step.
         2: { apply map_errS_Ok. step_ok He1. unfold lift. by rewrite Hc. }
         unfold lift. by rewrite Hname. }
    step_ok He. unfold lift. by rewrite Hb.
Qed.

Lemma deferring_err_step {A} (m : SM (tpmState D) A) cleanup s a s1 s2 :
  m s = (Ok a, s1) → cleanup s1 = (Ok (), s2) → deferring_err m cleanup s = (Ok a, s2).
Proof. intros Hm Hc. unfold deferring_err. by rewrite Hm, Hc. Qed.

Lemma UnloadKey_Ok h pub s : Inv (device s) → loaded (device s) h pub →
  ∃ s', UnloadKey h s = (Ok (), s') ∧ Inv (device s').
Proof.
  intros Hi Hl. destruct (sgn_flush _ _ _ Hsgn _ _ _ Hi Hl) as (d' & He & Hi').
  eexists (mkState d' _). split; [|done]. apply Execute_step. exact He.
Qed.

Lemma Unload_keeps (signer : Signer (PublicKey RSA Curve_)) pub s :
  Inv (device s) → loaded (device s) (signerHandle signer) pub →
  Inv (device ((_ ← attempt (Unload signer); mret ()) s).2).
Proof.
  intros Hi Hl. destruct (UnloadKey_Ok _ _ _ Hi Hl) as (s' & Hu & Hi'). unfold Unload. case_decide; [done|].
  erewrite SM_bind_step by (unfold attempt; rewrite Hu; reflexivity). done.
Qed.

Lemma Close_keeps s : Inv (device s) → Inv (device (Close s).2).
Proof.
  apply keeps_bind; [|intros; apply keeps_ret]. apply keeps_attempt, keeps_Execute, (sgn_close _ _ _ Hsgn).
Qed.

(** A signer of a key: its blobs and what they need. *)
Record signerOf (signer : Signer (PublicKey RSA Curve_)) (pub : TPMTPublic) : Prop := {
  so_wraps : wraps (PublicBlob signer) (PrivateBlob signer) pub;
  so_role : roleOf pub = Some Signing;
  so_auth : authorized pub (PCRS signer);
  so_alg : KeyAlg signer = Type_ pub;
  so_type : Type_ pub = TPMAlgRSA ∨ Type_ pub = TPMAlgECC;
}.

Lemma Sign_Ok signer pub key digest opts s : Inv (device s) → signerOf signer pub → ParseKey pub = Ok key →
  length digest = 32 → opts = None ∨ opts = Some crypto_SHA256 → ∃ sig s',
  Sign Unmarshal_TPM2BPublic ObjectName RSASSA ECDSA Pack_uint32 Answered signer digest opts s = (Ok sig, s') ∧
  Inv (device s') ∧ verifies key digest sig.
Proof.
  intros Hi Hs Hkey Hd Hopts. destruct Hs as [Hw Hr Ha Hk Hty].
  destruct (sgn_key _ _ _ Hsgn _ _ _ Hw) as (key' & name & _ & Hname).
  destruct (OpenTPM_Ok (TpmPath signer) s Hi) as (s1 & Ho & Hi1).
  destruct (LoadKey_Ok _ _ _ s1 Hi1 Hw) as (h & s2 & Hl & Hi2 & Hld).
  destruct (signWith_Ok signer pub key name digest h s2 Hi2 Hld Hr Hkey Hname Hd Ha Hk Hty)
    as (sig & s3 & Hsg & Hi3 & Hld3 & Hv).
  destruct (UnloadKey_Ok h pub s3 Hi3 Hld3) as (s4 & Hu & Hi4).
  exists sig, (Close s4).2. split; [|split; [by apply Close_keeps|exact Hv]].
  unfold Sign. rewrite (SM_lift_step _ _ _ ()).
  2: { destruct Hopts as [-> | ->]; [done|]. by rewrite decide_False by tauto. }
  rewrite decide_False by tauto. erewrite SM_bind_step by exact Ho. apply deferring_step.
  erewrite SM_bind_step by (apply map_errS_Ok; exact Hl).
  by apply (deferring_err_step _ _ _ _ s3).
Qed.

Definition ReadKey : Z → SM (tpmState D) (PublicKey RSA Curve_) :=
  ReadPublicKey RSADetail ECCDetail Unique_RSA Unique_ECC RSAPub CurveID_Curve.

(** The first call reads the key; the next ones answer it without the device. *)
Lemma Public_Ok signer pub key s : Inv (device s) → signerOf signer pub → ParseKey pub = Ok key →
  publicKey signer = None → signerHandle signer = 0%Z → ∃ signer' s',
  Public Unmarshal_TPM2BPublic Pack_uint32 ReadKey Answered signer s = (Ok (Some key, signer'), s') ∧
  Inv (device s') ∧ signerOf signer' pub ∧
  ∀ t, Public Unmarshal_TPM2BPublic Pack_uint32 ReadKey Answered signer' t = (Ok (Some key, signer'), t).
Proof.
  intros Hi Hs Hkey Hnone Hz. pose proof Hs as [Hw Hr Ha Hk Hty].
  destruct (OpenTPM_Ok (TpmPath signer) s Hi) as (s1 & Ho & Hi1).
  destruct (LoadKey_Ok _ _ _ s1 Hi1 Hw) as (h & s2 & Hl & Hi2 & Hld).
  destruct (sgn_read _ _ _ Hsgn _ _ _ Hi2 Hld) as (r & d3 & Her & Hc & Hi3 & Hld3).
  set (signer1 := set_handle h signer). set (signer' := set_publicKey (Some key) signer1).
  exists signer'.
  assert (∃ s3, (key ← attempt (ReadKey h);
      let key := match key with Ok k => Some k | _ => None end in mret (key, set_publicKey key signer1)) s2 =
      (Ok (Some key, signer'), s3) ∧ Inv (device s3) ∧ loaded (device s3) h pub) as (s3 & Hread & Hi3' & Hld3').
  { eexists (mkState d3 _). split; [|done]. erewrite SM_bind_step.
    2: { unfold attempt, ReadKey, ReadPublicKey. step_ok Her. step_lift Hc. unfold lift.
         change (ParsePublicKey _ _ _ _ _ _ _) with (ParseKey pub). by rewrite Hkey. }
    reflexivity. }
  destruct (UnloadKey_Ok h pub s3 Hi3' Hld3') as (s4 & Hu & Hi4).
  set (c := deferring (loaded ← attempt (Load Unmarshal_TPM2BPublic signer tpm);
     match loaded with
     | Ok (h, s) => deferring (key ← attempt (ReadKey h);
          let key := match key with Ok k => Some k | _ => None end in mret (key, set_publicKey key s))
         (_ ← attempt (Unload s); mret ())
     | _ => mret (None, signer)
     end) Close).
  assert (∃ s5, c s1 = (Ok (Some key, signer'), s5) ∧ Inv (device s5)) as (s5 & Hc5 & Hi5).
  { eexists (Close _).2. split.
    - apply deferring_step. erewrite SM_bind_step.
      2: { unfold attempt, Load. rewrite decide_False by tauto.
           erewrite SM_bind_step by (apply map_errS_Ok; exact Hl). reflexivity. }
      apply deferring_step. exact Hread.
    - by apply Close_keeps, (Unload_keeps _ pub). }
  exists s5. split; [|split; [done|split; [by destruct Hs; split|done]]].
  unfold Public. rewrite Hnone. erewrite SM_bind_step by (unfold attempt; rewrite Ho; reflexivity). exact Hc5.
Qed.

Definition generate (keyAlg : Z) (pcrs : list Z) : SM (tpmState D) (bytes * bytes) :=
  if decide (pcrs = []) then GenerateSigningKey tpm keyAlg
  else GenerateSigningKeyWithPolicy PCClientCompatible_PCRs tpm keyAlg pcrs.

(** C3: a generated key signs, as [crypto.Signer] has it: a signer over the blobs of
    a key that was generated, bound to PCRs or not, answers [Public] with the key of
    the public area, from its cache ever after; and whenever the PCRs hold what the
    policy was made for, [Sign] returns for every 32-byte digest a signature that
    verifies under that key. *)
Theorem generated_key_signs keyAlg pcrs s :
  Inv (device s) → keyAlg = TPMAlgRSA ∨ keyAlg = TPMAlgECC →
  StronglySorted Z.lt pcrs → Forall (λ p, 0 ≤ p < 24)%Z pcrs →
  ∃ public private s1 pub key,
    generate keyAlg pcrs s = (Ok (public, private), s1) ∧ Inv (device s1) ∧
    Unmarshal_TPMTPublic public = Ok pub ∧ ParseKey pub = Ok key ∧
    ∀ path s2, Inv (device s2) → ∃ signer s3,
      Public Unmarshal_TPM2BPublic Pack_uint32 ReadKey Answered
        (mkSigner None path public private pcrs 0 keyAlg) s2 = (Ok (Some key, signer), s3) ∧ Inv (device s3) ∧
      (∀ s4, Public Unmarshal_TPM2BPublic Pack_uint32 ReadKey Answered signer s4 = (Ok (Some key, signer), s4)) ∧
      ∀ digest opts s4, Inv (device s4) → length digest = 32 → opts = None ∨ opts = Some crypto_SHA256 → ∃ sig s5,
        Sign Unmarshal_TPM2BPublic ObjectName RSASSA ECDSA Pack_uint32 Answered signer digest opts s4 = (Ok sig, s5) ∧
        Inv (device s5) ∧ verifies key digest sig.
Proof.
  intros Hi Hka Hs Hr.
  assert (∃ public private s1 pub, generate keyAlg pcrs s = (Ok (public, private), s1) ∧ Inv (device s1) ∧
    wraps public private pub ∧ roleOf pub = Some Signing ∧ Type_ pub = keyAlg ∧ authorized pub pcrs)
    as (public & private & s1 & pub & Hg & Hi1 & Hw & Hrole & Hty & Hauth).
  { unfold generate. case_decide as Hne.
    - destruct (GenerateSigningKey_Ok _ _ _ _ _ _ _ _ _ _ _ _ Hpol keyAlg s Hi Hka)
        as (public & private & s1 & pub & ? & ? & ? & ? & ? & ?).
      exists public, private, s1, pub. do 5 (split; [done|]). by left.
    - destruct (GenerateSigningKeyWithPolicy_Ok _ _ _ _ _ _ _ _ _ _ _ _ Hpol keyAlg pcrs s Hi Hka Hne Hs Hr)
        as (public & private & s1 & pub & ? & ? & ? & ? & ? & _ & ?).
      exists public, private, s1, pub. do 5 (split; [done|]). by right. }
  destruct (sgn_key _ _ _ Hsgn _ _ _ Hw) as (key & name & Hkey & _).
  exists public, private, s1, pub, key. split; [done|]. split; [done|].
  split; [by apply (pol_public _ _ _ _ _ _ _ _ _ _ _ _ Hpol _ private)|]. split; [done|].
  intros path s2 Hi2.
  destruct (Public_Ok (mkSigner None path public private pcrs 0 keyAlg) pub key s2) as (signer & s3 & ? & ? & Hso & ?);
    [done| |done..|].
  { split; cbn; [done..|by subst]. }
  exists signer, s3. split; [done|]. split; [done|]. split; [done|]. intros digest opts s4 Hi4 Hd Hopts.
  by apply (Sign_Ok signer pub).
Qed.

End SignSpec.
End SignSpec.
