(* ===== verification/AttestSpec.v ===== *)
(** * Attestation, end to end

    What a verifier of attest.go's answers may conclude. A quote and the PCR values
    that [ReadPCRs] returns from the same TPM agree: the digest recomputed from the
    values, in ascending order, is the one that was signed. A credential that
    [MakeCredential] protects for an object comes back from [ActivateCredential] on
    the TPM that holds the object and the endorsement key. *)
From stdpp Require Import sorting.
From S2P Require Import Prelude Bytes Tpm2 Trace PolicyDigest TpmPCR Signature Templates TpmKeys Attest Creatable SignSpec.
Import Tpm2 PolicyDigest Templates Keys Attest Creatable.

Module AttestSpec.

(** ** Quotes *)

(** The decoded attestation of a quote (TPMS_ATTEST and its TPMS_QUOTE_INFO). *)
Record Quoted := mkQuoted { ExtraData : bytes; PCRSelect : TPMLPCRSelection; PCRDigest : bytes }.

Section Quotes.
Context {D : Type} `{!Device D} `{!TPMAlgs} `{!TPMConsts} `{!TPMAlgsLaws}.
Context {RSA Curve_ : Type}.
Variables (PCClientCompatible_PCRs : list Z → bytes)
  (Unmarshal_Attest : bytes → outcome Quoted)
  (RSASSA : TPMUSignature → outcome bytes)
  (ECDSA : TPMUSignature → outcome (bytes * bytes))
  (VerifyPKCS1v15 : RSA → bytes → bytes → Prop)
  (Verify : Curve_ → Z → Z → bytes → Z → Z → Prop)
  (hash : bytes → bytes).

Abbreviation signatureOf := (SignSpec.signatureOf RSASSA ECDSA VerifyPKCS1v15 Verify).
Abbreviation verifies := (SignSpec.verifies VerifyPKCS1v15 Verify).

(** What a TPM promises of a key it has loaded: the quote repeats the data and the
    selection, and its digest is the hash of the selected PCRs in ascending order
    (Part 3, 18.4; Part 2, 10.12.1). *)
Record QuoteDevice (Inv : D → Prop) (h : Z) (pub : TPMTPublic) (key : PublicKey RSA Curve_)
    (alg : Z) (val : Z → bytes) := {
  qd_pcrs : PCRs.PCRDevice PCClientCompatible_PCRs Inv alg val;
  qd_quote d data pcrs : Inv d → pcrs ≠ [] → Forall (λ p, 0 ≤ p < 24)%Z pcrs → ∃ resp d',
    exec (Tpm2.Quote (NamedHandle h []) data [mkPCRSelection alg (PCClientCompatible_PCRs pcrs)]
            (SignSpec.schemeOf pub)) d = (Ok resp, d') ∧ Inv d' ∧
    Unmarshal_Attest (Attested resp) = Ok (mkQuoted data [mkPCRSelection alg (PCClientCompatible_PCRs pcrs)]
      (hash (mjoin (val <$> PCRs.bitsOf (PCClientCompatible_PCRs pcrs))))) ∧
    signatureOf key (hash (Attested resp)) (AttestSignature resp);
}.

(** go-tpm's bitmap selects what it is given, among the 24 PCRs of a PC client. *)
Hypothesis bitmap : ∀ pcrs i, Forall (λ p, 0 ≤ p < 24)%Z pcrs →
  i ∈ PCRs.bitsOf (PCClientCompatible_PCRs pcrs) ↔ i ∈ pcrs.

(** The verifier's side: the digests of the values, in ascending order of their PCRs. *)
Definition recompute (values : list PCR) : bytes :=
  hash (mjoin (omap (λ i, pcrDigestByIndex values !! i) (seqZ 0 24))).

Lemma filter_sorted P `{!∀ i, Decision (P i)} (l : list Z) : StronglySorted Z.lt l → StronglySorted Z.lt (base.filter P l).
Proof.
  induction 1 as [|i l Hl IH Hi]; [constructor|]. rewrite list.filter_cons. case_decide; [|done].
  constructor; [done|]. rewrite list.Forall_forall in Hi |- *. intros j [_ Hj]%list_elem_of_filter. auto.
Qed.

Lemma recompute_pcrsOf val R pcrs : (∀ i, i ∈ R ↔ i ∈ pcrs) → Forall (λ p, 0 ≤ p < 24)%Z pcrs →
  recompute (PCRs.pcrsOf val R) = hash (mjoin (val <$> PCRs.bitsOf (PCClientCompatible_PCRs pcrs))).
Proof.
  intros HR Hr. unfold recompute. do 2 f_equal.
  assert (PCRs.bitsOf (PCClientCompatible_PCRs pcrs) = base.filter (λ i, i ∈ R) (seqZ 0 24)) as ->.
  { apply PCRs.sorted_unique; [apply PCRs.bitsFrom_sorted| |].
    - apply filter_sorted. apply (bool_decide_unpack _). vm_compute. exact I.
    - intros i. rewrite bitmap, list_elem_of_filter, HR, elem_of_seqZ by done. split; [|tauto].
      intros Hi. split; [done|]. rewrite list.Forall_forall in Hr. apply Hr in Hi. lia. }
  induction (seqZ 0 24) as [|i l IH]; [done|]. cbn [omap list_omap].
  rewrite PCRs.pcrDigestByIndex_pcrsOf, list.filter_cons, IH. by case_decide.
Qed.

(** C5: a quote and the values read from the same TPM agree. For any PCRs, in any
    order and with repetitions, [Quote] and then [ReadPCRs] succeed; the quote is over
    the caller's data and the bank and PCRs that are read; the digest it attests is the
    one recomputed from the values; and the signature over it verifies. *)
Theorem Quote_agrees_ReadPCRs Inv h pub key alg val pcrs data fuel s :
  let keyAlg := if decide (Type_ pub = TPMAlgRSA) then TPMAlgRSASSA else TPMAlgECDSA in
  QuoteDevice Inv h pub key alg val → Inv (device s) →
  pcrs ≠ [] → Forall (λ p, 0 ≤ p < 24)%Z pcrs → length pcrs ≤ fuel →
  ∃ quote signature s1 values s2 q,
    Quote PCClientCompatible_PCRs RSASSA ECDSA h pcrs keyAlg data s = (Ok (quote, signature), s1) ∧
    PCRs.ReadPCRs PCClientCompatible_PCRs fuel pcrs s1 = (Ok (values, None), s2) ∧
    Unmarshal_Attest quote = Ok q ∧ ExtraData q = data ∧
    PCRSelect q = [mkPCRSelection alg (PCClientCompatible_PCRs pcrs)] ∧
    PCRDigest q = recompute values ∧ verifies key (hash quote) signature.
Proof.
  intros keyAlg Hdev Hinv Hne Hr Hf.
  destruct (PCRs.getPCRHashAlg_Ok _ _ _ _ _ (qd_pcrs _ _ _ _ _ _ Hdev) Hinv) as (s1 & Ha & Hi1).
  destruct (qd_quote _ _ _ _ _ _ Hdev _ data pcrs Hi1 Hne Hr) as (resp & d2 & He & Hi2 & Hu & Hsig).
  destruct (SignSpec.GetSignature_verifies _ _ _ _ _ _ _ Hsig) as (sig & Hs & Hv).
  set (s2 := mkState d2 (trace s1 ++ [Ev (Tpm2.Quote (NamedHandle h []) data
    [mkPCRSelection alg (PCClientCompatible_PCRs pcrs)] (SignSpec.schemeOf pub)) (Ok resp)])).
  destruct (PCRs.ReadPCRs_Ok _ _ _ _ fuel pcrs s2 (qd_pcrs _ _ _ _ _ _ Hdev) Hi2 Hne Hr Hf)
    as (R & s3 & Hread & _ & _ & HR).
  exists (Attested resp), sig, s2, (PCRs.pcrsOf val R), s3. eexists. split; [|split; [exact Hread|split; [exact Hu|]]].
  - unfold Quote. rewrite (SM_lift_step _ _ _ ()).
    2: { unfold Sig.validateSignAlg, keyAlg. repeat case_decide; naive_solver. }
    erewrite SM_bind_step by (apply map_errS_Ok; exact Ha). step_ok He. unfold signed.
    by rewrite (SM_lift_step _ _ _ sig) by (by rewrite Hs).
  - split; [done|]. split; [done|]. split; [|done]. symmetry. by apply recompute_pcrsOf.
Qed.

End Quotes.

(** ** Credentials *)
Section Credentials.
Context {D : Type} `{!Device D} `{!TPMAlgs} `{!TPMConsts}.
Variable ObjectName : TPMTPublic → outcome bytes.

(** The digest of the policy session that go-tpm starts for an authorization by
    [ekPolicy], which it runs on the session with its nonce. *)
Definition secretDigest (d : D) (password dg : bytes) : Prop := ∃ h d1 nonceTPM s2 d3,
  exec (StartPolicySession TPMAlgSHA256 16) d = (Ok h, d1) ∧
  run_ekPolicy password h nonceTPM (mkState d1 []) = (Ok (), s2) ∧
  exec (PolicyGetDigest h) (device s2) = (Ok dg, d3).

(** A TPM that holds an endorsement key, whose policy is the endorsement password,
    and another object. [protects ek name c blob secret]: the pair is [c] for the
    object of that name, encrypted to [ek] (Part 1, 24). *)
Record CredentialDevice (Inv : D → Prop) (ekHandle handle : Z) (ek pub : TPMTPublic) (ekName name endorsementAuth : bytes) := {
  protects : bytes → bytes → bytes → bytes → Prop;
  crd_read d : Inv d → ∃ r d', exec (Tpm2.ReadPublic handle) d = (Ok r, d') ∧ Contents r = Ok pub ∧ Inv d';
  crd_read_ek d : Inv d → ∃ r d', exec (Tpm2.ReadPublic ekHandle) d = (Ok r, d') ∧ Contents r = Ok ek ∧ Inv d';
  crd_names : ObjectName pub = Ok name ∧ ObjectName ek = Ok ekName;
  crd_make d c n : Inv d → length c ≤ 32 → ∃ resp d',
    exec (Tpm2.MakeCredential ekHandle c n) d = (Ok resp, d') ∧ Inv d' ∧
    protects n c (CredentialBlob resp) (Secret resp);
  crd_session d : Inv d → ∃ h d1 nonceTPM d2 d3, exec (StartPolicySession TPMAlgSHA256 16) d = (Ok h, d1) ∧
    exec (PolicySecret (AuthHandle TPMRHEndorsement [] (PasswordAuth endorsementAuth)) h nonceTPM) d1 = (Ok (), d2) ∧
    exec (PolicyGetDigest h) d2 = (Ok (AuthPolicy ek), d3);
  crd_activate d password c blob secret : Inv d → protects name c blob secret →
    secretDigest d password (AuthPolicy ek) → ∃ d',
    exec (Tpm2.ActivateCredential (NamedHandle handle name)
      (AuthHandle ekHandle ekName (Policy TPMAlgSHA256 16 (ekPolicy password))) blob secret) d = (Ok c, d') ∧ Inv d';
}.

Lemma getObjectName_Ok (Inv : D → Prop) h pub n s :
  (∀ d, Inv d → ∃ r d', exec (Tpm2.ReadPublic h) d = (Ok r, d') ∧ Contents r = Ok pub ∧ Inv d') →
  ObjectName pub = Ok n → Inv (device s) →
  ∃ s', getObjectName ObjectName h s = (Ok n, s') ∧ Inv (device s').
Proof.
  intros Hread Hn Hi. destruct (Hread _ Hi) as (r & d' & He & Hc & Hi').
  eexists (mkState d' _). split; [|exact Hi']. unfold getObjectName, getObjectPublic.
  erewrite SM_bind_step.
  2: { apply map_errS_Ok. step_ok He. unfold lift. by rewrite Hc. }
  unfold lift. by rewrite Hn.
Qed.

(** C19: a credential made for an object is the one its TPM activates: what
    [MakeCredential] returns, in the order it returns it, [ActivateCredential] turns
    back into the credential, in any later state of the TPM and with the endorsement
    password. *)
Theorem Make_ActivateCredential Inv ekHandle h ek pub ekName name password credential s :
  CredentialDevice Inv ekHandle h ek pub ekName name password → Inv (device s) → length credential ≤ 32 →
  ∃ encryptedSecret encryptedCredential s1,
    MakeCredential ekHandle name credential s = (Ok (encryptedSecret, encryptedCredential), s1) ∧ Inv (device s1) ∧
    ∀ s2, Inv (device s2) → ∃ s3,
      ActivateCredential ObjectName h ekHandle password encryptedSecret encryptedCredential s2 = (Ok credential, s3) ∧
      Inv (device s3).
Proof.
  intros Hdev Hi Hlen. destruct (crd_names _ _ _ _ _ _ _ _ Hdev) as [Hn Hek].
  destruct (crd_make _ _ _ _ _ _ _ _ Hdev _ credential name Hi Hlen) as (resp & d1 & He & Hi1 & Hp).
  exists (Secret resp), (CredentialBlob resp). eexists (mkState d1 _). split; [|split; [exact Hi1|]].
  { unfold MakeCredential. step_ok He. reflexivity. }
  intros s2 Hi2.
  destruct (getObjectName_Ok Inv _ _ _ s2 (crd_read_ek _ _ _ _ _ _ _ _ Hdev) Hek Hi2) as (s3 & Hg & Hi3).
  destruct (getObjectName_Ok Inv _ _ _ s3 (crd_read _ _ _ _ _ _ _ _ Hdev) Hn Hi3) as (s4 & Hg' & Hi4).
  destruct (crd_activate _ _ _ _ _ _ _ _ Hdev _ password _ _ _ Hi4 Hp) as (d5 & He5 & Hi5).
  { destruct (crd_session _ _ _ _ _ _ _ _ Hdev _ Hi4) as (hs & d5 & nonce & d6 & d7 & Hs & Hsec & Hdg).
    exists hs, d5, nonce. eexists (mkState d6 _), d7. split; [done|]. split; [|exact Hdg].
    unfold run_ekPolicy. apply map_errS_Ok, Execute_step. exact Hsec. }
  eexists (mkState d5 _). split; [|exact Hi5]. unfold ActivateCredential.
  erewrite SM_bind_step by (apply map_errS_Ok; exact Hg).
  erewrite SM_bind_step by (apply map_errS_Ok; exact Hg').
  apply map_errS_Ok, Execute_step. exact He5.
Qed.

End Credentials.

End AttestSpec.
