(* ===== verification/Codec.v ===== *)
(** * A byte form of public areas, for the witnesses

    go-tpm's marshaller is a parameter of the development; the witnesses need one
    that can be inverted. *)
From stdpp Require Import countable.
From S2P Require Import Prelude Bytes Tpm2.
Import Tpm2.

Module Codec.

Definition ofBool (b : bool) : Z := if b then 1 else 0.
Definition toBool (z : Z) : bool := bool_decide (z = 1)%Z.
Definition ofBytes (b : bytes) : list Z := zlen b :: (Z_of_byte <$> b).
Definition ofSym (s : option TPMTSymDefObject) : list Z :=
  match s with Some s => [1; Algorithm s; SymKeyBits s; SymMode s] | None => [0; 0; 0; 0] end%Z.
Definition ofScheme (s : TPMTScheme) : list Z :=
  match SchemeHash s with Some h => [Scheme s; 1; h] | None => [Scheme s; 0; 0] end%Z.

Definition serialize (t : TPMTPublic) : list Z :=
  let a := ObjectAttributes t in
  [Type_ t; NameAlg t; ofBool (FixedTPM a); ofBool (FixedParent a); ofBool (SensitiveDataOrigin a);
   ofBool (UserWithAuth a); ofBool (AdminWithPolicy a); ofBool (Restricted a); ofBool (Decrypt a);
   ofBool (SignEncrypt a)] ++ ofBytes (AuthPolicy t) ++
  match Parameters t with
  | NoParms => [0; 0; 0; 0]%Z ++ ofSym None ++ ofScheme no_scheme
  | NewRSAParms alg p => [1; alg; KeyBits p; 0]%Z ++ ofSym (RSASymmetric p) ++ ofScheme (RSAScheme p)
  | NewECCParms alg p => [2; alg; CurveID p; KDF p]%Z ++ ofSym (Symmetric p) ++ ofScheme (ECCScheme p)
  end ++
  match Unique t with
  | NoID => [0]%Z
  | NewRSAID alg n => [1; alg]%Z ++ ofBytes n
  | NewECCID alg p => [2; alg]%Z ++ ofBytes (point_X p) ++ ofBytes (point_Y p)
  end.

Definition toBytes (l : list Z) : bytes * list Z :=
  match l with
  | n :: l => (byte_of_Z <$> take (Z.to_nat n) l, drop (Z.to_nat n) l)
  | [] => ([], [])
  end.

Lemma toBytes_ofBytes b l : toBytes (ofBytes b ++ l) = (b, l).
Proof.
  unfold toBytes, ofBytes. cbn. rewrite Nat2Z.id, take_app_length', drop_app_length' by by rewrite length_fmap.
  f_equal. rewrite <- list_fmap_compose. etransitivity; [|apply list_fmap_id].
  apply list_fmap_ext. intros i x _. apply byte_of_Z_of_byte.
Qed.

Definition toUnique (l : list Z) : TPMUPublicID :=
  match l with
  | 1%Z :: alg :: l => NewRSAID alg (toBytes l).1
  | 2%Z :: alg :: l => NewECCID alg (mkECCPoint (toBytes l).1 (toBytes (toBytes l).2).1)
  | _ => NoID
  end.

Definition deserialize (l : list Z) : option TPMTPublic :=
  match l with
  | ty :: na :: a1 :: a2 :: a3 :: a4 :: a5 :: a6 :: a7 :: a8 :: l =>
    let '(policy, l) := toBytes l in
    match l with
    | k :: alg :: x :: y :: s0 :: s1 :: s2 :: s3 :: sc :: h0 :: h :: l =>
      let sym := if decide (s0 = 1)%Z then Some (mkSymDef s1 s2 s3) else None in
      let scheme := mkScheme sc (if decide (h0 = 1)%Z then Some h else None) in
      Some (mkTPMTPublic ty na
        (mkAttrs (toBool a1) (toBool a2) (toBool a3) (toBool a4) (toBool a5) (toBool a6) (toBool a7) (toBool a8))
        policy
        (if decide (k = 1)%Z then NewRSAParms alg (mkRSAParms sym scheme x)
         else if decide (k = 2)%Z then NewECCParms alg (mkECCParms sym scheme x y) else NoParms)
        (toUnique l))
    | _ => None
    end
  | _ => None
  end.

Lemma toBool_ofBool b : toBool (ofBool b) = b.
Proof. by destruct b. Qed.

Lemma deserialize_serialize t : deserialize (serialize t) = Some t.
Proof.
  destruct t as [ty na [a1 a2 a3 a4 a5 a6 a7 a8] policy parms unique].
  unfold deserialize, serialize. cbn [Type_ NameAlg ObjectAttributes FixedTPM FixedParent SensitiveDataOrigin
    UserWithAuth AdminWithPolicy Restricted Decrypt SignEncrypt AuthPolicy Parameters Unique app].
  rewrite toBytes_ofBytes, !toBool_ofBool.
  assert (∀ u, toUnique (match u with NoID => [0]%Z | NewRSAID alg n => [1; alg]%Z ++ ofBytes n
    | NewECCID alg p => [2; alg]%Z ++ ofBytes (point_X p) ++ ofBytes (point_Y p) end) = u) as Hu.
  { intros [|alg n|alg [x y]]; [done|..]; cbn [toUnique app].
    - by rewrite <- (app_nil_r (ofBytes n)), toBytes_ofBytes.
    - cbn [point_X point_Y]. rewrite toBytes_ofBytes. cbn [fst snd].
      by rewrite <- (app_nil_r (ofBytes y)), toBytes_ofBytes. }
  destruct parms as [|alg [[[]|] [sc [h|]] bits]|alg [[[]|] [sc [h|]] curve kdf]]; cbn -[toUnique]; by rewrite Hu.
Qed.

(** ** Bytes *)
Fixpoint ofPositive (p : positive) : bytes :=
  match p with xH => [] | xO p => Byte.x00 :: ofPositive p | xI p => Byte.x01 :: ofPositive p end.
Fixpoint toPositive (b : bytes) : positive :=
  match b with [] => xH | Byte.x00 :: b => xO (toPositive b) | _ :: b => xI (toPositive b) end.

Lemma toPositive_ofPositive p : toPositive (ofPositive p) = p.
Proof. induction p as [p IH|p IH|]; cbn; by rewrite ?IH. Qed.

Definition marshal (t : TPMTPublic) : bytes := ofPositive (encode (serialize t)).
Definition unmarshal (b : bytes) : option TPMTPublic := decode (toPositive b) ≫= deserialize.

Lemma unmarshal_marshal t : unmarshal (marshal t) = Some t.
Proof. unfold unmarshal, marshal. rewrite toPositive_ofPositive, decode_encode. apply deserialize_serialize. Qed.

End Codec.
