(* ===== verification/Sim.v ===== *)
(** * A small TPM, for the witnesses

    Enough of a TPM to satisfy the contracts the theorems are stated against:
    NV indexes read in blocks of the size it reports and no further than their end, PCRs returned one per command, policy sessions,
    sealed objects, keys that sign, quotes and credentials, and go-tpm's PCR bitmap.
    A signature is the digest itself, a credential is not encrypted. Nothing of the
    program is defined here. *)
From stdpp Require Import sorting countable.
From S2P Require Import Prelude Bytes Tpm2 PolicyDigest TpmPCR Creatable AttestSpec Codec.
Import Tpm2 Tpm2.TCGAlgs PolicyDigest.

Module Sim.

Record sim := mkSim {
  nvMax : Z;
  nv : list (Z * bytes);
  pcr : Z → bytes;
  props : Z → Z;
  objects : list (Z * (bytes * TPMTPublic));
  sessions : list (Z * bytes);
  next : Z;
}.

Definition PCRs : list Z → bytes := PolicyDigest.Demo.PCRs.

(** A hash of the right width. *)
Definition digest32 (b : bytes) : bytes := take 32 (b ++ replicate 32 Byte.x00).

Lemma length_digest32 b : length (digest32 b) = 32.
Proof. unfold digest32. rewrite length_take, length_app, length_replicate. lia. Qed.

(** The policy digest of the demo calculator. *)
Definition policyOf (d : sim) (sels : TPMLPCRSelection) : bytes := digest32 (
  be_bytes 2 TPMAlgSHA256 ++
  mjoin ((λ s, be_bytes 2 (sel_Hash s) ++ sel_PCRSelect s) <$> sels) ++
  mjoin ((λ s, mjoin (pcr d <$> PCRs.bitsOf (sel_PCRSelect s))) <$> sels)).

(** Does the handle's authorization satisfy the object's? *)
Definition mayUse (d : sim) (item : handle) (pub : TPMTPublic) : bool :=
  match item with
  | AuthHandle _ _ (Policy _ _ (pcrPolicyCallback pcrs)) =>
    bool_decide (AuthPolicy pub = policyOf d [mkPCRSelection TPMAlgSHA256 (PCRs pcrs)])
  | AuthHandle _ _ (Policy _ _ (ekPolicy password)) => bool_decide (password = [])
  | _ => UserWithAuth (ObjectAttributes pub)
  end.

Definition signature (scheme : TPMTScheme) (digest : bytes) : TPMTSignature :=
  if decide (Scheme scheme = TPMAlgRSASSA) then mkSignature TPMAlgRSASSA (NewRSASSA TPMAlgSHA256 digest)
  else mkSignature TPMAlgECDSA (NewECDSA TPMAlgSHA256 digest [Byte.x01]).

(** The byte form of a quote. *)
Definition marshalQuoted (q : AttestSpec.Quoted) : bytes :=
  match AttestSpec.PCRSelect q with
  | [sel] => Codec.ofPositive (encode [Codec.ofBytes (AttestSpec.ExtraData q); [sel_Hash sel];
      Codec.ofBytes (sel_PCRSelect sel); Codec.ofBytes (AttestSpec.PCRDigest q)])
  | _ => []
  end.
Definition unmarshalQuoted (b : bytes) : outcome AttestSpec.Quoted :=
  match decode (Codec.toPositive b) with
  | Some [data; [h]; select; digest] =>
    Ok (AttestSpec.mkQuoted (Codec.toBytes data).1 [mkPCRSelection h (Codec.toBytes select).1] (Codec.toBytes digest).1)
  | _ => Err (EExt "attest")
  end.

Lemma unmarshal_marshalQuoted data sel digest :
  unmarshalQuoted (marshalQuoted (AttestSpec.mkQuoted data [sel] digest)) = Ok (AttestSpec.mkQuoted data [sel] digest).
Proof.
  assert (∀ b, (Codec.toBytes (Codec.ofBytes b)).1 = b) as Hb.
  { intros b. by rewrite <- (app_nil_r (Codec.ofBytes b)), Codec.toBytes_ofBytes. }
  unfold unmarshalQuoted, marshalQuoted. cbn [AttestSpec.PCRSelect].
  rewrite Codec.toPositive_ofPositive, decode_encode, !Hb. by destruct sel.
Qed.

Definition authorized (item : handle) : bool :=
  match item with AuthHandle _ _ _ => true | _ => false end.

Definition simExec {R} (c : command R) : SM sim R :=
  match c in command R return SM sim R with
  | OpenDevice _ | CloseDevice | Sleep _ | FlushContext _ | CloseSession _ => λ d, (Ok (), d)
  | GetCapability _ prop _ => λ d,
      (Ok (mkCapabilityData (Ok (nv d).*1)
             (Ok [mkPCRSelection TPMAlgSHA384 (PCRs [0]%Z);
                  mkPCRSelection TPMAlgSHA256 (PCRs (seqZ 0 24))])
             (Ok [mkProperty prop (if decide (prop = TPMPTNVBufferMax) then nvMax d else props d prop)])), d)
  | NVReadPublic h => λ d,
      match assoc (nv d) h with
      | Some content => (Ok (mk2B [] (Ok (mkNVPublic h TPMAlgSHA256 true true true [] (zlen content)))), d)
      | None => (Err (ERC 0x18B), d)
      end
  | NVRead _ idx size offset => λ d,
      match assoc (nv d) (HandleValue idx) with
      | Some content =>
        if decide (nvMax d < size)%Z then (Err (ERC 0x1C4), d)
        else if decide (zlen content < offset + size)%Z then (Err (ERC 0x146), d)
        else (Ok (take (Z.to_nat size) (drop (Z.to_nat offset) content)), d)
      | None => (Err (ERC 0x18B), d)
      end
  | PCRRead sels => λ d,
      match sels with
      | s :: _ =>
        match PCRs.bitsOf (sel_PCRSelect s) with
        | p :: _ => (Ok (mkPCRRead [mkPCRSelection (sel_Hash s) (PCRs [p])] [pcr d p]), d)
        | [] => (Ok (mkPCRRead [mkPCRSelection (sel_Hash s) (PCRs [])] []), d)
        end
      | [] => (Ok (mkPCRRead [] []), d)
      end
  | StartPolicySession _ _ => λ d,
      (Ok (next d), mkSim (nvMax d) (nv d) (pcr d) (props d) (objects d) ((next d, []) :: sessions d) (next d + 1))
  | PolicyPCR h _ sels => λ d,
      (Ok (), mkSim (nvMax d) (nv d) (pcr d) (props d) (objects d) ((h, policyOf d sels) :: sessions d) (next d))
  | PolicyGetDigest h => λ d,
      (match assoc (sessions d) h with Some dg => Ok dg | None => Err (ERC 0x18B) end, d)
  | Create _ t sens => λ d,
      (Ok (mkCreate (match sens with SensitiveData data => data | _ => [] end)
             (mk2B (Codec.marshal t) (Ok t)) [] [] (mkTicket 0 0 [])), d)
  | Load _ pub priv => λ d,
      match Codec.unmarshal (Bytes pub) with
      | Some public =>
        (Ok (mkObject (next d) []),
         mkSim (nvMax d) (nv d) (pcr d) (props d) ((next d, (priv, public)) :: objects d) (sessions d) (next d + 1))
      | None => (Err (ERC 0x1D5), d)
      end
  | Tpm2.ReadPublic h => λ d,
      (match assoc (objects d) h with
       | Some (_, pub) => Ok (mk2B (Codec.marshal pub) (Ok pub))
       | None => Err (ERC 0x18B)
       end, d)
  | Tpm2.Unseal item => λ d,
      (match assoc (objects d) (HandleValue item) with
       | Some (priv, pub) =>
         if decide (AuthPolicy pub = []) then Ok priv
         else if authorized item then Ok priv else Err (ERC 0x12F)
       | None => Err (ERC 0x18B)
       end, d)
  | Tpm2.Sign key digest scheme _ => λ d,
      (match assoc (objects d) (HandleValue key) with
       | Some (_, pub) => if mayUse d key pub then Ok (signature scheme digest) else Err (ERC 0x12F)
       | None => Err (ERC 0x18B)
       end, d)
  | Tpm2.Quote key data sels scheme => λ d,
      (match assoc (objects d) (HandleValue key) with
       | Some (_, pub) =>
         let q := marshalQuoted (AttestSpec.mkQuoted data sels
           (digest32 (mjoin ((λ s, mjoin (pcr d <$> PCRs.bitsOf (sel_PCRSelect s))) <$> sels)))) in
         if mayUse d key pub then Ok (mkAttest q (signature scheme (digest32 q))) else Err (ERC 0x12F)
       | None => Err (ERC 0x18B)
       end, d)
  | Tpm2.MakeCredential _ credential name => λ d, (Ok (mkMakeCredential credential name), d)
  | Tpm2.ActivateCredential activate key blob secret => λ d,
      (match assoc (objects d) (HandleValue activate), assoc (objects d) (HandleValue key) with
       | Some (_, pub), Some (_, ek) =>
         if decide (secret = Codec.marshal pub) then if mayUse d key ek then Ok blob else Err (ERC 0x12F)
         else Err (ERC 0x1DF)
       | _, _ => Err (ERC 0x18B)
       end, d)
  | PolicySecret (AuthHandle _ _ (PasswordAuth password)) h _ => λ d,
      if decide (password = []) then
        (Ok (), mkSim (nvMax d) (nv d) (pcr d) (props d) (objects d) ((h, Creatable.Demo.PolicyA) :: sessions d) (next d))
      else (Err (ERC 0x98E), d)
  | DictionaryAttackLockReset _ => λ d, (Err (ERC 0x921), d)
  | _ => λ d, (Err (EExt "not simulated"), d)
  end.

#[export] Instance sim_device : Device sim := {| exec := @simExec |}.

(** ** The bitmap selects what it was built from *)
Lemma elem_of_bitsFrom_le n j m i :
  i ∈ PCRs.bitsFrom j (le_bytes n m) ↔
  (j * 8 ≤ i < (j + Z.of_nat n) * 8)%Z ∧ Z.testbit m (i - j * 8) = true.
Proof.
  revert j m. induction n as [|n IH]; intros j m; cbn [le_bytes PCRs.bitsFrom].
  { split; [by intros ?%elem_of_nil|lia]. }
  rewrite elem_of_app, IH, Z_of_byte_of_Z. unfold PCRs.bitsOfByte. rewrite list_elem_of_fmap.
  setoid_rewrite list_elem_of_filter. setoid_rewrite elem_of_seqZ.
  change 256%Z with (2 ^ 8)%Z. destruct (decide (i < (j + 1) * 8)%Z).
  - split.
    + intros [(k & -> & Ht & ?)|[? _]]; [|lia]. split; [lia|].
      rewrite Z.mod_pow2_bits_low in Ht by lia. by replace (j * 8 + k - j * 8)%Z with k by lia.
    + intros [? Ht]. left. exists (i - j * 8)%Z. rewrite Z.mod_pow2_bits_low by lia.
      split; [lia|]. split; [done|lia].
  - destruct (decide (j * 8 ≤ i)%Z).
    + rewrite Z.div_pow2_bits by lia. replace (i - (j + 1) * 8 + 8)%Z with (i - j * 8)%Z by lia.
      split; [intros [(k & ? & ? & ?)|[? ?]]; [lia|split; [lia|done]]|].
      intros [? ?]. right. split; [lia|done].
    + split; [intros [(k & ? & ? & ?)|[? ?]]; lia|lia].
Qed.

Lemma testbit_foldr pcrs i : Forall (λ p, 0 ≤ p)%Z pcrs → (0 ≤ i)%Z →
  Z.testbit (foldr Z.lor 0%Z ((λ i, 2 ^ i)%Z <$> pcrs)) i = bool_decide (i ∈ pcrs).
Proof.
  intros Hf Hi. induction Hf as [|p pcrs Hp Hf IH]; cbn [fmap list_fmap foldr]; [by rewrite Z.bits_0|].
  rewrite Z.lor_spec, IH, Z.pow2_bits_eqb by done. apply eq_bool_prop_intro.
  rewrite orb_True, !bool_decide_spec, elem_of_cons. destruct (Z.eqb_spec p i); naive_solver.
Qed.

Lemma elem_of_PCRs pcrs i : Forall (λ p, 0 ≤ p < 24)%Z pcrs →
  i ∈ PCRs.bitsOf (PCRs pcrs) ↔ i ∈ pcrs.
Proof.
  intros Hf. unfold PCRs.bitsOf, PCRs, PolicyDigest.Demo.PCRs. rewrite elem_of_bitsFrom_le.
  assert (Forall (λ p, 0 ≤ p)%Z pcrs) as Hf' by (eapply Forall_impl; [|exact Hf]; cbn; lia).
  replace (i - 0 * 8)%Z with i by lia. split.
  - intros [? Ht]. rewrite testbit_foldr in Ht by first [done|lia]. by apply bool_decide_eq_true in Ht.
  - intros Hi. rewrite Forall_forall in Hf. assert (0 ≤ i < 24)%Z by by apply Hf, list_elem_of_In.
    split; [lia|]. rewrite testbit_foldr by first [done|lia]. by apply bool_decide_eq_true_2.
Qed.

Lemma bitsOf_PCRs pcrs :
  StronglySorted Z.lt pcrs → Forall (λ p, 0 ≤ p < 24)%Z pcrs → PCRs.bitsOf (PCRs pcrs) = pcrs.
Proof.
  intros Hs Hf. apply PCRs.sorted_unique; [apply PCRs.bitsFrom_sorted|done|]. intros i. by apply elem_of_PCRs.
Qed.

End Sim.
