(* ===== verification/Redfish.v ===== *)
(** * pkg/redfish: the BMC client

    Every request goes through [do]; the connection is a [Transport]: what
    building a request, sending it, and the JSON and PEM codecs answer. The
    client's caches are part of the state a call threads. *)
From S2P Require Import Prelude Bytes Text.
Import Text.

Module Redfish.

(** ** Resources (types.go) *)
Record odataRef := mkRef { odata_ID : bytes }.
Record collection := mkCollection { Members : list odataRef }.

Record Measurement := mkMeasurement {
  MeasurementIndex : Z;
  MeasurementValue : bytes;
  MeasurementType : bytes;
  MeasurementHashAlgorithm : bytes;
}.

Record ComponentIntegrity := mkCI {
  ci_ID : bytes;
  ci_Type : bytes;
  TPMGetSignedMeasurements : bytes;
  SPDMGetSignedMeasurements : bytes;
  TypeVersion : bytes;
  TargetComponentURI : bytes;
  VerificationStatus : bytes;
  MeasurementSpecification : bytes;
  Measurements : list Measurement;
}.

Record Manager := mkManager { mgr_Model : bytes; FirmwareVersion : bytes; mgr_UUID : bytes }.
Record System := mkSystem {
  sys_Model : bytes; SKU : bytes; sys_SerialNumber : bytes; BiosVersion : bytes; sys_Manufacturer : bytes }.

Record NetworkAdapter := mkAdapter {
  SelfURI : bytes;
  ad_Name : bytes;
  ad_Model : bytes;
  ad_Manufacturer : bytes;
  PartNumber : bytes;
  ad_SerialNumber : bytes;
  LocationType : bytes;
  LocationOrdinalValue : Z;
  Controllers : list bytes;
  Ports : bytes;
}.
Definition setSelfURI (uri : bytes) (a : NetworkAdapter) : NetworkAdapter :=
  mkAdapter uri (ad_Name a) (ad_Model a) (ad_Manufacturer a) (PartNumber a) (ad_SerialNumber a)
    (LocationType a) (LocationOrdinalValue a) (Controllers a) (Ports a).

(** [AssociatedMACAddresses] *)
Record NetworkPort := mkPort { MACs : list bytes }.

(** ** Connection *)
Record request := mkRequest {
  Method : string;
  URL : bytes;
  User : bytes;
  Password : bytes;
  ContentType : option string;
  reqBody : option bytes;
  CloseConn : bool;
}.

(** [readErr]: the error that ends the body instead of its end. *)
Record response := mkResponse {
  StatusCode : Z;
  Status : bytes;
  respBody : bytes;
  readErr : option error;
}.

Class Transport (W : Type) := {
  NewRequest : string → bytes → option error;
  RoundTrip : request → W → (error + response) * W;
  Marshal : list (bytes * bytes) → error + bytes;
}.

(** [json.Unmarshal] into a value: what it decodes before an error stays. *)
Class Decode (X : Type) := Unmarshal : bytes → X → X * option error.

Class Codecs := {
  Decode_collection :: Decode collection;
  Decode_CI :: Decode ComponentIntegrity;
  Decode_Manager :: Decode Manager;
  Decode_System :: Decode System;
  Decode_Adapter :: Decode NetworkAdapter;
  Decode_Port :: Decode NetworkPort;
  (** [CertificateString] and [SignedMeasurements] *)
  Decode_Certificate : bytes → bytes → bytes * option error;
  Decode_Signed : bytes → bytes → bytes * option error;
  (** [pem.Decode]: type and contents of the first block, and the rest *)
  pem_Decode : bytes → option (bytes * bytes) * bytes;
  base64_DecodeString : bytes → error + bytes;
}.

Definition zeroCollection : collection := mkCollection [].
Definition zeroCI : ComponentIntegrity := mkCI [] [] [] [] [] [] [] [] [].
Definition zeroManager : Manager := mkManager [] [] [].
Definition zeroSystem : System := mkSystem [] [] [] [] [].
Definition zeroAdapter : NetworkAdapter := mkAdapter [] [] [] [] [] [] [] 0 [] [].
Definition zeroPort : NetworkPort := mkPort [].

(** ** Client *)
Definition managersPath : bytes := str "/redfish/v1/Managers".
Definition systemsPath : bytes := str "/redfish/v1/Systems".
Definition componentIntegrityPath : bytes := str "/redfish/v1/ComponentIntegrity".
Definition hpeIDevIDSuffix : bytes := str "/SecurityService/iLOIDevID/Certificates/1".

Definition VerificationSuccess : bytes := str "Success".

Definition ErrNotFound : string := "redfish.ErrNotFound".
Definition errUndecodable : string := "redfish.errUndecodable".
Definition ErrNoQuoteSupport : string := "redfish.ErrNoQuoteSupport".
Definition maxResponseSize : Z := Z.shiftl 1 20.

Record integritySnapshot := mkSnapshot {
  members : list ComponentIntegrity;
  failed : list bytes;
  unreadable : option error;
}.

(** [c.manager] is empty until resolved; a nil map is an empty one. *)
Record Client := mkClient {
  baseURL : bytes;
  user : bytes;
  password : bytes;
  manager : bytes;
  integrity : option integritySnapshot;
  targets : gmap bytes (option NetworkAdapter);
  portMACs : gmap bytes (list bytes);
}.

Definition NewClient (endpoint user password : bytes) : Client :=
  mkClient (TrimRight slash endpoint) user password [] None ∅ ∅.

Definition setManager (m : bytes) (c : Client) : Client :=
  mkClient (baseURL c) (user c) (password c) m (integrity c) (targets c) (portMACs c).
Definition setIntegrity (s : integritySnapshot) (c : Client) : Client :=
  mkClient (baseURL c) (user c) (password c) (manager c) (Some s) (targets c) (portMACs c).
Definition setTarget (id : bytes) (a : option NetworkAdapter) (c : Client) : Client :=
  mkClient (baseURL c) (user c) (password c) (manager c) (integrity c) (<[id := a]> (targets c)) (portMACs c).
Definition setPortMACs (id : bytes) (macs : list bytes) (c : Client) : Client :=
  mkClient (baseURL c) (user c) (password c) (manager c) (integrity c) (targets c) (<[id := macs]> (portMACs c)).

(** [errors.Join(unreadable, err)] *)
Definition Join (unreadable : option error) (err : error) : option error :=
  Some (EJoin (match unreadable with Some e => [e; err] | None => [err] end)).

Section Client.
Context {W : Type} `{!Transport W} `{!Codecs}.

Record state := mkState { client : Client; world : W }.
Definition M : Type → Type := SM state.
Definition getClient : M Client := λ s, (Ok (client s), s).
Definition modify (f : Client → Client) : M unit := λ s, (Ok (), mkState (f (client s)) (world s)).

(** [io.ReadAll(io.LimitReader(resp.Body, n))]: an error past the limit is never met. *)
Definition readLimited (n : Z) (resp : response) : bytes * option error :=
  if decide (zlen (respBody resp) < n)%Z then (respBody resp, readErr resp)
  else (take (Z.to_nat n) (respBody resp), None).

(** The request and its response. *)
Definition send (method : string) (path : bytes) (body : option (list (bytes * bytes))) : M response :=
  encoded ← match body with
    | None => mret None
    | Some body =>
      match Marshal body with
      | inl err => lift (Err (EFmt "failed to encode request for %s: %w" [AStr path] [err]))
      | inr encoded => mret (Some encoded)
      end
    end;
  c ← getClient;
  match NewRequest method (baseURL c ++ path) with
  | Some err => lift (Err (EFmt "failed to build request for %s: %w" [AStr path] [err]))
  | None =>
    let req := mkRequest method (baseURL c ++ path) (user c) (password c)
      (match body with Some _ => Some "application/json"%string | None => None end) encoded true in
    λ s, match RoundTrip req (world s) with
         | (inl err, w) => (Err (EFmt "request to %s failed: %w" [AStr path] [err]), mkState (client s) w)
         | (inr resp, w) => (Ok resp, mkState (client s) w)
         end
  end.

(** What [do] makes of a response, and of what was decoded into [out]. *)
Definition receive {X} (unmarshal : bytes → X → X * option error) (method : string) (path : bytes)
    (resp : response) (out : X) : X * option error :=
  if decide (StatusCode resp < 200 ∨ 300 ≤ StatusCode resp)%Z then
    let detail := fst (readLimited 512 resp) in
    let err := err_fmt "%s %s returned %s: %s"
      [AStr (str method); AStr path; AStr (Status resp); AStr (TrimSpace detail)] in
    (out, Some (if decide (StatusCode resp = 404)%Z then EFmt "%w: %w" [] [ESentinel ErrNotFound; err] else err))
  else
    match readLimited maxResponseSize resp with
    | (_, Some err) => (out, Some (EFmt "failed to read response from %s: %w" [AStr path] [err]))
    | (raw, None) =>
      match unmarshal raw out with
      | (out, Some err) => (out, Some (EFmt "%w from %s: %w" [AStr path] [ESentinel errUndecodable; err]))
      | (out, None) => (out, None)
      end
    end.

Definition do {X} (unmarshal : bytes → X → X * option error) (method : string) (path : bytes)
    (body : option (list (bytes * bytes))) (out : X) : M (X * option error) := λ s,
  match send method path body s with
  | (Ok resp, s) => (Ok (receive unmarshal method path resp out), s)
  | (Err err, s) => (Ok (out, Some err), s)
  | (Panic p, s) => (Panic p, s)
  end.

(** [if err := c.do(ctx, http.MethodGet, path, nil, &out); err != nil { return err }] *)
Definition get {X} (unmarshal : bytes → X → X * option error) (path : bytes) (zero : X) : M X :=
  '(out, err) ← do unmarshal "GET" path None zero;
  match err with Some err => lift (Err err) | None => mret out end.

(** ** The manager and its identity *)
Definition firstMember (collectionPath : bytes) : M bytes :=
  ms ← get Unmarshal collectionPath zeroCollection;
  match Members ms with
  | [m] => mret (odata_ID m)
  | _ => lift (Err (err_fmt "%s has %d members, expected exactly one" [AStr collectionPath; AInt (zlen (Members ms))]))
  end.

Definition managerPath : M bytes :=
  c ← getClient;
  if decide (manager c = []) then
    path ← firstMember managersPath;
    _ ← modify (setManager (TrimRight slash path));
    mret (TrimRight slash path)
  else mret (manager c).

Definition getManager : M Manager :=
  path ← managerPath;
  get Unmarshal path zeroManager.

Definition getSystem : M System :=
  path ← firstMember systemsPath;
  get Unmarshal path zeroSystem.

(** The loop over [certs.Members]. *)
Fixpoint findIDevID (ms : list odataRef) : option bytes :=
  match ms with
  | [] => None
  | m :: ms => if Contains (ToUpper (odata_ID m)) (str "IDEVID") then Some (odata_ID m) else findIDevID ms
  end.

Definition idevidPath : M (bytes * bool) :=
  manager ← managerPath;
  '(certs, err) ← do Unmarshal "GET" (manager ++ str "/Certificates") None zeroCollection;
  match err with
  | Some err =>
    if errors_Is ErrNotFound err || errors_Is errUndecodable err then
      mret (match findIDevID (Members certs) with Some id => (id, false) | None => (manager ++ hpeIDevIDSuffix, true) end)
    else lift (Err err)
  | None => mret (match findIDevID (Members certs) with Some id => (id, false) | None => (manager ++ hpeIDevIDSuffix, true) end)
  end.

Fixpoint pemLoop (fuel : nat) (rest : bytes) (chain : list bytes) : outcome (list bytes) :=
  match fuel with
  | O => Panic OutOfFuel
  | S fuel =>
    match pem_Decode rest with
    | (None, _) => Ok chain
    | (Some (type, contents), rest) =>
      pemLoop fuel rest (if decide (type = str "CERTIFICATE") then chain ++ [contents] else chain)
    end
  end.

Definition IDevIDChain : M (list bytes) :=
  '(path, fallback) ← idevidPath;
  cert ← map_errS (λ err,
      if (fallback : bool) && errors_Is ErrNotFound err
      then err_wrap "BMC lists no IDevID among its manager certificates or at HPE's OEM path: %w" err else err)
    (get Decode_Certificate path []);
  chain ← lift (pemLoop (S (length cert)) cert []);
  if decide (chain = []) then lift (Err (err_msg "BMC identity certificate is not PEM"))
  else mret chain.

(** ** ComponentIntegrity *)

(** The loop over the members still to be read. *)
Fixpoint readMembers (pending : list bytes) (s : integritySnapshot) : M integritySnapshot :=
  match pending with
  | [] => mret s
  | id :: pending =>
    '(ci, err) ← do Unmarshal "GET" id None zeroCI;
    match err with
    | Some err => readMembers pending (mkSnapshot (members s) (failed s ++ [id]) (Join (unreadable s) err))
    | None => readMembers pending (mkSnapshot (members s ++ [ci]) (failed s) (unreadable s))
    end
  end.

Definition componentIntegrities : M integritySnapshot :=
  c ← getClient;
  snapshot ← match integrity c with
    | Some snapshot => mret snapshot
    | None =>
      ms ← get Unmarshal componentIntegrityPath zeroCollection;
      mret (mkSnapshot [] (odata_ID <$> Members ms) None)
    end;
  snapshot ← readMembers (failed snapshot) (mkSnapshot (members snapshot) [] None);
  _ ← modify (setIntegrity snapshot);
  mret snapshot.

(** ** Adapters *)

(** [slotOrdinalPattern.FindStringSubmatch(id)[1]] for [Slot-0*(\d+)]: the digits after the first
    [Slot-] that has some, less the leading zeros that leave one digit. *)
Fixpoint slotOrdinal (id : bytes) : option bytes :=
  match id with
  | [] => None
  | _ :: rest =>
    if hasPrefix id (str "Slot-") then
      match takeWhile isDigit (drop 5 id) with
      | [] => slotOrdinal rest
      | digits => Some (match dropWhile (λ b, bool_decide (b = Byte.x30)) digits with
                        | [] => [Byte.x30] | digits => digits end)
      end
    else slotOrdinal rest
  end.

(** The loop over the adapters of the collection: the one in the slot, or what was unreadable. *)
Fixpoint findSlot (slot : Z) (refs : list odataRef) (unreadable : option error)
    : M (option NetworkAdapter * option error) :=
  match refs with
  | [] => mret (None, unreadable)
  | ref :: refs =>
    '(candidate, err) ← do Unmarshal "GET" (odata_ID ref) None zeroAdapter;
    match err with
    | Some err => findSlot slot refs (Join unreadable err)
    | None =>
      if decide (Ports candidate = []) then findSlot slot refs unreadable
      else if decide (LocationType candidate = str "Slot" ∧ LocationOrdinalValue candidate = slot)
      then mret (Some (setSelfURI (odata_ID ref) candidate), unreadable)
      else findSlot slot refs unreadable
    end
  end.

(** [return nil, err]: no adapter, definitively when [err] is nil. *)
Definition noAdapter (err : option error) : M (option NetworkAdapter) :=
  match err with Some err => lift (Err err) | None => mret None end.

Definition resolveTarget (ci : ComponentIntegrity) : M (option NetworkAdapter) :=
  '(adapter, directErr) ← do Unmarshal "GET" (TargetComponentURI ci) None zeroAdapter;
  if decide (directErr = None ∧ Ports adapter ≠ []) then
    mret (Some (setSelfURI (TargetComponentURI ci) adapter))
  else
  match slotOrdinal (ci_ID ci) with
  | None => noAdapter directErr
  | Some digits =>
    match Atoi digits with
    | None => lift (Err (EFmt "component %s names an unusable slot ordinal: %w" [AStr (ci_ID ci)]
                           [EExt "strconv.Atoi: value out of range"]))
    | Some slot =>
      let collectionURI := Dir (TargetComponentURI ci) in
      adapters ← map_errS (λ err, EFmt "adapter collection %s: %w" [AStr collectionURI] [err])
        (get Unmarshal collectionURI zeroCollection);
      '(found, unreadable) ← findSlot slot (Members adapters) None;
      match found with
      | Some candidate => mret (Some candidate)
      | None =>
        noAdapter (match directErr with
          | Some err => if errors_Is ErrNotFound err || errors_Is errUndecodable err then unreadable
                        else Join unreadable err
          | None => unreadable
          end)
      end
    end
  end.

Definition targetAdapter (ci : ComponentIntegrity) : M (option NetworkAdapter) :=
  c ← getClient;
  match targets c !! ci_ID ci with
  | Some adapter => mret adapter
  | None =>
    adapter ← resolveTarget ci;
    _ ← (if decide (ci_ID ci ≠ []) then modify (setTarget (ci_ID ci) adapter) else mret ());
    mret adapter
  end.

Fixpoint matchMAC (macs : list bytes) (mac : bytes) : bytes :=
  match macs with
  | [] => []
  | candidate :: macs => if EqualFold candidate mac then candidate else matchMAC macs mac
  end.

(** The loop over the ports: a match, or the MACs read and what was unreadable. *)
Fixpoint readPorts (refs : list odataRef) (mac : bytes) (macs : list bytes) (unreadable : option error)
    : M (bytes + list bytes * option error) :=
  match refs with
  | [] => mret (inr (macs, unreadable))
  | ref :: refs =>
    '(port, err) ← do Unmarshal "GET" (odata_ID ref) None zeroPort;
    match err with
    | Some err => readPorts refs mac macs (Join unreadable err)
    | None =>
      let macs := macs ++ (TrimSpace <$> MACs port) in
      let found := matchMAC macs mac in
      if decide (found ≠ []) then mret (inl found) else readPorts refs mac macs unreadable
    end
  end.

Definition adapterMAC (adapter : NetworkAdapter) (mac : bytes) : M bytes :=
  if decide (Ports adapter = []) then mret [] else
  c ← getClient;
  match portMACs c !! Ports adapter with
  | Some macs => mret (matchMAC macs mac)
  | None =>
    ports ← get Unmarshal (Ports adapter) zeroCollection;
    r ← readPorts (Members ports) mac [] None;
    match r with
    | inl found => mret found
    | inr (macs, Some unreadable) => lift (Err unreadable)
    | inr (macs, None) => _ ← modify (setPortMACs (Ports adapter) macs); mret []
    end
  end.

(** The loop over the entries. *)
Fixpoint findComponent (cis : list ComponentIntegrity) (mac : bytes) (unreadable : option error)
    : M (ComponentIntegrity * NetworkAdapter * bytes + option error) :=
  match cis with
  | [] => mret (inr unreadable)
  | ci :: cis =>
    if decide (ci_Type ci ≠ str "SPDM" ∨ TargetComponentURI ci = []) then findComponent cis mac unreadable else
    λ s, match targetAdapter ci s with
    | (Panic p, s) => (Panic p, s)
    | (Err err, s) => findComponent cis mac (Join unreadable err) s
    | (Ok None, s) => findComponent cis mac unreadable s
    | (Ok (Some adapter), s) =>
      match adapterMAC adapter mac s with
      | (Panic p, s) => (Panic p, s)
      | (Err err, s) => findComponent cis mac (Join unreadable err) s
      | (Ok bmcMAC, s) =>
        if decide (bmcMAC ≠ []) then (Ok (inl (ci, adapter, bmcMAC)), s)
        else findComponent cis mac unreadable s
      end
    end
  end.

Definition isMeasured (ci : ComponentIntegrity) : Prop := Measurements ci ≠ [].
#[export] Instance isMeasured_dec ci : Decision (isMeasured ci).
Proof. unfold isMeasured. destruct (Measurements ci); [right|left]; congruence. Defined.

Definition ComponentIntegrityFor (mac : bytes) : M (ComponentIntegrity * NetworkAdapter * bytes) :=
  snapshot ← componentIntegrities;
  let measured := base.filter isMeasured (members snapshot) in
  let unmeasured := base.filter (λ ci, ¬ isMeasured ci) (members snapshot) in
  r ← findComponent (measured ++ unmeasured) mac (unreadable snapshot);
  match r with
  | inl found => mret found
  | inr (Some unreadable) => lift (Err (EFmt "no SPDM component on the BMC reports MAC %s; some were unreadable: %w"
                                          [AStr mac] [unreadable]))
  | inr None => lift (Err (err_fmt "no SPDM component on the BMC reports MAC %s" [AStr mac]))
  end.

(** ** Signed measurements *)
Fixpoint findQuote (cis : list ComponentIntegrity) (manager : bytes) : option bytes :=
  match cis with
  | [] => None
  | ci :: cis =>
    if decide (ci_Type ci ≠ str "TPM" ∨ TrimRight slash (TargetComponentURI ci) ≠ manager) then findQuote cis manager
    else if decide (TPMGetSignedMeasurements ci ≠ []) then Some (TPMGetSignedMeasurements ci)
    else findQuote cis manager
  end.

Definition quoteTarget : M bytes :=
  manager ← managerPath;
  snapshot ← componentIntegrities;
  match findQuote (members snapshot) manager with
  | Some t => mret t
  | None =>
    match unreadable snapshot with
    | Some err => lift (Err (err_wrap "no TPM signed-measurement action among the readable ComponentIntegrity members: %w" err))
    | None => lift (Err (ESentinel ErrNoQuoteSupport))
    end
  end.

Definition TPMSignedMeasurements (nonce pcrSelection : bytes) : M bytes :=
  target ← quoteTarget;
  '(out, err) ← do Decode_Signed "POST" target
    (Some [(str "Nonce", nonce); (str "PCRSelection", pcrSelection)]) [];
  match err with
  | Some err => lift (Err err)
  | None =>
    if decide (out = []) then lift (Err (err_msg "BMC returned empty signed measurements")) else
    match base64_DecodeString out with
    | inl err => lift (Err (err_wrap "BMC signed measurements are not base64: %w" err))
    | inr blob => mret blob
    end
  end.

End Client.

End Redfish.
