(* ===== verification/RedfishSpec.v ===== *)
(** * pkg/redfish against a service that does not change

    The caches of the client are invisible: on a service whose answers depend on
    the request alone, a lookup after any history of calls answers what a new
    client answers. The lookups are then characterised on a new client. *)
From S2P Require Import Prelude Bytes Text Redfish.
Import Text Redfish.

Module RedfishSpec.

(** ** Lists *)
Lemma matchMAC_match macs mac : matchMAC macs mac ≠ [] →
  matchMAC macs mac ∈ macs ∧ EqualFold (matchMAC macs mac) mac = true.
Proof.
  induction macs as [|c macs IH]; cbn [matchMAC]; [done|].
  destruct (EqualFold c mac) eqn:He; [intros _; split; [left|done]|].
  intros [? ?]%IH. split; [by right|done].
Qed.

Lemma fold_nil s : fold s = [] → s = [].
Proof. destruct s as [|b s]; [done|]. cbn [fold]. repeat (case_match; try done). Qed.

Lemma matchMAC_none macs mac c : matchMAC macs mac = [] → c ∈ macs → EqualFold c mac = true → c = [].
Proof.
  induction macs as [|c' macs IH]; [by intros _ ?%elem_of_nil|]. cbn [matchMAC]. intros Hm [->|Hin]%elem_of_cons He.
  - by rewrite He in Hm.
  - destruct (EqualFold c' mac) eqn:He'; [|by apply IH]. subst c'.
    apply bool_decide_eq_true in He, He'. apply fold_nil. by rewrite He, <- He'.
Qed.

Lemma matchMAC_app l1 l2 mac : matchMAC (l1 ++ l2) mac =
  if decide (matchMAC l1 mac ≠ []) then matchMAC l1 mac else matchMAC l2 mac.
Proof.
  induction l1 as [|c l1 IHl1]; [done|]. cbn [app matchMAC]. destruct (EqualFold c mac) eqn:He; [|exact IHl1].
  clear IHl1. case_decide as Hc; [done|]. subst c.
  destruct (decide (matchMAC l2 mac = [])) as [->|[_ Hm]%matchMAC_match]; [done|].
  apply bool_decide_eq_true in He, Hm. cbn in He. rewrite <- He in Hm. apply fold_nil in Hm. congruence.
Qed.

Section Static.
Context {W : Type} `{!Transport W} `{!Codecs}.
Context (srv : request → error + response) (Hsrv : ∀ req w, fst (RoundTrip req w) = srv req).
Context (endpoint user password : bytes) (w0 : W).

Definition s0 : state := mkState (NewClient endpoint user password) w0.

(** The fields no call changes. *)
Definition mine (c : Client) : Prop :=
  baseURL c = TrimRight slash endpoint ∧ Redfish.user c = user ∧ Redfish.password c = password.

(** What a call that consults no cache answers. *)
Definition eval {A} (m : M A) : outcome A := fst (m s0).
Definition stateless {A} (m : M A) : Prop :=
  ∀ s, mine (client s) → ∃ w, m s = (eval m, mkState (client s) w).

Lemma stateless_ret {A} (a : A) : stateless (mret a).
Proof. intros [c w] _. by exists w. Qed.
Lemma stateless_lift {A} (m : outcome A) : stateless (lift m).
Proof. intros [c w] _. by exists w. Qed.

Lemma mine_s0 : mine (client s0).
Proof. done. Qed.

Lemma stateless_bind {A B} (m : M A) (f : A → M B) :
  stateless m → (∀ a, stateless (f a)) → stateless (m ≫= f).
Proof.
  intros Hm Hf s Hs. destruct (Hm s Hs) as [w Hw]. destruct (Hm s0 mine_s0) as [w' Hw'].
  unfold eval, mbind, SM_bind. rewrite Hw, Hw'. destruct (eval m) as [a|e|p]; [|eauto..].
  destruct (Hf a (mkState (client s) w) Hs) as [w1 ->].
  destruct (Hf a (mkState (client s0) w') mine_s0) as [w2 ->]. cbn. eauto.
Qed.

(** The value of a sequence is the sequence of the values. *)
Lemma eval_bind {A B} (m : M A) (f : A → M B) :
  stateless m → (∀ a, stateless (f a)) → eval (m ≫= f) = eval m ≫= (λ a, eval (f a)).
Proof.
  intros Hm Hf. destruct (Hm s0 mine_s0) as [w Hw]. unfold eval at 1, mbind at 1, SM_bind. rewrite Hw.
  destruct (eval m) as [a|e|p]; [|done..].
  change (fst (f a (mkState (client s0) w)) = eval (f a)).
  by destruct (Hf a (mkState (client s0) w) mine_s0) as [w1 ->].
Qed.

Lemma stateless_map_errS {A} f (m : M A) : stateless m → stateless (map_errS f m).
Proof.
  intros Hm s Hs. destruct (Hm s Hs) as [w Hw]. unfold eval, map_errS. rewrite Hw. exists w.
  destruct (Hm s0 mine_s0) as [w' ->]. done.
Qed.
Lemma eval_map_errS {A} f (m : M A) : eval (map_errS f m) = map_err f (eval m).
Proof. unfold eval, map_errS. by destruct (m s0). Qed.

Lemma stateless_send method path body : stateless (send method path body).
Proof.
  unfold send. apply stateless_bind.
  { destruct body as [body|]; [|apply stateless_ret].
    destruct (Marshal body); [apply stateless_lift|apply stateless_ret]. }
  intros enc [[b u p m i ts ps] w] (Hb & Hu & Hp). cbn in Hb, Hu, Hp. subst.
  unfold eval, s0, NewClient, mbind, SM_bind, getClient. cbn.
  destruct (NewRequest method _); cbn; [eauto|].
  match goal with |- context [RoundTrip ?req w] =>
    pose proof (Hsrv req w) as H1; pose proof (Hsrv req w0) as H2;
    destruct (RoundTrip req w) as [r1 w1], (RoundTrip req w0) as [r2 w2] end.
  cbn in H1, H2. subst r1 r2. destruct (srv _); cbn; eauto.
Qed.

Lemma stateless_do {X} (u : bytes → X → X * option error) method path body out :
  stateless (do u method path body out).
Proof.
  intros s Hs. destruct (stateless_send method path body s Hs) as [w Hw].
  destruct (stateless_send method path body s0 mine_s0) as [w' Hw'].
  unfold eval, do. rewrite Hw, Hw'. destruct (eval _); cbn; eauto.
Qed.

Lemma stateless_get {X} (u : bytes → X → X * option error) path zero : stateless (get u path zero).
Proof.
  apply stateless_bind; [apply stateless_do|]. intros [out [err|]]; [apply stateless_lift|apply stateless_ret].
Qed.

Lemma stateless_findSlot slot refs un : stateless (findSlot slot refs un).
Proof.
  revert un. induction refs as [|ref refs IH]; intros un; [apply stateless_ret|].
  apply stateless_bind; [apply stateless_do|]. intros [a [err|]]; [apply IH|].
  repeat case_decide; [apply IH|apply stateless_ret|apply IH].
Qed.

Lemma stateless_readPorts refs mac macs un : stateless (readPorts refs mac macs un).
Proof.
  revert macs un. induction refs as [|ref refs IH]; intros macs un; [apply stateless_ret|].
  apply stateless_bind; [apply stateless_do|]. intros [a [err|]]; [apply IH|]. cbv zeta.
  case_decide; [apply stateless_ret|apply IH].
Qed.

Lemma stateless_readMembers pending snap : stateless (readMembers pending snap).
Proof.
  revert snap. induction pending as [|id pending IH]; intros snap; [apply stateless_ret|].
  apply stateless_bind; [apply stateless_do|]. intros [a [err|]]; apply IH.
Qed.

Lemma stateless_noAdapter err : stateless (noAdapter err).
Proof. destruct err; [apply stateless_lift|apply stateless_ret]. Qed.

Lemma stateless_resolveTarget ci : stateless (resolveTarget ci).
Proof.
  apply stateless_bind; [apply stateless_do|]. intros [a directErr].
  case_decide; [apply stateless_ret|]. destruct (slotOrdinal _) as [digits|]; [|apply stateless_noAdapter].
  destruct (Atoi digits) as [slot|]; [|apply stateless_lift].
  apply stateless_bind; [apply stateless_map_errS, stateless_get|]. intros adapters.
  apply stateless_bind; [apply stateless_findSlot|]. intros [[c|] un]; [apply stateless_ret|apply stateless_noAdapter].
Qed.

Lemma stateless_firstMember path : stateless (firstMember path).
Proof.
  apply stateless_bind; [apply stateless_get|]. intros [[|m [|? ?]]]; [apply stateless_lift|apply stateless_ret|apply stateless_lift].
Qed.

(** ** What the service holds *)

(** One GET: what was decoded, and the error. *)
Definition reply {X} (u : bytes → X → X * option error) (path : bytes) (zero : X) : X * option error :=
  match eval (do u "GET" path None zero) with Ok r => r | _ => (zero, None) end.
Definition fetch {X} (u : bytes → X → X * option error) (path : bytes) (zero : X) : outcome X :=
  match reply u path zero with (x, None) => Ok x | (_, Some err) => Err err end.

Lemma eval_do {X} (u : bytes → X → X * option error) path zero :
  eval (do u "GET" path None zero) = Ok (reply u path zero).
Proof.
  unfold reply. destruct (eval _) as [r|e|p] eqn:He; [done|..]; exfalso; revert He; unfold eval, do;
    destruct (send _ _ _ _) as [[]] eqn:Hsend; try done; intros [= ->]; revert Hsend;
    unfold send, mbind, SM_bind, getClient, mret, SM_ret, lift; destruct (NewRequest _ _); try done;
    cbn; destruct (RoundTrip _ _) as [[]]; done.
Qed.

Lemma eval_get {X} (u : bytes → X → X * option error) path zero : eval (get u path zero) = fetch u path zero.
Proof.
  unfold get. rewrite eval_bind; [|apply stateless_do|intros [? [?|]]; [apply stateless_lift|apply stateless_ret]].
  rewrite eval_do. unfold fetch. by destruct (reply u path zero) as [x [err|]].
Qed.

(** The members of a collection. *)
Definition fetchRefs (path : bytes) : outcome (list odataRef) := Members <$> fetch Unmarshal path zeroCollection.
Definition fetchIDs (path : bytes) : outcome (list bytes) := (λ refs : list odataRef, odata_ID <$> refs) <$> fetchRefs path.

Definition entry (id : bytes) : ComponentIntegrity * option error := reply Unmarshal id zeroCI.
Definition good (ids : list bytes) : list ComponentIntegrity :=
  omap (λ id, match entry id with (ci, None) => Some ci | _ => None end) ids.
Definition bad (ids : list bytes) : list bytes := base.filter (λ id, is_Some (snd (entry id))) ids.
Definition joinAll {K X} (reply : K → X * option error) (un : option error) (ids : list K) : option error :=
  foldl (λ un id, match snd (reply id) with Some err => Join un err | None => un end) un ids.
Definition snapshotOf (ids : list bytes) : integritySnapshot := mkSnapshot (good ids) (bad ids) (joinAll entry None ids).
Definition specIntegrities : outcome integritySnapshot :=
  snapshotOf <$> fetchIDs componentIntegrityPath.

Lemma eval_readMembers ids ms fs un :
  eval (readMembers ids (mkSnapshot ms fs un)) = Ok (mkSnapshot (ms ++ good ids) (fs ++ bad ids) (joinAll entry un ids)).
Proof.
  revert ms fs un. induction ids as [|id ids IH]; intros ms fs un.
  { cbn. by rewrite !app_nil_r. }
  cbn [readMembers]. rewrite eval_bind; [|apply stateless_do|intros [? [?|]]; apply stateless_readMembers].
  rewrite eval_do. fold (entry id). unfold good, bad, joinAll. cbn [omap list_omap foldl mbind outcome_bind].
  rewrite list.filter_cons. cbn [members failed unreadable].
  destruct (entry id) as [ci [err|]]; cbn [snd]; rewrite IH.
  - rewrite decide_True by eauto. by rewrite <- app_assoc.
  - rewrite decide_False by (intros [? ?]; done). by rewrite <- app_assoc.
Qed.

Lemma joinAll_Some {K X} (r : K → X * option error) e ids : is_Some (joinAll r (Some e) ids).
Proof.
  revert e. induction ids as [|id ids IH]; intros e; cbn; [eauto|]. destruct (snd (r id)); apply IH.
Qed.

Lemma joinAll_None {K X} (r : K → X * option error) ids :
  joinAll r None ids = None ↔ ∀ id, id ∈ ids → snd (r id) = None.
Proof.
  induction ids as [|id ids IH].
  { split; [by intros _ ? ?%elem_of_nil|done]. }
  cbn [joinAll foldl]. fold (joinAll r). split.
  - destruct (snd (r id)) as [e|] eqn:He.
    + intros Hj. change (joinAll r (Join None e) ids = None) in Hj.
      destruct (joinAll_Some r (EJoin [e]) ids) as [? Hs]. unfold Join in Hj. congruence.
    + intros Hj id' [->|Hin]%elem_of_cons; [done|]. by apply IH.
  - intros Hall. rewrite (Hall id) by left. apply IH. intros id' Hin. apply Hall. by right.
Qed.

Lemma joinAll_bad un ids : joinAll entry un (bad ids) = joinAll entry un ids.
Proof.
  revert un. induction ids as [|id ids IH]; intros un; [done|].
  unfold bad. rewrite list.filter_cons. fold (bad ids). case_decide as Hb; cbn [joinAll foldl].
  - apply IH.
  - change (joinAll entry un (bad ids) = joinAll entry (match snd (entry id) with Some err => Join un err | None => un end) ids).
    rewrite IH. destruct (snd (entry id)); [destruct Hb; eauto|done].
Qed.

(** A second attempt at what failed fails in the same way. *)
Lemma snapshotOf_again ids : mkSnapshot (good ids ++ good (bad ids)) (bad (bad ids)) (joinAll entry None (bad ids)) = snapshotOf ids.
Proof.
  unfold snapshotOf. rewrite joinAll_bad.
  assert (good (bad ids) = []) as ->.
  { induction ids as [|id ids IH]; [done|]. unfold bad. rewrite list.filter_cons. fold (bad ids).
    case_decide as Hb; [|done]. unfold good. cbn [omap list_omap]. fold (good (bad ids)).
    destruct (entry id) as [? [?|]]; [done|by destruct Hb]. }
  rewrite app_nil_r. f_equal. unfold bad. rewrite list.list_filter_filter. apply list.list_filter_iff. tauto.
Qed.

Lemma elem_of_good ids ci : ci ∈ good ids ↔ ∃ id, id ∈ ids ∧ entry id = (ci, None).
Proof.
  unfold good. rewrite list_elem_of_omap. split; intros (id & Hin & He); exists id; (split; [done|]).
  - destruct (entry id) as [? [?|]]; congruence.
  - by rewrite He.
Qed.

(** ** Ports *)
Definition portOf (ref : odataRef) : NetworkPort * option error := reply Unmarshal (odata_ID ref) zeroPort.
Definition macsOf (ref : odataRef) : list bytes :=
  match portOf ref with (port, None) => TrimSpace <$> MACs port | _ => [] end.
Definition allMACs (refs : list odataRef) : list bytes := refs ≫= macsOf.

Lemma eval_readPorts refs mac macs un : matchMAC macs mac = [] →
  eval (readPorts refs mac macs un) =
  Ok (if decide (matchMAC (macs ++ allMACs refs) mac ≠ []) then inl (matchMAC (macs ++ allMACs refs) mac)
      else inr (macs ++ allMACs refs, joinAll portOf un refs)).
Proof.
  revert macs un. induction refs as [|ref refs IH]; intros macs un Hm.
  { cbn. rewrite app_nil_r, decide_False by (rewrite Hm; tauto). done. }
  cbn [readPorts]. rewrite eval_bind.
  2: apply stateless_do.
  2:{ intros [? [?|]]; [apply stateless_readPorts|]. cbv zeta. case_decide; [apply stateless_ret|apply stateless_readPorts]. }
  rewrite eval_do. fold (portOf ref). unfold allMACs, joinAll. cbn [mbind list_bind foldl outcome_bind].
  fold (allMACs refs). destruct (portOf ref) as [port [err|]] eqn:Hp; cbn [snd].
  { assert (macsOf ref = []) as -> by (unfold macsOf; by rewrite Hp). cbn [app]. by rewrite IH. }
  assert (macsOf ref = TrimSpace <$> MACs port) as -> by (unfold macsOf; by rewrite Hp).
  cbv zeta. case_decide as Hf.
  - rewrite (app_assoc macs), (matchMAC_app (_ ++ _)), (decide_True (P := matchMAC _ _ ≠ [])) by done. by rewrite decide_True.
  - rewrite IH by done. by rewrite <- app_assoc.
Qed.

(** ** The reference client *)
Definition specManager : outcome bytes := TrimRight slash <$> eval (firstMember managersPath).
Definition specTarget (ci : ComponentIntegrity) : outcome (option NetworkAdapter) := eval (resolveTarget ci).

Definition specMAC (adapter : NetworkAdapter) (mac : bytes) : outcome bytes :=
  if decide (Ports adapter = []) then Ok [] else
  refs ← fetchRefs (Ports adapter);
  if decide (matchMAC (allMACs refs) mac ≠ []) then Ok (matchMAC (allMACs refs) mac)
  else match joinAll portOf None refs with Some err => Err err | None => Ok [] end.

Fixpoint specFind (cis : list ComponentIntegrity) (mac : bytes) (un : option error)
    : outcome (ComponentIntegrity * NetworkAdapter * bytes + option error) :=
  match cis with
  | [] => Ok (inr un)
  | ci :: cis =>
    if decide (ci_Type ci ≠ str "SPDM" ∨ TargetComponentURI ci = []) then specFind cis mac un else
    match specTarget ci with
    | Panic p => Panic p
    | Err err => specFind cis mac (Join un err)
    | Ok None => specFind cis mac un
    | Ok (Some adapter) =>
      match specMAC adapter mac with
      | Panic p => Panic p
      | Err err => specFind cis mac (Join un err)
      | Ok bmcMAC => if decide (bmcMAC ≠ []) then Ok (inl (ci, adapter, bmcMAC)) else specFind cis mac un
      end
    end
  end.

Definition specComponentFor (mac : bytes) : outcome (ComponentIntegrity * NetworkAdapter * bytes) :=
  snapshot ← specIntegrities;
  r ← specFind (base.filter isMeasured (members snapshot) ++ base.filter (λ ci, ¬ isMeasured ci) (members snapshot))
        mac (unreadable snapshot);
  match r with
  | inl found => Ok found
  | inr (Some un) => Err (EFmt "no SPDM component on the BMC reports MAC %s; some were unreadable: %w" [AStr mac] [un])
  | inr None => Err (err_fmt "no SPDM component on the BMC reports MAC %s" [AStr mac])
  end.

Definition specQuote : outcome bytes :=
  manager ← specManager;
  snapshot ← specIntegrities;
  match findQuote (members snapshot) manager with
  | Some t => Ok t
  | None =>
    match unreadable snapshot with
    | Some err => Err (err_wrap "no TPM signed-measurement action among the readable ComponentIntegrity members: %w" err)
    | None => Err (ESentinel ErrNoQuoteSupport)
    end
  end.

(** ** Coherent caches *)
Definition listed (ci : ComponentIntegrity) : Prop := ∃ snap, specIntegrities = Ok snap ∧ ci ∈ members snap.

(** The [Id] of a member is unique in its collection, as Redfish has it. *)
Definition uniqueIds : Prop := ∀ ci ci', listed ci → listed ci' → ci_ID ci = ci_ID ci' → ci_ID ci ≠ [] →
  TargetComponentURI ci = TargetComponentURI ci'.
Context (Hids : uniqueIds).

Record coherent (c : Client) : Prop := {
  coh_mine : mine c;
  coh_manager : manager c ≠ [] → specManager = Ok (manager c);
  coh_integrity : ∀ snap, integrity c = Some snap → specIntegrities = Ok snap;
  coh_targets : ∀ id a, targets c !! id = Some a → id ≠ [] ∧ ∀ ci, listed ci → ci_ID ci = id → specTarget ci = Ok a;
  coh_ports : ∀ id macs, portMACs c !! id = Some macs → ∃ refs,
    fetchRefs id = Ok refs ∧ macs = allMACs refs ∧ joinAll portOf None refs = None;
}.

(** The call answers [r] and keeps the caches coherent. *)
Definition answers {A} (m : M A) (r : outcome A) : Prop :=
  ∀ s : @state W, coherent (client s) → fst (m s) = r ∧ coherent (client (snd (m s))).
Definition keeps {A} (m : M A) : Prop :=
  ∀ s : @state W, coherent (client s) → coherent (client (snd (m s))).

Lemma answers_keeps {A} (m : M A) r : answers m r → keeps m.
Proof. intros Hm s Hs. by destruct (Hm s Hs). Qed.

Lemma answers_stateless {A} (m : M A) : stateless m → answers m (eval m).
Proof. intros Hm s Hs. destruct (Hm s (coh_mine _ Hs)) as [w ->]. done. Qed.

Lemma answers_ret {A} (a : A) : answers (mret a) (Ok a).
Proof. by intros s Hs. Qed.
Lemma answers_lift {A} (m : outcome A) : answers (lift m) m.
Proof. by intros s Hs. Qed.

Lemma answers_bind {A B} (m : M A) r (f : A → M B) r' :
  answers m r → (∀ a, r = Ok a → answers (f a) (r' a)) → answers (m ≫= f) (r ≫= r').
Proof.
  intros Hm Hf s Hs. destruct (Hm s Hs) as [Hr Hc]. unfold mbind at 1 3, SM_bind. destruct (m s) as [ra s1].
  cbn in Hr, Hc. subst ra. destruct r as [a|e|p]; [|done..]. by apply Hf.
Qed.

Lemma caches_bind {A B} (m : M A) (f : A → M B) : keeps m → (∀ a, keeps (f a)) → keeps (m ≫= f).
Proof.
  intros Hm Hf s Hs. specialize (Hm s Hs). unfold mbind, SM_bind.
  destruct (m s) as [[a|e|p] s1]; [by apply Hf|done..].
Qed.

Lemma keeps_stateless {A} (m : M A) : stateless m → keeps m.
Proof. intros Hm. eapply answers_keeps, answers_stateless, Hm. Qed.

Lemma coherent_s0 : coherent (client s0).
Proof.
  split; [done|done|done|..]; intros id x Hl.
  - change ((∅ : gmap bytes (option NetworkAdapter)) !! id = Some x) in Hl. by rewrite lookup_empty in Hl.
  - change ((∅ : gmap bytes (list bytes)) !! id = Some x) in Hl. by rewrite lookup_empty in Hl.
Qed.

Lemma bind_getClient {A} (f : Client → M A) (s : @state W) : (getClient ≫= f) s = f (client s) s.
Proof. done. Qed.

Lemma M_bind_run {A B} (m : M A) (f : A → M B) (s s' : @state W) r : m s = (r, s') →
  (m ≫= f) s = match r with Ok a => f a s' | Err e => (Err e, s') | Panic p => (Panic p, s') end.
Proof. unfold mbind, SM_bind. by intros ->. Qed.

Lemma bind_modify {A} (g : Client → Client) (f : unit → M A) (s : @state W) :
  (modify g ≫= f) s = f () (mkState (g (client s)) (world s)).
Proof. done. Qed.

Lemma M_bind_assoc {A B C} (m : M A) (f : A → M B) (g : B → M C) (s : @state W) :
  ((m ≫= f) ≫= g) s = (m ≫= (λ a, f a ≫= g)) s.
Proof. apply SM_bind_assoc. Qed.

Lemma managerPath_answers : answers managerPath specManager.
Proof.
  intros s Hs. unfold managerPath. rewrite bind_getClient.
  case_decide as Hm; [|split; [symmetry; exact (coh_manager _ Hs Hm)|exact Hs]].
  destruct (stateless_firstMember managersPath s (coh_mine _ Hs)) as [w Hw].
  rewrite (M_bind_run _ _ _ _ _ Hw). unfold specManager. destruct (eval _) as [m|e|p] eqn:He; [|done..].
  cbn. split; [done|]. destruct Hs as [Hmine _ Hi Ht Hp]. split; [done| |done..].
  cbn. intros _. unfold specManager. by rewrite He.
Qed.

Lemma componentIntegrities_answers : answers componentIntegrities specIntegrities.
Proof.
  intros s Hs.
  assert (∀ s' ids ms fs, coherent (client s') → specIntegrities = Ok (snapshotOf ids) →
      mkSnapshot (ms ++ good fs) (bad fs) (joinAll entry None fs) = snapshotOf ids →
      let m := (snapshot ← readMembers fs (mkSnapshot ms [] None); _ ← modify (setIntegrity snapshot); mret snapshot) in
      fst (m s') = specIntegrities ∧ coherent (client (snd (m s')))) as Hread.
  { intros s' ids ms fs Hs' Hspec Hsnap. cbv zeta.
    destruct (stateless_readMembers fs (mkSnapshot ms [] None) s' (coh_mine _ Hs')) as [w Hw].
    rewrite eval_readMembers in Hw. rewrite (M_bind_run _ _ _ _ _ Hw). cbn [app]. rewrite Hsnap. cbn. split; [done|].
    destruct Hs' as [Hm Hmg Hi Ht Hp]. split; [done|done| |done|done]. cbn. by intros ? [= <-]. }
  unfold componentIntegrities. rewrite bind_getClient. destruct (integrity (client s)) as [snap|] eqn:Hint.
  - apply (coh_integrity _ Hs) in Hint as Hspec. pose proof Hspec as Hspec'. unfold specIntegrities in Hspec'.
    destruct (fetchIDs _) as [ids|?|?]; [|done..]. injection Hspec' as <-.
    apply (Hread s ids (good ids) (bad ids) Hs Hspec). apply snapshotOf_again.
  - cbv beta iota. destruct (stateless_get Unmarshal componentIntegrityPath zeroCollection s (coh_mine _ Hs)) as [w Hw].
    rewrite eval_get in Hw. unfold specIntegrities, fetchIDs, fetchRefs in *. rewrite M_bind_assoc.
    rewrite (M_bind_run _ _ _ _ _ Hw).
    destruct (fetch _ _ _) as [ms|?|?]; [|done..].
    exact (Hread (mkState (client s) w) (odata_ID <$> Members ms) [] (odata_ID <$> Members ms) Hs eq_refl eq_refl).
Qed.

(** ** The calls on coherent caches *)
Lemma targetAdapter_answers ci : listed ci → answers (targetAdapter ci) (specTarget ci).
Proof.
  intros Hci s Hs. unfold targetAdapter. rewrite bind_getClient.
  destruct (targets (client s) !! ci_ID ci) as [a|] eqn:Ht.
  { destruct (coh_targets _ Hs _ _ Ht) as [_ Hspec].
    split; [symmetry; by apply Hspec|exact Hs]. }
  destruct (stateless_resolveTarget ci s (coh_mine _ Hs)) as [w Hw]. fold (specTarget ci) in Hw.
  rewrite (M_bind_run _ _ _ _ _ Hw). destruct (specTarget ci) as [a|e|p] eqn:He; [|done..].
  case_decide as Hid; [|done]. rewrite bind_modify. split; [done|]. destruct Hs as [Hm Hmg Hi Hts Hp]. split; [done..| |done].
  cbn. intros id a' Hl. apply lookup_insert_Some in Hl as [[<- <-]|[Hne Hl]]; [|by apply Hts].
  split; [done|]. intros ci' Hci' Hid'. assert (TargetComponentURI ci' = TargetComponentURI ci) as Huri.
  { apply Hids; congruence. }
  rewrite <- He. unfold specTarget, resolveTarget. by rewrite Huri, Hid'.
Qed.

Lemma adapterMAC_answers adapter mac : answers (adapterMAC adapter mac) (specMAC adapter mac).
Proof.
  intros s Hs. unfold adapterMAC, specMAC. case_decide as Hports; [done|]. rewrite bind_getClient.
  destruct (portMACs (client s) !! Ports adapter) as [macs|] eqn:Hp.
  { destruct (coh_ports _ Hs _ _ Hp) as (refs & -> & -> & Hj). cbn. split; [|done]. rewrite Hj.
    case_decide; [done|congruence]. }
  destruct (stateless_get Unmarshal (Ports adapter) zeroCollection s (coh_mine _ Hs)) as [w Hw].
  rewrite eval_get in Hw. rewrite (M_bind_run _ _ _ _ _ Hw). unfold fetchRefs.
  destruct (fetch _ _ _) as [[refs]|?|?] eqn:Hf; [|done..]. cbn [Members fmap outcome_fmap].
  destruct (stateless_readPorts refs mac [] None (mkState (client s) w) (coh_mine _ Hs)) as [w' Hw'].
  rewrite eval_readPorts in Hw' by done. cbn [app] in Hw'. rewrite (M_bind_run _ _ _ _ _ Hw').
  cbn [mbind outcome_bind]. case_decide; [done|].
  destruct (joinAll portOf None refs) as [err|] eqn:Hj; [done|]. rewrite bind_modify. split; [done|].
  destruct Hs as [Hm Hmg Hi Hts Hps]. split; [done..|]. cbn.
  intros id macs Hl. apply lookup_insert_Some in Hl as [[<- <-]|[Hne Hl]]; [|by apply Hps]. exists refs. unfold fetchRefs. by rewrite Hf.
Qed.

Lemma findComponent_answers cis mac un : Forall listed cis → answers (findComponent cis mac un) (specFind cis mac un).
Proof.
  intros Hl. revert un. induction Hl as [|ci cis Hci Hl IH]; intros un s Hs; [done|].
  cbn [findComponent specFind]. case_decide; [by apply IH|].
  destruct (targetAdapter_answers ci Hci s Hs) as [Ha Hsa]. destruct (targetAdapter ci s) as [ra sa].
  cbn in Ha, Hsa. rewrite <- Ha. destruct ra as [[adapter|]|err|p]; [|by apply IH..|done].
  destruct (adapterMAC_answers adapter mac sa Hsa) as [Hb Hsb]. destruct (adapterMAC adapter mac sa) as [rb sb].
  cbn in Hb, Hsb. rewrite <- Hb. destruct rb as [bmcMAC|err|p]; [|by apply IH|done].
  case_decide; [done|by apply IH].
Qed.

Lemma listed_split snap : specIntegrities = Ok snap →
  Forall listed (base.filter isMeasured (members snap) ++ base.filter (λ ci, ¬ isMeasured ci) (members snap)).
Proof.
  intros Hs. apply list.Forall_forall. intros ci Hin. exists snap. split; [done|].
  apply elem_of_app in Hin as [Hin|Hin]; by apply list_elem_of_filter in Hin as [_ ?].
Qed.

Lemma ComponentIntegrityFor_answers mac : answers (ComponentIntegrityFor mac) (specComponentFor mac).
Proof.
  apply answers_bind; [apply componentIntegrities_answers|]. intros snap Hsnap.
  apply answers_bind; [apply findComponent_answers, listed_split, Hsnap|].
  intros [found|[un|]] _; [apply answers_ret|apply answers_lift|apply answers_lift].
Qed.

Lemma quoteTarget_answers : answers quoteTarget specQuote.
Proof.
  apply answers_bind; [apply managerPath_answers|]. intros m _.
  apply answers_bind; [apply componentIntegrities_answers|]. intros snap _.
  destruct (findQuote _ _); [apply answers_ret|]. destruct (unreadable snap); apply answers_lift.
Qed.

(** ** Histories *)
Inductive op :=
  | OpComponent (mac : bytes)
  | OpMeasurements (nonce pcrSelection : bytes)
  | OpManager
  | OpSystem
  | OpIDevID.

Definition run (o : op) (s : @state W) : @state W :=
  match o with
  | OpComponent mac => snd (ComponentIntegrityFor mac s)
  | OpMeasurements nonce pcrSelection => snd (TPMSignedMeasurements nonce pcrSelection s)
  | OpManager => snd (getManager s)
  | OpSystem => snd (getSystem s)
  | OpIDevID => snd (IDevIDChain s)
  end.
Definition after (ops : list op) : @state W := foldl (λ s o, run o s) s0 ops.

Lemma keeps_idevidPath : keeps idevidPath.
Proof.
  apply caches_bind; [eapply answers_keeps, managerPath_answers|]. intros m.
  apply keeps_stateless, stateless_bind; [apply stateless_do|]. intros [certs [err|]]; [|apply stateless_ret].
  destruct (_ || _); [apply stateless_ret|apply stateless_lift].
Qed.

Lemma keeps_run o s : coherent (client s) → coherent (client (run o s)).
Proof.
  revert s. destruct o as [mac|nonce pcrs| | |]; cbn [run].
  - eapply answers_keeps, ComponentIntegrityFor_answers.
  - apply caches_bind; [eapply answers_keeps, quoteTarget_answers|]. intros t.
    apply keeps_stateless, stateless_bind; [apply stateless_do|]. intros [out [err|]]; [apply stateless_lift|].
    case_decide; [apply stateless_lift|]. destruct (base64_DecodeString out); [apply stateless_lift|apply stateless_ret].
  - apply caches_bind; [eapply answers_keeps, managerPath_answers|]. intros m. apply keeps_stateless, stateless_get.
  - apply keeps_stateless, stateless_bind; [apply stateless_firstMember|]. intros m. apply stateless_get.
  - apply caches_bind; [apply keeps_idevidPath|]. intros [path fallback].
    apply keeps_stateless, stateless_bind; [apply stateless_map_errS, stateless_get|]. intros cert.
    apply stateless_bind; [apply stateless_lift|]. intros chain. case_decide; [apply stateless_lift|apply stateless_ret].
Qed.

Lemma coherent_after ops : coherent (client (after ops)).
Proof.
  unfold after. pose proof coherent_s0 as Hs. revert Hs. generalize s0.
  induction ops as [|o ops IH]; intros s Hs; [done|]. apply IH. by apply keeps_run.
Qed.

Lemma ComponentIntegrityFor_after ops mac : fst (ComponentIntegrityFor mac (after ops)) = specComponentFor mac.
Proof. apply ComponentIntegrityFor_answers, coherent_after. Qed.
Lemma quoteTarget_after ops : fst (quoteTarget (after ops)) = specQuote.
Proof. apply quoteTarget_answers, coherent_after. Qed.

(** C9: the caches are invisible. On a service that does not change and whose member ids are unique,
    a lookup and the choice of the quote action answer after any history of calls what they answer
    on a new client. *)
Theorem caches_invisible ops mac :
  fst (ComponentIntegrityFor mac (after ops)) = fst (ComponentIntegrityFor mac s0) ∧
  fst (quoteTarget (after ops)) = fst (quoteTarget s0).
Proof.
  rewrite ComponentIntegrityFor_after, quoteTarget_after. split.
  - symmetry. apply (ComponentIntegrityFor_after []).
  - symmetry. apply (quoteTarget_after []).
Qed.

(** ** What a lookup finds *)

(** The ports of an adapter that are read give this MAC for [mac]. *)
Definition reports (adapter : NetworkAdapter) (mac bmcMAC : bytes) : Prop :=
  Ports adapter ≠ [] ∧ bmcMAC ≠ [] ∧ EqualFold bmcMAC mac = true ∧ ∃ refs ref port,
    fetchRefs (Ports adapter) = Ok refs ∧ ref ∈ refs ∧
    fetch Unmarshal (odata_ID ref) zeroPort = Ok port ∧ bmcMAC ∈ TrimSpace <$> MACs port.

(** A readable SPDM member of the collection. *)
Definition spdmMember (ci : ComponentIntegrity) : Prop :=
  ci_Type ci = str "SPDM" ∧ TargetComponentURI ci ≠ [] ∧ ∃ ids id,
    fetchIDs componentIntegrityPath = Ok ids ∧ id ∈ ids ∧
    fetch Unmarshal id zeroCI = Ok ci.

Lemma elem_of_allMACs refs m : m ∈ allMACs refs ↔
  ∃ ref port, ref ∈ refs ∧ fetch Unmarshal (odata_ID ref) zeroPort = Ok port ∧ m ∈ TrimSpace <$> MACs port.
Proof.
  unfold allMACs. rewrite list_elem_of_bind. unfold fetch, macsOf, portOf. split.
  - intros (ref & Hm & Hin). destruct (reply Unmarshal (odata_ID ref) zeroPort) as [port [err|]] eqn:Hp; [by apply elem_of_nil in Hm|].
    exists ref, port. by rewrite Hp.
  - intros (ref & port & Hin & Hp & Hm). exists ref. split; [|done].
    by destruct (reply Unmarshal (odata_ID ref) zeroPort) as [? [?|]]; [|injection Hp as ->].
Qed.

Lemma specMAC_Some adapter mac m : specMAC adapter mac = Ok m → m ≠ [] → reports adapter mac m.
Proof.
  unfold specMAC. case_decide as Hp; [by intros [= <-]|].
  destruct (fetchRefs (Ports adapter)) as [refs|?|?] eqn:Hf; [|done..]. cbn [mbind outcome_bind].
  case_decide as Hm; [|destruct (joinAll _ _ _); [done|by intros [= <-]]]. intros [= <-] _.
  apply matchMAC_match in Hm as Hm'. destruct Hm' as [(ref & port & ? & ? & ?)%elem_of_allMACs ?].
  split; [done|]. split; [done|]. split; [done|]. exists refs, ref, port. done.
Qed.

Lemma specMAC_None adapter mac m : specMAC adapter mac = Ok [] → ¬ reports adapter mac m.
Proof.
  unfold specMAC. case_decide as Hp; [by intros _ (? & _)|].
  destruct (fetchRefs (Ports adapter)) as [refs|?|?] eqn:Hf; [|done..]. cbn [mbind outcome_bind].
  case_decide as Hm; [intros [= HH]; congruence|]. intros _ (_ & Hne & He & refs' & ref & port & Hf' & Hin & Hport & Hmac).
  apply Hne, (matchMAC_none (allMACs refs) mac); [done| |done]. apply elem_of_allMACs. exists ref, port.
  assert (refs' = refs) as -> by congruence. done.
Qed.

Lemma specMAC_reports adapter mac m : reports adapter mac m → ∃ m', specMAC adapter mac = Ok m' ∧ m' ≠ [].
Proof.
  intros (Hp & Hne & He & refs & ref & port & Hf & Hin & Hport & Hmac). unfold specMAC.
  rewrite decide_False, Hf by done. cbn [mbind outcome_bind]. case_decide as Hm; [eauto|].
  exfalso. apply Hne, (matchMAC_none (allMACs refs) mac); [done| |done]. apply elem_of_allMACs. eauto.
Qed.

Lemma specFind_inl cis mac un ci adapter m : specFind cis mac un = Ok (inl (ci, adapter, m)) →
  ∃ pre post, cis = pre ++ ci :: post ∧ ci_Type ci = str "SPDM" ∧ TargetComponentURI ci ≠ [] ∧
    specTarget ci = Ok (Some adapter) ∧ specMAC adapter mac = Ok m ∧ m ≠ [] ∧
    ∀ ci' a, ci' ∈ pre → ci_Type ci' = str "SPDM" → TargetComponentURI ci' ≠ [] → specTarget ci' = Ok (Some a) →
      ∀ m', ¬ reports a mac m'.
Proof.
  revert un. induction cis as [|c cis IH]; intros un; [done|]. cbn [specFind].
  assert (∀ un', (ci_Type c = str "SPDM" → TargetComponentURI c ≠ [] → ∀ a, specTarget c = Ok (Some a) → ∀ m', ¬ reports a mac m') →
    specFind cis mac un' = Ok (inl (ci, adapter, m)) → ∃ pre post, c :: cis = pre ++ ci :: post ∧
    ci_Type ci = str "SPDM" ∧ TargetComponentURI ci ≠ [] ∧
    specTarget ci = Ok (Some adapter) ∧ specMAC adapter mac = Ok m ∧ m ≠ [] ∧
    ∀ ci' a, ci' ∈ pre → ci_Type ci' = str "SPDM" → TargetComponentURI ci' ≠ [] → specTarget ci' = Ok (Some a) →
      ∀ m', ¬ reports a mac m') as Hskip.
  { intros un' Hc (pre & post & -> & ? & ? & ? & ? & ? & Hpre)%IH. exists (c :: pre), post.
    do 6 (split; [done|]). intros ci' a [->|Hin]%elem_of_cons; [by intros ? ? ?; apply Hc|by apply Hpre]. }
  case_decide as Hkind; [apply Hskip; tauto|].
  destruct (specTarget c) as [[a|]|err|p] eqn:Ht; [|by apply Hskip..|done].
  destruct (specMAC a mac) as [m0|err|p] eqn:Hm; [|apply Hskip|done].
  - case_decide as Hm0; [|apply Hskip; intros _ _ a' [= <-] m'; subst; by apply specMAC_None].
    intros [= <- <- <-]. exists [], cis. split; [done|]. split; [destruct (decide (ci_Type c = str "SPDM")); tauto|].
    split; [tauto|]. do 3 (split; [done|]). by intros ? ? ?%elem_of_nil.
  - intros _ _ a' [= <-] m' Hr. apply specMAC_reports in Hr as (? & ? & ?). congruence.
Qed.

Lemma specFind_inr cis mac un : specFind cis mac un = Ok (inr None) → un = None ∧
  ∀ ci, ci ∈ cis → ci_Type ci = str "SPDM" → TargetComponentURI ci ≠ [] →
    specTarget ci = Ok None ∨ ∃ a, specTarget ci = Ok (Some a) ∧ specMAC a mac = Ok [].
Proof.
  revert un. induction cis as [|c cis IH]; intros un; cbn [specFind].
  { intros [= ->]. split; [done|]. by intros ? ?%elem_of_nil. }
  case_decide as Hkind.
  { intros [-> Ha]%IH. split; [done|]. intros ci [->|Hin]%elem_of_cons; [tauto|by apply Ha]. }
  assert (∀ un', specFind cis mac un' = Ok (inr None) → (un' = un) →
     (specTarget c = Ok None ∨ ∃ a, specTarget c = Ok (Some a) ∧ specMAC a mac = Ok []) → un = None ∧
     ∀ ci, ci ∈ c :: cis → ci_Type ci = str "SPDM" → TargetComponentURI ci ≠ [] →
       specTarget ci = Ok None ∨ ∃ a, specTarget ci = Ok (Some a) ∧ specMAC a mac = Ok []) as Hskip.
  { intros un' [-> Ha]%IH <- Hc. split; [done|]. intros ci [->|Hin]%elem_of_cons; [done|by apply Ha]. }
  destruct (specTarget c) as [[a|]|err|p] eqn:Ht; [| |by intros [? _]%IH|done].
  - destruct (specMAC a mac) as [m0|err|p] eqn:Hm; [|by intros [? _]%IH|done].
    case_decide as Hm0; [done|]. intros Hs. apply (Hskip un Hs eq_refl). right. exists a. split; [done|].
    subst. done.
  - intros Hs. apply (Hskip un Hs eq_refl). by left.
Qed.

(** ** The adapter of an entry *)

(** The adapter at the entry's target, or the one the adapter collection of the target has in the
    slot the entry's id names. *)
Definition targetOf (ci : ComponentIntegrity) (a : NetworkAdapter) : Prop :=
  Ports a ≠ [] ∧ ∃ a0, a = setSelfURI (SelfURI a) a0 ∧ fetch Unmarshal (SelfURI a) zeroAdapter = Ok a0 ∧
  (SelfURI a = TargetComponentURI ci ∨
   ∃ digits slot refs, slotOrdinal (ci_ID ci) = Some digits ∧ Atoi digits = Some slot ∧
     fetchRefs (Dir (TargetComponentURI ci)) = Ok refs ∧ mkRef (SelfURI a) ∈ refs ∧
     LocationType a = str "Slot" ∧ LocationOrdinalValue a = slot).

Lemma eval_findSlot slot refs un : ∃ r, eval (findSlot slot refs un) = Ok r ∧ ∀ a, fst r = Some a →
  ∃ ref a0, ref ∈ refs ∧ fetch Unmarshal (odata_ID ref) zeroAdapter = Ok a0 ∧ a = setSelfURI (odata_ID ref) a0 ∧
    Ports a0 ≠ [] ∧ LocationType a0 = str "Slot" ∧ LocationOrdinalValue a0 = slot.
Proof.
  revert un. induction refs as [|ref refs IH]; intros un; [by eexists|]. cbn [findSlot].
  rewrite eval_bind, eval_do.
  2: apply stateless_do.
  2:{ intros [a [err|]]; [apply stateless_findSlot|]. repeat case_decide; [apply stateless_findSlot|apply stateless_ret|apply stateless_findSlot]. }
  assert (∀ un', ∃ r, eval (findSlot slot refs un') = Ok r ∧ ∀ a, fst r = Some a →
    ∃ ref' a0, ref' ∈ ref :: refs ∧ fetch Unmarshal (odata_ID ref') zeroAdapter = Ok a0 ∧ a = setSelfURI (odata_ID ref') a0 ∧
    Ports a0 ≠ [] ∧ LocationType a0 = str "Slot" ∧ LocationOrdinalValue a0 = slot) as Hskip.
  { intros un'. destruct (IH un') as (r & Hr & Ha). exists r. split; [done|].
    intros a (ref' & a0 & Hin & ?)%Ha. exists ref', a0. split; [by right|done]. }
  cbn [mbind outcome_bind]. destruct (reply Unmarshal (odata_ID ref) zeroAdapter) as [a0 [err|]] eqn:Hr; [apply Hskip|].
  case_decide as Hp; [apply Hskip|]. case_decide as Hl; [|apply Hskip].
  eexists. split; [reflexivity|]. cbn. intros a [= <-]. exists ref, a0. unfold fetch. rewrite Hr.
  split; [left|tauto].
Qed.

(** Nothing in the slot, and nothing unreadable: every candidate was read and is elsewhere. *)
Lemma eval_findSlot_none slot refs un : eval (findSlot slot refs un) = Ok (None, None) → un = None ∧
  ∀ ref, ref ∈ refs → ∃ a, fetch Unmarshal (odata_ID ref) zeroAdapter = Ok a ∧
    (Ports a = [] ∨ LocationType a ≠ str "Slot" ∨ LocationOrdinalValue a ≠ slot).
Proof.
  revert un. induction refs as [|ref refs IH]; intros un.
  { intros [= ->]. split; [done|]. by intros ? ?%elem_of_nil. }
  cbn [findSlot]. rewrite eval_bind, eval_do.
  2: apply stateless_do.
  2:{ intros [a [err|]]; [apply stateless_findSlot|]. repeat case_decide; [apply stateless_findSlot|apply stateless_ret|apply stateless_findSlot]. }
  cbn [mbind outcome_bind]. destruct (reply Unmarshal (odata_ID ref) zeroAdapter) as [a0 [err|]] eqn:Hr.
  { intros [Hj _]%IH. by destruct un. }
  assert (fetch Unmarshal (odata_ID ref) zeroAdapter = Ok a0) as Hf by (unfold fetch; by rewrite Hr).
  case_decide as Hp; [|case_decide as Hl; [done|]]; (intros [-> Hall]%IH; split; [done|]);
    intros ref' [->|Hin]%elem_of_cons; [|by apply Hall| |by apply Hall]; exists a0; (split; [done|]); [by left|right].
  destruct (decide (LocationType a0 = str "Slot")); [right|by left]. tauto.
Qed.

(** The lookup of a target, on what the service holds. *)
Lemma specTarget_eq ci : specTarget ci =
  let '(a, directErr) := reply Unmarshal (TargetComponentURI ci) zeroAdapter in
  if decide (directErr = None ∧ Ports a ≠ []) then Ok (Some (setSelfURI (TargetComponentURI ci) a)) else
  match slotOrdinal (ci_ID ci) with
  | None => eval (noAdapter directErr)
  | Some digits =>
    match Atoi digits with
    | None => Err (EFmt "component %s names an unusable slot ordinal: %w" [AStr (ci_ID ci)]
                     [EExt "strconv.Atoi: value out of range"])
    | Some slot =>
      adapters ← map_err (λ err, EFmt "adapter collection %s: %w" [AStr (Dir (TargetComponentURI ci))] [err])
        (fetch Unmarshal (Dir (TargetComponentURI ci)) zeroCollection);
      '(found, unreadable) ← eval (findSlot slot (Members adapters) None);
      match found with
      | Some candidate => Ok (Some candidate)
      | None => eval (noAdapter (match directErr with
          | Some err => if errors_Is ErrNotFound err || errors_Is errUndecodable err then unreadable
                        else Join unreadable err
          | None => unreadable
          end))
      end
    end
  end.
Proof.
  assert (∀ adapters slot directErr, stateless ('(found, unreadable) ← findSlot slot (Members adapters) None;
    match found with
    | Some candidate => mret (Some candidate)
    | None => noAdapter (match directErr with
        | Some err => if errors_Is ErrNotFound err || errors_Is errUndecodable err then unreadable
                      else Join unreadable err
        | None => unreadable
        end)
    end)) as Hst.
  { intros. apply stateless_bind; [apply stateless_findSlot|]. intros [[c|] un]; [apply stateless_ret|apply stateless_noAdapter]. }
  unfold specTarget, resolveTarget. rewrite eval_bind, eval_do.
  2: apply stateless_do.
  2:{ intros [a directErr]. case_decide; [apply stateless_ret|]. destruct (slotOrdinal _) as [digits|]; [|apply stateless_noAdapter].
    destruct (Atoi digits) as [slot|]; [|apply stateless_lift].
    apply stateless_bind; [apply stateless_map_errS, stateless_get|]. intros adapters. apply Hst. }
  cbn [mbind outcome_bind]. destruct (reply _ _ _) as [a directErr]. case_decide; [done|].
  destruct (slotOrdinal _) as [digits|]; [|done]. destruct (Atoi digits) as [slot|]; [|done]. cbv zeta.
  rewrite eval_bind, eval_map_errS, eval_get; [|apply stateless_map_errS, stateless_get|intros; apply Hst].
  destruct (map_err _ _) as [adapters|e|p]; [|done..]. cbn [mbind outcome_bind]. rewrite eval_bind.
  2: apply stateless_findSlot.
  2:{ intros [[c|] un]; [apply stateless_ret|apply stateless_noAdapter]. }
  by destruct (eval (findSlot _ _ _)) as [[[c|] un]|e|p].
Qed.

Lemma resolveTarget_targetOf ci a : specTarget ci = Ok (Some a) → targetOf ci a.
Proof.
  rewrite specTarget_eq. destruct (reply _ _ _) as [a' directErr] eqn:Hr. case_decide as Hd.
  { intros [= <-]. destruct Hd as [-> Hp]. split; [done|]. exists a'. split; [done|]. unfold fetch. cbn. rewrite Hr. auto. }
  assert (∀ e, eval (noAdapter e) ≠ Ok (Some a)) as Hno by by intros [e|].
  destruct (slotOrdinal _) as [digits|] eqn:Hs; [|by intros ?%Hno].
  destruct (Atoi digits) as [slot|] eqn:Ha; [|done]. destruct (fetch _ (Dir _) _) as [[refs]|e|p] eqn:Hf; [|done..].
  cbn [map_err mbind outcome_bind Members].
  destruct (eval_findSlot slot refs None) as ([c un] & -> & Hc). cbn [mbind outcome_bind].
  destruct c as [c|]; [|by intros ?%Hno]. intros [= <-].
  destruct (Hc c eq_refl) as (ref & a0 & Hin & Hfetch & -> & Hp & Ht & Ho).
  split; [done|]. exists a0. do 2 (split; [done|]). right. exists digits, slot, refs. split; [done|]. split; [done|].
  split; [unfold fetchRefs; by rewrite Hf|]. by destruct ref.
Qed.

(** The entry certainly leads to no adapter. Its target was read and has no ports; or, where the
    id names a slot, the target may also be missing or not decode, but then as before the adapter
    collection and every member of it was read, and none with ports sits in that slot. *)
Definition certainlyNone (ci : ComponentIntegrity) : Prop :=
  let target := fetch Unmarshal (TargetComponentURI ci) zeroAdapter in
  match slotOrdinal (ci_ID ci) with
  | None => ∃ a, target = Ok a ∧ Ports a = []
  | Some digits =>
    ((∃ a, target = Ok a ∧ Ports a = []) ∨
     (∃ err, target = Err err ∧ (errors_Is ErrNotFound err = true ∨ errors_Is errUndecodable err = true))) ∧
    ∃ slot refs, Atoi digits = Some slot ∧ fetchRefs (Dir (TargetComponentURI ci)) = Ok refs ∧
      ∀ ref, ref ∈ refs → ∃ a, fetch Unmarshal (odata_ID ref) zeroAdapter = Ok a ∧
        (Ports a = [] ∨ LocationType a ≠ str "Slot" ∨ LocationOrdinalValue a ≠ slot)
  end.

Lemma resolveTarget_none ci : specTarget ci = Ok None → certainlyNone ci.
Proof.
  rewrite specTarget_eq. unfold certainlyNone. cbv zeta. destruct (reply Unmarshal (TargetComponentURI ci) _) as [a directErr] eqn:Hr.
  assert (fetch Unmarshal (TargetComponentURI ci) zeroAdapter = match directErr with Some err => Err err | None => Ok a end) as ->
    by (unfold fetch; by rewrite Hr).
  case_decide as Hd; [done|].
  assert (∀ e, eval (noAdapter e) = Ok None → e = None) as Hno by by intros [e|].
  assert (directErr = None → Ports a = []) as Hports.
  { intros ->. destruct (decide (Ports a = [])) as [|Hp]; [done|]. exfalso. by apply Hd. }
  destruct (slotOrdinal _) as [digits|].
  2:{ intros ->%Hno. exists a. auto. }
  destruct (Atoi digits) as [slot|]; [|done]. destruct (fetch _ (Dir _) _) as [[refs]|e|p] eqn:Hf; [|done..].
  cbn [map_err mbind outcome_bind Members].
  destruct (eval_findSlot slot refs None) as ([c un] & He & _). rewrite He. cbn [mbind outcome_bind].
  destruct c as [c|]; [done|]. intros Hun%Hno.
  assert (un = None ∧ ((∃ a', match directErr with Some err => Err err | None => Ok a end = Ok a' ∧ Ports a' = []) ∨
    ∃ err, match directErr with Some err => Err err | None => Ok a end = Err err ∧
      (errors_Is ErrNotFound err = true ∨ errors_Is errUndecodable err = true))) as [-> Hdirect].
  { destruct directErr as [err|]; [|split; [done|left; exists a; auto]].
    destruct (errors_Is ErrNotFound err) eqn:H1; [split; [done|right; exists err; auto]|].
    destruct (errors_Is errUndecodable err) eqn:H2; [split; [done|right; exists err; auto]|]. by destruct un. }
  split; [exact Hdirect|]. apply eval_findSlot_none in He as [_ Hall]. exists slot, refs. split; [done|].
  split; [unfold fetchRefs; by rewrite Hf|exact Hall].
Qed.

(** ** The lookup *)
Lemma member_listed ci ids id : fetchIDs componentIntegrityPath = Ok ids → id ∈ ids →
  fetch Unmarshal id zeroCI = Ok ci → specIntegrities = Ok (snapshotOf ids) ∧ ci ∈ members (snapshotOf ids).
Proof.
  intros Hf Hin Hid. unfold specIntegrities. rewrite Hf. split; [done|]. apply elem_of_good. exists id. split; [done|].
  unfold fetch in Hid. unfold entry. by destruct (reply _ id _) as [? [?|]]; simplify_eq.
Qed.

Lemma listed_member snap ci : specIntegrities = Ok snap → ci ∈ members snap → ∃ ids id,
  fetchIDs componentIntegrityPath = Ok ids ∧ snap = snapshotOf ids ∧ id ∈ ids ∧
  fetch Unmarshal id zeroCI = Ok ci.
Proof.
  unfold specIntegrities. destruct (fetchIDs componentIntegrityPath) as [ids|?|?]; [|done..]. intros [= <-].
  intros (id & Hin & He)%elem_of_good. exists ids, id. do 3 (split; [done|]). unfold fetch. unfold entry in He. by rewrite He.
Qed.

(** C24: a component found is a readable SPDM member of the collection whose adapter, the one its
    target or its slot names, reports the MAC on a port; and a component without measurements is
    returned only if no member that carries some leads to the MAC. *)
Theorem ComponentIntegrityFor_sound ops mac ci a m :
  fst (ComponentIntegrityFor mac (after ops)) = Ok (ci, a, m) →
  spdmMember ci ∧ targetOf ci a ∧ reports a mac m ∧
  (Measurements ci = [] → ∀ ci' a' m', spdmMember ci' → Measurements ci' ≠ [] →
     fst (resolveTarget ci' s0) = Ok (Some a') → ¬ reports a' mac m').
Proof.
  rewrite ComponentIntegrityFor_after. unfold specComponentFor.
  destruct (specIntegrities) as [snap|?|?] eqn:Hsnap; [|done..]. cbn [mbind outcome_bind].
  destruct (specFind _ _ _) as [[[[ci0 a0] m0]|[?|]]|?|?] eqn:Hfind; [|done..]. cbn [mbind outcome_bind].
  intros [= -> -> ->]. apply specFind_inl in Hfind as (pre & post & Hsplit & Hty & Huri & Ht & Hm & Hne & Hpre).
  assert (ci ∈ members snap) as Hci.
  { assert (ci ∈ pre ++ ci :: post) as Hin by set_solver. rewrite <- Hsplit in Hin.
    apply elem_of_app in Hin as [Hin|Hin]; by apply list_elem_of_filter in Hin as [_ ?]. }
  destruct (listed_member _ _ Hsnap Hci) as (ids & id & Hl & -> & Hid & Hf).
  split; [|split; [by apply resolveTarget_targetOf|split; [by apply specMAC_Some|]]].
  - split; [done|]. split; [done|]. eauto.
  - intros Hbare ci' a' m' (Hty' & Huri' & ids' & id' & Hl' & Hid' & Hf') Hmeas Ht' Hr.
    apply (Hpre ci' a' ) with (m' := m'); [|done..]. assert (ids' = ids) as -> by congruence.
    destruct (member_listed _ _ _ Hl' Hid' Hf') as [_ Hmem].
    assert (ci' ∈ base.filter isMeasured (members (snapshotOf ids))) as Hin by by apply list_elem_of_filter.
    destruct (app_eq_app _ _ _ _ Hsplit) as (l & [[Hpre' Hrest]|[Hmeas' Hpost]]).
    + rewrite Hpre' in Hin. apply elem_of_app in Hin as [Hin|Hin]; [done|].
      destruct l as [|x l]; [by apply elem_of_nil in Hin|]. injection Hrest as <- ->.
      assert (ci ∈ base.filter isMeasured (members (snapshotOf ids))) as Hcim.
      { rewrite Hpre'. apply elem_of_app. right. left. }
      apply list_elem_of_filter in Hcim as [Hcim _]. destruct (Hcim Hbare).
    + rewrite Hmeas'. apply elem_of_app. by left.
Qed.

(** No call fails with the text of a definitive miss. *)
Lemma fetch_error {X} (u : bytes → X → X * option error) path zero e : fetch u path zero = Err e →
  ∃ f a es, e = EFmt f a es ∧ f ≠ "no SPDM component on the BMC reports MAC %s"%string.
Proof.
  unfold fetch, reply. destruct (eval _) as [[x [e'|]]|?|?] eqn:He; intros [= <-]. revert He. unfold eval, do.
  destruct (send _ _ _ _) as [[resp|e|p] st] eqn:Hs; [| |done].
  - cbn. unfold receive. case_decide; [|destruct (readLimited _ _) as [raw [?|]]; [|destruct (u raw zero) as [? [?|]]]].
    all: intros [= _ <-]; try case_decide; eexists _, _, _; split; (reflexivity || discriminate).
  - intros [= _ <-]. revert Hs. unfold send, mbind, SM_bind, getClient, mret, SM_ret, lift.
    destruct (NewRequest _ _); [intros [= <- _]; eexists _, _, _; split; (reflexivity || discriminate)|].
    cbn. destruct (RoundTrip _ _) as [[|]]; [|done]. intros [= <- _]; eexists _, _, _; split; (reflexivity || discriminate).
Qed.

Lemma fetchIDs_error path e : fetchIDs path = Err e →
  ∃ f a es, e = EFmt f a es ∧ f ≠ "no SPDM component on the BMC reports MAC %s"%string.
Proof.
  unfold fetchIDs, fetchRefs. destruct (fetch _ _ _) as [?|e'|?] eqn:Hf; [done| |done].
  intros [= <-]. by eapply fetch_error.
Qed.

Lemma bad_nil ids : joinAll entry None ids = None → ∀ id, id ∈ ids → ∃ ci, fetch Unmarshal id zeroCI = Ok ci.
Proof.
  intros Hj id Hin. apply (proj1 (joinAll_None _ _) Hj) in Hin. unfold fetch. unfold entry in Hin.
  destruct (reply _ _ _) as [ci [?|]]; [done|eauto].
Qed.

Lemma specMAC_definitive adapter mac : specMAC adapter mac = Ok [] → Ports adapter = [] ∨ ∃ refs,
  fetchRefs (Ports adapter) = Ok refs ∧
  ∀ ref, ref ∈ refs → ∃ port, fetch Unmarshal (odata_ID ref) zeroPort = Ok port.
Proof.
  unfold specMAC. case_decide as Hp; [by left|]. destruct (fetchRefs (Ports _)) as [refs|?|?]; [|done..].
  cbn [mbind outcome_bind]. case_decide as Hm; [intros [= HH]; congruence|].
  destruct (joinAll portOf None refs) as [?|] eqn:Hj; [done|]. intros _. right. exists refs. split; [done|].
  intros ref Hin. apply (proj1 (joinAll_None _ _) Hj) in Hin. unfold fetch. unfold portOf in Hin.
  destruct (reply _ _ _) as [port [?|]]; [done|eauto].
Qed.

(** C23: a miss is definitive. The lookup says that no component reports the MAC, without naming
    anything unreadable, only if every member of the collection was read, and every SPDM member
    either certainly leads to no adapter, by what the service answers for its target and for the
    adapters beside it, or leads to one all of whose ports were read and none of which reports
    the MAC. *)
Theorem ComponentIntegrityFor_miss ops mac :
  fst (ComponentIntegrityFor mac (after ops)) = Err (err_fmt "no SPDM component on the BMC reports MAC %s" [AStr mac]) →
  (∃ ids, fetchIDs componentIntegrityPath = Ok ids ∧
     ∀ id, id ∈ ids → ∃ ci, fetch Unmarshal id zeroCI = Ok ci) ∧
  ∀ ci, spdmMember ci → certainlyNone ci ∨
    ∃ a, fst (resolveTarget ci s0) = Ok (Some a) ∧ targetOf ci a ∧ (∀ m, ¬ reports a mac m) ∧
      (Ports a = [] ∨ ∃ refs, fetchRefs (Ports a) = Ok refs ∧
         ∀ ref, ref ∈ refs → ∃ port, fetch Unmarshal (odata_ID ref) zeroPort = Ok port).
Proof.
  rewrite ComponentIntegrityFor_after. unfold specComponentFor, specIntegrities.
  destruct (fetchIDs componentIntegrityPath) as [ids|e|p] eqn:Hl; cbn [fmap outcome_fmap mbind outcome_bind]; [| |done].
  2:{ intros [= ->]. destruct (fetchIDs_error _ _ Hl) as (? & ? & ? & [= <- <- <-] & []). done. }
  destruct (specFind _ _ _) as [[?|[?|]]|e|p] eqn:Hfind; cbn [mbind outcome_bind]; [done|done| | |done].
  2:{ exfalso. revert Hfind. generalize (unreadable (snapshotOf ids)).
      induction (_ ++ _) as [|c cis IH]; intros un; cbn [specFind]; [done|]. case_decide; [apply IH|].
      destruct (specTarget c) as [[a|]|?|?]; [|apply IH..|done].
      destruct (specMAC a mac); [case_decide; [done|apply IH]|apply IH|done]. }
  intros _. apply specFind_inr in Hfind as [Hun Hall]. cbn [unreadable snapshotOf] in Hun.
  split; [exists ids; split; [done|by apply bad_nil]|].
  intros ci (Hty & Huri & ids' & id & Hl' & Hin & Hf). assert (ids' = ids) as -> by congruence.
  destruct (member_listed _ _ _ Hl' Hin Hf) as [_ Hmem].
  destruct (Hall ci) as [Ht|(a & Ht & Hm)]; [|done|done|left; by apply resolveTarget_none|].
  { apply elem_of_app. destruct (decide (isMeasured ci)); [left|right]; by apply list_elem_of_filter. }
  right. exists a. split; [done|]. split; [by apply resolveTarget_targetOf|]. split; [intros m; by apply specMAC_None|by eapply specMAC_definitive].
Qed.

(** ** The quote action *)
Lemma findQuote_Some cis mgr t : findQuote cis mgr = Some t → ∃ ci, ci ∈ cis ∧ ci_Type ci = str "TPM" ∧
  TrimRight slash (TargetComponentURI ci) = mgr ∧ TPMGetSignedMeasurements ci = t ∧ t ≠ [].
Proof.
  induction cis as [|c cis IH]; cbn [findQuote]; [done|].
  assert (findQuote cis mgr = Some t → ∃ ci, ci ∈ c :: cis ∧ ci_Type ci = str "TPM" ∧
    TrimRight slash (TargetComponentURI ci) = mgr ∧ TPMGetSignedMeasurements ci = t ∧ t ≠ []) as Hskip.
  { intros (ci & ? & ?)%IH. exists ci. split; [by right|done]. }
  case_decide as Hk; [done|]. case_decide as Hq; [|done]. intros [= <-]. exists c. split; [left|].
  destruct (decide (ci_Type c = str "TPM")); [|tauto].
  destruct (decide (TrimRight slash (TargetComponentURI c) = mgr)); tauto.
Qed.

Lemma findQuote_None cis mgr ci : findQuote cis mgr = None → ci ∈ cis → ci_Type ci = str "TPM" →
  TrimRight slash (TargetComponentURI ci) = mgr → TPMGetSignedMeasurements ci = [].
Proof.
  induction cis as [|c cis IH]; cbn [findQuote]; [by intros _ ?%elem_of_nil|].
  case_decide as Hk.
  - intros Hn [->|Hin]%elem_of_cons ? ?; [tauto|by apply IH].
  - case_decide as Hq; [done|]. intros Hn [->|Hin]%elem_of_cons ? ?; [done|by apply IH].
Qed.

(** C28: the action quoted is the one advertised by a readable TPM member that targets the BMC's own
    manager; and the BMC is said to lack one only if every member was read and no such member
    advertises one. *)
Theorem quoteTarget_own_TPM ops :
  (∀ t, fst (quoteTarget (after ops)) = Ok t → t ≠ [] ∧ ∃ ids id ci m,
     fetchIDs componentIntegrityPath = Ok ids ∧ id ∈ ids ∧
     fetch Unmarshal id zeroCI = Ok ci ∧ ci_Type ci = str "TPM" ∧ TPMGetSignedMeasurements ci = t ∧
     fst (firstMember managersPath s0) = Ok m ∧ TrimRight slash (TargetComponentURI ci) = TrimRight slash m) ∧
  (fst (quoteTarget (after ops)) = Err (ESentinel ErrNoQuoteSupport) → ∃ ids m,
     fetchIDs componentIntegrityPath = Ok ids ∧ fst (firstMember managersPath s0) = Ok m ∧
     ∀ id, id ∈ ids → ∃ ci, fetch Unmarshal id zeroCI = Ok ci ∧
       (ci_Type ci = str "TPM" → TrimRight slash (TargetComponentURI ci) = TrimRight slash m →
        TPMGetSignedMeasurements ci = [])).
Proof.
  rewrite quoteTarget_after. unfold specQuote, specManager, specIntegrities.
  destruct (eval (firstMember managersPath)) as [m|e|p] eqn:Hm; cbn [fmap outcome_fmap mbind outcome_bind]; [| |done].
  2:{ split; [done|]. intros [= ->]. exfalso. revert Hm. unfold firstMember. rewrite eval_bind, eval_get.
      2: apply stateless_get. 2: intros [[|? [|? ?]]]; [apply stateless_lift|apply stateless_ret|apply stateless_lift].
      destruct (fetch _ _ _) as [[[|? [|? ?]]]|e|?] eqn:Hf; cbn; [done..| |done]. intros [= ->].
      destruct (fetch_error _ _ _ _ Hf) as (? & ? & ? & [=] & _). }
  destruct (fetchIDs componentIntegrityPath) as [ids|e|p] eqn:Hl; cbn [fmap outcome_fmap mbind outcome_bind]; [| |done].
  2:{ split; [done|]. intros [= ->]. destruct (fetchIDs_error _ _ Hl) as (? & ? & ? & [=] & _). }
  assert (specIntegrities = Ok (snapshotOf ids)) as Hsnap by (unfold specIntegrities; by rewrite Hl).
  destruct (findQuote _ _) as [t|] eqn:Hq.
  - split; [|done]. intros t' [= <-]. apply findQuote_Some in Hq as (ci & Hci & Hty & Huri & Ht & Hne).
    split; [done|]. destruct (listed_member _ _ Hsnap Hci) as (ids' & id & Hl' & _ & Hid & Hf).
    assert (ids' = ids) as -> by congruence. exists ids, id, ci, m. done.
  - destruct (unreadable _) as [?|] eqn:Hun; [done|]. split; [done|]. intros _. exists ids, m. split; [done|]. split; [done|].
    intros id Hin. destruct (bad_nil ids Hun id Hin) as [ci Hf]. exists ci. split; [done|]. intros Hty Huri.
    apply (findQuote_None _ _ _ Hq); [|done|done]. by eapply member_listed.
Qed.

End Static.
(** ** A BMC *)
Module Demo.

(** The body of a page is its path; the decoders know the pages. *)
Definition pages {X} (l : list (string * X)) : bytes → X → X * option error := λ raw zero,
  match assoc (prod_map str id <$> l) raw with
  | Some x => (x, None)
  | None => (zero, Some (EExt "json"))
  end.

Definition tpm : ComponentIntegrity :=
  mkCI (str "TPM-1") (str "TPM") (str "/quote") [] [] (str "/mgr/1/") [] [] [].
Definition nic : ComponentIntegrity :=
  mkCI (str "OCPSlot-015-00") (str "SPDM") [] [] [] (str "/chassis/adapters/stale") (str "Success") []
    [mkMeasurement 1 (str "AAAA") [] []].
Definition adapter : NetworkAdapter := mkAdapter [] (str "NIC") [] [] [] [] (str "Slot") 15 [] (str "/chassis/adapters/a/ports").

#[export] Instance demoCodecs : Codecs := {|
  Decode_collection := pages (prod_map (λ s : string, s) (λ ids, mkCollection (mkRef <$> ids)) <$> [("/redfish/v1/Managers", [str "/mgr/1/"]);
    ("/redfish/v1/ComponentIntegrity", [str "/ci/tpm"; str "/ci/nic"]);
    ("/chassis/adapters", [str "/chassis/adapters/a"]); ("/chassis/adapters/a/ports", [str "/port/1"])]);
  Decode_CI := pages [("/ci/tpm", tpm); ("/ci/nic", nic)];
  Decode_Manager := pages []; Decode_System := pages [];
  Decode_Adapter := pages [("/chassis/adapters/a", adapter)];
  Decode_Port := pages [("/port/1", mkPort [str " B4:96:91:00:00:01 "])];
  Decode_Certificate := pages []; Decode_Signed := pages [];
  pem_Decode := λ s, (None, s); base64_DecodeString := λ s, inr s |}%string.

Definition serve (req : request) : error + response :=
  if decide (URL req = str "https://bmc/chassis/adapters/stale")
  then inr (mkResponse 404 (str "404 Not Found") [] None)
  else inr (mkResponse 200 (str "200 OK") (drop 11 (URL req)) None).
#[export] Instance demoTransport : Transport unit := {|
  NewRequest := λ _ _, None; RoundTrip := λ req w, (serve req, w); Marshal := λ _, inr [] |}.

Lemma serve_static req (w : unit) : fst (RoundTrip req w) = serve req.
Proof. reflexivity. Qed.

Abbreviation bmc := (str "https://bmc/").
Definition history : list op := [OpManager; OpComponent (str "00:00:00:00:00:00"); OpIDevID; OpMeasurements [] []].

Lemma unique : uniqueIds bmc [] [] ().
Proof.
  assert (specIntegrities bmc [] [] () = Ok (mkSnapshot [tpm; nic] [] None)) as Hs by (vm_compute; reflexivity).
  intros ci ci' (snap & Hsn & Hci) (snap' & Hsn' & Hci') Hid _.
  rewrite Hs in Hsn, Hsn'. injection Hsn as <-. injection Hsn' as <-. cbn in Hci, Hci'.
  rewrite !elem_of_cons, elem_of_nil in Hci, Hci'. destruct Hci as [->|[->|[]]], Hci' as [->|[->|[]]]; done.
Qed.

Definition found : ComponentIntegrity * NetworkAdapter * bytes :=
  (nic, setSelfURI (str "/chassis/adapters/a") adapter, str "B4:96:91:00:00:01").

Lemma caches_invisible_witness :
  fst (ComponentIntegrityFor (str "b4:96:91:00:00:01") (after bmc [] [] () history)) = Ok found.
Proof.
  rewrite (proj1 (caches_invisible serve serve_static bmc [] [] () unique history (str "b4:96:91:00:00:01"))).
  vm_compute. reflexivity.
Defined.

Lemma ComponentIntegrityFor_sound_witness : targetOf bmc [] [] () nic (found.1.2) ∧
  reports bmc [] [] () (found.1.2) (str "b4:96:91:00:00:01") (str "B4:96:91:00:00:01").
Proof.
  destruct (ComponentIntegrityFor_sound serve serve_static bmc [] [] () unique history (str "b4:96:91:00:00:01")
    nic (found.1.2) (str "B4:96:91:00:00:01") ltac:(vm_compute; reflexivity)) as (_ & Ht & Hr & _).
  split; assumption.
Defined.

Lemma ComponentIntegrityFor_miss_witness :
  fst (ComponentIntegrityFor (str "00:00:00:00:00:02") (after bmc [] [] () history)) =
    Err (err_fmt "no SPDM component on the BMC reports MAC %s" [AStr (str "00:00:00:00:00:02")]) ∧
  ∀ ci, spdmMember bmc [] [] () ci → certainlyNone bmc [] [] () ci ∨ ∃ a, targetOf bmc [] [] () ci a.
Proof.
  split; [vm_compute; reflexivity|]. intros ci Hci.
  destruct (ComponentIntegrityFor_miss serve serve_static bmc [] [] () unique history (str "00:00:00:00:00:02")
    ltac:(vm_compute; reflexivity)) as [_ Hall].
  destruct (Hall ci Hci) as [Hn|(a & _ & Ha & _)]; [by left|right; by exists a].
Defined.

Lemma quoteTarget_own_TPM_witness : ∃ ci, ci_Type ci = str "TPM" ∧ TPMGetSignedMeasurements ci = str "/quote".
Proof.
  destruct (proj1 (quoteTarget_own_TPM serve serve_static bmc [] [] () unique history) (str "/quote")
    ltac:(vm_compute; reflexivity)) as (_ & ids & id & ci & m & _ & _ & _ & Hty & Ht & _).
  exists ci. split; assumption.
Defined.

End Demo.

End RedfishSpec.
