(* ===== verification/Logging.v ===== *)
(** * pkg/logging: one syslog line per log record

    The slog handler over a syslog writer, the handlers derived from it with
    attributes and groups, [Sanitize], the no-op handler, and the variants of the
    other platforms. *)
From Stdlib Require DecimalString.
From S2P Require Import Prelude Bytes Text Os Utf8.
Import Text Os Utf8.

Module Logging.

(** ** log/slog *)
Definition LevelDebug : Z := -4.
Definition LevelInfo : Z := 0.
Definition LevelWarn : Z := 4.
Definition LevelError : Z := 8.

(** A value by its kind; of the kinds whose text is the caller's code ([fmt] of
    any value, [LogValue]) the text is given. [VNil] is the zero [slog.Value]. *)
Inductive Value :=
  | VNil
  | VString (s : bytes)
  | VInt64 (z : Z)
  | VUint64 (z : Z)
  | VBool (b : bool)
  | VOther (text : bytes).
#[export] Instance Value_eq_dec : EqDecision Value.
Proof. solve_decision. Defined.

Definition itoa (z : Z) : bytes := str (DecimalString.NilZero.string_of_int (Z.to_int z)).
(** [v.Resolve().String()] *)
Definition ValueString (v : Value) : bytes :=
  match v with
  | VNil => str "<nil>"
  | VString s => s
  | VInt64 z | VUint64 z => itoa z
  | VBool b => str (if b then "true" else "false")
  | VOther text => text
  end.

Record Attr := mkAttr { Key : bytes; AttrValue : Value }.
#[export] Instance Attr_eq_dec : EqDecision Attr.
Proof. solve_decision. Defined.
Record LogRecord := mkRecord { Level : Z; Message : bytes; Attrs : list Attr }.

(** ** The interface to syslog *)
Class SyslogWriter (Writer World : Type) := {
  Debug : Writer → bytes → World → option error * World;
  Info : Writer → bytes → World → option error * World;
  Warning : Writer → bytes → World → option error * World;
  Errr : Writer → bytes → World → option error * World;
}.

(** ** The handler *)
Record groupedAttr := mkGrouped { attr : Attr; attrGroup : bytes }.
Record handler (Writer : Type) := mkHandler { w : Writer; group : bytes; attrs : list groupedAttr }.
Arguments mkHandler {Writer}.
Arguments w {Writer}.
Arguments group {Writer}.
Arguments attrs {Writer}.

Definition dot : byte := Byte.x2e.
Definition space : byte := Byte.x20.
Definition equals : byte := Byte.x3d.

(** The rune mapping of [Sanitize]. *)
Definition sanitizeRune (r : rune) : rune := if decide (r = 10 ∨ r = 13 ∨ r = 0)%Z then 0x20%Z else r.
Definition Sanitize (s : bytes) : bytes := Map sanitizeRune s.

(** An slog.Handler of the package: [NoopHandler] or [*handler]. *)
Inductive Handler (Writer : Type) :=
  | NoopHandler
  | Syslog (h : handler Writer).
Arguments NoopHandler {Writer}.
Arguments Syslog {Writer}.

Section Logging.
(** [unicode.IsPrint] beyond ASCII, which decides what [%q] escapes. *)
Variable IsPrint : rune → bool.

Definition qualify (group key : bytes) : bytes := if decide (group ≠ []) then group ++ [dot] ++ key else key.
(** What makes [writeAttr] quote. *)
Definition mustQuote (val : bytes) : bool := ContainsAny val [Byte.x20; Byte.x09; Byte.x22].
Definition writeAttr (group : bytes) (a : Attr) : bytes :=
  if decide (a = mkAttr [] VNil) then [] else
  let val := ValueString (AttrValue a) in
  [space] ++ qualify group (Key a) ++ [equals] ++ (if mustQuote val then Quote IsPrint val else val).

Section Writer.
Context {Writer World : Type} `{!SyslogWriter Writer World}.

Definition Enabled (h : Handler Writer) (level : Z) : bool := match h with Syslog _ => true | NoopHandler => false end.

(** The string builder of [Handle]. *)
Definition text (h : handler Writer) (r : LogRecord) : bytes :=
  Message r ++ concat ((λ ga, writeAttr (attrGroup ga) (attr ga)) <$> attrs h)
    ++ concat (writeAttr (group h) <$> Attrs r).

(** The method for a level. *)
Definition write (wr : Writer) (level : Z) : bytes → World → option error * World :=
  if decide (LevelError ≤ level)%Z then Errr wr
  else if decide (LevelWarn ≤ level)%Z then Warning wr
  else if decide (LevelInfo ≤ level)%Z then Info wr
  else Debug wr.

(** The mutex covers the one write, and is free again after it. *)
Definition Handle (h : Handler Writer) (r : LogRecord) (s : World) : option error * World :=
  match h with
  | NoopHandler => (None, s)
  | Syslog h => write (w h) (Level r) (Sanitize (text h r)) s
  end.

Definition WithAttrs (h : Handler Writer) (as' : list Attr) : Handler Writer :=
  match h with
  | NoopHandler => NoopHandler
  | Syslog h => Syslog (mkHandler (w h) (group h) (attrs h ++ ((λ a, mkGrouped a (group h)) <$> as')))
  end.

Definition WithGroup (h : Handler Writer) (name : bytes) : Handler Writer :=
  match h with
  | NoopHandler => NoopHandler
  | Syslog h =>
    if decide (name = []) then Syslog h else
    let newGroup := if decide (group h ≠ []) then group h ++ [dot] ++ name else name in
    Syslog (mkHandler (w h) newGroup (attrs h))
  end.

Definition NewHandler (wr : Writer) : Handler Writer := Syslog (mkHandler wr [] []).

(** [syslog.New(LOG_DAEMON|LOG_INFO, tag)] is given by what it answers. *)
Definition NewSyslogHandler (New : bytes → result Writer) (tag : bytes) : Handler Writer :=
  match New tag with
  | inl _ => NoopHandler
  | inr wr => Syslog (mkHandler wr [] [])
  end.

(** ** What a derived handler promises: each attribute under the groups open when it was added *)
Inductive derivation := Attributes (as' : list Attr) | Group (name : bytes).

Definition derive (h : Handler Writer) (d : derivation) : Handler Writer :=
  match d with Attributes as' => WithAttrs h as' | Group name => WithGroup h name end.

(** The open groups, outermost first. *)
Fixpoint openGroups (ds : list derivation) : list bytes :=
  match ds with
  | [] => []
  | Attributes _ :: ds => openGroups ds
  | Group name :: ds => if decide (name = []) then openGroups ds else name :: openGroups ds
  end.

(** The attributes with the groups of each, [outer] being open. *)
Fixpoint scoped (outer : list bytes) (ds : list derivation) : list (list bytes * Attr) :=
  match ds with
  | [] => []
  | Attributes as' :: ds => (pair outer <$> as') ++ scoped outer ds
  | Group name :: ds => scoped (if decide (name = []) then outer else outer ++ [name]) ds
  end.

(** An attribute under its groups: the path of names joined by dots. *)
Definition format (ga : list bytes * Attr) : bytes :=
  let '(groups, a) := ga in
  if decide (a = mkAttr [] VNil) then [] else
  let val := ValueString (AttrValue a) in
  str " " ++ JoinWith dot (groups ++ [Key a]) ++ str "=" ++ (if mustQuote val then Quote IsPrint val else val).

Definition line (ds : list derivation) (r : LogRecord) : bytes :=
  Message r ++ concat (format <$> scoped [] ds) ++ concat (format <$> (pair (openGroups ds) <$> Attrs r)).

End Writer.

End Logging.

(** ** Groups *)

Lemma JoinWith_snoc c ws x : ws ≠ [] → JoinWith c (ws ++ [x]) = JoinWith c ws ++ [c] ++ x.
Proof.
  induction ws as [|y [|z ws] IH]; [done|done|]. intros _. change (y ++ [c] ++ JoinWith c ((z :: ws) ++ [x]) = (y ++ [c] ++ JoinWith c (z :: ws)) ++ [c] ++ x).
  rewrite IH by done. by rewrite <- !(assoc_L (++)).
Qed.

Lemma JoinWith_nil c ws : Forall (λ w, w ≠ []) ws → JoinWith c ws = [] ↔ ws = [].
Proof. intros Hw. destruct Hw as [|w0 ws Hw0 Hw]; [done|]. destruct ws, w0; done. Qed.

Lemma qualify_join groups key : Forall (λ w, w ≠ []) groups → qualify (JoinWith dot groups) key = JoinWith dot (groups ++ [key]).
Proof.
  intros Hg. unfold qualify. pose proof (JoinWith_nil dot groups Hg) as Hn. case_decide as Hd; [|].
  - rewrite JoinWith_snoc; [done|]. tauto.
  - assert (groups = []) as -> by (apply Hn; by destruct (JoinWith dot groups)). done.
Qed.

Lemma scoped_nonempty outer ds : Forall (λ w, w ≠ []) outer → Forall (λ ga, Forall (λ w, w ≠ []) ga.1) (scoped outer ds).
Proof.
  revert outer. induction ds as [|[as'|name] ds IH]; intros outer Ho; cbn [scoped]; [done| |].
  - apply Forall_app. split; [|by apply IH]. apply Forall_fmap, Forall_true. done.
  - apply IH. case_decide; [done|]. apply Forall_app. by repeat constructor.
Qed.

Lemma openGroups_nonempty ds : Forall (λ w, w ≠ []) (openGroups ds).
Proof. induction ds as [|[as'|name] ds IH]; cbn [openGroups]; [done..|]. case_decide; [done|]. by constructor. Qed.

Lemma format_writeAttr IsPrint ga : Forall (λ w, w ≠ []) ga.1 → writeAttr IsPrint (JoinWith dot ga.1) ga.2 = format IsPrint ga.
Proof. destruct ga as [groups a]. cbn [fst snd]. intros Hg. unfold writeAttr, format. by rewrite (qualify_join _ _ Hg). Qed.

(** [WithAttrs] and [WithGroup] keep this: the group is the open path, the attributes carry theirs. *)
Lemma derived_state {Writer} (wr : Writer) ds outer as0 : Forall (λ w, w ≠ []) outer →
  foldl derive (Syslog (mkHandler wr (JoinWith dot outer) as0)) ds =
    Syslog (mkHandler wr (JoinWith dot (outer ++ openGroups ds))
      (as0 ++ ((λ ga, mkGrouped ga.2 (JoinWith dot ga.1)) <$> scoped outer ds))).
Proof.
  revert outer as0. induction ds as [|[as'|name] ds IH]; intros outer as0 Ho; cbn [foldl derive openGroups scoped].
  - by rewrite !app_nil_r.
  - cbn [WithAttrs w group attrs]. rewrite IH by done. rewrite fmap_app, <- (assoc_L (++)), <- list_fmap_compose. done.
  - cbn [WithGroup w group attrs]. case_decide as Hname; [by apply IH|].
    assert ((if decide (JoinWith dot outer ≠ []) then JoinWith dot outer ++ [dot] ++ name else name) =
      JoinWith dot (outer ++ [name])) as -> by by rewrite <- (qualify_join _ _ Ho).
    rewrite IH by (apply Forall_app; by repeat constructor). by rewrite <- (assoc_L (++) outer).
Qed.

(** ** Sanitize *)
Definition framing (b : byte) : Prop := b = Byte.x0a ∨ b = Byte.x0d ∨ b = Byte.x00.

Lemma byte_clean z : (0 ≤ z < 256 → z ≠ 10 ∧ z ≠ 13 ∧ z ≠ 0 → ¬ framing (byte_of_Z z))%Z.
Proof. intros Hz Hn [H|[H|H]]; apply (f_equal Z_of_byte) in H; rewrite byte_of_Z_small in H by done; cbn in H; lia. Qed.

Lemma EncodeRune_clean r : (r ≠ 10 ∧ r ≠ 13 ∧ r ≠ 0)%Z → Forall (λ b, ¬ framing b) (EncodeRune r).
Proof.
  intros Hr. unfold EncodeRune. change (64 ^ 0)%Z with 1%Z. change (64 ^ 1)%Z with 64%Z.
  change (64 ^ 2)%Z with 4096%Z. change (64 ^ 3)%Z with 262144%Z. cbv zeta.
  repeat case_decide; repeat constructor; first [apply byte_clean; Z.div_mod_to_equations; lia | by intros [H'|[H'|H']]].
Qed.

Lemma utf8_clean rs : Forall (λ r, r ≠ 10 ∧ r ≠ 13 ∧ r ≠ 0)%Z rs → Forall (λ b, ¬ framing b) (utf8 rs).
Proof. intros Hrs. unfold utf8. apply Forall_concat, Forall_fmap. eapply list.Forall_impl; [exact Hrs|]. apply EncodeRune_clean. Qed.

Lemma sanitizeRune_clean r : (sanitizeRune r ≠ 10 ∧ sanitizeRune r ≠ 13 ∧ sanitizeRune r ≠ 0)%Z.
Proof. unfold sanitizeRune. case_decide; lia. Qed.

Lemma Sanitize_clean s : Forall (λ b, ¬ framing b) (Sanitize s).
Proof.
  unfold Sanitize, Map. apply utf8_clean, list.Forall_forall. intros r Hin. apply list_elem_of_filter in Hin as [_ Hin].
  apply list_elem_of_fmap in Hin as (x & -> & _). apply sanitizeRune_clean.
Qed.

(** On UTF-8 exactly the three characters change. *)
Lemma Sanitize_utf8 rs : Forall scalar rs → Sanitize (utf8 rs) = utf8 (sanitizeRune <$> rs).
Proof.
  intros Hrs. unfold Sanitize, Map. rewrite list_fmap_compose, (runes_utf8 rs Hrs). f_equal.
  induction Hrs as [|r rs Hr Hrs IH]; [done|]. cbn [fmap list_fmap]. rewrite list.filter_cons, decide_True; [by f_equal|].
  unfold scalar in Hr. unfold sanitizeRune. case_decide; lia.
Qed.

(** Around an ASCII character the two sides are sanitized apart. *)
Lemma Sanitize_boundary a b s : (Z_of_byte b < 0x80)%Z →
  Sanitize (a ++ b :: s) = Sanitize a ++ [byte_of_Z (sanitizeRune (Z_of_byte b))] ++ Sanitize s.
Proof.
  intros Hb. pose proof (Z_of_byte_range b). unfold Sanitize, Map. rewrite runes_boundary by done.
  rewrite fmap_app, list.filter_app. unfold utf8. rewrite fmap_app, concat_app. f_equal.
  cbn [fmap list_fmap]. rewrite list.filter_cons. cbn [compose fst].
  assert (0 ≤ sanitizeRune (Z_of_byte b) < 0x80)%Z as Hr by (unfold sanitizeRune; case_decide; lia).
  rewrite decide_True by lia. cbn [fmap list_fmap concat]. f_equal. unfold EncodeRune. by rewrite decide_True.
Qed.

(** ** The handler *)
Section Handler.
Variable IsPrint : rune → bool.
Context {Writer World : Type} `{!SyslogWriter Writer World}.

(** C22: the handler that a sequence of [With] calls builds writes, for every record, the line in which each
    attribute stands, in order, under exactly the groups that were open when it was added; a group
    opened later does not qualify it. *)
Theorem derived_line (wr : Writer) ds r s :
  Handle IsPrint (foldl derive (NewHandler wr) ds) r s = write wr (Level r) (Sanitize (line IsPrint ds r)) s.
Proof.
  unfold NewHandler. change (mkHandler wr [] []) with (mkHandler wr (JoinWith dot []) []). rewrite derived_state by done.
  cbn [Handle w]. do 2 f_equal. unfold text, line. cbn [attrs group app]. f_equal. f_equal.
  - rewrite <- list_fmap_compose. f_equal. apply list_fmap_ext. intros i ga Hga. apply format_writeAttr.
    pose proof (scoped_nonempty [] ds ltac:(done)) as Hs. rewrite Forall_lookup in Hs. by apply (Hs i).
  - rewrite <- list_fmap_compose. f_equal. apply list_fmap_ext. intros i a Ha.
    apply (format_writeAttr IsPrint (openGroups ds, a)), openGroups_nonempty.
Qed.

(** C27: a record is one write, to the method for its level, of one line: it holds no newline, carriage return or
    NUL whatever the message, the keys and the values hold, and when the text is UTF-8 these three
    became spaces and nothing else changed. *)
Theorem Handle_one_line (h : handler Writer) r s : ∃ msg,
  Handle IsPrint (Syslog h) r s =
    (if decide (8 ≤ Level r)%Z then Errr (w h) else if decide (4 ≤ Level r)%Z then Warning (w h)
     else if decide (0 ≤ Level r)%Z then Info (w h) else Debug (w h)) msg s ∧
  Forall (λ b, ¬ framing b) msg ∧
  ∀ rs, Forall scalar rs → text IsPrint h r = utf8 rs →
    msg = utf8 ((λ r, if decide (r = 10 ∨ r = 13 ∨ r = 0)%Z then 32%Z else r) <$> rs).
Proof.
  exists (Sanitize (text IsPrint h r)). split; [done|]. split; [apply Sanitize_clean|].
  intros rs Hrs ->. by apply Sanitize_utf8.
Qed.

(** A value without blank, tab or quote is written as it is. *)
Lemma writeAttr_plain g k v : mustQuote v = false →
  writeAttr IsPrint g (mkAttr k (VString v)) = [space] ++ qualify g k ++ [equals] ++ v.
Proof. intros Hv. unfold writeAttr. rewrite decide_False by done. cbn [ValueString AttrValue Key]. cbv zeta. by rewrite Hv. Qed.

(** A newline in a value forges an attribute: a newline does not make [Handle] quote, and [Sanitize] turns it into
    the separator, so a value [v1], newline, [k2]=[v2] is logged as the two attributes are. *)
Theorem newline_forges_attr (h : handler Writer) level msg pre post k1 k2 v1 v2 s :
  mustQuote (v1 ++ qualify (group h) k2 ++ v2) = false →
  Handle IsPrint (Syslog h) (mkRecord level msg (pre ++
    [mkAttr k1 (VString (v1 ++ [Byte.x0a] ++ qualify (group h) k2 ++ [equals] ++ v2))] ++ post)) s =
  Handle IsPrint (Syslog h) (mkRecord level msg (pre ++
    [mkAttr k1 (VString v1); mkAttr k2 (VString v2)] ++ post)) s.
Proof.
  unfold mustQuote, ContainsAny. rewrite !existsb_app, !orb_false_iff. intros (H1 & H2 & H3).
  cbn [Handle Level]. f_equal. unfold text. cbn [Message Attrs].
  rewrite !fmap_app, !concat_app. cbn [fmap list_fmap concat].
  rewrite !writeAttr_plain; unfold mustQuote, ContainsAny; [|done..|by rewrite !existsb_app, H1, H2, H3].
  rewrite !app_nil_r, <- !(assoc_L (++)).
  set (P := [equals] ++ v1). set (Q := qualify _ k2 ++ _).
  assert (∀ a b c d e f x, Sanitize (a ++ b ++ c ++ d ++ e ++ [equals] ++ v1 ++ [x] ++ f) =
    Sanitize ((a ++ b ++ c ++ d ++ e ++ [equals] ++ v1) ++ x :: f)) as Hassoc by (intros; by rewrite <- !(assoc_L (++))).
  rewrite !Hassoc, !Sanitize_boundary by done. done.
Qed.
End Handler.

(** ** Examples *)
Module Demo.

(** A writer that keeps its lines, with the method's name. *)
#[export] Instance demoWriter : SyslogWriter unit (list (string * bytes)) := {|
  Debug _ m s := (None, ("debug"%string, m) :: s);
  Info _ m s := (None, ("info"%string, m) :: s);
  Warning _ m s := (None, ("warning"%string, m) :: s);
  Errr _ m s := (None, ("err"%string, m) :: s);
|}.

Definition derivations : list derivation :=
  [Attributes [mkAttr (str "host") (VString (str "h 1"))]; Group (str "tpm"); Group [];
   Attributes [mkAttr (str "rc") (VInt64 (-7))]; Group (str "nv")].
Definition record : LogRecord := mkRecord 5 (str "read" ++ [Byte.x0a] ++ str "failed") [mkAttr (str "index") (VUint64 22)].

Example demo_line : snd (Handle (λ _, true) (foldl derive (NewHandler ()) derivations) record []) =
  [("warning"%string, str "read failed host=" ++ [Byte.x22] ++ str "h 1" ++ [Byte.x22] ++ str " tpm.rc=-7 tpm.nv.index=22")].
Proof. vm_compute. reflexivity. Qed.

Lemma Handle_one_line_witness : ∃ msg,
  Handle (λ _, true) (Syslog (mkHandler () [] [])) record [] = (None, [("warning"%string, msg)]) ∧
  Forall (λ b, ¬ framing b) msg ∧ msg = str "read failed index=22".
Proof.
  destruct (Handle_one_line (λ _, true) (mkHandler () [] []) record []) as (msg & H1 & H2 & H3).
  exists msg. split; [exact H1|]. split; [exact H2|].
  rewrite (H3 (Z_of_byte <$> text (λ _, true) (mkHandler () [] []) record)); [vm_compute; reflexivity| |vm_compute; reflexivity].
  apply (bool_decide_unpack _). vm_compute. exact I.
Defined.

Lemma newline_forges_attr_witness :
  Handle (λ _, true) (Syslog (mkHandler () [] [])) (mkRecord 0 (str "login")
    [mkAttr (str "user") (VString (str "eve" ++ [Byte.x0a] ++ str "uid=0"))]) [] =
  (None, [("info"%string, str "login user=eve uid=0")]).
Proof.
  etransitivity.
  - exact (newline_forges_attr (λ _, true) (mkHandler () [] []) 0 (str "login") [] [] (str "user") (str "uid") (str "eve") (str "0") []
      ltac:(vm_compute; reflexivity)).
  - vm_compute. reflexivity.
Defined.

End Demo.

(** ** syslog_other.go *)
Module Other.
Definition NewSyslogHandler {Writer} (tag : bytes) : Handler Writer := NoopHandler.
Definition NewHandler {Writer} (wr : Writer) : Handler Writer := NoopHandler.
Definition Sanitize (s : bytes) : bytes := s.
End Other.

End Logging.
