(* ===== verification/Witnesses.v ===== *)
(** * Concrete inputs: the contracts hold of the simulated TPM

    Every theorem about the device is stated against a contract; here the small
    TPM of Sim.v is shown to satisfy each contract, and each theorem is applied
    to it. *)
From stdpp Require Import sorting.
From S2P Require Import Prelude Bytes Tpm2 Trace TpmErrors PolicyDigest Wrap TpmProps TpmNV TpmPCR Signature Templates TpmKeys Attest TpmOpen Signer Creatable PolicyKeys SignSpec AttestSpec Codec Sim.
Import Tpm2 Tpm2.TCGAlgs PolicyDigest Sim.

Module Witnesses.

Definition val (i : Z) : bytes := replicate 32 (byte_of_Z i).
Definition content : bytes := str "an EK certificate".
Definition start (max : Z) : sim := mkSim max [(0x01c0000a%Z, content)] val (λ _, 0%Z) [] [] 0x80000000.
Definition st0 (max : Z) : tpmState sim := mkState (start max) [].

(** ** NV *)
Lemma sim_nv max : (0 ≤ max)%Z →
  NV.NVIndexDevice (λ d, d = start max) 0x01c0000a [] max content.
Proof.
  intros Hmax. split.
  - done.
  - intros d ->. do 4 eexists. split; [reflexivity|]. cbn [TPMProperties].
    split; [reflexivity|]. split; [|reflexivity]. by cbn.
  - intros d ->. do 3 eexists. split; [reflexivity|]. by cbn.
  - intros d size offset -> Hs Hm Ho He. exists (Z.to_nat size), (start max).
    split; [|split; [lia|split; [lia|done]]].
    cbn [exec sim_device simExec HandleValue nv start]. change (assoc _ _) with (Some content).
    change (nvMax (start max)) with max. case_decide; [lia|]. case_decide; [lia|done].
Qed.

Lemma ReadFromNVStorage_correct_witness :
  (NV.ReadFromNVStorage 17 0x01c0000a [] (st0 7)).1 = Ok content.
Proof.
  apply (NV.ReadFromNVStorage_correct (λ d, d = start 7) _ _ 7 content); [by apply sim_nv|done|done|done|done].
Defined.

Lemma ReadFromNVStorage_diverges_witness :
  (NV.ReadFromNVStorage 1000 0x01c0000a [] (st0 65536)).1 = Panic OutOfFuel.
Proof.
  apply (NV.ReadFromNVStorage_diverges (λ d, d = start 65536) _ _ 65536 content);
    [by apply sim_nv|done|done|done].
Defined.

(** ** Properties and errors *)
Definition stm : Z → Z := λ p,
  if decide (p = TPMPTManufacturer) then be_Z (str "STM " )
  else if decide (p = TPMPTFirmwareVersion1) then 0x00490008%Z else 0xFF000000%Z.
Definition stmSim : sim := mkSim 0xFF000000 [] val stm [] [] 0.

Lemma stm_props : Props.PropsDevice (λ d, d = stmSim) stm.
Proof.
  intros d p ->. eexists _, p, _. split; [reflexivity|]. cbn [TPMProperties].
  split; [unfold stmSim, stm; cbn [nvMax props]; case_decide; [subst p|]; reflexivity|].
  split; [|reflexivity]. unfold stm. repeat case_decide; vm_compute; split; done.
Qed.

Lemma GetModel_spec_witness :
  (Props.GetModel (λ v, Ok (be_bytes 4 v)) (mkState stmSim [])).1 =
    Ok (str "STMicroelectronics", str "ST33TPHF2E").
Proof.
  etransitivity;
    [apply (Props.GetModel_spec (λ v, Ok (be_bytes 4 v)) (λ _, eq_refl) (λ d, d = stmSim) stm);
       [apply stm_props|reflexivity]
    |vm_compute; reflexivity].
Defined.

Import TpmErrors.TCG.
Lemma DictionaryAttackLockReset_errors_witness :
  ∃ e', (Props.DictionaryAttackLockReset (λ _ _, false) [] (st0 7)).1 = Err e' ∧
    errors_Is Props.ErrLockoutAuthLocked e' = true ∧ errors_Is Props.ErrLockoutAuthFailed e' = false ∧
    ∀ rc, Props.errors_Is_RC (λ _ _, false) rc (ERC 0x921) = true →
      Props.errors_Is_RC (λ _ _, false) rc e' = true.
Proof.
  destruct (Props.DictionaryAttackLockReset_errors (λ _ _, false) [] (st0 7) (ERC 0x921))
    as (e' & He & Hl & Hf & Hc); [reflexivity..|].
  exists e'. split; [exact He|]. split; [exact Hl|]. split; [exact Hf|exact Hc].
Defined.

(** ** PCRs *)
Lemma pickAlg_preference_witness :
  PCRs.pickAlg [mkPCRSelection TPMAlgSHA512 (PCRs (seqZ 0 24)); mkPCRSelection TPMAlgSHA384 (PCRs (seqZ 0 24));
                mkPCRSelection TPMAlgSHA256 (PCRs [0; 1]%Z)] 0 = TPMAlgSHA384.
Proof. etransitivity; [apply PCRs.pickAlg_preference|vm_compute; reflexivity]. Defined.

Lemma sim_pcrs : PCRs.PCRDevice PCRs (λ d, pcr d = val) TPMAlgSHA256 val.
Proof.
  split.
  - intros d Hd. do 3 eexists. split; [reflexivity|]. cbn [AssignedPCR].
    split; [reflexivity|]. split; [vm_compute; reflexivity|done].
  - done.
  - intros d pcrs Hd Hne Hr.
    destruct (PCRs.bitsOf (PCRs pcrs)) as [|p l] eqn:Hb.
    { exfalso. destruct pcrs as [|p pcrs]; [done|]. apply (not_elem_of_nil p).
      rewrite <-Hb. apply elem_of_PCRs; [done|left]. }
    assert (p ∈ pcrs) as Hp by (apply elem_of_PCRs; [done|]; rewrite Hb; left).
    assert (PCRs.bitsOf (PCRs [p]) = [p]) as Hbp.
    { apply bitsOf_PCRs; [by repeat constructor|]. constructor; [|constructor].
      rewrite Forall_forall in Hr. by apply Hr, list_elem_of_In. }
    exists TPMAlgSHA256, (PCRs [p]), [], d. rewrite Hbp. split; [|split; [done|split; [set_solver|done]]].
    cbn [exec sim_device simExec sel_PCRSelect sel_Hash]. by rewrite Hb, Hd.
Qed.

Lemma ReadPCRs_complete_witness :
  ∃ R s', PCRs.ReadPCRs PCRs 3 [7; 0; 7]%Z (st0 7) = (Ok (PCRs.pcrsOf val R, None), s') ∧
    pcr (device s') = val ∧ NoDup R ∧ ∀ i, i ∈ R ↔ i ∈ [7; 0; 7]%Z.
Proof.
  apply (PCRs.ReadPCRs_complete PCRs (λ d, pcr d = val) TPMAlgSHA256 val 3 [7; 0; 7]%Z (st0 7));
    [apply sim_pcrs|done|done|by repeat constructor|done].
Defined.

Lemma sim_missing : PCRs.PCRsMissing PCRs (λ _, True) TPMAlgSHA256 (λ p, 24 ≤ p < 32)%Z.
Proof.
  split.
  - intros d _. do 3 eexists. split; [reflexivity|]. cbn [AssignedPCR].
    split; [reflexivity|]. split; [vm_compute; reflexivity|done].
  - intros d pcrs _ Hl.
    assert (PCRs.bitsOf (PCRs pcrs) = []) as Hb.
    { destruct (PCRs.bitsOf (PCRs pcrs)) as [|i l] eqn:Hb; [done|]. exfalso.
      assert (i ∈ PCRs.bitsOf (PCRs pcrs)) as Hi by (rewrite Hb; left).
      apply elem_of_bitsFrom_le in Hi as [Hi Ht]. replace (i - 0 * 8)%Z with i in Ht by lia.
      rewrite testbit_foldr in Ht; [|eapply Forall_impl; [|exact Hl]; cbn; lia|lia].
      apply bool_decide_eq_true in Ht. rewrite Forall_forall in Hl.
      apply list_elem_of_In, Hl in Ht. lia. }
    exists TPMAlgSHA256, (PCRs []), [], [], d. split; [|split; [done|split; [reflexivity|done]]].
    cbn [exec sim_device simExec sel_PCRSelect sel_Hash]. by rewrite Hb.
Qed.

Lemma ReadPCRs_diverges_witness :
  (PCRs.ReadPCRs PCRs 100 [24]%Z (st0 7)).1 = Panic OutOfFuel.
Proof.
  apply (PCRs.ReadPCRs_diverges PCRs (λ _, True) TPMAlgSHA256 (λ p, 24 ≤ p < 32)%Z 100 [24]%Z 24%Z (st0 7));
    [apply sim_missing|done|by repeat constructor|by repeat constructor|left].
Defined.

(** ** Sealing *)
Definition unmarshal2B (b : bytes) : outcome (TPM2B TPMTPublic) :=
  Ok (mk2B (drop 2 b) (Err (EExt "not needed"))).

Definition sim_seal tpm : Keys.SealDevice unmarshal2B tpm.
Proof.
  unshelve refine {|
    Keys.holds := λ (_ : sim) priv pub data p, priv = data ∧ pub = Codec.marshal (Keys.sealTemplate p);
    Keys.sat := λ (_ : sim) sess p, default [] p = [] ∨ sess ≠ None |}.
  - intros d data p resp d' [= <- <-]. done.
  - intros R c priv pub data p d _ Hh. exact Hh.
  - intros R c sess p d _ Hs. exact Hs.
  - intros d priv pub data p sess [-> ->] Hs. eexists _, _, _. split; [reflexivity|]. split.
    { cbn [exec sim_device simExec]. cbn [Bytes]. rewrite (drop_app_length' (be_bytes 2 _)) by by rewrite length_be_bytes.
      rewrite Codec.unmarshal_marshal. reflexivity. }
    cbn [exec sim_device simExec ObjectHandle].
    destruct sess as [sess|]; cbn [HandleValue objects assoc]; rewrite decide_True by done; cbn [authorized];
      case_decide as Ha; [done..|done|]. destruct Hs as [Hs|[]]; [|done]. destruct p; done.
Defined.

Definition tpm0 : Keys.TPM := Keys.mkTPM Templates.SRKECCHandle.
Definition secret : bytes := replicate 130 Byte.x41.

(** What wrapping the secret under a policy returns, and leaves. *)
Definition wrapped : outcome bytes * tpmState sim :=
  let sealer := Keys.TPM_Sealer unmarshal2B tpm0 in
  Wrap.Wrap secret (Some [Byte.x07]) (st0 7).

Lemma TPM_Wrap_Unwrap_witness :
  let sealer := Keys.TPM_Sealer unmarshal2B tpm0 in
  ∃ s2, Wrap.Unwrap (exact (match wrapped.1 with Ok w => w | _ => [] end))
          (Some (StartedSession 3)) wrapped.2 = (Ok secret, s2).
Proof.
  apply (Keys.TPM_Wrap_Unwrap unmarshal2B tpm0 (sim_seal tpm0) secret (Some [Byte.x07])
           (Some (StartedSession 3)) (st0 7)); [discriminate|vm_compute; reflexivity|right; discriminate].
Defined.

(** ** A policy-bound key, end to end *)
Definition unmarshalPublic (b : bytes) : outcome TPMTPublic :=
  match Codec.unmarshal b with Some t => Ok t | None => Err (EExt "tpm2: unmarshal") end.

Definition wraps (b p : bytes) (pub : TPMTPublic) : Prop :=
  b = Codec.marshal pub ∧ Creatable.roleOf pub = Some Creatable.Signing.

Lemma policyOf_single d alg pcrs :
  StronglySorted Z.lt pcrs → Forall (λ p, 0 ≤ p < 24)%Z pcrs →
  policyOf d [mkPCRSelection alg (PCRs pcrs)] =
    digest32 (be_bytes 2 TPMAlgSHA256 ++ ((be_bytes 2 alg ++ PCRs pcrs) ++ []) ++ mjoin (pcr d <$> pcrs)).
Proof.
  intros. unfold policyOf. cbn [fmap list_fmap mjoin list_join sel_Hash sel_PCRSelect].
  rewrite bitsOf_PCRs by done. by rewrite !app_nil_r.
Qed.

Definition simInv (d : sim) : Prop := pcr d = val ∧ nvMax d = 7%Z ∧ props d = λ _, 0%Z.

Lemma sim_PCRDevice (Inv : sim → Prop) : (∀ d, Inv d → pcr d = val) →
  PCRs.PCRDevice PCRs Inv TPMAlgSHA256 val.
Proof.
  intros Himp. split.
  - intros d Hd. do 3 eexists. split; [reflexivity|]. cbn [AssignedPCR].
    split; [reflexivity|]. split; [vm_compute; reflexivity|done].
  - done.
  - intros d pcrs Hd Hne Hr.
    destruct (PCRs.pcr_read _ _ _ _ sim_pcrs d pcrs (Himp _ Hd) Hne Hr) as (a & select & rest & d' & He & ? & ? & _).
    assert (d' = d) as ->.
    { apply (f_equal snd) in He. cbn [snd] in He. rewrite <- He. cbn [exec sim_device simExec]. by case_match. }
    by exists a, select, rest, d.
Qed.

Lemma sim_policy :
  PolicyKeys.PolicyDevice PolicyDigest.Demo.NewPolicyCalculator PolicyDigest.Demo.PolicyPCR_Update digest32
    PolicyDigest.Demo.alg_Hash PCRs unmarshalPublic
    simInv (λ d h, True) wraps tpm0 TPMAlgSHA256 val.
Proof.
  split.
  - apply sim_PCRDevice. by intros d (? & _).
  - intros d n Hd _. do 2 eexists. split; [reflexivity|]. done.
  - done.
  - intros d h pcrs Hd _ Hne Hs Hr.
    exists (mkSim (nvMax d) (nv d) (pcr d) (props d) (objects d)
              ((h, policyOf d [mkPCRSelection TPMAlgSHA256 (PCRs pcrs)]) :: sessions d) (next d)).
    exists (policyOf d [mkPCRSelection TPMAlgSHA256 (PCRs pcrs)]). eexists. split; [reflexivity|].
    split; [unfold exec, sim_device, simExec; cbn [sessions assoc]; rewrite decide_True by done; reflexivity|].
    split; [|done].
    do 3 eexists. split; [reflexivity|]. split; [reflexivity|]. split; [reflexivity|].
    destruct Hd as [Hd _]. by rewrite policyOf_single, Hd by done.
  - intros pcrs dg (c & hash & c' & _ & _ & _ & ->). apply length_digest32.
  - intros d t Hd Ht. eexists _, t, _. split; [reflexivity|]. done.
  - intros b p pub [-> _]. unfold unmarshalPublic. by rewrite Codec.unmarshal_marshal.
  - done.
Qed.

Lemma generated_key_verifies_witness :
  ∃ public private state s1 s2,
    Signer.GenerateSigningKeyWithPolicy PCRs tpm0 TPMAlgECC [0; 7]%Z (st0 7) = (Ok (public, private), s1) ∧
    PCRs.ReadPCRs PCRs 2 [0; 7]%Z s1 = (Ok (state, None), s2) ∧
    VerifyPolicyDigest PolicyDigest.Demo.NewPolicyCalculator PolicyDigest.Demo.PolicyPCR_Update digest32
      PolicyDigest.Demo.alg_Hash PCRs unmarshalPublic public [0; 7]%Z state = Ok ().
Proof.
  apply (PolicyKeys.generated_key_verifies PolicyDigest.Demo.NewPolicyCalculator
           PolicyDigest.Demo.PolicyPCR_Update digest32 PolicyDigest.Demo.alg_Hash PCRs unmarshalPublic
           simInv (λ d h, True) wraps tpm0 TPMAlgSHA256 val TPMAlgECC [0; 7]%Z 2 (st0 7)).
  - apply sim_policy.
  - done.
  - right. reflexivity.
  - discriminate.
  - repeat constructor.
  - repeat (constructor; try done).
  - repeat (constructor; try done).
  - reflexivity.
Defined.

(** ** Signatures *)
Definition rsaDetail (_ : TPMUPublicParms) : outcome TPMSRSAParms := Ok (mkRSAParms None no_scheme 2048).
Definition eccDetail (_ : TPMUPublicParms) : outcome TPMSECCParms := Ok (mkECCParms None no_scheme TPMECCNistP256 0).
Definition uniqueRSA (_ : TPMUPublicID) : outcome bytes := Ok [].
Definition uniqueECC (_ : TPMUPublicID) : outcome TPMSECCPoint := Ok (mkECCPoint [] []).
Definition rsaPub (_ : TPMSRSAParms) (n : bytes) : outcome bytes := Ok n.
Definition curve (id : Z) : outcome Z := Ok id.
(** The scheme of the simulated TPM. *)
Definition verifyPKCS (_ digest sig : bytes) : Prop := sig = digest.
Definition verifyECDSA (_ _ _ : Z) (digest : bytes) (r s : Z) : Prop := r = be_Z digest ∧ s = 1%Z.

Abbreviation signatureOf := (SignSpec.signatureOf Sig.demo_RSASSA Sig.demo_ECDSA verifyPKCS verifyECDSA).
Abbreviation ParseKey := (SignSpec.ParseKey rsaDetail eccDetail uniqueRSA uniqueECC rsaPub curve).
Definition objectName (pub : TPMTPublic) : outcome bytes := Ok (Codec.marshal pub).

Lemma sim_key pub : Type_ pub = TPMAlgRSA ∨ Type_ pub = TPMAlgECC → ∃ key, ParseKey pub = Ok key.
Proof.
  intros Hty. unfold SignSpec.ParseKey, Keys.ParsePublicKey. case_decide; [by eexists|].
  destruct Hty as [?|Hty]; [done|]. rewrite decide_True by done. by eexists.
Qed.

Lemma sim_signature pub key digest : ParseKey pub = Ok key → length digest = 32 →
  signatureOf key digest (signature (SignSpec.schemeOf pub) digest).
Proof.
  unfold SignSpec.ParseKey, Keys.ParsePublicKey, SignSpec.schemeOf, signature, Keys.sigScheme. intros Hk Hd.
  case_decide as Hty.
  - injection Hk as <-. cbn [Scheme]. rewrite decide_True by done. split; [done|]. exists digest. done.
  - case_decide; [|done]. injection Hk as <-. cbn [Scheme]. rewrite decide_False by done. split; [done|].
    exists digest, [Byte.x01]. rewrite Hd. done.
Qed.

Definition loaded (d : sim) (h : Z) (pub : TPMTPublic) : Prop := ∃ priv, assoc (objects d) h = Some (priv, pub).

(** What the callback's session reads back. *)
Lemma sim_sessionDigest d pcrs dg : SignSpec.sessionDigest PCRs d pcrs dg →
  dg = policyOf d [mkPCRSelection TPMAlgSHA256 (PCRs pcrs)].
Proof.
  intros (h & d1 & s2 & d3 & Hs & Hr & Hg). injection Hs as <- <-.
  assert (∀ s : tpmState sim, PCRs.getPCRHashAlg s =
    (Ok TPMAlgSHA256, (Execute (GetCapability TPMCapPCRs 0 1) s).2)) as Halg by (intros s; vm_compute; reflexivity).
  unfold PCRs.run_pcrPolicyCallback, PCRs.SelectPCRs in Hr.
  erewrite SM_bind_step in Hr.
  2: { apply map_errS_Ok. erewrite SM_bind_step by (apply map_errS_Ok, Halg). reflexivity. }
  cbn in Hr. injection Hr as <-. cbn [device exec sim_device simExec sessions assoc] in Hg.
  rewrite decide_True in Hg by done. by injection Hg as <- _.
Qed.

Lemma sim_signing : SignSpec.SigningDevice PCRs unmarshal2B objectName Sig.demo_RSASSA Sig.demo_ECDSA
  rsaDetail eccDetail uniqueRSA uniqueECC rsaPub curve verifyPKCS verifyECDSA simInv wraps loaded.
Proof.
  split.
  - intros d path Hd. by eexists.
  - intros d b p pub Hd [-> _]. eexists _, _, _. split; [reflexivity|]. split.
    { cbn [exec sim_device simExec]. cbn [Bytes]. rewrite (drop_app_length' (be_bytes 2 _)) by by rewrite length_be_bytes.
      rewrite Codec.unmarshal_marshal. reflexivity. }
    split; [exact Hd|]. exists p. cbn. by rewrite decide_True.
  - intros d h pub Hd [priv Hl]. eexists _, d. cbn [exec sim_device simExec]. rewrite Hl. split; [reflexivity|].
    split; [done|]. split; [done|]. by exists priv.
  - intros b p pub [_ Hr]. destruct (sim_key pub) as [key Hk]; [by apply Creatable.signing_type; left|]. by eexists key, _.
  - intros d h pub key digest Hd [priv Hl] _ Hk Hlen Hu. eexists _, d. cbn [exec sim_device simExec HandleValue].
    rewrite Hl. cbn [mayUse]. rewrite Hu. split; [reflexivity|]. split; [done|]. split; [by exists priv|].
    by apply sim_signature.
  - intros d h pub key name digest pcrs Hd [priv Hl] _ Hk _ Hlen Hs%sim_sessionDigest. eexists _, d.
    cbn [exec sim_device simExec HandleValue]. rewrite Hl. cbn [mayUse]. rewrite bool_decide_true by done.
    split; [reflexivity|]. split; [done|]. split; [by exists priv|]. by apply sim_signature.
  - intros d h pub Hd _. by eexists.
  - done.
Qed.

Lemma sim_props : Props.PropsDevice simInv (λ p, if decide (p = TPMPTNVBufferMax) then 7 else 0)%Z.
Proof.
  intros d p (Hp & Hn & Hpr). eexists _, p, d. split; [reflexivity|]. cbn [TPMProperties].
  rewrite Hn, Hpr. split; [done|]. split; [by case_decide|done].
Qed.

Lemma generated_key_signs_witness : ∃ public private s1 pub key,
  SignSpec.generate PCRs TPMAlgECC [0; 7]%Z (st0 7) = (Ok (public, private), s1) ∧ ParseKey pub = Ok key ∧
  ∃ signer sig s5, Signer.Sign unmarshal2B objectName Sig.demo_RSASSA Sig.demo_ECDSA (λ v, Ok (be_bytes 4 v)) Open.Answered
    (K := Keys.PublicKey bytes Z) signer (val 65) (Some Signer.crypto_SHA256) s1 = (Ok sig, s5) ∧
    SignSpec.verifies verifyPKCS verifyECDSA key (val 65) sig.
Proof.
  destruct (SignSpec.generated_key_signs PolicyDigest.Demo.NewPolicyCalculator PolicyDigest.Demo.PolicyPCR_Update digest32
    PolicyDigest.Demo.alg_Hash PCRs unmarshalPublic unmarshal2B objectName Sig.demo_RSASSA Sig.demo_ECDSA
    rsaDetail eccDetail uniqueRSA uniqueECC rsaPub curve verifyPKCS verifyECDSA
    simInv (λ d h, True) wraps loaded TPMAlgSHA256 _ val sim_policy sim_props sim_signing (λ v, Ok (be_bytes 4 v))
    (λ _, eq_refl) TPMAlgECC [0; 7]%Z (st0 7))
    as (public & private & s1 & pub & key & Hg & Hi1 & _ & Hk & Hsigner).
  - done.
  - right. reflexivity.
  - repeat constructor.
  - repeat (constructor; try done).
  - destruct (Hsigner [] s1 Hi1) as (signer & s3 & _ & _ & _ & Hsign).
    destruct (Hsign (val 65) (Some Signer.crypto_SHA256) s1 Hi1 eq_refl (or_intror eq_refl)) as (sig & s5 & Hs & _ & Hv).
    exists public, private, s1, pub, key. split; [exact Hg|]. split; [exact Hk|]. exists signer, sig, s5.
    split; [exact Hs|exact Hv].
Defined.

(** ** Attestation *)
Definition akHandle : Z := 0x80000001.
Definition ak : TPMTPublic := Templates.GetECCAttestationKeyTemplate.
Definition ek : TPMTPublic := mkTPMTPublic TPMAlgECC TPMAlgSHA256 (Creatable.Demo.storageAttrs false true)
  Creatable.Demo.PolicyA Creatable.Demo.p256 NoID.
(** A TPM with an endorsement key and an attestation key. *)
Definition stAttest : tpmState sim := mkState (mkSim 7 [] val (λ _, 0%Z)
  [(akHandle, ([], ak)); (Templates.EKECCHandle, ([], ek))] [] 0x80000002) [].
Definition attInv (d : sim) : Prop := pcr d = val ∧ objects d = objects (device stAttest).

Definition akKey : Keys.PublicKey bytes Z := Keys.ECDSAPublicKey TPMECCNistP256 0 0.

Lemma sim_quote : AttestSpec.QuoteDevice PCRs unmarshalQuoted Sig.demo_RSASSA Sig.demo_ECDSA verifyPKCS verifyECDSA
  digest32 attInv akHandle ak akKey TPMAlgSHA256 val.
Proof.
  split; [apply sim_PCRDevice; by intros d []|].
  intros d data pcrs [Hp Ho] Hne Hr. eexists _, d. cbn [exec sim_device simExec HandleValue]. rewrite Ho.
  cbn [assoc objects stAttest device]. rewrite decide_True by done. cbn [mayUse]. split; [reflexivity|].
  split; [done|]. cbn [fmap list_fmap mjoin list_join sel_PCRSelect Attested AttestSignature]. rewrite app_nil_r, Hp.
  split; [apply unmarshal_marshalQuoted|]. apply (sim_signature ak); [reflexivity|apply length_digest32].
Qed.

Lemma Quote_agrees_ReadPCRs_witness : ∃ quote signature s1 values s2 q,
  Attest.Quote PCRs Sig.demo_RSASSA Sig.demo_ECDSA akHandle [7; 0; 7]%Z TPMAlgECDSA (str "nonce") stAttest =
    (Ok (quote, signature), s1) ∧
  PCRs.ReadPCRs PCRs 3 [7; 0; 7]%Z s1 = (Ok (values, None), s2) ∧
  unmarshalQuoted quote = Ok q ∧ AttestSpec.PCRDigest q = AttestSpec.recompute digest32 values ∧
  SignSpec.verifies verifyPKCS verifyECDSA akKey (digest32 quote) signature.
Proof.
  destruct (AttestSpec.Quote_agrees_ReadPCRs PCRs unmarshalQuoted Sig.demo_RSASSA Sig.demo_ECDSA verifyPKCS verifyECDSA
    digest32 (λ pcrs i H, elem_of_PCRs pcrs i H) attInv akHandle ak akKey TPMAlgSHA256 val [7; 0; 7]%Z (str "nonce") 3 stAttest
    sim_quote (conj eq_refl eq_refl))
    as (quote & sig & s1 & values & s2 & q & Hq & Hread & Hu & _ & _ & Hdg & Hv).
  - discriminate.
  - repeat (constructor; try done).
  - reflexivity.
  - exists quote, sig, s1, values, s2, q. split; [exact Hq|]. split; [exact Hread|]. split; [exact Hu|].
    split; [exact Hdg|exact Hv].
Defined.

Definition sim_credentials : AttestSpec.CredentialDevice objectName attInv Templates.EKECCHandle akHandle ek ak
  (Codec.marshal ek) (Codec.marshal ak) [].
Proof.
  unshelve refine {| AttestSpec.protects n c blob secret := blob = c ∧ secret = n |}.
  - intros d [Hp Ho]. eexists _, d. cbn [exec sim_device simExec]. rewrite Ho. split; [reflexivity|]. done.
  - intros d [Hp Ho]. eexists _, d. cbn [exec sim_device simExec]. rewrite Ho. split; [reflexivity|]. done.
  - done.
  - intros d c n Hd _. eexists _, d. split; [reflexivity|]. done.
  - intros d [Hp Ho]. exists (next d). eexists _, [], _, _. split; [reflexivity|]. split; [reflexivity|].
    cbn [exec sim_device simExec sessions assoc]. rewrite decide_True by done. reflexivity.
  - intros d password c blob secret Hd [-> ->] (h & d1 & nonce & s2 & d3 & _ & Hr & _). exists d. split; [|exact Hd].
    unfold Attest.run_ekPolicy in Hr. apply map_errS_Ok_inv in Hr. rewrite Execute_unfold in Hr.
    cbn [exec sim_device simExec] in Hr. destruct Hd as [_ Ho]. cbn [exec sim_device simExec HandleValue]. rewrite Ho.
    change (assoc _ akHandle) with (Some (@nil byte, ak)). change (assoc _ Templates.EKECCHandle) with (Some (@nil byte, ek)).
    cbv iota. rewrite decide_True by done. cbn [mayUse]. rewrite bool_decide_true; [done|].
    destruct (decide (password = [])); [done|]. by injection Hr.
Defined.

Lemma Make_ActivateCredential_witness : ∃ secret blob s1 s3,
  Attest.MakeCredential Templates.EKECCHandle (Codec.marshal ak) (str "challenge") stAttest = (Ok (secret, blob), s1) ∧
  Attest.ActivateCredential objectName akHandle Templates.EKECCHandle [] secret blob s1 = (Ok (str "challenge"), s3).
Proof.
  destruct (AttestSpec.Make_ActivateCredential objectName attInv Templates.EKECCHandle akHandle ek ak (Codec.marshal ek)
    (Codec.marshal ak) [] (str "challenge") stAttest sim_credentials (conj eq_refl eq_refl))
    as (secret & blob & s1 & Hm & Hi1 & Ha).
  - cbn. lia.
  - destruct (Ha s1 Hi1) as (s3 & Hact & _). exists secret, blob, s1, s3. split; [exact Hm|exact Hact].
Defined.

End Witnesses.
